(* ===== verification/_CoqProject ===== *)
-Q . S2P
Prelude.v
Float.v
FloatTheory.v
Clock.v
Types.v
Status.v
Protocol.v
Sequence.v
FaultLatch.v
Transport.v
Sockets.v
XmlConfig.v
XmlDocument.v
Discovery.v
ClientState.v
ClientSession.v
ClientRun.v
Scripted.v
ClientSteps.v
ClientWire.v
ClientPolicy.v
ClientLiveness.v
ClientStorm.v
ClientRecord.v
ClientBackoff.v
ClientTotal.v
UdpPosix.v
UdpWindows.v
Lifecycle.v
LifecycleSafety.v
LifecycleFrame.v
LifecycleHealth.v
LifecycleStop.v
LifecycleLifetime.v
LifecycleWaits.v
LifecycleFirst.v
LifecycleProgress.v
LifecycleRuns.v
DeferredDestroyer.v
