(* ===== verification/Prelude.v ===== *)
(** * A verification development for netft-cpp

    netft-cpp is a client for ATI Net F/T force/torque sensors: it reads the
    sensor's calibration over HTTP, asks it over UDP for a stream of records (the
    RDT protocol), checks and scales every record, hands samples to a callback,
    and keeps counters and a health state.  This development models the sources
    under src/src and src/include/netft and proves what the parts promise and
    what they achieve together.

    ** The parts, and where they are

    - Prelude: exceptions and results, machine integers, record update,
      automation.
    - Float, FloatTheory: IEEE arithmetic on [spec_float] for the binary formats
      of [double] and [long double]; [Platform] (in Float) is what the
      platform chooses: the format of [long double] and the range of [long].
      FloatTheory relates the operations to exact rationals.
    - Clock (detail/time.hpp): [checked_duration], [checked_deadline] and the
      conversions between [double] seconds and 64-bit nanoseconds.
    - Types (types.hpp, types.cpp): the public enumerations and structures,
      [validate], the unit names.  Status (status.cpp): severity and text of the
      device status.
    - Protocol (detail/protocol.cpp): requests and records as bytes.
    - Sequence (detail/sequence.cpp): the two sequence trackers on wrapping
      32-bit numbers.
    - FaultLatch (detail/fault_latch.cpp): the first fault is kept.
    - Transport (detail/udp_transport.hpp): the operations of [UdpTransport] the
      client uses, as a type class [TransportOps], with the promises
      [TransportLaws] and [TransportErrors].  The client is proved against them.
      Sockets has what the two implementations share; UdpPosix
      (detail/udp_transport_posix.cpp) and UdpWindows
      (detail/udp_transport_windows.cpp) model each method with the system calls
      it makes and discharge the promises.
    - XmlConfig (detail/xml_config.cpp): the scanner of the sensor's configuration
      document; XmlDocument: a specification of well-formed documents as trees,
      which the scanner refines.  Discovery (discovery.cpp): the HTTP request, its
      response buffer, its outcome.
    - ClientState, ClientSession, ClientRun (detail/client_impl.cpp, .hpp): the
      members of [Client::Impl] as the record [Impl]; [receive_session] and
      [handle_record] as programs of a state and error monad; [run], [start],
      [stop], [bias], [health], [wait_for_first_sample] section by section.
    - Lifecycle (client_impl.cpp, client_impl.hpp, client.cpp): any number of
      threads that start, stop, wait, bias and destroy a client, its worker
      among them, as one step relation with the locks, both condition variables
      and thread creation and joining.  DeferredDestroyer (client.cpp): the queue
      and thread that reclaim a client whose callback destroyed it.
    - Scripted, and the end of most files: concrete transports, environments and
      runs on which the definitions are evaluated.

    ** How concurrency is modelled

    A critical section is one function of the state, because the code touches
    the members it shares only under the locks; an atomic flag read between
    sections is a section of its own.  In the session model (ClientSession,
    ClientRun) the worker's program is executed, and before each of its sections,
    atomic reads and calls [interleave] runs the actions that the environment
    [others] lists for that moment: raising the stop flag, ending the session in
    [stop], [bias], [health].  Theorems quantify over every environment.  In
    Lifecycle the threads themselves step, and [others_are_actions] shows that
    while a worker runs, whatever the other threads do is such a list of actions,
    so that the two models compose.  ClientSteps turns the executed program into
    the relations [session_move] and [loop_move], which are the worker's steps in
    Lifecycle.  There, testing the predicate of a wait, sleeping and being woken
    are three transitions, so a notification that comes in between is lost, as in
    the real library.

    Answers of the outside are arguments: [Env] gives the clock, the network, the
    callback and discovery for each moment, [PosixAnswer] and its Windows
    counterpart the operating system, [CurlAnswer] libcurl, [FenvAnswer] the
    floating-point environment.  Calls that block return; [poll] is interrupted
    finitely often.

    ** Fuel

    Recursion that follows a loop of the code takes fuel and returns [None] when
    it is used up.  [run_exits_after_stop] shows that [N + 2] suffices for [run]
    when some thread stops at moment [N], and that the worker exits no more than
    [stop_steps] (23) of its steps later; [session_ends_without_records] bounds a
    session that gets no records by what its count of consecutive malformed
    datagrams leaves to the storm threshold, at most eleven iterations;
    [parse_sensor_configuration] chooses its own fuel from the length of the document and
    [parse_sensor_configuration_safe] shows that it never runs out.

    ** What is proved

    - Lifecycle*: the worker thread is owned as a machine of four modes says
      (LifecycleSafety); what holds when [stop] returns and what other threads do
      to a running worker (LifecycleStop); freed storage is never touched
      (LifecycleLifetime); waits for a joiner are always woken (LifecycleWaits);
      [wait_for_first_sample] misses no delivery and no fault, and its answer is
      right (LifecycleFirst); the threads do not deadlock (LifecycleProgress);
      two other notifications can be lost, with a run that loses each
      (LifecycleRuns); the fault latch and the stored health snapshot agree at
      every point, and a published fault stays until a [start] succeeds
      (LifecycleHealth); the deferred destroyer loses nothing.  LifecycleFrame
      has what one transition changes.
    - ClientWire: the order of requests on the wire, and silence after [stop].
      ClientPolicy: what the recovery policies do with the outcome of a session.
      ClientLiveness, ClientStorm: the worker exits within a bounded number of
      its steps after [stop], and a session without records ends.  ClientRecord: the verdict on
      a record, the counters, the finiteness of samples, revisions, [start]'s
      guarantee.  ClientBackoff: the reconnect delays are exact.  ClientTotal:
      all parts together, under Reconnect a client never gives up.
    - Sequence: both trackers refine unbounded sequence numbers.  Protocol,
      Status: encodings round trip.  Types, Clock: exactly which configurations
      validate, and that deadlines never overflow.
    - XmlDocument, XmlConfig, Discovery: the scanner reads every well-formed
      document as its tree says, any bytes give a configuration or a
      [DiscoveryError] with any C++ library, with libstdc++ numerals are read as
      the nearest [double] in every rounding mode of the caller, and what a
      discovered configuration says of the request.
    - UdpPosix, UdpWindows: descriptors are neither leaked nor used after they
      are closed, waits are bounded, a shutdown ends a wait.

    ** Not modelled, and why

    - The hooks that only the tests set (thread creation, published faults, woken
      waits, system calls): they are null in the library.
    - [std::terminate]: a failure to restore the floating-point environment and
      errors while locking a mutex do not occur.
    - libcurl, the operating system and the C++ runtime: parameters, by their
      documented behaviour.  The stream extraction of a [double] is the class
      [NumericInput] (XmlConfig), since the C++ libraries differ in it: libc++ and
      Microsoft's also read hexadecimal numerals, and libc++ rejects subnormal
      ones.  Only libstdc++'s is spelled out ([libstdcxx], the decimal grammar and
      a conversion that follows the rounding mode), and only [count_numerals] and
      the witnesses are about it.
    - The instant in [start] between the release of the data lock and
      [stopping_ = false]: one step in [start_section] (ClientRun).
    - export.hpp and the build files: declarations for the compiler and linker.
    - Allocation failure. *)

From Stdlib Require Export Ascii.
From stdpp Require Export base tactics list strings option numbers pretty.
From Stdlib Require Export ZArith Lia.

#[global] Open Scope Z_scope.

(** ** Exceptions and results

    The C++ code reports failures by throwing.  Every exception class the
    sources declare or throw is a constructor; [what] is the message. *)

Inductive exn :=
| InvalidArgument (what : string)
| LogicError (what : string)
| RuntimeError (what : string)
| ProtocolError (what : string)
| DiscoveryError (what : string)
| NotConnectedError (what : string)
| StdException (what : string)
| UnknownException.

#[export] Instance exn_eq_dec : EqDecision exn.
Proof. solve_decision. Defined.

(** The message [std::exception::what] returns; a value that is not a
    [std::exception] has none. *)
Definition exn_what (e : exn) : option string :=
  match e with
  | InvalidArgument w | LogicError w | RuntimeError w | ProtocolError w
  | DiscoveryError w | NotConnectedError w | StdException w => Some w
  | UnknownException => None
  end.

Inductive result (A : Type) :=
| Ok (a : A)
| Throw (e : exn).
Arguments Ok {A} a.
Arguments Throw {A} e.

#[export] Instance result_ret : MRet result := fun A a => Ok a.
#[export] Instance result_bind : MBind result := fun A B k m =>
  match m with Ok a => k a | Throw e => Throw e end.

(** [if (c) throw e;] *)
Definition throw_if (c : bool) (e : exn) : result unit :=
  if c then Throw e else Ok tt.

Definition is_ok {A} (r : result A) : bool :=
  match r with Ok _ => true | Throw _ => false end.

(** [std::to_string] on an integer. *)
Definition to_string (z : Z) : string := pretty z.

(** ** Machine integers

    An unsigned [w]-bit integer is its value in [0, 2^w); arithmetic wraps. *)

Definition wrap (w z : Z) : Z := z mod 2 ^ w.
Abbreviation u8 := (wrap 8).
Abbreviation u16 := (wrap 16).
Abbreviation u32 := (wrap 32).
Abbreviation u64 := (wrap 64).

Definition in_width (w z : Z) : Prop := 0 <= z < 2 ^ w.
Definition int32_min : Z := - 2 ^ 31.
Definition int32_max : Z := 2 ^ 31 - 1.
Definition int64_max : Z := 2 ^ 63 - 1.
Definition in_int32 (z : Z) : Prop := int32_min <= z <= int32_max.

(** ** Record update

    [r <| f := v |>] is [r] with field [f] set to [v].  A record opts in by
    listing its fields once in an [Eta] instance. *)

Class Eta (R : Type) := eta : R -> R.
Class Setter {R T : Type} (proj : R -> T) := set_field : T -> R -> R.

Ltac build_setter proj :=
  match type of proj with
  | ?R -> ?T =>
      let i := constr:(_ : Eta R) in
      let i' := eval red in i in
      exact (fun (v : T) (r : R) =>
        ltac:(let t := eval cbv beta in (i' r) in
              lazymatch t with context [proj r] => idtac end;
              match eval pattern (proj r) in t with
              | ?g _ => let b := eval cbv beta in (g v) in exact b
              end))
  end.

#[export] Hint Extern 1 (Setter ?proj) => build_setter proj : typeclass_instances.

#[warnings="-postfix-notation-not-level-1"]
Notation "r <| f := v |>" := (set_field (proj := f) v r)
  (at level 12, left associativity, f at level 0, format "r  <| f  :=  v |>").

(** ** Tactics *)

(** Split the [match]/[if] scrutinees of the goal and of the hypotheses. *)
Ltac case_match_goal :=
  match goal with
  | |- context [match ?x with _ => _ end] => destruct x eqn:?
  end.

(** Turn boolean tests in the context into propositions. *)
Ltac bool_to_prop :=
  repeat match goal with
  | H : (_ && _)%bool = true |- _ => apply andb_true_iff in H as [? ?]
  | H : (_ || _)%bool = false |- _ => apply orb_false_iff in H as [? ?]
  | H : negb _ = true |- _ => apply negb_true_iff in H
  | H : negb _ = false |- _ => apply negb_false_iff in H
  | H : (_ =? _) = true |- _ => apply Z.eqb_eq in H
  | H : (_ =? _) = false |- _ => apply Z.eqb_neq in H
  | H : (_ <? _) = true |- _ => apply Z.ltb_lt in H
  | H : (_ <? _) = false |- _ => apply Z.ltb_ge in H
  | H : (_ <=? _) = true |- _ => apply Z.leb_le in H
  | H : (_ <=? _) = false |- _ => apply Z.leb_gt in H
  end.

(** Closed range facts, by evaluation. *)
Ltac eval_range := vm_compute; intuition discriminate.
Ltac eval_ranges := repeat (apply Forall_cons_2; [eval_range|]); apply Forall_nil_2.

(** ** Generic lemmas *)

Lemma wrap_range w z : 0 <= w -> in_width w (wrap w z).
Proof. intros Hw. apply Z.mod_pos_bound. lia. Qed.

Lemma wrap_small w z : in_width w z -> wrap w z = z.
Proof. apply Z.mod_small. Qed.

Lemma wrap_wrap w z : 0 <= w -> wrap w (wrap w z) = wrap w z.
Proof. intros Hw. apply wrap_small, wrap_range, Hw. Qed.

Lemma pow2_pos n : 0 <= n -> 0 < 2 ^ n.
Proof. intros. apply Z.pow_pos_nonneg; lia. Qed.

Lemma pow2_le a b : a <= b -> 2 ^ a <= 2 ^ b.
Proof. intros. apply Z.pow_le_mono_r; lia. Qed.

Lemma pow2_split a b : 0 <= a -> 0 <= b -> 2 ^ (a + b) = 2 ^ a * 2 ^ b.
Proof. intros. apply Z.pow_add_r; lia. Qed.

Lemma pow2_pred n : 0 < n -> 2 ^ n = 2 * 2 ^ (n - 1).
Proof. intros. rewrite <- (pow2_split 1) by lia. f_equal. lia. Qed.

Lemma app_string_assoc (a b c : string) : (a +:+ b) +:+ c = a +:+ (b +:+ c).
Proof. induction a as [|? ? IH]; [done|]. exact (f_equal (String _) IH). Qed.

Lemma app_string_nil (a : string) : a +:+ ""%string = a.
Proof. induction a as [|? ? IH]; [done|]. exact (f_equal (String _) IH). Qed.

Lemma bind_ok {A B} (m : result A) (k : A -> result B) b :
  (x ← m; k x) = Ok b <-> exists a, m = Ok a /\ k a = Ok b.
Proof.
  destruct m as [a|e]; simpl; split; [eauto| |discriminate|]; intros (a' & E & H); by inv E.
Qed.

Lemma throw_if_ok c e u : throw_if c e = Ok u <-> c = false.
Proof. destruct c, u; simpl; split; done. Qed.

(** Positivity of products and powers of two. *)
Ltac zpos :=
  solve [ repeat first [ apply Z.mul_pos_pos | apply Z.mul_nonneg_nonneg
                       | apply pow2_pos | apply Z.pow_nonneg ]; lia ].

Create HintDb netft.
#[export] Hint Resolve wrap_range pow2_pos : netft.
