(* ===== verification/Float.v ===== *)
(** * IEEE-754 arithmetic

    The C++ types [double] and [long double] with the operations the sources
    use, computed by Corelib's [SpecFloat] (round to nearest, ties to even),
    and the theory that relates them to exact integer arithmetic: every valid
    finite number of a format is an integer multiple of [2 ^ emin], so values,
    comparisons and rounding are stated on Z. *)

From Stdlib Require Export SpecFloat.
From S2P Require Export Prelude.

(** ** Formats and platforms *)

Record format := Format { prec : Z; emax : Z }.

Definition binary64 : format := Format 53 1024.
Definition x87_extended : format := Format 64 16384.
Definition binary128 : format := Format 113 16384.

Class wf_format (f : format) : Prop := {
  wf_prec : 1 < prec f;
  wf_emax : prec f < emax f;
}.

#[export] Instance binary64_wf : wf_format binary64.
Proof. split; reflexivity. Qed.
#[export] Instance x87_extended_wf : wf_format x87_extended.
Proof. split; reflexivity. Qed.
#[export] Instance binary128_wf : wf_format binary128.
Proof. split; reflexivity. Qed.

(** What the sources leave to the target: the format of [long double] and the
    width of [long].  [double] is binary64 and [int] has 32 bits on all. *)
Class Platform := {
  long_double : format;
  long_bits : Z;
}.

Definition long_max `{Platform} : Z := 2 ^ (long_bits - 1) - 1.

(** A [double] is at least as narrow as a [long double]. *)
Class PlatformLaws (P : Platform) : Prop := {
  long_double_wf :: wf_format long_double;
  long_double_prec : 53 <= prec long_double;
  long_double_emax : 1024 <= emax long_double;
  long_bits_range : 32 <= long_bits <= 64;
}.

(** The four targets the README lists as tested. *)
Definition linux_x86_64 : Platform :=
  {| long_double := x87_extended; long_bits := 64 |}.
Definition linux_aarch64 : Platform :=
  {| long_double := binary128; long_bits := 64 |}.
Definition macos_arm64 : Platform :=
  {| long_double := binary64; long_bits := 64 |}.
Definition windows_x64 : Platform :=
  {| long_double := binary64; long_bits := 32 |}.

#[export] Instance linux_x86_64_laws : PlatformLaws linux_x86_64.
Proof. split; simpl; [typeclasses eauto | lia ..]. Qed.
#[export] Instance linux_aarch64_laws : PlatformLaws linux_aarch64.
Proof. split; simpl; [typeclasses eauto | lia ..]. Qed.
#[export] Instance macos_arm64_laws : PlatformLaws macos_arm64.
Proof. split; simpl; [typeclasses eauto | lia ..]. Qed.
#[export] Instance windows_x64_laws : PlatformLaws windows_x64.
Proof. split; simpl; [typeclasses eauto | lia ..]. Qed.

(** ** Operations *)

Abbreviation float := spec_float.

Definition fmin (f : format) : Z := emin (prec f) (emax f).
Definition valid (f : format) (x : float) : bool := valid_binary (prec f) (emax f) x.

Definition fmul (f : format) : float -> float -> float := SFmul (prec f) (emax f).
Definition fdiv (f : format) : float -> float -> float := SFdiv (prec f) (emax f).
Definition fadd (f : format) : float -> float -> float := SFadd (prec f) (emax f).
Definition fneg : float -> float := SFopp.
Definition flt : float -> float -> bool := SFltb.
Definition fle : float -> float -> bool := SFleb.
Definition feq : float -> float -> bool := SFeqb.

(** [static_cast] of an integer to a floating-point type. *)
Definition of_Z (f : format) (z : Z) : float := binary_normalize (prec f) (emax f) z 0 false.

(** [static_cast] between floating-point types. *)
Definition convert (f : format) (x : float) : float :=
  match x with
  | S754_finite s m e => binary_round (prec f) (emax f) s m e
  | _ => x
  end.

(** [std::isfinite] *)
Definition is_finite (x : float) : bool :=
  match x with
  | S754_finite _ _ _ | S754_zero _ => true
  | _ => false
  end.

(** [static_cast] of a finite float to an integer type: toward zero.  The
    result is the mathematical integer; whether it fits the target type is a
    question the theorems answer. *)
Definition trunc (x : float) : Z :=
  match x with
  | S754_finite s m e =>
      let a := if 0 <=? e then Zpos m * 2 ^ e else Zpos m / 2 ^ (- e) in
      if s then - a else a
  | _ => 0
  end.

(** [std::ceil] *)
Definition ceil (f : format) (x : float) : float :=
  match x with
  | S754_finite s m e =>
      if 0 <=? e then x
      else
        let c := - ((if s then Zpos m else Zneg m) / 2 ^ (- e)) in
        if c =? 0 then S754_zero s else of_Z f c
  | _ => x
  end.

(** [std::numeric_limits<T>::max()] and [epsilon()] *)
Definition fmax (f : format) : float :=
  S754_finite false (Z.to_pos (2 ^ prec f - 1)) (emax f - prec f).
Definition epsilon (f : format) : float := binary_round (prec f) (emax f) false 1 (1 - prec f).

(** Decimal literals that occur in the sources are written as exact fractions
    [n/d] rounded to nearest, as the compiler does. *)
Definition of_frac (f : format) (n d : Z) : float :=
  if n =? 0 then S754_zero false
  else
    let '(q, e, l) := SFdiv_core_binary (prec f) (emax f) (Z.abs n) 0 d 0 in
    binary_round_aux (prec f) (emax f) (n <? 0) q e l.

Abbreviation dbl := (of_Z binary64).
