(* ===== verification/FloatTheory.v ===== *)
(** * Correctness of the IEEE-754 operations

    Rounding to nearest even is specified on exact fractions ([rne], [round]),
    the [SpecFloat] algorithms are shown to compute it, and comparison is shown
    to be comparison of values.  A positive finite number of format [f] has
    the integer value [mag f x], in units of [2 ^ fmin f]. *)

From S2P Require Export Float.

(** ** Rounding a fraction to an integer, ties to even *)

Definition rne (n d : Z) : Z :=
  let q := n / d in
  match 2 * (n mod d) ?= d with
  | Lt => q
  | Eq => if Z.even q then q else q + 1
  | Gt => q + 1
  end.

Lemma rne_bounds n d : 0 < d -> n / d <= rne n d <= n / d + 1.
Proof. intros Hd. unfold rne. destruct (_ ?= _); [destruct (Z.even _)| |]; lia. Qed.

Lemma rne_nonneg n d : 0 <= n -> 0 < d -> 0 <= rne n d.
Proof. intros Hn Hd. pose proof (rne_bounds n d Hd). pose proof (Z.div_pos n d Hn Hd). lia. Qed.

Lemma rne_exact q d : 0 < d -> rne (q * d) d = q.
Proof.
  intros Hd. unfold rne. rewrite Z.div_mul, Z.mod_mul by lia.
  destruct (Z.compare_spec (2 * 0) d); lia.
Qed.

Lemma rne_scale n d c : 0 < c -> 0 < d -> rne (n * c) (d * c) = rne n d.
Proof.
  intros Hc Hd. unfold rne.
  rewrite Z.div_mul_cancel_r, Z.mul_mod_distr_r by lia.
  replace (2 * (n mod d * c) ?= d * c) with (2 * (n mod d) ?= d); [done|].
  rewrite Z.mul_assoc, (Z.mul_comm _ c), (Z.mul_comm d c), <- Zmult_compare_compat_l by lia. done.
Qed.

Lemma rne_mono n1 d1 n2 d2 :
  0 < d1 -> 0 < d2 -> n1 * d2 <= n2 * d1 -> rne n1 d1 <= rne n2 d2.
Proof.
  intros H1 H2 H.
  rewrite <- (rne_scale n1 d1 d2), <- (rne_scale n2 d2 d1), (Z.mul_comm d2 d1) by lia.
  set (d := d1 * d2). assert (0 < d) by (unfold d; nia).
  generalize dependent (n1 * d2). generalize dependent (n2 * d1). intros b a Hab.
  unfold rne. pose proof (Z.div_mod a d ltac:(lia)). pose proof (Z.div_mod b d ltac:(lia)).
  pose proof (Z.mod_pos_bound a d ltac:(lia)). pose proof (Z.mod_pos_bound b d ltac:(lia)).
  pose proof (Z.div_le_mono a b d ltac:(lia) Hab).
  destruct (Z.eq_dec (a / d) (b / d)) as [E|E].
  - rewrite E in *. assert (a mod d <= b mod d) by lia.
    destruct (Z.compare_spec (2 * (a mod d)) d), (Z.compare_spec (2 * (b mod d)) d);
      try destruct (Z.even _); lia.
  - destruct (_ ?= _), (_ ?= _); repeat destruct (Z.even _); lia.
Qed.

(** ** Binary digits *)

Lemma digits2_pos_log2 p : Z.pos (digits2_pos p) = Z.log2 (Z.pos p) + 1.
Proof.
  induction p as [p IH|p IH|]; cbn [digits2_pos]; rewrite ?Pos2Z.inj_succ, ?IH; [| |done].
  - rewrite Pos2Z.inj_xI, Z.log2_succ_double; lia.
  - rewrite Pos2Z.inj_xO, Z.log2_double; lia.
Qed.

Lemma Zdigits2_0 : Zdigits2 0 = 0.
Proof. done. Qed.

Lemma Zdigits2_pos n : 0 < n -> Zdigits2 n = Z.log2 n + 1.
Proof. destruct n; simpl; try lia. intros _. apply digits2_pos_log2. Qed.

Lemma Zdigits2_nonneg n : 0 <= n -> 0 <= Zdigits2 n.
Proof. destruct n; simpl; lia. Qed.

Lemma Zdigits2_spec n : 0 < n -> 2 ^ (Zdigits2 n - 1) <= n < 2 ^ Zdigits2 n.
Proof.
  intros Hn. rewrite Zdigits2_pos by lia.
  replace (Z.log2 n + 1 - 1) with (Z.log2 n) by lia.
  apply Z.log2_spec in Hn as ?. lia.
Qed.

Lemma Zdigits2_upper n k : 0 <= n -> 0 <= k -> n < 2 ^ k -> Zdigits2 n <= k.
Proof.
  intros Hn Hk H. destruct (Z.eq_dec n 0) as [->|]; [done|].
  rewrite Zdigits2_pos by lia. apply Z.log2_lt_pow2 in H; lia.
Qed.

Lemma Zdigits2_lower n k : 0 <= k -> 2 ^ k <= n -> k < Zdigits2 n.
Proof.
  intros Hk H. pose proof (pow2_pos k Hk).
  rewrite Zdigits2_pos by lia. apply Z.log2_le_pow2 in H; lia.
Qed.

Lemma Zdigits2_bound n : 0 <= n -> n < 2 ^ Zdigits2 n.
Proof. intros. destruct (Z.eq_dec n 0) as [->|]; [done|]. apply Zdigits2_spec. lia. Qed.

Lemma Zdigits2_mono a b : 0 <= a <= b -> Zdigits2 a <= Zdigits2 b.
Proof.
  intros. apply Zdigits2_upper; [lia|apply Zdigits2_nonneg; lia|].
  pose proof (Zdigits2_bound b). lia.
Qed.

Lemma Zdigits2_mul_pow2 n k : 0 < n -> 0 <= k -> Zdigits2 (n * 2 ^ k) = Zdigits2 n + k.
Proof.
  intros. pose proof (pow2_pos k). rewrite !Zdigits2_pos by nia.
  rewrite Z.log2_mul_pow2; lia.
Qed.

Lemma Zdigits2_div_pow2 n k : 0 <= n -> 0 <= k ->
  Zdigits2 (n / 2 ^ k) = Z.max 0 (Zdigits2 n - k).
Proof.
  intros Hn Hk. destruct (Z.eq_dec n 0) as [->|Hn0].
  { rewrite Z.div_0_l by (pose proof (pow2_pos k); lia). simpl. lia. }
  pose proof (Zdigits2_spec n ltac:(lia)) as [Hlo Hhi]. pose proof (pow2_pos k Hk) as Hp.
  destruct (Z.le_gt_cases (Zdigits2 n) k) as [Hc|Hc].
  - rewrite Z.div_small; [simpl; lia|]. pose proof (pow2_le _ _ Hc). lia.
  - rewrite <- Z.shiftr_div_pow2 by lia.
    assert (0 < Z.shiftr n k) as H0.
    { rewrite Z.shiftr_div_pow2 by lia. apply Z.div_str_pos.
      pose proof (pow2_le k (Zdigits2 n - 1)). lia. }
    rewrite (Zdigits2_pos n) in Hc |- * by lia.
    rewrite Zdigits2_pos, Z.log2_shiftr by lia. lia.
Qed.

(** ** Rounding to [p] significant digits

    [round p n d] is the fraction [n/d] rounded to the nearest integer that
    has at most [p] significant binary digits, ties to even. *)

Definition round_shift (p n d : Z) : Z := Z.max 0 (Zdigits2 (n / d) - p).
Definition round (p n d : Z) : Z :=
  let k := round_shift p n d in rne n (d * 2 ^ k) * 2 ^ k.

Section round.
  Context (p : Z) (Hp : 1 < p).

Lemma round_quotient_lt n d : 0 <= n -> 0 < d ->
  n < 2 ^ p * (d * 2 ^ round_shift p n d).
Proof.
  intros Hn Hd. set (k := round_shift p n d).
  assert (0 <= k) by (unfold k, round_shift; lia).
  assert (n / d < 2 ^ (p + k)) as Hq.
  { eapply Z.lt_le_trans; [apply Zdigits2_bound, Z.div_pos; lia|].
    apply pow2_le. unfold k, round_shift. lia. }
  rewrite pow2_split in Hq by lia.
  pose proof (Z.div_mod n d ltac:(lia)). pose proof (Z.mod_pos_bound n d Hd). nia.
Qed.

Lemma round_rne_le n d : 0 <= n -> 0 < d -> rne n (d * 2 ^ round_shift p n d) <= 2 ^ p.
Proof.
  intros Hn Hd. pose proof (pow2_pos (round_shift p n d)) as Hk.
  assert (0 <= round_shift p n d) as Hk0 by (unfold round_shift; lia). specialize (Hk Hk0).
  rewrite <- (rne_exact (2 ^ p) 1) by lia.
  pose proof (round_quotient_lt n d Hn Hd). apply rne_mono; nia.
Qed.

Lemma round_mono n1 d1 n2 d2 :
  0 <= n1 -> 0 <= n2 -> 0 < d1 -> 0 < d2 -> n1 * d2 <= n2 * d1 ->
  round p n1 d1 <= round p n2 d2.
Proof.
  intros Hn1 Hn2 Hd1 Hd2 H. unfold round.
  assert (n1 / d1 <= n2 / d2) as Hq.
  { apply Z.div_le_lower_bound; [lia|]. pose proof (Z.mul_div_le n1 d1 Hd1). nia. }
  assert (round_shift p n1 d1 <= round_shift p n2 d2) as Hk.
  { unfold round_shift. pose proof (Z.div_pos n1 d1 Hn1 Hd1).
    pose proof (Zdigits2_mono (n1 / d1) (n2 / d2)). lia. }
  assert (0 <= round_shift p n1 d1) as Hk0 by (unfold round_shift; lia).
  pose proof (round_rne_le n1 d1 Hn1 Hd1) as Hr.
  pose proof (pow2_pos _ Hk0) as Hk1.
  set (k1 := round_shift p n1 d1) in *. set (k2 := round_shift p n2 d2) in *.
  pose proof (pow2_pos k2 ltac:(lia)) as Hk2.
  destruct (Z.eq_dec k1 k2) as [E|E].
  - rewrite <- E in *. apply Z.mul_le_mono_nonneg_r; [lia|]. apply rne_mono; nia.
  - assert (Zdigits2 (n2 / d2) = p + k2) as Hdig.
    { unfold k2, round_shift in *. lia. }
    assert (2 ^ (p - 1) <= rne n2 (d2 * 2 ^ k2)) as Hlow.
    { rewrite <- (rne_exact (2 ^ (p - 1)) 1) at 1 by lia. apply rne_mono; [lia|nia|].
      pose proof (Z.div_pos n2 d2 Hn2 Hd2).
      assert (n2 / d2 <> 0) by (intros Ez; rewrite Ez in Hdig; simpl in Hdig; lia).
      pose proof (Zdigits2_spec (n2 / d2) ltac:(lia)) as [Hs _]. rewrite Hdig in Hs.
      replace (p + k2 - 1) with ((p - 1) + k2) in Hs by lia. rewrite pow2_split in Hs by lia.
      pose proof (Z.mul_div_le n2 d2 Hd2). nia. }
    assert (2 ^ p * 2 ^ k1 <= 2 ^ (p - 1) * 2 ^ k2).
    { rewrite <- !pow2_split by lia. apply pow2_le. lia. }
    nia.
Qed.

Lemma round_proper n1 d1 n2 d2 :
  0 <= n1 -> 0 <= n2 -> 0 < d1 -> 0 < d2 -> n1 * d2 = n2 * d1 ->
  round p n1 d1 = round p n2 d2.
Proof. intros. apply Z.le_antisymm; apply round_mono; lia. Qed.

Lemma round_nonneg n d : 0 <= n -> 0 < d -> 0 <= round p n d.
Proof.
  intros. unfold round. assert (0 <= round_shift p n d) by (unfold round_shift; lia).
  pose proof (pow2_pos (round_shift p n d)).
  pose proof (rne_nonneg n (d * 2 ^ round_shift p n d)). nia.
Qed.

(** An integer with at most [p] digits, times a power of two, is its own
    rounding. *)
Lemma round_exact m k : 0 <= m < 2 ^ p -> 0 <= k -> round p (m * 2 ^ k) 1 = m * 2 ^ k.
Proof.
  intros Hm Hk. destruct (Z.eq_dec m 0) as [->|].
  { unfold round, round_shift. rewrite Z.mul_0_l, Z.div_1_r, Zdigits2_0.
    replace (Z.max 0 (0 - p)) with 0 by lia. done. }
  unfold round, round_shift. rewrite Z.div_1_r, Zdigits2_mul_pow2 by lia.
  pose proof (Zdigits2_upper m p ltac:(lia) ltac:(lia) ltac:(lia)).
  set (j := Z.max 0 (Zdigits2 m + k - p)). assert (0 <= j <= k) by lia.
  replace k with ((k - j) + j) by lia. rewrite pow2_split, Z.mul_assoc, Z.mul_1_l by lia.
  rewrite rne_exact; [done|]. apply pow2_pos. lia.
Qed.

End round.

(** ** Locations

    [loc n d] is the position of the fraction [n/d] above its floor, the way
    [SpecFloat] encodes it. *)

Definition loc (n d : Z) : location :=
  if n mod d =? 0 then loc_Exact else loc_Inexact (2 * (n mod d) ?= d).

Lemma new_location_loc n d : 0 <= n -> 0 < d -> new_location d (n mod d) = loc n d.
Proof.
  intros Hn Hd. unfold new_location, new_location_even, new_location_odd, loc.
  destruct (Z.even d) eqn:He; destruct (_ =? 0) eqn:E; try done.
  assert (2 * (n mod d) <> d).
  { intros Hc. rewrite <- Hc, Z.even_mul in He. done. }
  f_equal. destruct (Z.compare_spec (2 * (n mod d)) d), (Z.compare_spec (2 * (n mod d) + 1) d);
    lia || done.
Qed.

(** The shift register after [SpecFloat] has moved [n/d] right. *)
Definition register (n d : Z) : shr_record := shr_record_of_loc (n / d) (loc n d).

Lemma shr_1_spec m r s : 0 <= m ->
  shr_1 (Build_shr_record m r s) = Build_shr_record (m / 2) (Z.odd m) (r || s).
Proof.
  intros Hm. rewrite <- Z.div2_div. destruct m as [|[p|p|]|p]; simpl; try lia; done.
Qed.

Lemma register_loc m b r : 0 <= r ->
  shr_record_of_loc m (if (r =? 0) then loc_Exact else loc_Inexact b) =
  Build_shr_record m (negb (r =? 0) && negb (bool_decide (b = Lt)))
    (negb (r =? 0) && negb (bool_decide (b = Eq))).
Proof. intros Hr. destruct (r =? 0); [done|]. destruct b; done. Qed.

Lemma register_step n d : 0 <= n -> 0 < d -> shr_1 (register n d) = register n (d * 2).
Proof.
  intros Hn Hd. unfold register, loc.
  pose proof (Z.div_pos n d Hn Hd) as Hm. pose proof (Z.mod_pos_bound n d Hd) as Hb.
  rewrite <- Z.div_div, Z.rem_mul_r by lia.
  rewrite Zmod_odd. generalize dependent (n / d). intros m Hm.
  generalize dependent (n mod d). intros r Hr.
  rewrite !register_loc, shr_1_spec by (destruct (Z.odd m); lia).
  destruct (Z.odd m) eqn:Ho.
  - replace (r + d * 1 =? 0) with false by lia.
    destruct (Z.eqb_spec r 0) as [->|].
    + replace (2 * (0 + d * 1) ?= d * 2) with Eq by (symmetry; apply Z.compare_eq_iff; lia). done.
    + replace (2 * (r + d * 1) ?= d * 2) with Gt by (symmetry; apply Z.compare_gt_iff; lia).
      destruct (2 * r ?= d); done.
  - rewrite Z.mul_0_r, Z.add_0_r. destruct (Z.eqb_spec r 0) as [->|]; [done|].
    replace (2 * r ?= d * 2) with Lt by (symmetry; apply Z.compare_lt_iff; lia).
    destruct (2 * r ?= d); done.
Qed.

Lemma pow2_xO p : 2 ^ Zpos p~0 = 2 ^ Zpos p * 2 ^ Zpos p.
Proof. rewrite <- pow2_split by lia. f_equal. lia. Qed.

Lemma pow2_xI p : 2 ^ Zpos p~1 = 2 * (2 ^ Zpos p * 2 ^ Zpos p).
Proof.
  change 2 with (2 ^ 1) at 2. rewrite <- !pow2_split by lia. f_equal. lia.
Qed.

Lemma register_iter p : forall n d, 0 <= n -> 0 < d ->
  SpecFloat.iter_pos shr_1 p (register n d) = register n (d * 2 ^ Zpos p).
Proof.
  induction p as [p IH|p IH|]; intros n d Hn Hd; cbn [SpecFloat.iter_pos].
  - rewrite register_step, !IH by (auto; pose proof (pow2_pos (Zpos p)); nia).
    rewrite pow2_xI. apply f_equal. lia.
  - rewrite !IH by (auto; pose proof (pow2_pos (Zpos p)); nia).
    rewrite pow2_xO. apply f_equal. lia.
  - rewrite register_step by lia. done.
Qed.

Lemma register_m n d : shr_m (register n d) = n / d.
Proof. unfold register, loc. destruct (_ =? 0); [done|]. destruct (_ ?= _); done. Qed.

Lemma register_round n d : 0 < d ->
  round_nearest_even (shr_m (register n d)) (loc_of_shr_record (register n d)) = rne n d.
Proof.
  intros Hd. rewrite register_m. unfold register, loc, rne.
  destruct (Z.eqb_spec (n mod d) 0) as [E|E].
  - rewrite E. destruct (Z.compare_spec (2 * 0) d); try lia. done.
  - destruct (_ ?= _); done.
Qed.

Lemma loc_exact m : loc m 1 = loc_Exact.
Proof. unfold loc. rewrite Z.mod_1_r. done. Qed.

(** ** The rounding step of every operation *)

Section binary_round_aux.
  Context (f : format) `{Hf : !wf_format f}.
  Abbreviation p := (prec f).
  Abbreviation fe := (fexp (prec f) (emax f)).

Let Hp : 1 < p := wf_prec.
Let He : p < emax f := wf_emax.

Lemma fmin_le : fmin f <= emax f - p /\ fmin f < 0.
Proof. unfold fmin, emin. lia. Qed.

Lemma fexp_fmin e : fe e = Z.max (e - p) (fmin f).
Proof. done. Qed.

Lemma shr_fexp_register n d m e : 0 <= n -> 0 < d -> m = n / d ->
  let k := Z.max 0 (fe (Zdigits2 m + e) - e) in
  shr_fexp p (emax f) m e (loc n d) = (register n (d * 2 ^ k), e + k).
Proof.
  intros Hn Hd -> k. unfold shr_fexp, shr. fold (register n d).
  destruct (fe (Zdigits2 (n / d) + e) - e) as [|q|q] eqn:E; subst k.
  - rewrite Z.max_id, Z.mul_1_r, Z.add_0_r. done.
  - rewrite register_iter by lia. rewrite Z.max_r by lia. done.
  - rewrite Z.max_l, Z.mul_1_r, Z.add_0_r by lia. done.
Qed.

(** The magnitude of a finite number in units of [2 ^ fmin f]. *)
Definition mag (x : float) : Z :=
  match x with S754_finite _ m e => Zpos m * 2 ^ (e - fmin f) | _ => 0 end.

Definition sign (x : float) : bool :=
  match x with
  | S754_finite s _ _ | S754_zero s | S754_infinity s => s
  | S754_nan => false
  end.

(** The largest finite magnitude. *)
Definition mag_max : Z := (2 ^ p - 1) * 2 ^ (emax f - p - fmin f).

(** [r] is what rounding the exact magnitude [n/d] (in units of [2 ^ fmin f])
    with sign [s] has to give. *)
Definition rounded (s : bool) (n d : Z) (r : float) : Prop :=
  valid f r = true /\ sign r = s /\
  if round p n d <=? mag_max
  then is_finite r = true /\ mag r = round p n d
  else r = S754_infinity s.

Lemma mag_max_pos : 0 < mag_max.
Proof.
  unfold mag_max. pose proof fmin_le as Hfm.
  pose proof (pow2_pos (emax f - p - fmin f) ltac:(lia)).
  pose proof (pow2_pred p ltac:(lia)). pose proof (pow2_pos (p - 1) ltac:(lia)). nia.
Qed.

Lemma rounded_finite s n d r : rounded s n d r -> round p n d <= mag_max ->
  valid f r = true /\ sign r = s /\ is_finite r = true /\ mag r = round p n d.
Proof. intros (Hv & Hs & H) Hle. apply Z.leb_le in Hle. rewrite Hle in H. tauto. Qed.

Lemma bounded_intro m e : 0 < m < 2 ^ p -> fmin f <= e -> e <= emax f - p ->
  (e = fmin f \/ 2 ^ (p - 1) <= m) -> bounded p (emax f) (Z.to_pos m) e = true.
Proof.
  intros Hm Hmin Hmax Hcan. unfold bounded, canonical_mantissa.
  apply andb_true_iff; split; [|lia]. apply Z.eqb_eq.
  replace (Z.pos (digits2_pos (Z.to_pos m))) with (Zdigits2 m) by (destruct m; done || lia).
  rewrite fexp_fmin.
  pose proof (Zdigits2_upper m p ltac:(lia) ltac:(lia) ltac:(lia)).
  destruct Hcan as [->|Hc]; [lia|].
  pose proof (Zdigits2_lower m (p - 1) ltac:(lia) Hc). lia.
Qed.

Lemma bounded_elim m e : bounded p (emax f) m e = true ->
  fmin f <= e <= emax f - p /\ Zpos m < 2 ^ p /\
  (e = fmin f \/ 2 ^ (p - 1) <= Zpos m).
Proof.
  intros [H1%Z.eqb_eq H2%Z.leb_le]%andb_true_iff. rewrite fexp_fmin in H1.
  change (Z.pos (digits2_pos m)) with (Zdigits2 (Zpos m)) in H1.
  pose proof (Zdigits2_spec (Zpos m) ltac:(lia)) as [Hlo Hhi].
  split; [lia|]. split.
  - eapply Z.lt_le_trans; [exact Hhi|]. apply pow2_le. lia.
  - destruct (Z.eq_dec e (fmin f)); [by left|right].
    eapply Z.le_trans; [|exact Hlo]. apply pow2_le. lia.
Qed.

Lemma mag_max_bound m e : 0 < m < 2 ^ p -> fmin f <= e -> (e = fmin f \/ 2 ^ (p - 1) <= m) ->
  (e <= emax f - p <-> m * 2 ^ (e - fmin f) <= mag_max).
Proof.
  intros Hm Hmin Hcan. unfold mag_max. pose proof fmin_le as Hfm. split; intros H.
  - pose proof (pow2_le (e - fmin f) (emax f - p - fmin f) ltac:(lia)).
    pose proof (pow2_pos (e - fmin f)). nia.
  - destruct (Z.le_gt_cases e (emax f - p)) as [|Hgt]; [done|exfalso].
    destruct Hcan as [->|Hc]; [lia|].
    pose proof (pow2_le (emax f - p - fmin f + 1) (e - fmin f) ltac:(lia)) as Hle.
    rewrite pow2_split in Hle by lia. change (2 ^ 1) with 2 in Hle.
    pose proof (pow2_pos (emax f - p - fmin f) ltac:(lia)).
    rewrite (pow2_pred p) in H, Hm by lia. nia.
Qed.

(** How [round]'s shift relates to the exponent [SpecFloat] chooses. *)
Lemma round_shift_fexp n d e : 0 <= n -> 0 < d -> e <= fe (Zdigits2 (n / d) + e) ->
  round_shift p (n * 2 ^ Z.max 0 (e - fmin f)) (d * 2 ^ Z.max 0 (fmin f - e)) =
  fe (Zdigits2 (n / d) + e) - fmin f.
Proof.
  intros Hn Hd Hle. rewrite fexp_fmin in *. unfold round_shift.
  pose proof (Z.div_pos n d Hn Hd) as Hm.
  destruct (Z.le_gt_cases (fmin f) e) as [Hc|Hc].
  - rewrite (Z.max_r 0 (e - fmin f)), (Z.max_l 0 (fmin f - e)), Z.mul_1_r by lia.
    destruct (Z.eq_dec (n / d) 0) as [Em|Em].
    + rewrite Em, Zdigits2_0 in *. replace (e - fmin f) with 0 by lia.
      rewrite Z.mul_1_r, Em, Zdigits2_0. lia.
    + assert (Zdigits2 (n * 2 ^ (e - fmin f) / d) = Zdigits2 (n / d) + (e - fmin f)) as ->; [|lia].
      pose proof (Zdigits2_spec (n / d) ltac:(lia)) as [Hlo Hhi].
      pose proof (pow2_pos (e - fmin f) ltac:(lia)) as Hj.
      pose proof (Z.div_mod n d ltac:(lia)). pose proof (Z.mod_pos_bound n d Hd).
      assert (1 <= Zdigits2 (n / d)) 
        by (pose proof (Zdigits2_lower (n / d) 0 ltac:(lia) ltac:(simpl; lia)); lia).
      assert (n < d * 2 ^ Zdigits2 (n / d)) by nia.
      assert (d * 2 ^ (Zdigits2 (n / d) - 1) <= n) by nia.
      apply Z.le_antisymm.
      * apply Zdigits2_upper; [apply Z.div_pos; nia|lia|].
        rewrite pow2_split by lia. apply Z.div_lt_upper_bound; [lia|].
        rewrite Z.mul_assoc. apply Z.mul_lt_mono_pos_r; lia.
      * cut (Zdigits2 (n / d) + (e - fmin f) - 1 < Zdigits2 (n * 2 ^ (e - fmin f) / d)); [lia|].
        apply Zdigits2_lower; [lia|].
        replace (Zdigits2 (n / d) + (e - fmin f) - 1) with ((Zdigits2 (n / d) - 1) + (e - fmin f)) by lia.
        rewrite pow2_split by lia. apply Z.div_le_lower_bound; [lia|].
        rewrite Z.mul_assoc. apply Z.mul_le_mono_nonneg_r; lia.
  - rewrite (Z.max_l 0 (e - fmin f)), (Z.max_r 0 (fmin f - e)), Z.mul_1_r by lia.
    pose proof (pow2_pos (fmin f - e) ltac:(lia)).
    rewrite <- Z.div_div, Zdigits2_div_pow2 by lia. lia.
Qed.

Lemma round_scaled n d e : 0 <= n -> 0 < d -> e <= fe (Zdigits2 (n / d) + e) ->
  let e' := fe (Zdigits2 (n / d) + e) in
  round p (n * 2 ^ Z.max 0 (e - fmin f)) (d * 2 ^ Z.max 0 (fmin f - e)) =
  rne n (d * 2 ^ (e' - e)) * 2 ^ (e' - fmin f).
Proof.
  intros Hn Hd Hle e'. unfold round. rewrite round_shift_fexp by done. fold e'.
  assert (fmin f <= e') by (unfold e'; rewrite fexp_fmin; lia). f_equal.
  destruct (Z.le_gt_cases (fmin f) e) as [Hc|Hc].
  - rewrite (Z.max_r 0 (e - fmin f)), (Z.max_l 0 (fmin f - e)), Z.mul_1_r by lia.
    replace (e' - fmin f) with ((e' - e) + (e - fmin f)) by lia.
    rewrite pow2_split, Z.mul_assoc by lia. apply rne_scale; [apply pow2_pos; lia|].
    pose proof (pow2_pos (e' - e) ltac:(lia)). nia.
  - rewrite (Z.max_l 0 (e - fmin f)), (Z.max_r 0 (fmin f - e)), Z.mul_1_r by lia.
    rewrite <- Z.mul_assoc, <- pow2_split by lia. f_equal. f_equal. f_equal. lia.
Qed.

(** The last step: a rounded mantissa [r <= 2 ^ p] at exponent [e']. *)
Lemma renormalise_rounded s r e' : 0 <= r <= 2 ^ p -> fmin f <= e' ->
  (e' = fmin f \/ 2 ^ (p - 1) <= r) ->
  let x := let '(mrs, e'') := shr_fexp p (emax f) r e' loc_Exact in
           match shr_m mrs with
           | Z0 => S754_zero s
           | Zpos m => if e'' <=? emax f - p then S754_finite s m e'' else S754_infinity s
           | Zneg _ => S754_nan
           end in
  valid f x = true /\ sign x = s /\
  if r * 2 ^ (e' - fmin f) <=? mag_max
  then is_finite x = true /\ mag x = r * 2 ^ (e' - fmin f)
  else x = S754_infinity s.
Proof.
  intros Hr Hmin Hcan. pose proof fmin_le as [Hfm _].
  assert (exists m e'', 0 <= m < 2 ^ p /\ fmin f <= e'' /\ (e'' = fmin f \/ 2 ^ (p - 1) <= m) /\
    m * 2 ^ (e'' - fmin f) = r * 2 ^ (e' - fmin f) /\
    exists b c, shr_fexp p (emax f) r e' loc_Exact = (Build_shr_record m b c, e''))
    as (m & e'' & Hm & Hmin'' & Hcan'' & Hval & b & c & ->).
  { rewrite <- (loc_exact r), (shr_fexp_register r 1) by (rewrite ?Z.div_1_r; lia).
    rewrite fexp_fmin. destruct (Z.eq_dec r (2 ^ p)) as [->|Hne].
    - assert (Zdigits2 (2 ^ p) = p + 1) as ->.
      { rewrite Zdigits2_pos, Z.log2_pow2; [done|lia|apply pow2_pos; lia]. }
      replace (Z.max 0 _) with 1 by lia.
      pose proof (pow2_pred p ltac:(lia)) as Hpp.
      exists (2 ^ (p - 1)), (e' + 1). repeat split; try lia.
      + replace (e' + 1 - fmin f) with (1 + (e' - fmin f)) by lia. rewrite pow2_split by lia.
        change (2 ^ 1) with 2. nia.
      + unfold register, loc. rewrite Hpp, Z.mul_comm. change (1 * 2 ^ 1) with 2.
        rewrite Z.mod_mul, Z.div_mul by lia. simpl. eauto.
    - pose proof (Zdigits2_upper r p ltac:(lia) ltac:(lia) ltac:(lia)).
      replace (Z.max 0 _) with 0 by lia. rewrite Z.mul_1_r, Z.add_0_r.
      exists r, e'. repeat split; try lia; try tauto. unfold register.
      rewrite loc_exact, Z.div_1_r. simpl. eauto. }
  rewrite <- Hval. cbn [shr_m]. destruct m as [|m|m]; [| |lia].
  - rewrite Z.mul_0_l. pose proof mag_max_pos as Hmx.
    destruct (Z.leb_spec 0 mag_max); [done|lia].
  - pose proof (mag_max_bound (Zpos m) e'' ltac:(lia) Hmin'' Hcan'') as Hb.
    destruct (Z.leb_spec e'' (emax f - p)) as [Hle|Hgt].
    + apply Hb in Hle as Hle'. apply Z.leb_le in Hle'. rewrite Hle'. split; [|done].
      apply (bounded_intro (Zpos m)); tauto || lia.
    + destruct (Z.leb_spec (Zpos m * 2 ^ (e'' - fmin f)) mag_max); [|done].
      apply Hb in H. lia.
Qed.

Theorem binary_round_aux_rounded s n d m e : 0 <= n -> 0 < d -> m = n / d ->
  e <= fe (Zdigits2 m + e) ->
  rounded s (n * 2 ^ Z.max 0 (e - fmin f)) (d * 2 ^ Z.max 0 (fmin f - e))
    (binary_round_aux p (emax f) s m e (loc n d)).
Proof.
  intros Hn Hd -> Hle. unfold rounded, binary_round_aux.
  rewrite round_scaled by done.
  rewrite (shr_fexp_register n d) by done.
  set (e' := fe (Zdigits2 (n / d) + e)) in *.
  rewrite Z.max_r by lia. replace (e + (e' - e)) with e' by lia.
  pose proof (pow2_pos (e' - e) ltac:(lia)) as Hk.
  rewrite register_round by nia.
  assert (fmin f <= e') as Hmin by (unfold e'; rewrite fexp_fmin; lia).
  assert (n / (d * 2 ^ (e' - e)) < 2 ^ p /\ (e' = fmin f \/ 2 ^ (p - 1) <= n / (d * 2 ^ (e' - e))))
    as [Hlt Hcan].
  { rewrite <- Z.div_div by lia. pose proof (Z.div_pos n d Hn Hd) as Hm.
    assert (Zdigits2 (n / d / 2 ^ (e' - e)) = Z.max 0 (Zdigits2 (n / d) - (e' - e))) as Hdig
      by (apply Zdigits2_div_pow2; lia).
    assert (0 <= n / d / 2 ^ (e' - e)) as Hq by (apply Z.div_pos; lia).
    unfold e' in Hdig at 2. rewrite fexp_fmin in Hdig. split.
    - eapply Z.lt_le_trans; [apply Zdigits2_bound; done|]. apply pow2_le. lia.
    - destruct (Z.eq_dec e' (fmin f)) as [|Hne]; [by left|right].
      assert (e' = Zdigits2 (n / d) + e - p) by (unfold e' in *; rewrite fexp_fmin in *; lia).
      destruct (Z.eq_dec (n / d / 2 ^ (e' - e)) 0) as [Hz|Hz]; [rewrite Hz, Zdigits2_0 in Hdig; lia|].
      eapply Z.le_trans; [|apply Zdigits2_spec; lia]. apply pow2_le. lia. }
  pose proof (rne_bounds n (d * 2 ^ (e' - e)) ltac:(nia)) as Hb.
  apply renormalise_rounded; [|done|].
  - split; [apply rne_nonneg; nia|lia].
  - destruct Hcan; [by left|right; lia].
Qed.

Lemma rounded_proper s n1 d1 n2 d2 r :
  0 <= n1 -> 0 <= n2 -> 0 < d1 -> 0 < d2 -> n1 * d2 = n2 * d1 ->
  rounded s n1 d1 r -> rounded s n2 d2 r.
Proof. intros. unfold rounded. rewrite (round_proper p Hp n2 d2 n1 d1) by lia. done. Qed.

Lemma round_0 d : 0 < d -> round p 0 d = 0.
Proof.
  intros. rewrite (round_proper p Hp 0 d 0 1) by lia. apply (round_exact p Hp 0 0); [|lia].
  split; [lia|apply pow2_pos; lia].
Qed.

Lemma rounded_zero s d : 0 < d -> rounded s 0 d (S754_zero s).
Proof.
  intros Hd. unfold rounded. rewrite round_0 by done. pose proof mag_max_pos.
  destruct (Z.leb_spec 0 mag_max); [done|lia].
Qed.

End binary_round_aux.

(** ** The operations *)

(** The signed value of a finite number in units of [2 ^ fmin f]. *)
Definition sval (f : format) (x : float) : Z := if sign x then - mag f x else mag f x.

(** One unit of value 1. *)
Definition unit_of (f : format) : Z := 2 ^ (- fmin f).

Lemma mag_nonneg f x : 0 <= mag f x.
Proof.
  destruct x; cbn [mag]; lia.
Qed.

#[export] Hint Resolve mag_nonneg : netft.

Section operations.
  Context (f : format) `{Hf : !wf_format f}.
  Abbreviation p := (prec f).
  Abbreviation fe := (fexp (prec f) (emax f)).

Let Hp : 1 < p := wf_prec.
Let He : p < emax f := wf_emax.

Lemma unit_pos : 0 < unit_of f.
Proof. apply pow2_pos. pose proof (fmin_le f). lia. Qed.

Lemma valid_finite s m e : valid f (S754_finite s m e) = true ->
  fmin f <= e <= emax f - p /\ Zpos m < 2 ^ p /\ (e = fmin f \/ 2 ^ (p - 1) <= Zpos m).
Proof. apply (bounded_elim f). Qed.

Lemma valid_digits s m e : valid f (S754_finite s m e) = true ->
  fe (Zdigits2 (Zpos m) + e) = e.
Proof. intros [H%Z.eqb_eq _]%andb_true_iff. exact H. Qed.

Lemma fexp_mono a b : a <= b -> fe a <= fe b.
Proof. rewrite !(fexp_fmin f). lia. Qed.

(** [N * 2 ^ max 0 (e - fmin)] and [D * 2 ^ max 0 (fmin - e)] is [N * 2 ^ e / D]. *)
Lemma scaled_fraction n d e k m l : 0 <= k -> 0 <= l -> e - fmin f = k - l ->
  m = 2 ^ k ->
  n * 2 ^ Z.max 0 (e - fmin f) * (d * 2 ^ l) = n * m * (d * 2 ^ Z.max 0 (fmin f - e)).
Proof.
  intros Hk Hl Hkl ->.
  transitivity (n * d * (2 ^ Z.max 0 (e - fmin f) * 2 ^ l)); [ring|].
  transitivity (n * d * (2 ^ k * 2 ^ Z.max 0 (fmin f - e))); [|ring].
  rewrite <- !pow2_split by lia. f_equal. f_equal. lia.
Qed.

Theorem fmul_rounded x y : valid f x = true -> valid f y = true ->
  is_finite x = true -> is_finite y = true ->
  rounded f (xorb (sign x) (sign y)) (mag f x * mag f y) (unit_of f) (fmul f x y).
Proof.
  intros Hx Hy Fx Fy. pose proof unit_pos.
  destruct x as [sx| | |sx mx ex], y as [sy| | |sy my ey]; try discriminate;
    unfold fmul; cbn [SFmul sign mag]; rewrite ?Z.mul_0_r, ?Z.mul_0_l;
    try (apply rounded_zero; done).
  pose proof (valid_finite _ _ _ Hx) as (Hex & _ & Hcx).
  pose proof (valid_finite _ _ _ Hy) as (Hey & _ & Hcy).
  pose proof (fmin_le f) as Hfm.
  rewrite Pos2Z.inj_mul, <- (loc_exact (Zpos mx * Zpos my)).
  pose proof (pow2_pos (ex - fmin f) ltac:(lia)). pose proof (pow2_pos (ey - fmin f) ltac:(lia)).
  pose proof (pow2_pos (Z.max 0 (ex + ey - fmin f)) ltac:(lia)).
  pose proof (pow2_pos (Z.max 0 (fmin f - (ex + ey))) ltac:(lia)).
  eapply (rounded_proper f); [.. | apply (binary_round_aux_rounded f);
    rewrite ?Z.div_1_r; try done; try lia]; try zpos.
  - unfold unit_of. rewrite <- (Z.mul_1_l (2 ^ (- fmin f))).
    rewrite (scaled_fraction _ _ _ (ex + ey - 2 * fmin f) (2 ^ (ex - fmin f) * 2 ^ (ey - fmin f)));
      [ring|lia..|]. rewrite <- pow2_split by lia. f_equal. lia.
  - rewrite (fexp_fmin f).
    destruct (Z.le_gt_cases (ex + ey) (fmin f)) as [|Hgt]; [lia|].
    cut (p <= Zdigits2 (Zpos mx * Zpos my)); [lia|].
    cut (p - 1 < Zdigits2 (Zpos mx * Zpos my)); [lia|]. apply Zdigits2_lower; [lia|].
    destruct Hcx as [Ex|Hcx]; [|nia]. destruct Hcy as [Ey|Hcy]; [lia|nia].
Qed.

Lemma fdiv_core_rounded s m1 e1 m2 e2 : 0 < m1 -> 0 < m2 ->
  rounded f s
    (m1 * 2 ^ Z.max 0 (e1 - e2 - fmin f)) (m2 * 2 ^ Z.max 0 (fmin f - (e1 - e2)))
    (let '(mz, ez, lz) := SFdiv_core_binary p (emax f) m1 e1 m2 e2 in
     binary_round_aux p (emax f) s mz ez lz).
Proof.
  intros Hm1 Hm2. unfold SFdiv_core_binary.
  set (e' := Z.min (fe (Zdigits2 m1 + e1 - (Zdigits2 m2 + e2))) (e1 - e2)).
  set (k := e1 - e2 - e'). assert (0 <= k) as Hk by lia.
  replace (match k with Zneg _ => 0 | Z0 => m1 | Zpos _ => Z.shiftl m1 k end) with (m1 * 2 ^ k).
  2: { destruct k eqn:Ek; [lia| |lia]. rewrite Z.shiftl_mul_pow2; lia. }
  pose proof (pow2_pos k Hk) as Hkp.
  destruct (Z.div_eucl (m1 * 2 ^ k) m2) as [q r] eqn:Eqr.
  assert (q = m1 * 2 ^ k / m2 /\ r = (m1 * 2 ^ k) mod m2) as [-> ->]
    by (unfold Z.div, Z.modulo; rewrite Eqr; done).
  rewrite new_location_loc by nia.
  pose proof (pow2_pos (Z.max 0 (e' - fmin f)) ltac:(lia)).
  pose proof (pow2_pos (Z.max 0 (fmin f - e')) ltac:(lia)).
  pose proof (pow2_pos (Z.max 0 (e1 - e2 - fmin f)) ltac:(lia)).
  pose proof (pow2_pos (Z.max 0 (fmin f - (e1 - e2))) ltac:(lia)).
  eapply (rounded_proper f); [.. | apply (binary_round_aux_rounded f); try done]; try zpos.
  - replace (m1 * 2 ^ k * 2 ^ Z.max 0 (e' - fmin f) * (m2 * 2 ^ Z.max 0 (fmin f - (e1 - e2))))
      with (m1 * m2 * (2 ^ k * 2 ^ Z.max 0 (e' - fmin f) * 2 ^ Z.max 0 (fmin f - (e1 - e2)))) by ring.
    replace (m1 * 2 ^ Z.max 0 (e1 - e2 - fmin f) * (m2 * 2 ^ Z.max 0 (fmin f - e')))
      with (m1 * m2 * (2 ^ Z.max 0 (e1 - e2 - fmin f) * 2 ^ Z.max 0 (fmin f - e'))) by ring.
    rewrite <- !pow2_split by lia. f_equal. f_equal. lia.
  - transitivity (fe (Zdigits2 m1 + e1 - (Zdigits2 m2 + e2))); [lia|]. apply fexp_mono.
    cut (Zdigits2 m1 + k - Zdigits2 m2 <= Zdigits2 (m1 * 2 ^ k / m2)); [lia|].
    destruct (Z.le_gt_cases (Zdigits2 m1 + k - Zdigits2 m2) 0) as [|Hgt].
    { pose proof (Zdigits2_nonneg (m1 * 2 ^ k / m2) ltac:(apply Z.div_pos; nia)). lia. }
    cut (Zdigits2 m1 + k - Zdigits2 m2 - 1 < Zdigits2 (m1 * 2 ^ k / m2)); [lia|].
    apply Zdigits2_lower; [lia|]. apply Z.div_le_lower_bound; [lia|].
    pose proof (Zdigits2_spec m1 Hm1) as [Hlo _]. pose proof (Zdigits2_spec m2 Hm2) as [_ Hhi].
    transitivity (2 ^ (Zdigits2 m1 - 1) * 2 ^ k); [|nia].
    transitivity (2 ^ Zdigits2 m2 * 2 ^ (Zdigits2 m1 + k - Zdigits2 m2 - 1)).
    { apply Z.mul_le_mono_nonneg_r; [apply Z.pow_nonneg; lia|lia]. }
    pose proof (Zdigits2_lower m1 0 ltac:(lia) ltac:(simpl; lia)).
    pose proof (Zdigits2_nonneg m2 ltac:(lia)).
    rewrite <- !pow2_split by lia. apply pow2_le. lia.
Qed.

Theorem fdiv_rounded x y : valid f x = true -> valid f y = true ->
  is_finite x = true -> is_finite y = true -> 0 < mag f y ->
  rounded f (xorb (sign x) (sign y)) (mag f x * unit_of f) (mag f y) (fdiv f x y).
Proof.
  intros Hx Hy Fx Fy Hpos. pose proof unit_pos.
  destruct x as [sx| | |sx mx ex], y as [sy| | |sy my ey]; try discriminate; try (simpl in Hpos; lia);
    unfold fdiv; cbn [SFdiv sign].
  { simpl (mag f (S754_zero _)). rewrite Z.mul_0_l. apply rounded_zero; done. }
  pose proof (valid_finite _ _ _ Hx) as (Hex & _ & _).
  pose proof (valid_finite _ _ _ Hy) as (Hey & _ & _). cbn [mag] in *.
  pose proof (pow2_pos (ex - fmin f) ltac:(lia)). pose proof (pow2_pos (ey - fmin f) ltac:(lia)).
  pose proof (fmin_le f) as Hfm.
  pose proof (pow2_pos (Z.max 0 (ex - ey - fmin f)) ltac:(lia)).
  pose proof (pow2_pos (Z.max 0 (fmin f - (ex - ey))) ltac:(lia)).
  eapply (rounded_proper f); [.. | apply fdiv_core_rounded; lia]; try zpos.
  rewrite (scaled_fraction (Zpos mx) (Zpos my) (ex - ey) (ex - 2 * fmin f)
    (2 ^ (ex - fmin f) * unit_of f)); [ring|lia..|].
  unfold unit_of. rewrite <- pow2_split by lia. f_equal. lia.
Qed.

Lemma iter_xO m d : Zpos (Pos.iter xO m d) = Zpos m * 2 ^ Zpos d.
Proof.
  induction d as [|d IH] using Pos.peano_ind; [simpl; lia|].
  rewrite Pos.iter_succ, Pos2Z.inj_xO, IH, Pos2Z.inj_succ, Z.pow_succ_r by lia. ring.
Qed.

Lemma binary_round_rounded s m e :
  rounded f s (Zpos m * 2 ^ Z.max 0 (e - fmin f)) (2 ^ Z.max 0 (fmin f - e))
    (binary_round p (emax f) s m e).
Proof.
  unfold binary_round, shl_align.
  change (Z.pos (digits2_pos m)) with (Zdigits2 (Zpos m)).
  destruct (fe (Zdigits2 (Zpos m) + e) - e) as [|d|d] eqn:E.
  1, 2: rewrite <- (loc_exact (Zpos m)), <- (Z.mul_1_l (2 ^ Z.max 0 (fmin f - e)));
    apply (binary_round_aux_rounded f); rewrite ?Z.div_1_r; lia.
  rewrite iter_xO, <- (loc_exact (Zpos m * 2 ^ Zpos d)).
  assert (fe (Zdigits2 (Zpos m) + e) = e - Zpos d) as Efe by lia. rewrite Efe.
  eapply (rounded_proper f); [.. | apply (binary_round_aux_rounded f); rewrite ?Z.div_1_r;
    try done; try zpos]; try zpos.
  - transitivity (Zpos m * (2 ^ Zpos d * 2 ^ Z.max 0 (e - Zpos d - fmin f) * 2 ^ Z.max 0 (fmin f - e)));
      [ring|].
    transitivity (Zpos m * (2 ^ Z.max 0 (e - fmin f) * 2 ^ Z.max 0 (fmin f - (e - Zpos d)))); [|ring].
    rewrite <- !pow2_split by lia. f_equal. f_equal. lia.
  - rewrite Zdigits2_mul_pow2 by lia.
    replace (Zdigits2 (Zpos m) + Zpos d + (e - Zpos d)) with (Zdigits2 (Zpos m) + e) by lia. lia.
Qed.

Theorem of_Z_rounded z : rounded f (z <? 0) (Z.abs z * unit_of f) 1 (of_Z f z).
Proof.
  pose proof (fmin_le f) as Hfm. unfold of_Z, binary_normalize.
  destruct z as [|m|m]; [apply (rounded_zero f false 1); done|..];
    (replace (unit_of f) with (2 ^ Z.max 0 (0 - fmin f)) by (unfold unit_of; f_equal; lia);
     replace 1 with (2 ^ Z.max 0 (fmin f - 0)) by (rewrite Z.max_l by lia; done);
     apply binary_round_rounded).
Qed.

Theorem convert_rounded g x : is_finite x = true ->
  valid g x = true -> wf_format g ->
  rounded f (sign x) (mag g x * 2 ^ Z.max 0 (fmin g - fmin f)) (2 ^ Z.max 0 (fmin f - fmin g))
    (convert f x).
Proof.
  intros Fx Vx Hg. destruct x as [s| | |s m e]; try discriminate; cbn [convert sign].
  { simpl (mag _ _). rewrite Z.mul_0_l. apply rounded_zero; [done|zpos]. }
  apply (bounded_elim g) in Vx as (He' & _ & _). cbn [mag].
  eapply (rounded_proper f); [.. | apply binary_round_rounded]; try zpos.
  transitivity (Zpos m * (2 ^ Z.max 0 (e - fmin f) * 2 ^ Z.max 0 (fmin f - fmin g))); [ring|].
  transitivity (Zpos m * (2 ^ (e - fmin g) * 2 ^ Z.max 0 (fmin g - fmin f) * 2 ^ Z.max 0 (fmin f - e)));
    [|ring].
  rewrite <- !pow2_split by lia. f_equal. f_equal. lia.
Qed.

(** ** Values of valid numbers *)

Lemma valid_mag_le x : valid f x = true -> mag f x <= mag_max f.
Proof.
  intros Vx. pose proof (mag_max_pos f). destruct x as [| | |s m e]; cbn [mag]; try lia.
  apply valid_finite in Vx as ([??] & ? & Hc). apply (mag_max_bound f); lia || done.
Qed.

(** A valid number's magnitude is representable: rounding leaves it alone. *)
Lemma round_mag x : valid f x = true -> round p (mag f x) 1 = mag f x.
Proof.
  intros Vx. destruct x as [| | |s m e]; cbn [mag]; try (apply (round_0 f); lia).
  apply valid_finite in Vx as ([??] & ? & _). apply round_exact; lia.
Qed.

Lemma round_mag_max : round p (mag_max f) 1 = mag_max f.
Proof.
  pose proof (fmin_le f). unfold mag_max. pose proof (pow2_pos p ltac:(lia)).
  apply round_exact; lia.
Qed.

(** An exact value at most the largest finite number rounds to a finite
    number; the bound carries over to the result. *)
Lemma round_le_mag_max n d : 0 <= n -> 0 < d -> n <= mag_max f * d -> round p n d <= mag_max f.
Proof.
  intros Hn Hd H. pose proof (mag_max_pos f). rewrite <- round_mag_max.
  apply round_mono; lia.
Qed.

Lemma mag_zero_iff x : valid f x = true -> is_finite x = true ->
  (mag f x = 0 <-> exists s, x = S754_zero s).
Proof.
  intros Vx Fx. destruct x as [s| | |s m e]; try discriminate; cbn [mag]; split; eauto.
  - apply valid_finite in Vx as ([??] & _). pose proof (pow2_pos (e - fmin f) ltac:(lia)). nia.
  - intros [? ?]; discriminate.
Qed.

(** ** Comparison *)

Lemma mag_compare m1 e1 m2 e2 s1 s2 :
  valid f (S754_finite s1 m1 e1) = true -> valid f (S754_finite s2 m2 e2) = true ->
  match Z.compare e1 e2 with Eq => Pos.compare m1 m2 | c => c end =
  (mag f (S754_finite s1 m1 e1) ?= mag f (S754_finite s2 m2 e2)).
Proof.
  intros V1 V2. apply valid_finite in V1 as ([Ha Hb] & Hc & Hd), V2 as ([He1 Hf1] & Hg & Hh).
  cbn [mag]. symmetry. pose proof (pow2_pred p ltac:(lia)).
  destruct (Z.compare_spec e1 e2) as [->|Hlt|Hlt].
  - rewrite <- Zmult_compare_compat_r by (apply Z.lt_gt, pow2_pos; lia). done.
  - apply Z.compare_lt_iff. destruct Hh as [|Hh]; [lia|].
    pose proof (pow2_pos (e1 - fmin f) ltac:(lia)).
    pose proof (pow2_le (1 + (e1 - fmin f)) (e2 - fmin f) ltac:(lia)) as Hp2.
    rewrite pow2_split in Hp2 by lia. change (2 ^ 1) with 2 in Hp2. nia.
  - apply Z.compare_gt_iff. destruct Hd as [|Hd]; [lia|].
    pose proof (pow2_pos (e2 - fmin f) ltac:(lia)).
    pose proof (pow2_le (1 + (e2 - fmin f)) (e1 - fmin f) ltac:(lia)) as Hp2.
    rewrite pow2_split in Hp2 by lia. change (2 ^ 1) with 2 in Hp2. nia.
Qed.

Lemma SFcompare_sval x y : valid f x = true -> valid f y = true ->
  is_finite x = true -> is_finite y = true ->
  SFcompare x y = Some (sval f x ?= sval f y).
Proof.
  intros Vx Vy Fx Fy.
  assert (forall s m e, valid f (S754_finite s m e) = true -> 0 < mag f (S754_finite s m e)) as Hpos.
  { intros s m e (H & _)%valid_finite. cbn [mag]. zpos. }
  destruct x as [sx| | |sx mx ex], y as [sy| | |sy my ey]; try discriminate; unfold sval; cbn [SFcompare sign].
  - destruct sx, sy; done.
  - pose proof (Hpos _ _ _ Vy). f_equal. symmetry.
    destruct sx, sy; cbn [mag] in *; apply Z.compare_lt_iff || apply Z.compare_gt_iff; lia.
  - pose proof (Hpos _ _ _ Vx). f_equal. symmetry.
    destruct sx, sy; cbn [mag] in *; apply Z.compare_lt_iff || apply Z.compare_gt_iff; lia.
  - pose proof (Hpos _ _ _ Vx). pose proof (Hpos _ _ _ Vy).
    pose proof (mag_compare _ _ _ _ _ _ Vx Vy) as Hc. f_equal. symmetry. destruct sx, sy.
    + rewrite Z.compare_opp, Z.compare_antisym, <- Hc.
      destruct (ex ?= ey) eqn:E; simpl; done.
    + apply Z.compare_lt_iff. lia.
    + apply Z.compare_gt_iff. lia.
    + rewrite <- Hc. destruct (ex ?= ey); done.
Qed.

Lemma flt_sval x y : valid f x = true -> valid f y = true ->
  is_finite x = true -> is_finite y = true -> flt x y = (sval f x <? sval f y).
Proof.
  intros. unfold flt, SFltb. rewrite SFcompare_sval by done. unfold Z.ltb.
  destruct (_ ?= _); done.
Qed.

Lemma fle_sval x y : valid f x = true -> valid f y = true ->
  is_finite x = true -> is_finite y = true -> fle x y = (sval f x <=? sval f y).
Proof.
  intros. unfold fle, SFleb. rewrite SFcompare_sval by done. unfold Z.leb.
  destruct (_ ?= _); done.
Qed.

(** ** Truncation *)

Lemma trunc_spec x : valid f x = true -> is_finite x = true -> sign x = false ->
  trunc x = mag f x / unit_of f.
Proof.
  intros Vx Fx Sx. pose proof (fmin_le f) as Hfm.
  destruct x as [s| | |s m e]; try discriminate; cbn in Sx; subst; cbn [mag trunc].
  { rewrite Z.div_0_l; [done|]. pose proof unit_pos. lia. }
  apply valid_finite in Vx as ([??] & _). unfold unit_of.
  destruct (Z.leb_spec 0 e) as [He0|He0].
  - replace (e - fmin f) with (e + (- fmin f)) by lia. rewrite pow2_split, Z.mul_assoc by lia.
    rewrite Z.div_mul; [done|]. pose proof (pow2_pos (- fmin f)). lia.
  - replace (- fmin f) with ((- e) + (e - fmin f)) by lia. rewrite pow2_split by lia.
    rewrite Z.div_mul_cancel_r; [done| |]; pose proof (pow2_pos (- e)); pose proof (pow2_pos (e - fmin f)); lia.
Qed.

(** ** Monotonicity and integers *)

Lemma rounded_valid s n d r : rounded f s n d r -> valid f r = true.
Proof. intros (H & _). done. Qed.

Lemma rounded_is_finite s n d r : rounded f s n d r -> is_finite r = true ->
  round p n d <= mag_max f /\ mag f r = round p n d.
Proof.
  intros (_ & _ & H) Fr. destruct (Z.leb_spec (round p n d) (mag_max f)); [tauto|].
  subst. discriminate.
Qed.

Lemma rounded_mono s1 s2 n1 d1 n2 d2 r1 r2 :
  rounded f s1 n1 d1 r1 -> rounded f s2 n2 d2 r2 -> is_finite r2 = true ->
  0 <= n1 -> 0 <= n2 -> 0 < d1 -> 0 < d2 -> n1 * d2 <= n2 * d1 ->
  is_finite r1 = true /\ mag f r1 <= mag f r2.
Proof.
  intros H1 H2 F2 ? ? ? ? Hle. pose proof (rounded_is_finite _ _ _ _ H2 F2) as [Hmax ->].
  pose proof (round_mono p Hp n1 d1 n2 d2 ltac:(done) ltac:(done) ltac:(done) ltac:(done) Hle).
  destruct (rounded_finite f s1 n1 d1 r1 H1 ltac:(lia)) as (_ & _ & ? & ->). done.
Qed.

(** [2 ^ k] is within range for [k < emax]. *)
Lemma pow2_mag_max k : 0 <= k < emax f -> 2 ^ k * unit_of f <= mag_max f.
Proof.
  intros Hk. pose proof (fmin_le f) as Hfm. unfold unit_of, mag_max.
  transitivity (2 ^ (p - 1) * 2 ^ (emax f - p - fmin f)).
  - rewrite <- !pow2_split by lia. apply pow2_le. lia.
  - pose proof (pow2_pred p ltac:(lia)). pose proof (pow2_pos (p - 1) ltac:(lia)).
    pose proof (pow2_pos (emax f - p - fmin f) ltac:(lia)). nia.
Qed.

Lemma round_pow2_bound z k : 0 <= z <= 2 ^ k -> 0 <= k -> round p (z * unit_of f) 1 <= 2 ^ k * unit_of f.
Proof.
  intros Hz Hk. pose proof (fmin_le f) as Hfm. pose proof unit_pos as Hu.
  assert (2 ^ k * unit_of f = 1 * 2 ^ (k - fmin f)) as E.
  { unfold unit_of. rewrite <- pow2_split by lia. rewrite Z.mul_1_l. done. }
  rewrite E, <- (round_exact p Hp 1 (k - fmin f)), <- E;
    [apply round_mono; nia| |lia].
  split; [lia|]. apply Z.pow_gt_1; lia.
Qed.

Lemma of_Z_bounded z k : Z.abs z <= 2 ^ k -> 0 <= k < emax f ->
  valid f (of_Z f z) = true /\ sign (of_Z f z) = (z <? 0) /\ is_finite (of_Z f z) = true /\
  mag f (of_Z f z) = round p (Z.abs z * unit_of f) 1 /\ mag f (of_Z f z) <= 2 ^ k * unit_of f.
Proof.
  intros Hz Hk. pose proof (round_pow2_bound (Z.abs z) k ltac:(lia) ltac:(lia)).
  pose proof (pow2_mag_max k Hk).
  destruct (rounded_finite f _ _ _ _ (of_Z_rounded z) ltac:(lia)) as (? & ? & ? & E).
  rewrite E. done.
Qed.

Lemma of_Z_exact z : Z.abs z < 2 ^ p ->
  valid f (of_Z f z) = true /\ sign (of_Z f z) = (z <? 0) /\ is_finite (of_Z f z) = true /\
  mag f (of_Z f z) = Z.abs z * unit_of f.
Proof.
  intros Hz. destruct (of_Z_bounded z p ltac:(lia) ltac:(lia)) as (? & ? & ? & -> & _).
  repeat split; try done. unfold unit_of. apply round_exact; [done|lia|].
  pose proof (fmin_le f). lia.
Qed.

(** [ceil] is exact: the least integer that is not smaller. *)
Lemma ceil_spec x : valid f x = true -> is_finite x = true -> sign x = false ->
  exists c, 0 <= c /\ valid f (ceil f x) = true /\ is_finite (ceil f x) = true /\
    sign (ceil f x) = false /\ mag f (ceil f x) = c * unit_of f /\
    (c - 1) * unit_of f < mag f x <= c * unit_of f.
Proof.
  intros Vx Fx Sx. pose proof (fmin_le f) as Hfm. pose proof unit_pos as Hu.
  destruct x as [s| | |s m e]; try discriminate; cbn in Sx; subst.
  { exists 0. cbn [ceil mag is_finite sign]. repeat split; try done; lia. }
  pose proof (valid_finite _ _ _ Vx) as ([Hmin _] & Hm & _).
  cbn [ceil mag]. unfold unit_of in *. destruct (Z.leb_spec 0 e) as [H0|H0].
  - exists (Zpos m * 2 ^ e). replace (e - fmin f) with (e + - fmin f) by lia.
    cbn [mag]. replace (e - fmin f) with (e + - fmin f) by lia. rewrite pow2_split by lia.
    pose proof (pow2_pos e H0). repeat split; try done; nia.
  - set (k := - e) in *. set (c := - (Z.neg m / 2 ^ k)).
    pose proof (pow2_pos k ltac:(lia)) as Hk. pose proof (pow2_pos (e - fmin f) ltac:(lia)) as Hd.
    assert ((c - 1) * 2 ^ k < Zpos m <= c * 2 ^ k) as Hc.
    { unfold c. pose proof (Z.div_mod (Z.neg m) (2 ^ k) ltac:(lia)).
      pose proof (Z.mod_pos_bound (Z.neg m) (2 ^ k) Hk). nia. }
    assert (0 < c) by nia.
    destruct (Z.eqb_spec c 0); [lia|].
    assert (c < 2 ^ p) as Hcp.
    { pose proof (pow2_le 1 k ltac:(lia)). change (2 ^ 1) with 2 in *.
      assert (1 < 2 ^ p) by (pose proof (pow2_le 1 p ltac:(lia)); lia). nia. }
    destruct (of_Z_exact c ltac:(lia)) as (? & Hs & ? & ->). exists c. unfold unit_of in *.
    replace (2 ^ (- fmin f)) with (2 ^ k * 2 ^ (e - fmin f)) by (rewrite <- pow2_split by lia; f_equal; lia).
    destruct Hc as [Hc1 Hc2]. apply (Z.mul_lt_mono_pos_r (2 ^ (e - fmin f))) in Hc1; [|done].
    apply (Z.mul_le_mono_nonneg_r _ _ (2 ^ (e - fmin f))) in Hc2; [|lia].
    rewrite Hs, Z.abs_eq, (proj2 (Z.ltb_ge c 0)) by lia. repeat split; try done; lia.
Qed.

(** A magnitude of at least one unit does not round to zero. *)
Lemma round_pos n d : 0 < d <= n -> 1 <= round p n d.
Proof.
  intros Hd. pose proof (pow2_le 1 p ltac:(lia)).
  pose proof (round_exact p Hp 1 0 ltac:(lia) ltac:(lia)) as E. change (1 * 2 ^ 0) with 1 in E.
  rewrite <- E at 1. apply round_mono; lia.
Qed.

Lemma rounded_infinite s n d r : rounded f s n d r -> is_finite r = true \/ r = S754_infinity s.
Proof. intros (_ & _ & H). destruct (_ <=? _); [left; apply H|by right]. Qed.

Lemma of_Z_finite_pos z : 0 < z -> z < 2 ^ p -> exists m e, of_Z f z = S754_finite false m e.
Proof.
  intros Hz Hz2. destruct (of_Z_exact z ltac:(lia)) as (_ & S & F & M).
  rewrite (proj2 (Z.ltb_ge z 0)) in S by lia. pose proof unit_pos.
  destruct (of_Z f z) as [s| | |s m e]; try done; [simpl in M; nia|]. simpl in S. subst. by exists m, e.
Qed.

(** Scaling a positive number up and rounding to the next integer: infinity or
    an integer that is at least one. *)
Lemma ceil_scaled x k : valid f x = true -> is_finite x = true -> sign x = false -> 0 < mag f x ->
  0 < k -> k < 2 ^ p ->
  let y := ceil f (fmul f x (of_Z f k)) in
  y = S754_infinity false \/
  exists c, 1 <= c /\ is_finite y = true /\ valid f y = true /\ sign y = false /\
    mag f y = c * unit_of f /\ trunc y = c.
Proof.
  intros Vx Fx Sx Mx Hk Hk2 y. pose proof unit_pos as Hu.
  destruct (of_Z_exact k ltac:(lia)) as (V1 & S1 & F1 & M1).
  pose proof (fmul_rounded x _ Vx V1 Fx F1) as Rm. rewrite Sx, S1, M1, (proj2 (Z.ltb_ge k 0)) in Rm by lia.
  destruct (rounded_infinite _ _ _ _ Rm) as [Fm|Ef]; [|left; unfold y; by rewrite Ef].
  right. destruct (rounded_is_finite _ _ _ _ Rm Fm) as [_ Mm].
  assert (1 * unit_of f <= mag f x * Z.abs k * unit_of f) as Hn by (apply Z.mul_le_mono_nonneg_r; nia).
  pose proof (round_pos (mag f x * (Z.abs k * unit_of f)) (unit_of f) ltac:(lia)) as Hm1.
  rewrite <- Mm in Hm1. pose proof Rm as (Vm & Sm & _).
  destruct (ceil_spec _ Vm Fm Sm) as (c & Hc & V & Fi & S & M & Hr).
  exists c. unfold y. rewrite trunc_spec by done. rewrite M, Z.div_mul by lia.
  split_and!; try done. nia.
Qed.

(** A fraction is rounded once. *)
Lemma of_frac_rounded n d : 0 < d ->
  rounded f (n <? 0) (Z.abs n * unit_of f) d (of_frac f n d).
Proof.
  intros Hd. unfold of_frac. destruct (Z.eqb_spec n 0) as [->|Hn].
  { rewrite Z.mul_0_l. by apply rounded_zero. }
  pose proof (fdiv_core_rounded (n <? 0) (Z.abs n) 0 d 0 ltac:(lia) Hd) as H.
  pose proof (fmin_le f) as Hm.
  replace (Z.max 0 (0 - 0 - fmin f)) with (- fmin f) in H by lia.
  replace (Z.max 0 (fmin f - (0 - 0))) with 0 in H by lia.
  by rewrite Z.mul_1_r in H.
Qed.

(** A quotient bounded by the largest finite number is finite. *)
Lemma fdiv_bounded x y : valid f x = true -> valid f y = true ->
  is_finite x = true -> is_finite y = true -> 0 < mag f y ->
  mag f x * unit_of f <= mag_max f * mag f y ->
  valid f (fdiv f x y) = true /\ sign (fdiv f x y) = xorb (sign x) (sign y) /\
  is_finite (fdiv f x y) = true /\
  mag f (fdiv f x y) = round p (mag f x * unit_of f) (mag f y).
Proof.
  intros Vx Vy Fx Fy Hy Hle. apply rounded_finite; [by apply fdiv_rounded|].
  pose proof unit_pos. pose proof (mag_nonneg f x).
  apply round_le_mag_max; [nia|lia..].
Qed.

(** Doubling is exact until it overflows. *)
Lemma fmul_two x : valid f x = true -> is_finite x = true ->
  valid f (fmul f x (of_Z f 2)) = true /\
  (if 2 * mag f x <=? mag_max f
   then is_finite (fmul f x (of_Z f 2)) = true /\ sign (fmul f x (of_Z f 2)) = sign x /\
        mag f (fmul f x (of_Z f 2)) = 2 * mag f x
   else fmul f x (of_Z f 2) = S754_infinity (sign x)).
Proof.
  intros Vx Fx. assert (Z.abs 2 < 2 ^ p) as H2 by (pose proof (pow2_le 2 p); lia).
  destruct (of_Z_exact 2 H2) as (V2 & S2 & F2 & M2). pose proof unit_pos as Hu.
  pose proof (mag_nonneg f x) as Hx.
  pose proof (fmul_rounded x (of_Z f 2) Vx V2 Fx F2) as H. rewrite M2, S2, xorb_false_r in H.
  apply (rounded_proper f _ _ _ (2 * mag f x) 1) in H; try nia.
  assert (round p (2 * mag f x) 1 = 2 * mag f x) as E.
  { destruct x as [| | |s m e]; cbn [mag] in *; try apply (round_0 f); try lia.
    apply valid_finite in Vx as ([??] & ? & _).
    replace (2 * (Zpos m * 2 ^ (e - fmin f))) with (Zpos m * 2 ^ (e - fmin f + 1))
      by (rewrite pow2_split by lia; ring).
    apply round_exact; lia. }
  destruct H as (Hv & Hs & H). rewrite E in H. split; [done|].
  destruct (2 * mag f x <=? mag_max f); [|done]. tauto.
Qed.

End operations.
