(* ===== verification/Clock.v ===== *)
(** * Clock arithmetic: src/src/detail/time.hpp

    [SteadyClock::time_point] and [SteadyClock::duration] are signed 64-bit
    nanosecond counts, held as Z; [std::chrono::duration<double>] is its
    [double] count of seconds. *)

From S2P Require Export FloatTheory.

(** [SteadyClock::period] is [std::nano]. *)
Definition period_num : Z := 1.
Definition period_den : Z := 1000000000.

(** [SteadyClock::duration::max().count()] and [time_point::max()] *)
Definition duration_max : Z := int64_max.
Definition time_point_max : Z := int64_max.

Section clock.
  Context `{P : Platform}.

(** The tick count [checked_duration] computes before it tests the range. *)
Definition duration_ticks (duration : float) : float :=
  fdiv long_double
    (fmul long_double (convert long_double duration) (of_Z long_double period_den))
    (of_Z long_double period_num).

Definition checked_duration (duration : float) : result Z :=
  let ticks := duration_ticks duration in
  if negb (is_finite ticks) || flt ticks (of_Z long_double 0)
     || fle (of_Z long_double duration_max) ticks
  then Throw (InvalidArgument "duration is outside the supported steady-clock range")
  else Ok (trunc ticks).

Definition checked_deadline (origin : Z) (duration : float) : result Z :=
  ticks ← checked_duration duration;
  if time_point_max - ticks <? origin
  then Throw (InvalidArgument "deadline is outside the supported steady-clock range")
  else Ok (origin + ticks).

End clock.

(** ** Conversions between the two duration types

    [std::chrono]'s implicit conversions: an integral nanosecond count becomes
    a [double] count of seconds by one division, and comparing the two kinds
    converts both to [double] nanoseconds. *)

Definition seconds_of_ns (ns : Z) : float := fdiv binary64 (dbl ns) (dbl period_den).
Definition ns_lt_seconds (ns : Z) (seconds : float) : bool :=
  flt (dbl ns) (fmul binary64 seconds (dbl period_den)).

(** ** Properties *)

Section clock_facts.
  Context {P : Platform} {HP : PlatformLaws P}.

  #[local] Existing Instance long_double_wf.
  Abbreviation ld := (@long_double P).

Lemma of_Z_ld z : Z.abs z < 2 ^ 53 ->
  valid ld (of_Z ld z) = true /\ sign (of_Z ld z) = (z <? 0) /\ is_finite (of_Z ld z) = true /\
  mag ld (of_Z ld z) = Z.abs z * unit_of ld.
Proof.
  intros Hz. apply of_Z_exact; [typeclasses eauto|]. pose proof long_double_prec.
  pose proof (pow2_le 53 (prec ld)). lia.
Qed.

(** The exact magnitude of [duration_ticks] before its two roundings that
    change it, as a chain of [rounded] steps. *)
Lemma duration_ticks_rounded d : valid binary64 d = true -> is_finite d = true ->
  rounded ld (sign d) (mag binary64 d * 2 ^ Z.max 0 (fmin binary64 - fmin ld))
    (2 ^ Z.max 0 (fmin ld - fmin binary64)) (convert ld d).
Proof. intros Vd Fd. apply convert_rounded; done || typeclasses eauto. Qed.

Lemma rounded_sign f s n d r : rounded f s n d r -> sign r = s.
Proof. intros (_ & H & _). done. Qed.

Lemma is_finite_fmul f x y : is_finite (fmul f x y) = true -> is_finite x = true.
Proof. destruct x, y; done. Qed.

Lemma is_finite_fdiv f x y : is_finite y = true -> is_finite (fdiv f x y) = true ->
  is_finite x = true.
Proof. destruct x, y; done. Qed.

Lemma is_finite_convert f x : is_finite (convert f x) = true -> is_finite x = true.
Proof. destruct x; done. Qed.

Lemma duration_ticks_finite d : is_finite (duration_ticks d) = true ->
  is_finite d = true /\ is_finite (convert ld d) = true /\
  is_finite (fmul ld (convert ld d) (of_Z ld period_den)) = true.
Proof.
  intros H. destruct (of_Z_ld period_num ltac:(reflexivity)) as (_ & _ & F1 & _).
  apply is_finite_fdiv in H; [|done]. pose proof (is_finite_fmul _ _ _ H) as Hc.
  eauto using is_finite_convert.
Qed.

(** The only exception of the two checks. *)
Lemma checked_deadline_throw now d e : checked_deadline now d = Throw e ->
  exists what, e = InvalidArgument what.
Proof.
  unfold checked_deadline, checked_duration.
  destruct (_ || _); cbn [mbind result_bind]; [intros [= <-]; by eexists|].
  destruct (_ <? _); [intros [= <-]; by eexists|done].
Qed.

(** Sign and validity of the tick count, and its order. *)
Lemma duration_ticks_facts d : valid binary64 d = true ->
  is_finite (duration_ticks d) = true ->
  valid ld (duration_ticks d) = true /\ sign (duration_ticks d) = sign d.
Proof.
  intros Vd F. destruct (duration_ticks_finite d F) as (Fd & Fc & Fm).
  destruct (of_Z_ld period_num ltac:(reflexivity)) as (V1 & S1 & F1 & M1).
  destruct (of_Z_ld period_den ltac:(reflexivity)) as (V2 & S2 & F2 & M2).
  pose proof (duration_ticks_rounded d Vd Fd) as Rc.
  pose proof (rounded_valid ld _ _ _ _ Rc) as Vc.
  pose proof (fmul_rounded ld _ _ Vc V2 Fc F2) as Rm.
  pose proof (rounded_valid ld _ _ _ _ Rm) as Vm.
  pose proof (unit_pos ld).
  pose proof (fdiv_rounded ld _ _ Vm V1 Fm F1 ltac:(rewrite M1; unfold period_num; lia)) as Rd.
  split; [exact (rounded_valid ld _ _ _ _ Rd)|].
  unfold duration_ticks. rewrite (rounded_sign _ _ _ _ _ Rd), (rounded_sign _ _ _ _ _ Rm),
    (rounded_sign _ _ _ _ _ Rc), S1, S2. simpl. rewrite !xorb_false_r. done.
Qed.

Lemma duration_ticks_mono d1 d2 :
  valid binary64 d1 = true -> valid binary64 d2 = true -> is_finite d1 = true ->
  is_finite (duration_ticks d2) = true -> mag binary64 d1 <= mag binary64 d2 ->
  is_finite (duration_ticks d1) = true /\
  mag ld (duration_ticks d1) <= mag ld (duration_ticks d2).
Proof.
  intros Vd1 Vd2 Fd1 F Hle. destruct (duration_ticks_finite d2 F) as (Fd2 & Fc2 & Fm2).
  destruct (of_Z_ld period_num ltac:(reflexivity)) as (V1 & S1 & F1 & M1).
  destruct (of_Z_ld period_den ltac:(reflexivity)) as (V2 & S2 & F2 & M2).
  pose proof (unit_pos ld) as Hu. assert (0 < mag ld (of_Z ld period_num)) as Hn by (rewrite M1; unfold period_num; lia).
  pose proof (duration_ticks_rounded d1 Vd1 Fd1) as Rc1.
  pose proof (duration_ticks_rounded d2 Vd2 Fd2) as Rc2.
  destruct (rounded_mono ld _ _ _ _ _ _ _ _ Rc1 Rc2 Fc2) as [Fc1 Hc];
    try (apply Z.mul_nonneg_nonneg; auto with netft); try zpos.
  { apply Z.mul_le_mono_nonneg_r; [lia|]. apply Z.mul_le_mono_nonneg_r; lia. }
  pose proof (fmul_rounded ld _ _ (rounded_valid ld _ _ _ _ Rc1) V2 Fc1 F2) as Rm1.
  pose proof (fmul_rounded ld _ _ (rounded_valid ld _ _ _ _ Rc2) V2 Fc2 F2) as Rm2.
  pose proof (mag_nonneg ld (of_Z ld period_den)).
  destruct (rounded_mono ld _ _ _ _ _ _ _ _ Rm1 Rm2 Fm2) as [Fm1 Hm];
    try (apply Z.mul_nonneg_nonneg; auto with netft); try lia.
  { apply Z.mul_le_mono_nonneg_r; [lia|]. apply Z.mul_le_mono_nonneg_r; lia. }
  pose proof (fdiv_rounded ld _ _ (rounded_valid ld _ _ _ _ Rm1) V1 Fm1 F1 Hn) as Rd1.
  pose proof (fdiv_rounded ld _ _ (rounded_valid ld _ _ _ _ Rm2) V1 Fm2 F1 Hn) as Rd2.
  apply (rounded_mono ld _ _ _ _ _ _ _ _ Rd1 Rd2 F);
    try (apply Z.mul_nonneg_nonneg; auto with netft); try lia.
  apply Z.mul_le_mono_nonneg_r; [lia|]. apply Z.mul_le_mono_nonneg_r; lia.
Qed.

(** The range test passes exactly on the tick counts [0 <= ticks < max]. *)
Lemma checked_duration_ok d t : checked_duration d = Ok t ->
  is_finite (duration_ticks d) = true /\ flt (duration_ticks d) (of_Z ld 0) = false /\
  fle (of_Z ld duration_max) (duration_ticks d) = false /\ t = trunc (duration_ticks d).
Proof.
  unfold checked_duration. destruct (is_finite _), (flt _ _), (fle _ _); simpl; try discriminate.
  intros [= <-]. done.
Qed.

Lemma duration_max_float :
  valid ld (of_Z ld duration_max) = true /\ sign (of_Z ld duration_max) = false /\
  is_finite (of_Z ld duration_max) = true /\
  mag ld (of_Z ld duration_max) <= 2 ^ 63 * unit_of ld.
Proof.
  pose proof long_double_emax.
  destruct (of_Z_bounded ld duration_max 63 ltac:(unfold duration_max, int64_max; lia) ltac:(lia))
    as (? & ? & ? & _ & ?). done.
Qed.

(** What a passed range test means for the magnitude of the tick count. *)
Lemma checked_duration_mag d t : valid binary64 d = true -> checked_duration d = Ok t ->
  is_finite (duration_ticks d) = true /\
  (sign d = true -> mag ld (duration_ticks d) = 0) /\
  mag ld (duration_ticks d) < mag ld (of_Z ld duration_max) /\
  t = mag ld (duration_ticks d) / unit_of ld.
Proof.
  intros Vd (F & Hneg & Hmax & ->)%checked_duration_ok.
  destruct (duration_ticks_facts d Vd F) as (Vt & St).
  destruct (of_Z_ld 0 ltac:(reflexivity)) as (V0 & S0 & F0 & M0).
  destruct duration_max_float as (Vm & Sm & Fm & _).
  rewrite (flt_sval ld) in Hneg by done. rewrite (fle_sval ld) in Hmax by done.
  bool_to_prop. unfold sval in *. rewrite S0, M0 in Hneg. rewrite Sm in Hmax.
  change (Z.abs 0 * unit_of ld) with 0 in Hneg. simpl in Hneg.
  pose proof (mag_nonneg ld (duration_ticks d)).
  rewrite St in *. split; [done|]. split; [intros E; rewrite E in *; lia|].
  destruct (sign d) eqn:Sd.
  - assert (mag ld (duration_ticks d) = 0) as M by lia. rewrite M. split; [lia|].
    apply (mag_zero_iff ld) in M as [s ->]; [|done..]. simpl.
    rewrite Z.div_0_l; [done|]. pose proof (unit_pos ld). lia.
  - split; [lia|]. apply (trunc_spec ld); done.
Qed.

Lemma checked_duration_range d t : valid binary64 d = true -> checked_duration d = Ok t ->
  0 <= t <= duration_max.
Proof.
  intros Vd (F & _ & Hlt & ->)%checked_duration_mag; [|done].
  destruct duration_max_float as (_ & _ & _ & Hle). pose proof (unit_pos ld).
  pose proof (mag_nonneg ld (duration_ticks d)). split; [apply Z.div_pos; lia|].
  unfold duration_max, int64_max. cut (mag ld (duration_ticks d) / unit_of ld < 2 ^ 63); [lia|].
  apply Z.div_lt_upper_bound; lia.
Qed.

Lemma checked_duration_monotone d1 d2 t2 :
  valid binary64 d1 = true -> valid binary64 d2 = true -> is_finite d1 = true ->
  sign d1 = false -> mag binary64 d1 <= mag binary64 d2 -> checked_duration d2 = Ok t2 ->
  exists t1, checked_duration d1 = Ok t1 /\ t1 <= t2.
Proof.
  intros V1 V2 F1 S1 Hle H2. pose proof (checked_duration_mag d2 t2 V2 H2) as (F & _ & Hlt & ->).
  destruct (duration_ticks_mono d1 d2 V1 V2 F1 F Hle) as [Ft1 Hm].
  destruct (duration_ticks_facts d1 V1 Ft1) as (Vt & St). rewrite S1 in St.
  destruct (of_Z_ld 0 ltac:(reflexivity)) as (V0 & S0 & F0 & M0).
  destruct duration_max_float as (Vm & Sm & Fm & _). pose proof (unit_pos ld).
  exists (trunc (duration_ticks d1)). split.
  - unfold checked_duration. rewrite Ft1, (flt_sval ld), (fle_sval ld) by done.
    unfold sval. rewrite S0, M0, Sm, St. pose proof (mag_nonneg ld (duration_ticks d1)).
    change (0 <? 0) with false. change (Z.abs 0 * unit_of ld) with 0. cbv iota.
    destruct (Z.ltb_spec (mag ld (duration_ticks d1)) 0); [lia|].
    destruct (Z.leb_spec (mag ld (of_Z ld duration_max)) (mag ld (duration_ticks d1))); [lia|]. done.
  - rewrite (trunc_spec ld) by done. apply Z.div_le_mono; lia.
Qed.

Lemma checked_deadline_ok origin d t : checked_deadline origin d = Ok t ->
  exists n, checked_duration d = Ok n /\ t = origin + n /\ origin + n <= time_point_max.
Proof.
  unfold checked_deadline. destruct (checked_duration d) as [n|]; simpl; [|discriminate].
  destruct (Z.ltb_spec (time_point_max - n) origin); [discriminate|]. intros [= <-].
  eexists. repeat split. lia.
Qed.

(** An operation whose exact result is an integer below [2 ^ 53] is exact. *)
Lemma rounded_integer s n d k r : 0 <= n -> 0 < d -> 0 <= k < 2 ^ 53 ->
  n = k * unit_of ld * d -> rounded ld s n d r ->
  valid ld r = true /\ sign r = s /\ is_finite r = true /\ mag ld r = k * unit_of ld.
Proof.
  intros Hn Hd Hk E Hr. pose proof (unit_pos ld) as Hu. pose proof (fmin_le ld) as Hfm.
  pose proof long_double_prec as Hprec. pose proof (pow2_le 53 (prec ld) Hprec) as Hp.
  apply (rounded_proper ld s n d (k * unit_of ld) 1) in Hr; try zpos; try lia.
  assert (round (prec ld) (k * unit_of ld) 1 = k * unit_of ld) as Hex.
  { unfold unit_of. apply round_exact; [apply wf_prec|lia|lia]. }
  destruct (rounded_finite ld _ _ _ _ Hr) as (? & ? & ? & ->); rewrite Hex; [|done].
  pose proof long_double_emax. pose proof (pow2_mag_max ld 53 ltac:(lia)). nia.
Qed.

(** Whole seconds convert exactly on every platform while the nanosecond
    count stays below [2 ^ 53]. *)
Lemma duration_ticks_whole z : 0 <= z * period_den < 2 ^ 53 ->
  valid ld (duration_ticks (dbl z)) = true /\ sign (duration_ticks (dbl z)) = false /\
  is_finite (duration_ticks (dbl z)) = true /\
  mag ld (duration_ticks (dbl z)) = z * period_den * unit_of ld.
Proof.
  intros Hz. assert (0 <= z < 2 ^ 53) as Hz1 by (unfold period_den in Hz; lia).
  destruct (of_Z_exact binary64 z ltac:(unfold binary64; simpl prec; lia)) as (Vz & Sz & Fz & Mz).
  destruct (of_Z_ld period_num ltac:(reflexivity)) as (V1 & S1 & F1 & M1).
  destruct (of_Z_ld period_den ltac:(reflexivity)) as (V2 & S2 & F2 & M2).
  pose proof (unit_pos ld) as Hu. pose proof long_double_prec. pose proof long_double_emax.
  assert (fmin ld <= fmin binary64) as Hmin by (unfold fmin, emin, binary64; simpl; lia).
  pose proof (duration_ticks_rounded (dbl z) Vz Fz) as Rc.
  rewrite Mz, Z.abs_eq, Z.max_r, Z.max_l in Rc by lia.
  apply (rounded_integer _ _ _ z) in Rc as (Vc & Sc & Fc & Mc); [|unfold unit_of; zpos|zpos|lia|].
  2: { unfold unit_of. rewrite Z.pow_0_r, Z.mul_1_r, <- Z.mul_assoc.
       rewrite <- pow2_split by (unfold fmin, emin, binary64 in *; simpl in *; lia).
       f_equal. f_equal. lia. }
  pose proof (fmul_rounded ld _ _ Vc V2 Fc F2) as Rm. rewrite Mc, M2 in Rm.
  apply (rounded_integer _ _ _ (z * period_den)) in Rm as (Vm & Sm & Fm & Mm);
    [|unfold period_den; zpos|lia|lia|change (Z.abs period_den) with period_den; ring].
  pose proof (fdiv_rounded ld _ _ Vm V1 Fm F1 ltac:(rewrite M1; unfold period_num; lia)) as Rd.
  rewrite Mm, M1 in Rd.
  apply (rounded_integer _ _ _ (z * period_den)) in Rd as (Vd & Sd & Fd & Md);
    [|unfold period_den; zpos|unfold period_num; lia|lia|change (Z.abs period_num) with 1; ring].
  split; [exact Vd|]. split; [|split; [exact Fd|exact Md]].
  unfold duration_ticks. rewrite Sd, Sm, Sc, Sz, S1, S2. destruct (Z.ltb_spec z 0); [lia|done].
Qed.

Lemma duration_max_large : 2 ^ 53 * unit_of ld <= mag ld (of_Z ld duration_max).
Proof.
  pose proof long_double_emax. pose proof (unit_pos ld). pose proof (fmin_le ld) as Hf.
  destruct (of_Z_bounded ld duration_max 63 ltac:(unfold duration_max, int64_max; lia) ltac:(lia))
    as (_ & _ & _ & -> & _).
  assert (2 ^ 53 * unit_of ld = 1 * 2 ^ (53 - fmin ld)) as E.
  { unfold unit_of. rewrite <- pow2_split, Z.mul_1_l by lia. f_equal. }
  assert (round (prec ld) (2 ^ 53 * unit_of ld) 1 = 2 ^ 53 * unit_of ld) as Hex.
  { rewrite E. apply round_exact; [apply wf_prec| |lia]. pose proof long_double_prec.
    split; [lia|apply Z.pow_gt_1; lia]. }
  rewrite <- Hex. apply round_mono; try lia; [apply wf_prec|].
  rewrite !Z.mul_1_r. apply Z.mul_le_mono_nonneg_r; [lia|]. unfold duration_max, int64_max. lia.
Qed.

(** ** Properties *)

(** C16: [checked_deadline] never overflows the clock: on every platform a
    deadline it returns is the origin plus the truncated tick count, which lies
    in [0, max], and the sum is at most the largest time point; and it is
    monotone, in that any shorter non-negative duration from the same origin
    has a deadline too, no later than this one. *)
Theorem checked_deadline_safe origin d t :
  valid binary64 d = true -> checked_deadline origin d = Ok t ->
  (exists n, t = origin + n /\ 0 <= n <= duration_max /\ t <= time_point_max) /\
  (forall d', valid binary64 d' = true -> is_finite d' = true -> sign d' = false ->
     mag binary64 d' <= mag binary64 d ->
     exists t', checked_deadline origin d' = Ok t' /\ t' <= t).
Proof.
  intros Vd H. destruct (checked_deadline_ok _ _ _ H) as (n & Hn & -> & Hmax).
  split; [exists n; split; [done|]; split; [by eapply checked_duration_range|done]|].
  intros d' V' F' S' Hle. destruct (checked_duration_monotone d' d n V' Vd F' S' Hle Hn) as (n' & Hn' & ?).
  exists (origin + n'). unfold checked_deadline. rewrite Hn'. simpl.
  destruct (Z.ltb_spec (time_point_max - n') origin); [lia|]. split; [done|lia].
Qed.

(** A whole number of seconds converts to the exact tick count on every
    platform, whatever the format of [long double], while the nanoseconds stay
    below 2^53. *)
Theorem checked_duration_whole z : 0 <= z * period_den < 2 ^ 53 ->
  checked_duration (dbl z) = Ok (z * period_den).
Proof.
  intros Hz. destruct (duration_ticks_whole z Hz) as (Vt & St & Ft & Mt).
  destruct (of_Z_ld 0 ltac:(reflexivity)) as (V0 & S0 & F0 & M0).
  pose proof (unit_pos ld) as Hu. pose proof long_double_emax as Hemax.
  pose proof duration_max_large as Hm. destruct duration_max_float as (Vm & Sm & Fm & _).
  unfold checked_duration. rewrite Ft, (flt_sval ld), (fle_sval ld) by done.
  unfold sval. rewrite S0, M0, Sm, St, Mt.
  assert (z * period_den * unit_of ld < 2 ^ 53 * unit_of ld) by (apply Z.mul_lt_mono_pos_r; lia).
  assert (0 <= z * period_den * unit_of ld) by (apply Z.mul_nonneg_nonneg; lia).
  change (Z.abs 0 * unit_of ld) with 0. change (0 <? 0) with false. cbv iota.
  destruct (Z.ltb_spec (z * period_den * unit_of ld) 0); [lia|].
  destruct (Z.leb_spec (mag ld (of_Z ld duration_max)) (z * period_den * unit_of ld)); [lia|].
  simpl. rewrite (trunc_spec ld) by done. rewrite Mt, Z.div_mul by lia. done.
Qed.

End clock_facts.

Definition one_tenth : float := of_frac binary64 1 10.

Lemma checked_deadline_safe_witness :
  exists n, 100000005 = 5 + n /\ 0 <= n <= duration_max /\ 100000005 <= time_point_max.
Proof.
  exact (proj1 (checked_deadline_safe (P := linux_x86_64) 5 one_tenth 100000005 eq_refl
    ltac:(vm_compute; reflexivity))).
Defined.

Lemma checked_duration_whole_witness : checked_duration (P := macos_arm64) (dbl 5) = Ok 5000000000.
Proof. apply (checked_duration_whole (P := macos_arm64) 5). unfold period_den. lia. Defined.
