(* ===== verification/Types.v ===== *)
(** * Data types and validation: src/include/netft/types.hpp, src/src/types.cpp *)

From S2P Require Export Clock.

(** ** Enumerations *)

Inductive ForceUnit :=
| ForceUnknown | PoundForce | Newton | KiloPoundForce | KiloNewton | KilogramForce.

Inductive TorqueUnit :=
| TorqueUnknown | PoundForceInch | PoundForceFoot | NewtonMeter | NewtonMillimeter
| KilogramForceCentimeter | KiloNewtonMeter.

Inductive CalibrationSource := Sensor | Override.
Inductive RecoveryPolicy := Reconnect | FailStop.
Inductive ClientState := Stopped | Connecting | Streaming | Backoff | Faulted.

Inductive FaultCode :=
| FaultNone | FaultSensorConfiguration | FaultTimeout | FaultSocket | FaultSeriousStatus
| FaultFtStall | FaultFtBackward | FaultMalformedStorm | FaultCallback.

#[export] Instance ForceUnit_eq_dec : EqDecision ForceUnit.
Proof. solve_decision. Defined.
#[export] Instance TorqueUnit_eq_dec : EqDecision TorqueUnit.
Proof. solve_decision. Defined.
#[export] Instance CalibrationSource_eq_dec : EqDecision CalibrationSource.
Proof. solve_decision. Defined.
#[export] Instance RecoveryPolicy_eq_dec : EqDecision RecoveryPolicy.
Proof. solve_decision. Defined.
#[export] Instance ClientState_eq_dec : EqDecision ClientState.
Proof. solve_decision. Defined.
#[export] Instance FaultCode_eq_dec : EqDecision FaultCode.
Proof. solve_decision. Defined.
#[export] Instance spec_float_eq_dec : EqDecision spec_float.
Proof. solve_decision. Defined.

(** ** Structures *)

Record Calibration := MkCalibration {
  counts_per_force_unit : float;
  counts_per_torque_unit : float;
  force_unit : ForceUnit;
  torque_unit : TorqueUnit;
}.

#[export] Instance Calibration_eq_dec : EqDecision Calibration.
Proof. solve_decision. Defined.

Record SensorConfiguration := MkSensorConfiguration {
  product_name : string;
  calibration : Calibration;
  source : CalibrationSource;
  revision : Z;
}.
#[export] Instance SensorConfiguration_eta : Eta SensorConfiguration := fun c =>
  MkSensorConfiguration (product_name c) (calibration c) (source c) (revision c).

Record Config := MkConfig {
  config_sensor_host : string;
  config_rdt_port : Z;
  config_http_port : Z;
  receive_timeout : float;
  configuration_connect_timeout : float;
  configuration_timeout : float;
  reconnect_initial_delay : float;
  reconnect_max_delay : float;
  sample_rate_limit_hz : float;
  deliver_samples_with_error_status : bool;
  recovery_policy : RecoveryPolicy;
  calibration_override : option Calibration;
}.

(** The default member initialisers of [Config]. *)
Definition default_config : Config := {|
  config_sensor_host := "192.168.1.1";
  config_rdt_port := 49152;
  config_http_port := 80;
  receive_timeout := of_frac binary64 1 10;
  configuration_connect_timeout := of_frac binary64 1 2;
  configuration_timeout := of_frac binary64 1 1;
  reconnect_initial_delay := of_frac binary64 1 4;
  reconnect_max_delay := of_frac binary64 5 1;
  sample_rate_limit_hz := S754_zero false;
  deliver_samples_with_error_status := false;
  recovery_policy := Reconnect;
  calibration_override := None;
|}.
#[export] Instance Config_eta : Eta Config := fun c =>
  MkConfig (config_sensor_host c) (config_rdt_port c) (config_http_port c) (receive_timeout c)
    (configuration_connect_timeout c) (configuration_timeout c) (reconnect_initial_delay c)
    (reconnect_max_delay c) (sample_rate_limit_hz c) (deliver_samples_with_error_status c)
    (recovery_policy c) (calibration_override c).

(** [Sample]: the six axes are lists of length 6, 3 and 3. *)
Record Sample := MkSample {
  sample_rdt_sequence : Z;
  sample_ft_sequence : Z;
  sample_status : Z;
  raw_wrench : list Z;
  force : list float;
  torque : list float;
  sample_force_unit : ForceUnit;
  sample_torque_unit : TorqueUnit;
  configuration_revision : Z;
  received_at : Z;
}.

(** Counters are unsigned 64-bit; [receive_rate_hz] and [delivery_rate_hz] are
    the [double] of a container size, kept as that size; [last_record_age] is
    kept in nanoseconds. *)
Record HealthSnapshot := MkHealthSnapshot {
  state : ClientState;
  health_fault_code : FaultCode;
  health_sensor_host : string;
  health_rdt_port : Z;
  sensor_configuration : option SensorConfiguration;
  last_rdt_sequence : option Z;
  last_ft_sequence : option Z;
  last_status : Z;
  receive_rate_hz : Z;
  delivery_rate_hz : Z;
  received_count : Z;
  delivered_count : Z;
  rate_limited_count : Z;
  device_error_count : Z;
  warning_count : Z;
  lost_count : Z;
  duplicate_count : Z;
  out_of_order_count : Z;
  malformed_count : Z;
  reconnect_count : Z;
  timeout_count : Z;
  callback_error_count : Z;
  ft_stall_count : Z;
  ft_backward_count : Z;
  ft_restart_count : Z;
  calibration_change_count : Z;
  last_record_age : option Z;
  last_error : string;
  last_ft_progress : string;
}.
#[export] Instance HealthSnapshot_eta : Eta HealthSnapshot := fun h =>
  MkHealthSnapshot (state h) (health_fault_code h) (health_sensor_host h) (health_rdt_port h)
    (sensor_configuration h) (last_rdt_sequence h) (last_ft_sequence h) (last_status h)
    (receive_rate_hz h) (delivery_rate_hz h) (received_count h) (delivered_count h)
    (rate_limited_count h) (device_error_count h) (warning_count h) (lost_count h)
    (duplicate_count h) (out_of_order_count h) (malformed_count h) (reconnect_count h)
    (timeout_count h) (callback_error_count h) (ft_stall_count h) (ft_backward_count h)
    (ft_restart_count h) (calibration_change_count h) (last_record_age h) (last_error h)
    (last_ft_progress h).

Definition default_health : HealthSnapshot :=
  MkHealthSnapshot Stopped FaultNone "" 0 None None None 0 0 0 0 0 0 0 0 0 0 0 0 0 0 0 0 0 0 0
    None "" "unknown".

(** ** Validation *)

(** [std::isspace] in the "C" locale, and the same six characters
    [is_ascii_whitespace] lists. *)
Definition is_space (c : Ascii.ascii) : bool :=
  let n := Ascii.N_of_ascii c in ((9 <=? n) && (n <=? 13) || (n =? 32))%N.

Fixpoint string_forallb (p : Ascii.ascii -> bool) (s : string) : bool :=
  match s with
  | EmptyString => true
  | String c s' => p c && string_forallb p s'
  end.

Definition is_blank (value : string) : bool :=
  match value with EmptyString => true | _ => string_forallb is_space value end.

Definition require_positive_finite (name : string) (value : float) : result unit :=
  if negb (is_finite value) || fle value (S754_zero false)
  then Throw (InvalidArgument (name +:+ " must be finite and positive"))
  else Ok tt.

(** [std::ceil(static_cast<long double>(value) * 1000.0L)] *)
Definition http_milliseconds `{Platform} (value : float) : float :=
  ceil long_double (fmul long_double (convert long_double value) (of_Z long_double 1000)).

(** [now] is what [SteadyClock::now()] returned to this call. *)
Definition require_safe_timeout `{Platform} (now : Z) (name : string) (value : float)
    (http : bool) : result unit :=
  _ ← require_positive_finite name value;
  d ← checked_duration value;
  _ ← throw_if (d <=? 0) (InvalidArgument (name +:+ " is below the steady-clock resolution"));
  _ ← checked_deadline now value;
  throw_if (http && fle (of_Z long_double long_max) (http_milliseconds value))
    (InvalidArgument (name +:+ " is outside the HTTP timer range")).

Definition require_port (name : string) (value : Z) : result unit :=
  throw_if ((value <? 1) || (65535 <? value))
    (InvalidArgument (name +:+ " must be in the range 1..65535")).

(** The constants of [require_safe_count]: [magnitude] is 2^31. *)
Definition magnitude : float := fneg (dbl int32_min).
Definition minimum_count : float :=
  fmul binary64 (fdiv binary64 magnitude (fmax binary64))
    (fadd binary64 (dbl 1) (epsilon binary64)).

Definition require_safe_count (name : string) (value : float) : result unit :=
  _ ← require_positive_finite name value;
  throw_if (flt value minimum_count)
    (InvalidArgument (name +:+ " cannot represent the full raw count range")).

Definition validate_calibration (c : Calibration) : result unit :=
  _ ← require_safe_count "counts_per_force_unit" (counts_per_force_unit c);
  _ ← require_safe_count "counts_per_torque_unit" (counts_per_torque_unit c);
  throw_if (bool_decide (force_unit c = ForceUnknown) || bool_decide (torque_unit c = TorqueUnknown))
    (InvalidArgument "calibration units must be known").

(** [now k] is the [k]-th reading of the steady clock during the call. *)
Definition validate_config `{Platform} (now : nat -> Z) (config : Config) : result unit :=
  _ ← throw_if (is_blank (config_sensor_host config))
        (InvalidArgument "sensor_host must not be blank");
  _ ← require_port "rdt_port" (config_rdt_port config);
  _ ← require_port "http_port" (config_http_port config);
  _ ← require_safe_timeout (now 0%nat) "receive_timeout" (receive_timeout config) false;
  _ ← require_safe_timeout (now 1%nat) "configuration_connect_timeout"
        (configuration_connect_timeout config) true;
  _ ← require_safe_timeout (now 2%nat) "configuration_timeout"
        (configuration_timeout config) true;
  _ ← require_safe_timeout (now 3%nat) "reconnect_initial_delay"
        (reconnect_initial_delay config) false;
  _ ← require_safe_timeout (now 4%nat) "reconnect_max_delay" (reconnect_max_delay config) false;
  _ ← throw_if (flt (reconnect_max_delay config) (reconnect_initial_delay config))
        (InvalidArgument "reconnect_max_delay must not be below reconnect_initial_delay");
  _ ← throw_if (negb (is_finite (sample_rate_limit_hz config))
                || flt (sample_rate_limit_hz config) (S754_zero false))
        (InvalidArgument "sample_rate_limit_hz must be finite and non-negative");
  match calibration_override config with
  | Some c => validate_calibration c
  | None => Ok tt
  end.

(** ** Strings *)

Definition force_unit_to_string (unit : ForceUnit) : string :=
  match unit with
  | PoundForce => "lbf"
  | Newton => "N"
  | KiloPoundForce => "klbf"
  | KiloNewton => "kN"
  | KilogramForce => "kgf"
  | ForceUnknown => "unknown"
  end.

Definition torque_unit_to_string (unit : TorqueUnit) : string :=
  match unit with
  | PoundForceInch => "lbf-in"
  | PoundForceFoot => "lbf-ft"
  | NewtonMeter => "N-m"
  | NewtonMillimeter => "N-mm"
  | KilogramForceCentimeter => "kgf-cm"
  | KiloNewtonMeter => "kN-m"
  | TorqueUnknown => "unknown"
  end.

(** The unit tables the two loops walk, in their order. *)
Definition force_units : list ForceUnit :=
  [ForceUnknown; PoundForce; Newton; KiloPoundForce; KiloNewton; KilogramForce].
Definition torque_units : list TorqueUnit :=
  [TorqueUnknown; PoundForceInch; PoundForceFoot; NewtonMeter; NewtonMillimeter;
   KilogramForceCentimeter; KiloNewtonMeter].

Definition force_unit_from_string (value : string) : option ForceUnit :=
  List.find (fun u => String.eqb (force_unit_to_string u) value) force_units.

Definition torque_unit_from_string (value : string) : option TorqueUnit :=
  List.find (fun u => String.eqb (torque_unit_to_string u) value) torque_units.

Definition client_state_to_string (s : ClientState) : string :=
  match s with
  | Stopped => "stopped"
  | Connecting => "connecting"
  | Streaming => "streaming"
  | Backoff => "backoff"
  | Faulted => "faulted"
  end.

Definition fault_code_to_string (code : FaultCode) : string :=
  match code with
  | FaultNone => "none"
  | FaultSensorConfiguration => "sensor_configuration"
  | FaultTimeout => "timeout"
  | FaultSocket => "socket"
  | FaultSeriousStatus => "serious_status"
  | FaultFtStall => "ft_stall"
  | FaultFtBackward => "ft_backward"
  | FaultMalformedStorm => "malformed_storm"
  | FaultCallback => "callback"
  end.

(** ** Lemmas *)

(** The calibrations [validate] accepts. *)
Definition safe_count (c : float) : Prop :=
  is_finite c = true /\ fle c (S754_zero false) = false /\ flt c minimum_count = false.

(** The same with counts that are doubles. *)
Definition valid_calibration (c : Calibration) : Prop :=
  valid binary64 (counts_per_force_unit c) = true /\
  valid binary64 (counts_per_torque_unit c) = true /\ validate_calibration c = Ok tt.

Lemma require_positive_finite_ok name v u :
  require_positive_finite name v = Ok u <->
  is_finite v = true /\ fle v (S754_zero false) = false.
Proof.
  unfold require_positive_finite. destruct u, (is_finite v), (fle _ _); simpl;
    split; intros; destruct_and?; done.
Qed.

Lemma require_safe_count_ok name v u : require_safe_count name v = Ok u <-> safe_count v.
Proof.
  unfold require_safe_count, safe_count. rewrite bind_ok.
  setoid_rewrite require_positive_finite_ok. setoid_rewrite throw_if_ok. destruct u.
  split; [intros ([] & [? ?] & ?); done | intros (? & ? & ?); exists tt; done].
Qed.

Lemma validate_calibration_ok c u : validate_calibration c = Ok u <->
  safe_count (counts_per_force_unit c) /\ safe_count (counts_per_torque_unit c) /\
  force_unit c <> ForceUnknown /\ torque_unit c <> TorqueUnknown.
Proof.
  unfold validate_calibration. split.
  - intros (? & H1%require_safe_count_ok & (? & H2%require_safe_count_ok & H3%throw_if_ok)%bind_ok)%bind_ok.
    apply orb_false_iff in H3 as [?%bool_decide_eq_false ?%bool_decide_eq_false]. done.
  - intros (H1 & H2 & H3 & H4). destruct u.
    apply bind_ok; exists tt; split; [by apply require_safe_count_ok|].
    apply bind_ok; exists tt; split; [by apply require_safe_count_ok|].
    rewrite !bool_decide_eq_false_2 by done. done.
Qed.

Lemma minimum_count_value : minimum_count = S754_finite false 4503599627370498 (-1045).
Proof. vm_compute. reflexivity. Qed.

(** A safe count is positive and at least the minimum. *)
Lemma safe_count_mag c : valid binary64 c = true -> safe_count c ->
  sign c = false /\ is_finite c = true /\ mag binary64 minimum_count <= mag binary64 c.
Proof.
  intros Vc (Fc & Hpos & Hmin).
  rewrite (fle_sval binary64) in Hpos by done.
  rewrite (flt_sval binary64) in Hmin by (done || (rewrite minimum_count_value; done)).
  bool_to_prop. unfold sval in *. replace (sign minimum_count) with false in Hmin
    by (rewrite minimum_count_value; done).
  cbn [sign mag] in Hpos. pose proof (mag_nonneg binary64 c).
  destruct (sign c); [lia|]. done.
Qed.

Lemma int32_float raw : in_int32 raw ->
  valid binary64 (dbl raw) = true /\ sign (dbl raw) = (raw <? 0) /\
  is_finite (dbl raw) = true /\ mag binary64 (dbl raw) = Z.abs raw * unit_of binary64.
Proof.
  intros H. apply (of_Z_exact binary64). unfold in_int32, int32_min, int32_max in H.
  simpl prec. lia.
Qed.

Lemma minimum_count_covers :
  2 ^ 31 * unit_of binary64 * unit_of binary64 <= mag_max binary64 * mag binary64 minimum_count.
Proof. rewrite minimum_count_value. vm_compute. discriminate. Qed.

(** Dividing a raw count by a safe count never overflows. *)
Lemma raw_axis_rounded raw c : in_int32 raw -> valid binary64 c = true -> safe_count c ->
  is_finite (fdiv binary64 (dbl raw) c) = true /\
  sign (fdiv binary64 (dbl raw) c) = (raw <? 0) /\
  mag binary64 (fdiv binary64 (dbl raw) c) =
    round 53 (Z.abs raw * unit_of binary64 * unit_of binary64) (mag binary64 c).
Proof.
  intros Hraw Vc Sc. destruct (safe_count_mag c Vc Sc) as (Hs & Fc & Hmin).
  destruct (int32_float raw Hraw) as (Vr & Sr & Fr & Mr).
  pose proof minimum_count_covers as Hcov.
  assert (0 < mag binary64 minimum_count) as Hm0 by (rewrite minimum_count_value; reflexivity).
  unfold in_int32, int32_min, int32_max in Hraw.
  destruct (fdiv_bounded binary64 (dbl raw) c Vr Vc Fr Fc ltac:(lia)) as (_ & ? & ? & E).
  - rewrite Mr. etransitivity; [|apply (Z.le_trans _ _ _ Hcov)].
    + apply Z.mul_le_mono_nonneg_r; [|apply Z.mul_le_mono_nonneg_r; [|lia]];
        pose proof (unit_pos binary64); lia.
    + apply Z.mul_le_mono_nonneg_l; [|done]. pose proof (mag_max_pos binary64). lia.
  - rewrite Sr, Hs, xorb_false_r in *. rewrite Mr in E. done.
Qed.

Section timeouts.
  Context {P : Platform} {HP : PlatformLaws P}.

(** The durations [require_safe_timeout] accepts, apart from its clock reading. *)
Record safe_timeout (http : bool) (v : float) : Prop := {
  timeout_finite : is_finite v = true;
  timeout_positive : fle v (S754_zero false) = false;
  timeout_ticks : exists t, checked_duration v = Ok t /\ 0 < t;
  timeout_http : http = true -> fle (of_Z long_double long_max) (http_milliseconds v) = false;
}.

Definition deadline_fits (now : Z) (v : float) : Prop :=
  exists t, checked_duration v = Ok t /\ now + t <= time_point_max.

Lemma require_safe_timeout_ok now name v http u :
  require_safe_timeout now name v http = Ok u <-> safe_timeout http v /\ deadline_fits now v.
Proof.
  unfold require_safe_timeout. rewrite bind_ok. split.
  - intros (? & [Hf Hp]%require_positive_finite_ok & Hv).
    apply bind_ok in Hv as (d & Hd & Hv). apply bind_ok in Hv as (? & Hz%throw_if_ok & Hv).
    apply bind_ok in Hv as (t & Ht & Hh%throw_if_ok). bool_to_prop.
    destruct (checked_deadline_ok _ _ _ Ht) as (n & Hn & -> & ?). split.
    + constructor; [done|done|exists d; split; [done|lia]|]. intros ->. exact Hh.
    + exists n. auto.
  - intros [[Hf Hp (d & Hd & ?) Hh] (n & Hn & ?)]. rewrite Hd in Hn. injection Hn as <-.
    exists tt. split; [by apply require_positive_finite_ok|].
    unfold checked_deadline. rewrite Hd. simpl. destruct (Z.leb_spec d 0); [lia|]. simpl.
    destruct (Z.ltb_spec (time_point_max - d) now); [lia|]. simpl. destruct http, u; simpl; [|done].
    rewrite Hh; done.
Qed.

(** A positive finite [double] has a positive magnitude and no sign. *)
Lemma positive_finite_mag v : valid binary64 v = true -> is_finite v = true ->
  fle v (S754_zero false) = false -> sign v = false /\ 0 < mag binary64 v.
Proof.
  intros Vv Fv Hp. rewrite (fle_sval binary64) in Hp by done. bool_to_prop.
  unfold sval in Hp. cbn [sign mag] in Hp. pose proof (mag_nonneg binary64 v).
  destruct (sign v); [lia|]. done.
Qed.

End timeouts.

(** Every property of a validated configuration the client relies on. *)
Record safe_config `{Platform} (config : Config) : Prop := {
  safe_host : is_blank (config_sensor_host config) = false;
  safe_rdt_port : 1 <= config_rdt_port config <= 65535;
  safe_http_port : 1 <= config_http_port config <= 65535;
  safe_durations : Forall (safe_timeout false)
    [receive_timeout config; reconnect_initial_delay config; reconnect_max_delay config];
  safe_http_durations : Forall (safe_timeout true)
    [configuration_connect_timeout config; configuration_timeout config];
  safe_delays : flt (reconnect_max_delay config) (reconnect_initial_delay config) = false;
  safe_rate : is_finite (sample_rate_limit_hz config) = true /\
    flt (sample_rate_limit_hz config) (S754_zero false) = false;
  safe_override : forall c, calibration_override config = Some c -> validate_calibration c = Ok tt;
}.

(** The five deadlines [validate] computes, each from its own clock reading. *)
Definition config_deadlines_fit `{Platform} (now : nat -> Z) (config : Config) : Prop :=
  Forall2 deadline_fits [now 0%nat; now 1%nat; now 2%nat; now 3%nat; now 4%nat]
    [receive_timeout config; configuration_connect_timeout config; configuration_timeout config;
     reconnect_initial_delay config; reconnect_max_delay config].

Lemma validate_config_ok `{Platform} now config :
  validate_config now config = Ok tt <-> safe_config config /\ config_deadlines_fit now config.
Proof.
  unfold validate_config, require_port. split.
  - intros Hv.
    repeat match type of Hv with (_ ≫= _) = _ => apply bind_ok in Hv as ([] & ? & Hv) end.
    repeat match goal with
    | H : throw_if _ _ = Ok _ |- _ => apply throw_if_ok in H
    | H : require_safe_timeout _ _ _ _ = Ok _ |- _ => apply require_safe_timeout_ok in H as [? ?]
    end.
    bool_to_prop. split; [|repeat constructor; done]. constructor; auto 10.
    intros c E. rewrite E in Hv. done.
  - intros [[Hb Hr Hh Hd Hdh Hdel [Hf Hs] Ho] Hfit]. unfold config_deadlines_fit in Hfit.
    repeat match goal with
    | H : Forall _ (_ :: _) |- _ => apply Forall_cons_1 in H as [? H]
    | H : Forall2 _ (_ :: _) _ |- _ => apply Forall2_cons_1 in H as [? H]
    end.
    do 3 (apply bind_ok; exists tt; split; [apply throw_if_ok; try done; lia|]).
    do 5 (apply bind_ok; exists tt; split; [by apply require_safe_timeout_ok|]).
    do 2 (apply bind_ok; exists tt; split; [apply throw_if_ok; try done|]).
    { by rewrite Hf, Hs. }
    destruct (calibration_override config); auto.
Qed.

(** The unit names are distinct, so each parser inverts its printer. *)
Lemma force_unit_round_trip u : force_unit_from_string (force_unit_to_string u) = Some u.
Proof. destruct u; reflexivity. Qed.

Lemma torque_unit_round_trip u : torque_unit_from_string (torque_unit_to_string u) = Some u.
Proof. destruct u; reflexivity. Qed.

(** ** Properties *)

(** [validate(const Calibration &)] accepts exactly the calibrations with
    two finite positive counts no smaller than the representability minimum
    and known units, and under an accepted calibration scaling any 32-bit raw
    count by either divisor never overflows: the quotient is a finite valid
    [double], has the sign of the count and is the count's correctly rounded
    ratio (round to nearest, ties to even, on the exact integer magnitudes). *)
Theorem calibration_scales_every_count c :
  valid binary64 (counts_per_force_unit c) = true ->
  valid binary64 (counts_per_torque_unit c) = true ->
  validate_calibration c = Ok tt ->
  Forall (fun counts =>
    forall raw, in_int32 raw ->
      is_finite (fdiv binary64 (dbl raw) counts) = true /\
      sign (fdiv binary64 (dbl raw) counts) = (raw <? 0) /\
      mag binary64 (fdiv binary64 (dbl raw) counts) =
        round 53 (Z.abs raw * unit_of binary64 * unit_of binary64) (mag binary64 counts))
    [counts_per_force_unit c; counts_per_torque_unit c].
Proof.
  intros V1 V2 (S1 & S2 & _)%validate_calibration_ok.
  repeat (apply Forall_cons_2; [intros raw Hraw; by apply raw_axis_rounded|]).
  apply Forall_nil_2.
Qed.

Definition example_calibration : Calibration :=
  MkCalibration (dbl 1000000) (of_frac binary64 5 2) Newton NewtonMeter.

Lemma calibration_scales_every_count_witness :
  is_finite (fdiv binary64 (dbl int32_min) (dbl 1000000)) = true.
Proof.
  assert (in_int32 int32_min) as Hr by (unfold in_int32, int32_min, int32_max; lia).
  pose proof (calibration_scales_every_count example_calibration) as H.
  specialize (H eq_refl eq_refl eq_refl).
  apply Forall_cons_1 in H as [H _]. exact (proj1 (H int32_min Hr)).
Defined.

(** The two unit in the last place of slack are not idle: below the minimum the
    largest raw magnitude does overflow. *)
Example count_below_minimum_overflows :
  let c := S754_finite false 4503599627370496 (-1045) in
  flt c minimum_count = true /\
  fdiv binary64 (dbl int32_min) c = S754_infinity true.
Proof. vm_compute. split; reflexivity. Qed.

(** C15: [validate(const Config &)] accepts exactly the configurations with a
    host that is not blank, ports in 1..65535, five finite positive durations
    that convert to at least one clock tick (the two HTTP ones also to a
    millisecond count below [LONG_MAX]), ordered reconnect delays, a finite
    non-negative rate limit, a valid override, and whose deadlines computed
    from the clock readings of the call do not overflow the time point. *)
Theorem validate_config_accepts `{Platform} now config :
  validate_config now config = Ok tt <-> safe_config config /\ config_deadlines_fit now config.
Proof. apply validate_config_ok. Qed.

(** The unit names round trip both ways: a printed unit parses back to
    itself, and a string parses exactly when it is the name of the unit it
    parses to, so no other string (the XML spellings included) is accepted. *)
Theorem unit_names_round_trip :
  (forall u s, force_unit_from_string s = Some u <-> force_unit_to_string u = s) /\
  (forall u s, torque_unit_from_string s = Some u <-> torque_unit_to_string u = s).
Proof.
  split; intros u s; split.
  - intros [_ E]%List.find_some. by apply String.eqb_eq.
  - intros <-. apply force_unit_round_trip.
  - intros [_ E]%List.find_some. by apply String.eqb_eq.
  - intros <-. apply torque_unit_round_trip.
Qed.
