(* ===== verification/Status.v ===== *)
(** * Device status words: src/src/status.cpp *)

From S2P Require Export Prelude.

Inductive StatusSeverity := SeverityOk | SeverityWarn | SeverityError.

#[export] Instance StatusSeverity_eq_dec : EqDecision StatusSeverity.
Proof. solve_decision. Defined.

Definition kStatusBits : list (Z * string) := [
  (0x80000000, "error summary");
  (0x40000000, "CPU or RAM error");
  (0x20000000, "digital board error");
  (0x10000000, "analog board error");
  (0x08000000, "serial link communication error");
  (0x04000000, "program memory verification error");
  (0x02000000, "halted due to configuration errors");
  (0x01000000, "settings validation error");
  (0x00800000, "configuration incompatible with calibration");
  (0x00400000, "network communication failure");
  (0x00200000, "CAN communication error");
  (0x00100000, "RDT communication error");
  (0x00080000, "EtherNet/IP protocol failure");
  (0x00040000, "DeviceNet protocol failure");
  (0x00020000, "transducer saturation or A/D error");
  (0x00010000, "monitor condition latched");
  (0x00004000, "watchdog timeout error");
  (0x00002000, "stack check error");
  (0x00001000, "serial EEPROM I2C failure");
  (0x00000800, "serial flash SPI failure");
  (0x00000400, "analog board watchdog timeout");
  (0x00000200, "excessive strain gage excitation current");
  (0x00000100, "insufficient strain gage excitation current");
  (0x00000080, "artificial analog ground out of range");
  (0x00000040, "analog board power supply too high");
  (0x00000020, "analog board power supply too low");
  (0x00000010, "serial link data unavailable");
  (0x00000008, "reference voltage or power monitoring error");
  (0x00000004, "internal temperature error");
  (0x00000002, "HTTP protocol failure")
]%string.

Definition classify_status (status : Z) : StatusSeverity :=
  if status =? 0 then SeverityOk
  else if status =? 0x80010000 then SeverityWarn else SeverityError.

(** One iteration of the loop of [decode_status] over the table. *)
Definition decode_step (status : Z) (result : string) (entry : Z * string) : string :=
  let '(mask, name) := entry in
  if negb (Z.land status mask =? 0) then
    (if negb (String.eqb result "") then result +:+ ", " else result) +:+ name
  else result.

Definition decode_status (status : Z) : string :=
  if status =? 0 then "healthy"%string
  else fold_left (decode_step status) kStatusBits EmptyString.

(** ** Reading the text back

    The specification of the text: the names of the set bits in table order,
    separated by a comma and a blank.  [parse_status] recovers the bits. *)

Fixpoint join (names : list string) : string :=
  match names with
  | [] => ""
  | [n] => n
  | n :: rest => n +:+ ", " +:+ join rest
  end%string.

(** Split at every comma, dropping the blank after it. *)
Fixpoint split_from (acc : string) (s : string) : list string :=
  match s with
  | EmptyString => [acc]
  | String c s' =>
      if Ascii.eqb c ","%char then
        acc :: match s' with
               | String _ rest => split_from "" rest
               | EmptyString => [""%string]
               end
      else split_from (acc +:+ String c "") s'
  end.

Definition mask_of (name : string) : option Z :=
  fst <$> List.find (fun e => String.eqb (snd e) name) kStatusBits.

Definition parse_status (text : string) : option Z :=
  if String.eqb text "healthy" || String.eqb text "" then Some 0
  else foldr Z.lor 0 <$> mapM mask_of (split_from "" text).

(** The bits the table names. *)
Definition defined_bits : Z := foldr Z.lor 0 (map fst kStatusBits).

(** ** Lemmas *)

Definition no_comma (s : string) : Prop := ~ In ","%char (String.list_ascii_of_string s).

Lemma split_from_name acc n rest : no_comma n ->
  split_from acc (n +:+ rest) = split_from (acc +:+ n) rest.
Proof.
  revert acc. induction n as [|c n IH]; intros acc Hn; simpl; [by rewrite app_string_nil|].
  unfold no_comma in *. simpl in Hn.
  destruct (Ascii.eqb_spec c ","%char); [subst; tauto|].
  rewrite IH by tauto. by rewrite app_string_assoc.
Qed.

Lemma split_from_sep acc rest : split_from acc (", " +:+ rest) = acc :: split_from "" rest.
Proof. reflexivity. Qed.

Lemma split_join names : names <> [] -> Forall no_comma names ->
  split_from "" (join names) = names.
Proof.
  intros Hne Hn. induction Hn as [|n names Hn Hall IH]; [done|].
  destruct names as [|n' names].
  - simpl. rewrite <- (app_string_nil n) at 1. by rewrite split_from_name.
  - change (join (n :: n' :: names)) with (n +:+ (", " +:+ join (n' :: names))).
    rewrite split_from_name, split_from_sep, IH by done. done.
Qed.

(** The table entries whose bit is set, in order. *)
Definition set_entries (status : Z) (table : list (Z * string)) : list (Z * string) :=
  List.filter (fun e => negb (Z.land status (fst e) =? 0)) table.

Definition is_mask (m : Z) : Prop := exists k, 0 <= k /\ m = 2 ^ k.

Lemma table_masks : Forall (fun e => is_mask (fst e)) kStatusBits.
Proof.
  assert (forallb (fun e => (0 <=? Z.log2 (fst e)) && (fst e =? 2 ^ Z.log2 (fst e))) kStatusBits
    = true) as H by reflexivity.
  rewrite forallb_forall in H. apply Forall_forall. intros e He%list_elem_of_In.
  specialize (H e He). bool_to_prop. exists (Z.log2 (fst e)). done.
Qed.

Lemma land_mask status m : is_mask m ->
  Z.land status m = if Z.testbit status (Z.log2 m) then m else 0.
Proof.
  intros (k & Hk & ->). rewrite Z.log2_pow2 by done. apply Z.bits_inj'. intros n Hn.
  rewrite Z.land_spec, Z.pow2_bits_eqb by done. destruct (Z.eqb_spec k n) as [->|Hne].
  - destruct (Z.testbit status n); rewrite ?Z.pow2_bits_eqb, ?Z.eqb_refl, ?Z.bits_0 by done; done.
  - rewrite andb_false_r. destruct (Z.testbit status k); [|by rewrite Z.bits_0].
    rewrite Z.pow2_bits_eqb by done. symmetry. by apply Z.eqb_neq.
Qed.

Lemma set_entries_lor status table : Forall (fun e => is_mask (fst e)) table ->
  foldr Z.lor 0 (map fst (set_entries status table)) =
  Z.land status (foldr Z.lor 0 (map fst table)).
Proof.
  intros H. induction H as [|e table Hm _ IH]; [by rewrite Z.land_0_r|].
  simpl. rewrite Z.land_lor_distr_r, <- IH. unfold set_entries in *. simpl.
  destruct (Z.eqb_spec (Z.land status (fst e)) 0) as [->|Hne]; [done|].
  simpl. f_equal. pose proof (land_mask status _ Hm) as E. rewrite E in *.
  destruct (Z.testbit _ _); [done|lia].
Qed.

(** The accumulating loop produces the joined names. *)
Lemma decode_loop status table result :
  Forall (fun e => snd e <> ""%string) table ->
  fold_left (decode_step status) table result =
  match map snd (set_entries status table) with
  | [] => result
  | names => if String.eqb result "" then join names else result +:+ ", " +:+ join names
  end%string.
Proof.
  intros H. revert result. induction H as [|[m n] table Hn _ IH]; intros result; [done|].
  unfold set_entries in *. cbn [fold_left decode_step List.filter fst map snd].
  rewrite IH. destruct (negb (Z.land status m =? 0)); [|done].
  cbn [map snd fst]. simpl in Hn.
  destruct (String.eqb_spec result "") as [->|Hr]; cbn [negb].
  - change ("" +:+ n) with n.
    destruct (map snd _) as [|n' names]; [done|]. by destruct (String.eqb_spec n "").
  - destruct (map snd _) as [|n' names]; [by rewrite app_string_assoc|].
    destruct (String.eqb_spec ((result +:+ ", ") +:+ n) "") as [E|_].
    + destruct result; done.
    + simpl join. rewrite !app_string_assoc. done.
Qed.

Lemma table_names : Forall (fun e => snd e <> ""%string) kStatusBits.
Proof. unfold kStatusBits. repeat (apply Forall_cons_2; [done|]). apply Forall_nil_2. Qed.

Lemma decode_status_eq status : status <> 0 ->
  decode_status status = join (map snd (set_entries status kStatusBits)).
Proof.
  intros H. unfold decode_status. destruct (Z.eqb_spec status 0); [done|].
  rewrite decode_loop by apply table_names. by destruct (map snd _).
Qed.

Lemma table_parses : Forall (fun e => no_comma (snd e) /\ mask_of (snd e) = Some (fst e)) kStatusBits.
Proof.
  unfold kStatusBits. repeat apply Forall_cons_2; try apply Forall_nil_2;
    (split; [|vm_compute; reflexivity]; unfold no_comma; simpl; intros H;
     repeat destruct H as [H|H]; done).
Qed.

Lemma set_entries_Forall status (Q : Z * string -> Prop) table :
  Forall Q table -> Forall Q (set_entries status table).
Proof.
  unfold set_entries. induction 1; simpl; [done|]. case_match; [constructor|]; done.
Qed.

Lemma mapM_masks entries :
  Forall (fun e => no_comma (snd e) /\ mask_of (snd e) = Some (fst e)) entries ->
  mapM mask_of (map snd entries) = Some (map fst entries).
Proof. induction 1 as [|e l [_ He] _ IH]; [done|]. simpl. rewrite He. simpl. by rewrite IH. Qed.

Lemma join_nonempty names : Forall (fun n => n <> ""%string) names ->
  join names = ""%string <-> names = [].
Proof.
  destruct 1 as [|n names Hn _]; [done|]. split; [|done].
  destruct names; simpl; [done|]. destruct n; done.
Qed.

Lemma table_join_healthy status :
  join (map snd (set_entries status kStatusBits)) <> "healthy"%string.
Proof.
  pose proof (set_entries_Forall status (fun e => snd e <> "healthy"%string /\
     forall r, String.prefix "heal" (snd e +:+ r) = false) kStatusBits) as H.
  assert (Forall (fun e => snd e <> "healthy"%string /\
    forall r, String.prefix "heal" (snd e +:+ r) = false) kStatusBits) as Ht.
  { unfold kStatusBits. repeat (apply Forall_cons_2; [split; [done|reflexivity]|]).
    apply Forall_nil_2. }
  specialize (H Ht). destruct H as [|e l [_ He] _]; [done|]. intros E.
  destruct l as [|e' l]; [specialize (He "")|specialize (He (", " +:+ join (map snd (e' :: l))))].
  - simpl in E. rewrite E in He. done.
  - change (join (map snd (e :: e' :: l))) with (snd e +:+ (", " +:+ join (map snd (e' :: l)))) in E.
    rewrite E in He. done.
Qed.

Lemma decode_status_recovers status :
  parse_status (decode_status status) = Some (Z.land status defined_bits).
Proof.
  destruct (Z.eq_dec status 0) as [->|Hne]; [reflexivity|].
  unfold parse_status. rewrite decode_status_eq by done.
  pose proof (set_entries_Forall status _ _ table_names) as Hnames.
  pose proof (set_entries_Forall status _ _ table_parses) as Hparse.
  unfold defined_bits. rewrite <- (set_entries_lor status) by apply table_masks.
  revert Hnames Hparse. pose proof (table_join_healthy status) as Hh. revert Hh.
  generalize (set_entries status kStatusBits). intros es Hh Hnames Hparse.
  destruct (String.eqb_spec (join (map snd es)) "healthy") as [E|_]; [done|].
  destruct (String.eqb_spec (join (map snd es)) "") as [E|Hj].
  - apply join_nonempty in E; [|by apply Forall_map]. apply map_eq_nil in E. by rewrite E.
  - cbn [orb]. rewrite split_join.
    + rewrite mapM_masks by done. done.
    + intros E. by rewrite E in Hj.
    + apply Forall_map. eapply Forall_impl; [exact Hparse|]. by intros ? [? _].
Qed.

(** The words with none but undefined bits. *)
Lemma undefined_words status : in_width 32 status -> status <> 0 ->
  Z.land status defined_bits = 0 -> In status [0x1; 0x8000; 0x8001].
Proof.
  intros Hw Hne E.
  assert (status = Z.lor (Z.land status 0x1) (Z.land status 0x8000)) as Hs.
  { rewrite <- Z.land_lor_distr_r. transitivity (Z.land status (Z.lor defined_bits (Z.lor 0x1 0x8000))).
    - change (Z.lor defined_bits (Z.lor 0x1 0x8000)) with (Z.ones 32). rewrite Z.land_ones by done.
      symmetry. apply Z.mod_small, Hw.
    - rewrite Z.land_lor_distr_r, E. apply Z.lor_0_l. }
  rewrite (land_mask status 0x1), (land_mask status 0x8000) in Hs by first [by exists 0 | by exists 15].
  rewrite Hs. do 2 destruct (Z.testbit status _); simpl in *; tauto || lia.
Qed.

(** ** Properties *)

(** C17: the status text loses no defined bit: reading the text of
    [decode_status] back through the table recovers exactly the bits of the
    word that the table names (all but 0x00008000 and 0x00000001), for every
    32-bit status word. *)
Theorem decode_status_round_trip status :
  parse_status (decode_status status) = Some (Z.land status defined_bits).
Proof. apply decode_status_recovers. Qed.

(** Severity and text agree: a word is [Ok] exactly when its text is
    "healthy" (the zero word), [Warn] exactly when the only bits set are the
    error summary and the latched monitor condition, an [Error] otherwise; and
    the text of an [Error] is empty exactly when no bit of the word is in the
    table, which only 0x00000001, 0x00008000 and their union achieve. *)
Theorem classify_matches_decode status : in_width 32 status ->
  (classify_status status = SeverityOk <-> decode_status status = "healthy"%string) /\
  (classify_status status = SeverityWarn <-> status = Z.lor 0x80000000 0x00010000) /\
  (decode_status status = ""%string <->
    classify_status status = SeverityError /\ Z.land status defined_bits = 0) /\
  (decode_status status = ""%string -> In status [0x1; 0x8000; 0x8001]).
Proof.
  intros Hw. assert (classify_status status = SeverityOk <-> status = 0) as Hok.
  { unfold classify_status. repeat case_match; bool_to_prop; split; done || lia. }
  assert (decode_status status = ""%string <-> status <> 0 /\ Z.land status defined_bits = 0) as Hempty.
  { split.
    - intros E. split; [intros ->; done|].
      pose proof (decode_status_recovers status) as R. rewrite E in R. by injection R.
    - intros [Hne E]. rewrite decode_status_eq by done. unfold defined_bits in E.
      rewrite <- set_entries_lor in E by apply table_masks.
      pose proof (set_entries_Forall status _ _ table_masks) as H.
      destruct H as [|e l (k & Hk & Hm)]; [done|]. simpl in E.
      apply Z.lor_eq_0_iff in E as [E _]. pose proof (pow2_pos k Hk). lia. }
  repeat split.
  - intros ->%Hok. done.
  - intros E. apply Hok. destruct (Z.eq_dec status 0); [done|].
    rewrite decode_status_eq in E by done. by apply table_join_healthy in E.
  - unfold classify_status. repeat case_match; bool_to_prop; subst; done.
  - intros ->. done.
  - apply Hempty in H as [? E]. unfold classify_status. repeat case_match; bool_to_prop; subst; done.
  - by apply Hempty in H as [? E].
  - intros [E H]. apply Hempty. split; [|done]. intros ->. done.
  - intros [Hne E]%Hempty. by apply undefined_words.
Qed.

Lemma classify_matches_decode_witness :
  classify_status 0x8000 = SeverityError /\ decode_status 0x8000 = ""%string.
Proof.
  destruct (classify_matches_decode 0x8000) as (_ & _ & He & _); [eval_range|].
  assert (decode_status 0x8000 = ""%string) as E by (vm_compute; reflexivity).
  split; [exact (proj1 (proj1 He E))|exact E].
Defined.
