(* ===== verification/Protocol.v ===== *)
(** * The RDT wire format: src/src/detail/protocol.hpp, protocol.cpp

    Bytes are Z in [0, 256); a pointer that may be null is an [option]. *)

From S2P Require Export Prelude.

Inductive Command :=
| StopStreaming | StartRealtime | StartBuffered | ResetConditionLatch | SetSoftwareBias.

#[export] Instance Command_eq_dec : EqDecision Command.
Proof. solve_decision. Defined.

(** The enumerators' [std::uint16_t] values. *)
Definition command_value (command : Command) : Z :=
  match command with
  | StopStreaming => 0x0000
  | StartRealtime => 0x0002
  | StartBuffered => 0x0003
  | ResetConditionLatch => 0x0041
  | SetSoftwareBias => 0x0042
  end.

Record RawRecord := MkRawRecord {
  rdt_sequence : Z;
  ft_sequence : Z;
  status : Z;
  fx : Z; fy : Z; fz : Z;
  tx : Z; ty : Z; tz : Z;
}.

#[export] Instance RawRecord_eq_dec : EqDecision RawRecord.
Proof. solve_decision. Defined.

(** [data[i]]; the callers stay inside the array. *)
Definition byte_at (data : list Z) (i : nat) : Z := nth i data 0.

Definition read_u32 (data : list Z) : Z :=
  Z.lor (Z.lor (Z.lor (u32 (Z.shiftl (byte_at data 0) 24)) (u32 (Z.shiftl (byte_at data 1) 16)))
    (u32 (Z.shiftl (byte_at data 2) 8))) (byte_at data 3).

(** [static_cast<std::int32_t>] of an unsigned word. *)
Definition cast_i32 (z : Z) : Z := if z <? 2 ^ 31 then z else z - 2 ^ 32.

Definition read_i32 (data : list Z) : Z :=
  let value := read_u32 data in
  if value <=? 0x7fffffff then cast_i32 value
  else - cast_i32 (u32 (Z.lnot value)) - 1.

Definition encode_request (command : Command) (count : Z) : list Z :=
  let value := u16 (command_value command) in
  [0x12; 0x34; u8 (Z.shiftr value 8); u8 value;
   u8 (Z.shiftr count 24); u8 (Z.shiftr count 16); u8 (Z.shiftr count 8); u8 count].

Definition decode_record (data : option (list Z)) (size : Z) : result RawRecord :=
  if negb (size =? 36) then
    Throw (ProtocolError ("RDT record must be exactly 36 bytes, received " +:+ to_string size))
  else match data with
  | None => Throw (ProtocolError "RDT record data must not be null")
  | Some d => Ok (MkRawRecord (read_u32 d) (read_u32 (drop 4 d)) (read_u32 (drop 8 d))
      (read_i32 (drop 12 d)) (read_i32 (drop 16 d)) (read_i32 (drop 20 d))
      (read_i32 (drop 24 d)) (read_i32 (drop 28 d)) (read_i32 (drop 32 d)))
  end.

(** ** The sensor's side: the specification of the format *)

(** [n] bytes of [z], most significant first. *)
Fixpoint big_endian (n : nat) (z : Z) : list Z :=
  match n with
  | O => []
  | S k => (z / 256 ^ Z.of_nat k) mod 256 :: big_endian k z
  end.

Fixpoint from_big_endian (bytes : list Z) : Z :=
  match bytes with
  | [] => 0
  | b :: rest => b * 256 ^ Z.of_nat (length rest) + from_big_endian rest
  end.

(** The nine words of a record, in wire order, two's complement. *)
Definition record_words (r : RawRecord) : list Z :=
  [rdt_sequence r; ft_sequence r; status r; fx r; fy r; fz r; tx r; ty r; tz r].

Definition wire_record (r : RawRecord) : list Z :=
  w ← record_words r; big_endian 4 (w mod 2 ^ 32).

Definition wf_record (r : RawRecord) : Prop :=
  Forall (in_width 32) [rdt_sequence r; ft_sequence r; status r] /\
  Forall in_int32 [fx r; fy r; fz r; tx r; ty r; tz r].

(** What a sensor reads out of a request. *)
Definition command_of_value (v : Z) : option Command :=
  List.find (fun c => command_value c =? v)
    [StopStreaming; StartRealtime; StartBuffered; ResetConditionLatch; SetSoftwareBias].

Definition parse_request (bytes : list Z) : option (Command * Z) :=
  if (length bytes =? 8)%nat && (from_big_endian (take 2 bytes) =? 0x1234) then
    c ← command_of_value (from_big_endian (take 2 (drop 2 bytes)));
    Some (c, from_big_endian (drop 4 bytes))
  else None.

(** ** Lemmas *)

Definition byte (b : Z) : Prop := in_width 8 b.

Lemma byte_shift b k : byte b -> 0 <= k <= 24 -> u32 (Z.shiftl b k) = b * 2 ^ k.
Proof.
  intros Hb Hk. rewrite Z.shiftl_mul_pow2 by lia. apply wrap_small.
  unfold byte, in_width in *. pose proof (pow2_pos k ltac:(lia)). pose proof (pow2_le k 24 ltac:(lia)).
  assert (b * 2 ^ k <= 255 * 2 ^ 24) by (apply Z.mul_le_mono_nonneg; lia).
  split; [apply Z.mul_nonneg_nonneg; lia|lia].
Qed.

Lemma lor_disjoint a b k : 0 <= k -> 0 <= b < 2 ^ k -> Z.lor (a * 2 ^ k) b = a * 2 ^ k + b.
Proof.
  intros Hk Hb. rewrite <- Z.shiftl_mul_pow2 by done. symmetry. apply Z.add_nocarry_lor.
  apply Z.bits_inj'. intros n Hn. rewrite Z.land_spec, Z.bits_0, Z.shiftl_spec by done.
  destruct (Z.ltb_spec n k).
  - by rewrite Z.testbit_neg_r by lia.
  - rewrite <- (Z.mod_small b (2 ^ k)), Z.mod_pow2_bits_high by lia. apply andb_false_r.
Qed.

Lemma read_u32_value a b c d rest : Forall byte [a; b; c; d] ->
  read_u32 (a :: b :: c :: d :: rest) = from_big_endian [a; b; c; d].
Proof.
  intros H. repeat (apply Forall_cons_1 in H as [? H]). unfold byte, in_width in *.
  unfold read_u32, byte_at. cbn [nth]. rewrite !byte_shift by (done || lia).
  rewrite lor_disjoint by lia.
  replace (a * 2 ^ 24 + b * 2 ^ 16) with ((a * 2 ^ 8 + b) * 2 ^ 16) by ring.
  rewrite lor_disjoint by lia.
  replace ((a * 2 ^ 8 + b) * 2 ^ 16 + c * 2 ^ 8)
    with (((a * 2 ^ 8 + b) * 2 ^ 8 + c) * 2 ^ 8) by ring.
  rewrite lor_disjoint by lia. 
  change (from_big_endian [a; b; c; d])
    with (a * 256 ^ 3 + (b * 256 ^ 2 + (c * 256 ^ 1 + (d * 256 ^ 0 + 0)))). ring.
Qed.

(** The signed value of a 32-bit word. *)
Definition signed (w : Z) : Z := if w <? 2 ^ 31 then w else w - 2 ^ 32.

Lemma read_i32_value data : in_width 32 (read_u32 data) -> read_i32 data = signed (read_u32 data).
Proof.
  unfold read_i32, signed, cast_i32, in_width. intros H. set (v := read_u32 data) in *.
  destruct (Z.leb_spec v 0x7fffffff), (Z.ltb_spec v (2 ^ 31)); try lia.
  assert (u32 (Z.lnot v) = 2 ^ 32 - 1 - v) as ->.
  { unfold wrap, Z.lnot. rewrite <- (Z.mod_add _ 1) by done. rewrite Z.mod_small; lia. }
  destruct (Z.ltb_spec (2 ^ 32 - 1 - v) (2 ^ 31)); lia.
Qed.

Lemma from_big_endian_range bytes : Forall byte bytes ->
  0 <= from_big_endian bytes < 256 ^ Z.of_nat (length bytes).
Proof.
  induction 1 as [|b rest Hb _ IH]; [done|]. unfold byte, in_width in Hb.
  cbn [from_big_endian length]. rewrite Nat2Z.inj_succ, Z.pow_succ_r by lia. nia.
Qed.

Lemma big_endian_length n z : length (big_endian n z) = n.
Proof. induction n; simpl; congruence. Qed.

Lemma big_endian_bytes n z : Forall byte (big_endian n z).
Proof. induction n; constructor; [apply Z.mod_pos_bound; lia|done]. Qed.

Lemma from_big_endian_encode n z : from_big_endian (big_endian n z) = z mod 256 ^ Z.of_nat n.
Proof.
  induction n as [|n IH]; [by rewrite Z.mod_1_r|].
  cbn [big_endian from_big_endian]. rewrite IH, big_endian_length, Nat2Z.inj_succ, Z.pow_succ_r by lia.
  rewrite (Z.mul_comm 256), Z.rem_mul_r by lia. ring.
Qed.

Lemma big_endian_mod n z : big_endian n (z mod 256 ^ Z.of_nat n) = big_endian n z.
Proof.
  assert (forall m, (n <= m)%nat -> big_endian n (z mod 256 ^ Z.of_nat m) = big_endian n z) as H;
    [|by apply H].
  induction n as [|n IH]; intros m Hm; [done|]. cbn [big_endian]. rewrite IH by lia. f_equal.
  replace (Z.of_nat m) with (Z.of_nat n + Z.of_nat (m - n)) by lia.
  rewrite Z.pow_add_r by lia. rewrite Z.rem_mul_r by lia.
  rewrite (Z.mul_comm (256 ^ Z.of_nat n)), Z.div_add by lia.
  rewrite (Z.div_small (_ mod _)) by (apply Z.mod_pos_bound; lia). rewrite Z.add_0_l.
  replace (Z.of_nat (m - n)) with (Z.succ (Z.of_nat (m - n - 1))) by lia.
  rewrite Z.pow_succ_r by lia. rewrite Z.rem_mul_r by lia.
  rewrite (Z.mul_comm 256 (_ mod _)), Z.mod_add by lia. by rewrite Z.mod_mod.
Qed.

Lemma big_endian_decode bytes : Forall byte bytes ->
  big_endian (length bytes) (from_big_endian bytes) = bytes.
Proof.
  induction 1 as [|b rest Hb Hr IH]; [done|]. cbn [length big_endian from_big_endian].
  pose proof (from_big_endian_range rest Hr). unfold byte, in_width in Hb. f_equal.
  - rewrite Z.div_add_l, Z.div_small by lia. rewrite Z.add_0_r. by apply Z.mod_small.
  - rewrite <- big_endian_mod. rewrite Z.add_comm, Z.mod_add by lia.
    rewrite Z.mod_small by done. done.
Qed.

Lemma signed_mod z : in_int32 z -> signed (z mod 2 ^ 32) = z.
Proof.
  unfold in_int32, int32_min, int32_max, signed. intros H.
  destruct (Z.ltb_spec z 0).
  - rewrite <- (Z.mod_add _ 1), Z.mod_small by lia. destruct (Z.ltb_spec (z + 1 * 2 ^ 32) (2 ^ 31)); lia.
  - rewrite Z.mod_small by lia. destruct (Z.ltb_spec z (2 ^ 31)); lia.
Qed.

Lemma signed_range w : in_width 32 w -> in_int32 (signed w) /\ signed w mod 2 ^ 32 = w.
Proof.
  unfold in_width, in_int32, int32_min, int32_max, signed. intros H.
  destruct (Z.ltb_spec w (2 ^ 31)); (split; [lia|]).
  - by apply Z.mod_small.
  - rewrite <- (Z.mod_add _ 1), Z.mod_small; lia.
Qed.

(** Reading the four bytes of a word, with whatever follows. *)
Lemma read_u32_big_endian z rest : in_width 32 z -> read_u32 (big_endian 4 z ++ rest) = z.
Proof.
  intros Hz. pose proof (big_endian_bytes 4 z) as Hb.
  pose proof (from_big_endian_encode 4 z) as He. cbn [big_endian app] in *.
  rewrite read_u32_value by exact Hb. rewrite He. by apply Z.mod_small.
Qed.

Lemma read_i32_big_endian z rest : in_int32 z ->
  read_i32 (big_endian 4 (z mod 2 ^ 32) ++ rest) = z.
Proof.
  intros Hz. assert (in_width 32 (z mod 2 ^ 32)) by (apply Z.mod_pos_bound; lia).
  rewrite read_i32_value; rewrite read_u32_big_endian by done; [by apply signed_mod|done].
Qed.

Lemma drop_big_endian k z rest : drop (4 + k) (big_endian 4 z ++ rest) = drop k rest.
Proof. reflexivity. Qed.

Lemma wire_record_app r : wire_record r =
  foldr (fun w bytes => big_endian 4 (w mod 2 ^ 32) ++ bytes) [] (record_words r).
Proof. reflexivity. Qed.

Lemma decode_wire r : wf_record r -> decode_record (Some (wire_record r)) 36 = Ok r.
Proof.
  intros [Hu Hi]. repeat match goal with
  | H : Forall _ (_ :: _) |- _ => apply Forall_cons_1 in H as [? H] end.
  unfold decode_record. change (negb (36 =? 36)) with false. cbv iota.
  rewrite wire_record_app. unfold record_words. cbn [foldr].
  repeat match goal with
  | |- context [drop (S (S (S (S ?k)))) (big_endian 4 ?z ++ ?r)] =>
      change (drop (S (S (S (S k)))) (big_endian 4 z ++ r)) with (drop k r)
  end.
  rewrite !drop_0, !(Z.mod_small (rdt_sequence r)), !(Z.mod_small (ft_sequence r)),
    !(Z.mod_small (status r)), !read_u32_big_endian, !read_i32_big_endian by done.
  by destruct r.
Qed.

(** The word at an offset of a record, as the specification reads it. *)
Lemma read_u32_take data : Forall byte data -> (4 <= length data)%nat ->
  read_u32 data = from_big_endian (take 4 data) /\ in_width 32 (read_u32 data) /\
  big_endian 4 (read_u32 data) = take 4 data.
Proof.
  intros Hb Hl. assert (Forall byte (take 4 data)) as Ht by by apply Forall_take.
  assert (length (take 4 data) = 4%nat) as Hlen by (rewrite length_take; lia).
  pose proof (from_big_endian_range _ Ht) as Hr. rewrite Hlen in Hr.
  destruct data as [|a [|b [|c [|d rest]]]]; simpl length in Hl; try lia.
  rewrite read_u32_value by exact Ht. change (take 4 _) with [a; b; c; d] in *.
  split; [done|]. split; [exact Hr|]. exact (big_endian_decode _ Ht).
Qed.

Lemma decode_record_wire data r : Forall byte data -> length data = 36%nat ->
  decode_record (Some data) 36 = Ok r -> wf_record r /\ wire_record r = data.
Proof.
  intros Hb Hl E.
  assert (forall k, (k <= 32)%nat -> in_width 32 (read_u32 (drop k data)) /\
    big_endian 4 (read_u32 (drop k data)) = take 4 (drop k data)) as Hw.
  { intros k Hk. apply read_u32_take; [by apply Forall_drop|]. rewrite length_drop. lia. }
  assert (forall k, (k <= 32)%nat -> in_int32 (read_i32 (drop k data)) /\
    read_i32 (drop k data) mod 2 ^ 32 = read_u32 (drop k data)) as Hi.
  { intros k Hk. rewrite read_i32_value by (by apply Hw). apply signed_range. by apply Hw. }
  unfold decode_record in E. change (negb (36 =? 36)) with false in E. injection E as <-. split.
  - rewrite <- (drop_0 data) at 1. split; repeat (apply Forall_cons_2; [first [apply Hw | apply Hi]; lia|]);
      apply Forall_nil_2.
  - rewrite wire_record_app. unfold record_words. cbn [foldr rdt_sequence ft_sequence status fx fy fz tx ty tz].
    change data with (drop 0 data) at 1.
    assert (forall k, (k <= 32)%nat ->
      big_endian 4 (read_i32 (drop k data) mod 2 ^ 32) = take 4 (drop k data)) as Ei
      by (intros k Hk; rewrite (proj2 (Hi k Hk)); by apply Hw).
    assert (forall k, (k <= 32)%nat ->
      big_endian 4 (read_u32 (drop k data) mod 2 ^ 32) = take 4 (drop k data)) as Eu
      by (intros k Hk; rewrite Z.mod_small by (by apply Hw); by apply Hw).
    rewrite !Ei, !Eu, app_nil_r by lia.
    do 36 (destruct data as [|? data]; [done|]). by destruct data.
Qed.

Lemma parse_encode_request c count : in_width 32 count ->
  parse_request (encode_request c count) = Some (c, count).
Proof.
  intros Hc. unfold parse_request.
  assert (drop 4 (encode_request c count) = big_endian 4 count) as E.
  { unfold encode_request, wrap. cbn [big_endian drop]. rewrite !Z.shiftr_div_pow2 by lia.
    change (256 ^ Z.of_nat 0) with 1. rewrite Z.div_1_r. done. }
  rewrite E, from_big_endian_encode, Z.mod_small by done. by destruct c.
Qed.

(** ** Properties *)

(** C13: [decode_record] inverts the sensor's encoding in both directions: the
    big-endian, two's-complement wire form of any record decodes to that
    record, and every 36-byte datagram decodes, to a record in range whose
    wire form is the datagram, so no two datagrams give the same record. *)
Theorem decode_record_round_trip :
  (forall r, wf_record r -> decode_record (Some (wire_record r)) 36 = Ok r) /\
  (forall data, Forall byte data -> length data = 36%nat ->
    exists r, decode_record (Some data) 36 = Ok r /\ wf_record r /\ wire_record r = data).
Proof.
  split; [exact decode_wire|]. intros data Hb Hl.
  destruct (decode_record (Some data) 36) as [r|e] eqn:E.
  - exists r. split; [done|]. by apply decode_record_wire.
  - unfold decode_record in E. done.
Qed.

(** C14: [decode_record] fails exactly on a size other than 36, with the size in
    the message, and on a null pointer; the size is tested first. *)
Theorem decode_record_errors data size :
  (size <> 36 -> decode_record data size =
    Throw (ProtocolError ("RDT record must be exactly 36 bytes, received " +:+ to_string size))) /\
  (size = 36 -> data = None ->
    decode_record data size = Throw (ProtocolError "RDT record data must not be null")) /\
  (is_ok (decode_record data size) = true <-> size = 36 /\ data <> None).
Proof.
  unfold decode_record. destruct (Z.eqb_spec size 36) as [->|Hne]; simpl.
  - destruct data; simpl; repeat split; intros; try done; tauto.
  - repeat split; intros; try done; tauto.
Qed.

(** [encode_request] writes an 8-byte request from which the header
    0x1234, the command and the 32-bit count are recovered, so requests for
    different commands or counts differ. *)
Theorem encode_request_round_trip c count : in_width 32 count ->
  length (encode_request c count) = 8%nat /\ Forall byte (encode_request c count) /\
  parse_request (encode_request c count) = Some (c, count).
Proof.
  intros Hc. split; [done|]. split; [|by apply parse_encode_request].
  unfold encode_request. repeat (apply Forall_cons_2; [try apply wrap_range; done|]).
  apply Forall_nil_2.
Qed.

Lemma encode_request_round_trip_witness :
  parse_request (encode_request StartRealtime 0) = Some (StartRealtime, 0).
Proof. apply (encode_request_round_trip StartRealtime 0). split; reflexivity || discriminate. Defined.

(** [read_i32] stays inside the ranges C++ defines: the words cast to
    [std::int32_t] are at most INT32_MAX, and negating and subtracting one
    stays in [std::int32_t]; its value is the word read as two's complement. *)
Theorem read_i32_defined data : in_width 32 (read_u32 data) ->
  let value := read_u32 data in
  let complement := u32 (Z.lnot value) in
  (value <= 0x7fffffff -> cast_i32 value = value) /\
  (0x7fffffff < value -> complement <= 0x7fffffff /\ cast_i32 complement = complement /\
    in_int32 (- complement) /\ in_int32 (- complement - 1)) /\
  read_i32 data = signed value.
Proof.
  intros Hw value complement. unfold value in *. clear value.
  unfold complement. clear complement. unfold in_width in Hw.
  unfold cast_i32, in_int32, int32_min, int32_max. split; [|split].
  - intros H. destruct (Z.ltb_spec (read_u32 data) (2 ^ 31)); lia.
  - intros H. assert (u32 (Z.lnot (read_u32 data)) = 2 ^ 32 - 1 - read_u32 data) as ->.
    { unfold wrap, Z.lnot. rewrite <- (Z.mod_add _ 1) by done. rewrite Z.mod_small; lia. }
    destruct (Z.ltb_spec (2 ^ 32 - 1 - read_u32 data) (2 ^ 31)); lia.
  - by apply read_i32_value.
Qed.

Lemma read_i32_defined_witness : read_i32 [0xff; 0xff; 0xff; 0xfe] = -2.
Proof.
  assert (in_width 32 (read_u32 [0xff; 0xff; 0xff; 0xfe])) as Hw by (vm_compute; split; reflexivity || discriminate).
  destruct (read_i32_defined [0xff; 0xff; 0xff; 0xfe] Hw) as (_ & _ & E). rewrite E. reflexivity.
Defined.
