(* ===== verification/Sequence.v ===== *)
(** * Sequence tracking: src/src/detail/sequence.hpp, sequence.cpp *)

From S2P Require Export Prelude.

Definition kRestartLowMax : Z := 0x0000ffff.
Definition kRestartMinBaseline : Z := u32 (kRestartLowMax + 1).

(** [a - b] on [std::uint32_t]. *)
Definition sub_u32 (a b : Z) : Z := u32 (a - b).

(** ** RDT sequence *)

Inductive SequenceKind := SeqFirst | SeqContiguous | SeqGap | SeqDuplicate | SeqOutOfOrder.

#[export] Instance SequenceKind_eq_dec : EqDecision SequenceKind.
Proof. solve_decision. Defined.

Record SequenceObservation := MkSequenceObservation {
  sequence_kind : SequenceKind;
  gap : Z;
}.

Record RdtSequenceTracker := MkRdtSequenceTracker {
  rdt_has_last : bool;
  rdt_previous : Z;
}.
#[export] Instance RdtSequenceTracker_eta : Eta RdtSequenceTracker := fun t =>
  MkRdtSequenceTracker (rdt_has_last t) (rdt_previous t).

Definition rdt_initial : RdtSequenceTracker := MkRdtSequenceTracker false 0.

Definition rdt_observe (t : RdtSequenceTracker) (current : Z)
    : RdtSequenceTracker * SequenceObservation :=
  if negb (rdt_has_last t) then
    (MkRdtSequenceTracker true current, MkSequenceObservation SeqFirst 0)
  else
    let delta := sub_u32 current (rdt_previous t) in
    if delta =? 0 then (t, MkSequenceObservation SeqDuplicate 0)
    else if delta <? 0x80000000 then
      (t <| rdt_previous := current |>,
       if delta =? 1 then MkSequenceObservation SeqContiguous 0
       else MkSequenceObservation SeqGap (sub_u32 delta 1))
    else (t, MkSequenceObservation SeqOutOfOrder 0).

Definition rdt_reset (t : RdtSequenceTracker) : RdtSequenceTracker :=
  t <| rdt_has_last := false |>.

(** ** F/T sequence *)

Inductive FtSequenceKind := FtFirst | FtForward | FtStall | FtBackward | FtRestart.

#[export] Instance FtSequenceKind_eq_dec : EqDecision FtSequenceKind.
Proof. solve_decision. Defined.

Record FtSequenceTracker := MkFtSequenceTracker {
  ft_has_last : bool;
  ft_previous : Z;
  has_restart_candidate : bool;
  restart_candidate : Z;
}.
#[export] Instance FtSequenceTracker_eta : Eta FtSequenceTracker := fun t =>
  MkFtSequenceTracker (ft_has_last t) (ft_previous t) (has_restart_candidate t)
    (restart_candidate t).

Definition ft_initial : FtSequenceTracker := MkFtSequenceTracker false 0 false 0.

Definition ft_begin_session (t : FtSequenceTracker) : FtSequenceTracker :=
  t <| has_restart_candidate := false |>.

Definition ft_observe (t : FtSequenceTracker) (current : Z) : FtSequenceTracker * FtSequenceKind :=
  if negb (ft_has_last t) then
    (t <| ft_has_last := true |> <| ft_previous := current |>, FtFirst)
  else if current =? ft_previous t then
    (t <| has_restart_candidate := false |>, FtStall)
  else
    let delta := sub_u32 current (ft_previous t) in
    if delta <? 0x80000000 then
      (t <| ft_previous := current |> <| has_restart_candidate := false |>, FtForward)
    else
      let candidate_delta := sub_u32 current (restart_candidate t) in
      if (kRestartMinBaseline <=? ft_previous t) && has_restart_candidate t
         && (restart_candidate t <=? kRestartLowMax) && (current <=? kRestartLowMax)
         && ((0 <? candidate_delta) && (candidate_delta <? 0x80000000)) then
        (t <| ft_previous := current |> <| has_restart_candidate := false |>, FtRestart)
      else
        (t <| restart_candidate := current |> <| has_restart_candidate := true |>, FtBackward).

(** ** Specification: unwrapped sequence numbers

    The sensor counts records with an unbounded number; the wire carries it
    modulo 2^32.  [spec_observe] keeps the largest number seen. *)

Definition spec_observe (newest : option Z) (n : Z) : option Z * SequenceObservation :=
  match newest with
  | None => (Some n, MkSequenceObservation SeqFirst 0)
  | Some m =>
      if n =? m then (Some m, MkSequenceObservation SeqDuplicate 0)
      else if n <? m then (Some m, MkSequenceObservation SeqOutOfOrder 0)
      else (Some n, if n =? m + 1 then MkSequenceObservation SeqContiguous 0
                    else MkSequenceObservation SeqGap (n - m - 1))
  end.

(** Feeding a list of numbers to a tracker. *)
Fixpoint observe_all {S O : Type} (step : S -> Z -> S * O) (s : S) (ns : list Z) : S * list O :=
  match ns with
  | [] => (s, [])
  | n :: rest =>
      let '(s1, o) := step s n in
      let '(s2, os) := observe_all step s1 rest in (s2, o :: os)
  end.

(** Every number is within half the number space of the newest before it. *)
Fixpoint within_window (newest : option Z) (ns : list Z) : Prop :=
  match ns with
  | [] => True
  | n :: rest =>
      match newest with Some m => - 2 ^ 31 <= n - m < 2 ^ 31 | None => True end /\
      within_window (fst (spec_observe newest n)) rest
  end.

(** The tracker state that represents a newest number. *)
Definition rdt_represents (t : RdtSequenceTracker) (newest : option Z) : Prop :=
  match newest with
  | None => rdt_has_last t = false
  | Some m => rdt_has_last t = true /\ rdt_previous t = u32 m
  end.

(** ** RDT lemmas *)

Lemma sub_u32_wrap a b : sub_u32 (u32 a) (u32 b) = u32 (a - b).
Proof. unfold sub_u32, wrap. symmetry. apply Zminus_mod. Qed.

Lemma u32_signed d : - 2 ^ 31 <= d < 2 ^ 31 -> u32 d = if d <? 0 then d + 2 ^ 32 else d.
Proof.
  intros H. unfold wrap. destruct (Z.ltb_spec d 0); [|by apply Z.mod_small; lia].
  rewrite <- (Z.mod_add _ 1), Z.mod_small; lia.
Qed.

Lemma rdt_observe_refines t newest n :
  rdt_represents t newest ->
  match newest with Some m => - 2 ^ 31 <= n - m < 2 ^ 31 | None => True end ->
  snd (rdt_observe t (u32 n)) = snd (spec_observe newest n) /\
  rdt_represents (fst (rdt_observe t (u32 n))) (fst (spec_observe newest n)).
Proof.
  destruct newest as [m|]; simpl; unfold rdt_observe.
  - intros [Hl Hp] Hw. rewrite Hl, Hp, sub_u32_wrap, (u32_signed (n - m)) by lia. simpl.
    destruct (Z.eqb_spec n m) as [->|Hne].
    { rewrite Z.sub_diag. done. }
    destruct (Z.ltb_spec (n - m) 0).
    + destruct (Z.eqb_spec (n - m + 2 ^ 32) 0), (Z.ltb_spec (n - m + 2 ^ 32) 0x80000000),
        (Z.ltb_spec n m); try lia. done.
    + destruct (Z.eqb_spec (n - m) 0), (Z.ltb_spec (n - m) 0x80000000), (Z.ltb_spec n m); try lia.
      destruct (Z.eqb_spec (n - m) 1), (Z.eqb_spec n (m + 1)); try lia; simpl; [done|].
      unfold sub_u32. rewrite wrap_small by (unfold in_width; lia). done.
  - intros Hl _. rewrite Hl. simpl. done.
Qed.

Lemma rdt_observe_all_refines ns : forall t newest,
  rdt_represents t newest -> within_window newest ns ->
  snd (observe_all rdt_observe t (map (wrap 32) ns)) = snd (observe_all spec_observe newest ns) /\
  rdt_represents (fst (observe_all rdt_observe t (map (wrap 32) ns)))
    (fst (observe_all spec_observe newest ns)).
Proof.
  induction ns as [|n ns IH]; intros t newest Ht Hw; simpl; [done|].
  destruct Hw as [Hn Hw]. destruct (rdt_observe_refines t newest n Ht Hn) as [Ho Hr].
  destruct (rdt_observe t (u32 n)) as [t1 o1], (spec_observe newest n) as [s1 o1'].
  simpl in *. subst o1'. specialize (IH t1 s1 Hr Hw).
  destruct (observe_all rdt_observe t1 _), (observe_all spec_observe s1 ns). simpl in *.
  destruct IH as [-> ?]. done.
Qed.

(** Records that moved the newest number forward. *)
Definition advances (o : SequenceObservation) : bool :=
  match sequence_kind o with SeqFirst | SeqContiguous | SeqGap => true | _ => false end.

Definition total_gap (os : list SequenceObservation) : Z := foldr (fun o a => gap o + a) 0 os.
Definition count_if {A} (p : A -> bool) (l : list A) : Z := Z.of_nat (length (List.filter p l)).

Lemma count_if_cons {A} (p : A -> bool) x l :
  count_if p (x :: l) = (if p x then 1 else 0) + count_if p l.
Proof. unfold count_if. simpl. destruct (p x); simpl length; lia. Qed.

(** The newest number of a run is its largest. *)
Lemma spec_newest ns : forall m, fst (observe_all spec_observe (Some m) ns) = Some (foldl Z.max m ns).
Proof.
  induction ns as [|n ns IH]; intros m; simpl; [done|].
  assert (exists o, spec_observe (Some m) n = (Some (Z.max m n), o)) as (o & E).
  { simpl. destruct (Z.eqb_spec n m) as [->|]; [by rewrite Z.max_id; eexists|].
    destruct (Z.ltb_spec n m); [rewrite Z.max_l by lia|rewrite Z.max_r by lia]; by eexists. }
  simpl in E. rewrite E. specialize (IH (Z.max m n)). by destruct (observe_all _ _ ns).
Qed.

Lemma spec_gaps ns : forall m,
  foldl Z.max m ns - m = count_if advances (snd (observe_all spec_observe (Some m) ns))
                         + total_gap (snd (observe_all spec_observe (Some m) ns)).
Proof.
  induction ns as [|n ns IH]; intros m; simpl; [unfold count_if; simpl; lia|].
  destruct (Z.eqb_spec n m) as [->|Hne].
  - specialize (IH m). rewrite Z.max_id. destruct (observe_all spec_observe (Some m) ns).
    simpl in *. by rewrite count_if_cons.
  - destruct (Z.ltb_spec n m).
    + specialize (IH m). rewrite Z.max_l by lia. destruct (observe_all spec_observe (Some m) ns).
      simpl in *. by rewrite count_if_cons.
    + specialize (IH n). rewrite Z.max_r by lia. destruct (observe_all spec_observe (Some n) ns).
      simpl in *. rewrite count_if_cons. destruct (Z.eqb_spec n (m + 1)); simpl; lia.
Qed.

Lemma spec_late ns : forall newest, Forall (fun o => advances o = false -> gap o = 0)
  (snd (observe_all spec_observe newest ns)).
Proof.
  induction ns as [|n ns IH]; intros newest; simpl; [constructor|].
  destruct (spec_observe newest n) as [s o] eqn:E. specialize (IH s).
  destruct (observe_all spec_observe s ns). simpl in *. constructor; [|done].
  unfold spec_observe in E. by repeat (case_match; simplify_eq/=).
Qed.

(** ** F/T traces *)

Inductive FtEvent := FtObserve (current : Z) | FtBeginSession.

Definition ft_step (t : FtSequenceTracker) (e : FtEvent)
    : FtSequenceTracker * option FtSequenceKind :=
  match e with
  | FtObserve n => let '(t', k) := ft_observe t n in (t', Some k)
  | FtBeginSession => (ft_begin_session t, None)
  end.

(** Each event with the state it found and the kind it reported. *)
Fixpoint ft_trace (t : FtSequenceTracker) (es : list FtEvent)
    : list (FtSequenceTracker * FtEvent * option FtSequenceKind) :=
  match es with
  | [] => []
  | e :: rest => let '(t', k) := ft_step t e in (t, e, k) :: ft_trace t' rest
  end.

Definition event_in_range (e : FtEvent) : Prop :=
  match e with FtObserve n => in_width 32 n | FtBeginSession => True end.

Lemma ft_trace_pred es : forall t0 i t e k, ft_trace t0 es !! S i = Some (t, e, k) ->
  exists t' e' k', ft_trace t0 es !! i = Some (t', e', k') /\ ft_step t' e' = (t, k').
Proof.
  induction es as [|e0 es IH]; intros t0 i t e k H; [done|]. simpl in *.
  destruct (ft_step t0 e0) as [t1 k1] eqn:E. simpl in H. destruct i as [|i].
  - destruct es as [|e1 es]; [done|]. simpl in H. destruct (ft_step t1 e1). simpl in H.
    injection H as -> -> ->. exists t0, e0, k1. done.
  - destruct (IH t1 i t e k H) as (t' & e' & k' & ? & ?). by exists t', e', k'.
Qed.

Lemma ft_trace_event es : forall t0 i t e k, ft_trace t0 es !! i = Some (t, e, k) ->
  es !! i = Some e /\ snd (ft_step t e) = k.
Proof.
  induction es as [|e0 es IH]; intros t0 i t e k H; [done|]. simpl in *.
  destruct (ft_step t0 e0) as [t1 k1] eqn:E. destruct i as [|i]; simpl in *.
  - injection H as -> -> ->. by rewrite E.
  - eauto.
Qed.

(** A pending candidate was left by a backward record just before. *)
Lemma ft_step_candidate t e t' k : ft_step t e = (t', k) -> has_restart_candidate t' = true ->
  (exists n, e = FtObserve n /\ k = Some FtBackward /\ restart_candidate t' = n /\
     ft_previous t' = ft_previous t) \/
  (has_restart_candidate t = true /\ exists n, e = FtObserve n /\ k = Some FtFirst).
Proof.
  destruct e as [n|]; simpl; [|intros [= <- <-] H; done].
  unfold ft_observe. intros H Hc.
  repeat (case_match; simplify_eq/=); try done; [right; eauto|left; eauto].
Qed.

Lemma ft_restart_inv t n t' : ft_observe t n = (t', FtRestart) ->
  ft_has_last t = true /\ has_restart_candidate t = true /\ 0x10000 <= ft_previous t /\
  restart_candidate t <= 0xffff /\ n <= 0xffff /\
  0 < sub_u32 n (restart_candidate t) < 0x80000000 /\ 0x80000000 <= sub_u32 n (ft_previous t) /\
  ft_previous t' = n.
Proof.
  unfold ft_observe. intros H. repeat (case_match; simplify_eq/=). bool_to_prop.
  unfold kRestartMinBaseline, kRestartLowMax in *.
  change (u32 (0x0000ffff + 1)) with 0x10000 in *. repeat split; done || lia.
Qed.

Lemma sub_u32_small a b : 0 <= a <= 0xffff -> 0 <= b <= 0xffff ->
  0 < sub_u32 a b < 0x80000000 <-> b < a.
Proof.
  intros Ha Hb. unfold sub_u32. rewrite u32_signed by lia. destruct (Z.ltb_spec (a - b) 0); lia.
Qed.

(** A tracker that has no baseline has no candidate. *)
Definition ft_wf (t : FtSequenceTracker) : Prop :=
  has_restart_candidate t = true -> ft_has_last t = true.

Lemma ft_initial_wf : ft_wf ft_initial.
Proof. discriminate. Qed.

Lemma ft_step_wf t e : ft_wf t -> ft_wf (fst (ft_step t e)).
Proof.
  unfold ft_wf. intros Hwf. destruct e as [n|]; simpl; [|done].
  unfold ft_observe. repeat (case_match; simplify_eq/=); try done; bool_to_prop; auto.
Qed.

Lemma ft_trace_wf es : forall t0 i t e k, ft_wf t0 -> ft_trace t0 es !! i = Some (t, e, k) ->
  ft_wf t.
Proof.
  induction es as [|e0 es IH]; intros t0 i t e k Hwf H; [done|]. simpl in *.
  pose proof (ft_step_wf t0 e0 Hwf). destruct (ft_step t0 e0) as [t1 k1]. destruct i as [|i].
  - simpl in H. by injection H as -> -> ->.
  - simpl in *. eauto.
Qed.

(** ** Properties *)

(** C9: [RdtSequenceTracker::observe] on the 32-bit wire numbers refines the
    tracker of unbounded numbers: while every record is within half the number
    space of the newest one before it, each observation (kind and gap) is the
    one the unbounded numbers give, across wrap-around, and the stored number
    is the newest one modulo 2^32. *)
Theorem rdt_tracker_refines ns : within_window None ns ->
  snd (observe_all rdt_observe rdt_initial (map (wrap 32) ns)) =
    snd (observe_all spec_observe None ns) /\
  rdt_represents (fst (observe_all rdt_observe rdt_initial (map (wrap 32) ns)))
    (fst (observe_all spec_observe None ns)).
Proof. by apply rdt_observe_all_refines. Qed.

Definition example_numbers : list Z := [2 ^ 32 - 2; 2 ^ 32 - 1; 2 ^ 32 + 3; 2 ^ 32 + 1; 2 ^ 32 + 3].

Lemma rdt_tracker_refines_witness :
  map sequence_kind (snd (observe_all rdt_observe rdt_initial (map (wrap 32) example_numbers))) =
    [SeqFirst; SeqContiguous; SeqGap; SeqOutOfOrder; SeqDuplicate].
Proof.
  assert (within_window None example_numbers) as Hw
    by eval_range.
  rewrite (proj1 (rdt_tracker_refines example_numbers Hw)). reflexivity.
Defined.

(** C10: the gaps account for every number exactly once: over a run of records
    within the window, the distance from the first number to the largest one is
    the number of records that advanced past the first plus the sum of the
    reported gaps, so a lost record is counted once and wrap-around counts
    nothing; a record that does not advance, a duplicate or a late one, reports
    no gap and leaves the baseline at the largest number. *)
Theorem rdt_gaps_account first ns : within_window None (first :: ns) ->
  let newest := foldl Z.max first ns in
  let run := observe_all rdt_observe rdt_initial (map (wrap 32) (first :: ns)) in
  newest - first + 1 = count_if advances (snd run) + total_gap (snd run) /\
  Forall (fun o => advances o = false -> gap o = 0) (snd run) /\
  rdt_represents (fst run) (Some newest).
Proof.
  intros Hw. cbv zeta. destruct (rdt_observe_all_refines (first :: ns) rdt_initial None eq_refl Hw) as [-> Hr].
  pose proof (spec_gaps ns first) as E. pose proof (spec_late (first :: ns) None) as Hl.
  pose proof (spec_newest ns first) as Hn. cbn [observe_all spec_observe] in *.
  destruct (observe_all spec_observe (Some first) ns) as [s os]. simpl in *. subst s.
  rewrite count_if_cons. simpl. split; [lia|]. split; [done|exact Hr].
Qed.

Lemma rdt_gaps_account_witness :
  let run := observe_all rdt_observe rdt_initial (map (wrap 32) example_numbers) in
  count_if advances (snd run) + total_gap (snd run) = 6 /\ rdt_represents (fst run) (Some (2 ^ 32 + 3)).
Proof.
  assert (within_window None example_numbers) as Hw
    by eval_range.
  destruct (rdt_gaps_account (2 ^ 32 - 2) (tail example_numbers) Hw) as (E & _ & Hr).
  split; [exact (eq_sym E)|exact Hr].
Defined.

(** C11: [FtSequenceTracker] never reports a restart on one odd record: in any
    sequence of records and session starts, a [Restart] follows directly on a
    record of the same session that was reported [Backward], the two numbers
    rise strictly and lie in the low window, and the baseline they abandon,
    which the first of them left untouched, was above that window. *)
Theorem ft_restart_needs_confirmation es i t n :
  Forall event_in_range es ->
  ft_trace ft_initial es !! i = Some (t, FtObserve n, Some FtRestart) ->
  exists j t' c, i = S j /\
    ft_trace ft_initial es !! j = Some (t', FtObserve c, Some FtBackward) /\
    c < n <= 0xffff /\ 0x10000 <= ft_previous t /\ ft_previous t' = ft_previous t.
Proof.
  intros Hr H. destruct (ft_trace_event _ _ _ _ _ _ H) as [He Hk].
  simpl in Hk. destruct (ft_observe t n) as [t2 k2] eqn:Ho. simpl in Hk. injection Hk as ->.
  destruct (ft_restart_inv _ _ _ Ho) as (Hl & Hc & Hb & Hc2 & Hn & Hd & _ & _).
  destruct i as [|i].
  { destruct es as [|e es]; [done|]. simpl in H. destruct (ft_step ft_initial e).
    injection H as <- _ _. done. }
  destruct (ft_trace_pred _ _ _ _ _ _ H) as (t' & e' & k' & Hi & Hs).
  destruct (ft_step_candidate _ _ _ _ Hs Hc) as [(c & -> & -> & Ec & Ep)|(Hc' & m & -> & ->)].
  - exists i, t', c. repeat split; try done; try lia.
    destruct (ft_trace_event _ _ _ _ _ _ Hi) as [He' _].
    pose proof (Forall_lookup_1 _ _ _ _ Hr He) as Rn. pose proof (Forall_lookup_1 _ _ _ _ Hr He') as Rc.
    simpl in Rn, Rc. unfold in_width in *. rewrite Ec in *. by apply sub_u32_small in Hd; [|lia..].
  - exfalso. simpl in Hs. pose proof (ft_trace_wf es _ i t' _ _ ft_initial_wf Hi Hc') as Hl'.
    unfold ft_observe in Hs. rewrite Hl' in Hs. repeat (case_match; simplify_eq/=).
Qed.

Definition example_restart : list FtEvent := [FtObserve 0x12345; FtObserve 3; FtObserve 4].

Lemma ft_restart_needs_confirmation_witness :
  map snd (ft_trace ft_initial example_restart) = [Some FtFirst; Some FtBackward; Some FtRestart] /\
  exists j t' c, 2%nat = S j /\
    ft_trace ft_initial example_restart !! j = Some (t', FtObserve c, Some FtBackward) /\ c < 4.
Proof.
  split; [reflexivity|].
  destruct (ft_restart_needs_confirmation example_restart 2 (MkFtSequenceTracker true 0x12345 true 3) 4)
    as (j & t' & c & E & Hj & Hc & _).
  - eval_ranges.
  - reflexivity.
  - exists j, t', c. repeat split; [done|done|apply Hc].
Defined.

(** C12: a sensor that reboots is recognised by its second record: from a
    baseline between 0x10000 and 2^31, two rising numbers of the low window
    are reported [Backward] then [Restart], and the baseline becomes the second
    number.  A baseline further up reads the same two as [Forward] progress. *)
Theorem ft_restart_recognised t c n :
  ft_has_last t = true -> has_restart_candidate t = false ->
  0 <= c -> c < n -> n <= 0xffff -> 0x10000 <= ft_previous t < 2 ^ 32 ->
  (ft_previous t <= 2 ^ 31 ->
    exists t1 t2, ft_observe t c = (t1, FtBackward) /\ ft_observe t1 n = (t2, FtRestart) /\
      ft_previous t1 = ft_previous t /\ ft_previous t2 = n) /\
  (2 ^ 31 + 0xffff < ft_previous t ->
    exists t1 t2, ft_observe t c = (t1, FtForward) /\ ft_observe t1 n = (t2, FtForward)).
Proof.
  intros Hl Hc H0 Hcn Hn Hp.
  assert (forall m p, 0 <= m <= 0xffff -> 0x10000 <= p < 2 ^ 32 -> sub_u32 m p = m - p + 2 ^ 32) as Hs.
  { intros m p Hm Hq. unfold sub_u32, wrap. rewrite <- (Z.mod_add _ 1), Z.mod_small; lia. }
  split; intros Hb.
  - exists (t <| restart_candidate := c |> <| has_restart_candidate := true |>).
    eexists. split; [|split; [|split]].
    + unfold ft_observe. rewrite Hl, Hc, Hs by lia. simpl.
      destruct (Z.eqb_spec c (ft_previous t)); [lia|].
      destruct (Z.ltb_spec (c - ft_previous t + 2 ^ 32) 0x80000000); [lia|].
      rewrite andb_false_r. done.
    + unfold ft_observe. cbn. rewrite Hl, Hs by lia. simpl negb. cbv iota.
      destruct (Z.eqb_spec n (ft_previous t)); [lia|].
      destruct (Z.ltb_spec (n - ft_previous t + 2 ^ 32) 0x80000000); [lia|].
      assert (sub_u32 n c = n - c) as -> by (unfold sub_u32; apply wrap_small; unfold in_width; lia).
      unfold kRestartMinBaseline, kRestartLowMax. change (u32 (0x0000ffff + 1)) with 0x10000.
      replace (_ && _) with true by (symmetry; rewrite !andb_true_iff; lia). reflexivity.
    + done.
    + done.
  - exists (t <| ft_previous := c |> <| has_restart_candidate := false |>). eexists. split.
    + unfold ft_observe. rewrite Hl, Hs by lia. simpl.
      destruct (Z.eqb_spec c (ft_previous t)); [lia|].
      destruct (Z.ltb_spec (c - ft_previous t + 2 ^ 32) 0x80000000); [done|lia].
    + unfold ft_observe. cbn. rewrite Hl. simpl negb. cbv iota.
      destruct (Z.eqb_spec n c); [lia|].
      assert (sub_u32 n c = n - c) as -> by (unfold sub_u32; apply wrap_small; unfold in_width; lia).
      destruct (Z.ltb_spec (n - c) 0x80000000); [done|lia].
Qed.

Lemma ft_restart_recognised_witness :
  exists t1 t2, ft_observe (MkFtSequenceTracker true 0x10000 false 0) 0xfffe = (t1, FtBackward) /\
    ft_observe t1 0xffff = (t2, FtRestart).
Proof.
  destruct (ft_restart_recognised (MkFtSequenceTracker true 0x10000 false 0) 0xfffe 0xffff)
    as [H _]; try reflexivity; try (simpl; lia).
  destruct H as (t1 & t2 & H1 & H2 & _); [simpl; lia|]. exists t1, t2. split; [exact H1|exact H2].
Defined.
