(* ===== verification/FaultLatch.v ===== *)
(** * The fault latch: src/src/detail/fault_latch.hpp, fault_latch.cpp

    The latch is one atomic [FaultCode]; [publish] also writes the health
    snapshot under the client's data mutex.  [lock] says whether the mutex was
    acquired ([std::mutex::lock] may throw). *)

From S2P Require Export Types.

Record FaultLatch := MkFaultLatch { code_ : FaultCode }.

Definition latch_initial : FaultLatch := MkFaultLatch FaultNone.

Definition latch_code (l : FaultLatch) : FaultCode := code_ l.
Definition faulted (l : FaultLatch) : bool := negb (bool_decide (code_ l = FaultNone)).
Definition latch_reset (l : FaultLatch) : FaultLatch := MkFaultLatch FaultNone.

(** The returned flag, the latch and the health snapshot. *)
Definition publish (lock : bool) (l : FaultLatch) (health : HealthSnapshot) (code : FaultCode)
    (message : string) : bool * FaultLatch * HealthSnapshot :=
  if negb lock then (false, l, health)
  else if negb (bool_decide (code_ l = FaultNone)) then (false, l, health)
  else (true, MkFaultLatch code,
        health <| state := Faulted |> <| health_fault_code := code |> <| last_error := message |>).

(** ** Sequences of operations *)

Inductive LatchOp :=
| OpPublish (lock : bool) (code : FaultCode) (message : string)
| OpReset.

Definition latch_step (s : FaultLatch * HealthSnapshot) (op : LatchOp)
    : bool * (FaultLatch * HealthSnapshot) :=
  let '(l, h) := s in
  match op with
  | OpPublish lock code message =>
      let '(won, l', h') := publish lock l h code message in (won, (l', h'))
  | OpReset => (false, (latch_reset l, h))
  end.

Fixpoint latch_run (s : FaultLatch * HealthSnapshot) (ops : list LatchOp)
    : list bool * (FaultLatch * HealthSnapshot) :=
  match ops with
  | [] => ([], s)
  | op :: rest =>
      let '(won, s1) := latch_step s op in
      let '(wons, s2) := latch_run s1 rest in (won :: wons, s2)
  end.

(** The specification: the first real fault published under the lock. *)
Fixpoint first_fault (ops : list LatchOp) : option (FaultCode * string) :=
  match ops with
  | OpPublish true code message :: rest =>
      if bool_decide (code = FaultNone) then first_fault rest else Some (code, message)
  | OpPublish false _ _ :: rest => first_fault rest
  | OpReset :: rest => first_fault rest
  | [] => None
  end.

Definition no_reset (ops : list LatchOp) : Prop := ~ In OpReset ops.
Definition real_faults (ops : list LatchOp) : Prop :=
  forall lock code message, In (OpPublish lock code message) ops -> code <> FaultNone.

(** ** Lemmas *)

Lemma publish_won lock l h code m l' h' : publish lock l h code m = (true, l', h') ->
  faulted l = false /\ code_ l' = code /\ state h' = Faulted /\ health_fault_code h' = code /\
  last_error h' = m.
Proof.
  unfold publish, faulted. destruct lock; [|done]. simpl.
  destruct (negb _) eqn:E; [done|]. intros [= <- <-]. done.
Qed.

Lemma publish_lost lock l h code m l' h' : publish lock l h code m = (false, l', h') ->
  l' = l /\ h' = h /\ (lock = false \/ faulted l = true).
Proof.
  unfold publish, faulted. destruct lock; [|by intros [= <- <-]; auto]. simpl.
  destruct (negb _) eqn:E; [|done]. intros [= <- <-]. auto.
Qed.

Lemma publish_free l h code m : faulted l = false ->
  publish true l h code m = (true, MkFaultLatch code,
    h <| state := Faulted |> <| health_fault_code := code |> <| last_error := m |>).
Proof. unfold publish, faulted. simpl. intros ->. done. Qed.

Lemma publish_faulted lock l h code m : faulted l = true ->
  publish lock l h code m = (false, l, h).
Proof. unfold publish, faulted. intros ->. by destruct lock. Qed.

(** A latched fault stays as it is until a reset. *)
Lemma latch_run_faulted ops : forall l h, faulted l = true -> no_reset ops ->
  latch_run (l, h) ops = (map (fun _ => false) ops, (l, h)).
Proof.
  induction ops as [|op ops IH]; intros l h Hl Hn; [done|]. simpl.
  destruct op as [lock code m|]; [|destruct Hn; simpl; auto]. simpl.
  rewrite publish_faulted by done. rewrite IH; [done|done|]. intros H. apply Hn. by right.
Qed.

(** ** Properties *)

(** The first fault wins: over any sequence of publications between two
    resets (those whose lock throws included), the latch and the health
    snapshot end with the code and message of the first real fault published
    under the lock, all later ones leave both unchanged, and exactly that
    publication reports success; with none, nothing changes. *)
Theorem first_fault_wins ops h : no_reset ops -> real_faults ops ->
  match first_fault ops with
  | Some (code, message) =>
      snd (latch_run (latch_initial, h) ops) =
        (MkFaultLatch code,
         h <| state := Faulted |> <| health_fault_code := code |> <| last_error := message |>) /\
      length (List.filter id (fst (latch_run (latch_initial, h) ops))) = 1%nat
  | None =>
      snd (latch_run (latch_initial, h) ops) = (latch_initial, h) /\
      length (List.filter id (fst (latch_run (latch_initial, h) ops))) = 0%nat
  end.
Proof.
  intros Hn Hr. induction ops as [|op ops IH]; [done|].
  assert (no_reset ops) as Hn' by (intros H; apply Hn; by right).
  assert (real_faults ops) as Hr' by (intros lk c m H; eapply Hr; right; exact H).
  specialize (IH Hn' Hr').
  destruct op as [[] code m|]; [| |destruct Hn; simpl; auto].
  - assert (code <> FaultNone) as Hc by (eapply Hr; left; done).
    cbn [first_fault]. rewrite bool_decide_eq_false_2 by done.
    cbn [latch_run latch_step]. rewrite publish_free by done.
    assert (faulted (MkFaultLatch code) = true) as Hf
      by (unfold faulted; simpl; by rewrite bool_decide_eq_false_2).
    rewrite latch_run_faulted by done. split; [done|]. simpl.
    clear. induction ops; simpl; auto.
  - cbn [first_fault latch_run latch_step publish negb].
    destruct (latch_run (latch_initial, h) ops). simpl in *. done.
Qed.

Definition example_ops : list LatchOp :=
  [OpPublish false FaultTimeout "a"; OpPublish true FaultSocket "b"; OpPublish true FaultTimeout "c"].

Lemma first_fault_wins_witness :
  latch_code (fst (snd (latch_run (latch_initial, default_health) example_ops))) = FaultSocket.
Proof.
  assert (no_reset example_ops) as Hn by (intros [H|[H|[H|[]]]]; discriminate H).
  assert (real_faults example_ops) as Hr
    by (intros l c m [H|[H|[H|[]]]]; injection H as <- <- <-; discriminate).
  destruct (first_fault_wins example_ops default_health Hn Hr) as [H _].
  exact (f_equal (fun s => latch_code (fst s)) H).
Defined.
