(* ===== verification/Transport.v ===== *)
(** * The transport interface: src/src/detail/udp_transport.hpp

    What the client sees of [UdpTransport].  [os_answer] is what the operating
    system answers during one call; the two implementations fill it in.
    [transport_receive] gets the transport as it was when the call began and as
    it is when the wait ends, since another thread may shut it down meanwhile;
    it changes nothing itself.  The observers state the promises. *)

From S2P Require Export Types.

Class TransportOps := {
  transport : Type;
  os_answer : Type;
  transport_initial : transport;
  transport_connect : os_answer -> string -> Z -> transport -> result unit * transport;
  transport_send : os_answer -> list Z -> transport -> result unit;
  transport_receive : os_answer -> Z -> float -> transport -> transport -> result (list Z);
  transport_shutdown : transport -> transport;
  transport_close : transport -> transport;
  is_connected : transport -> bool;
  is_shutdown : transport -> bool;
}.

(** What an implementation promises the client. *)
Class TransportLaws (T : TransportOps) : Prop := {
  initial_disconnected : is_connected transport_initial = false;
  connect_ok : forall a host port t t', transport_connect a host port t = (Ok tt, t') ->
    is_connected t' = true /\ is_shutdown t' = false;
  connect_throw : forall a host port t t' e,
    transport_connect a host port t = (Throw e, t') -> t' = t;
  send_connected : forall a bytes t, transport_send a bytes t = Ok tt -> is_connected t = true;
  receive_connected : forall a cap timeout t t' bytes,
    transport_receive a cap timeout t t' = Ok bytes -> is_connected t = true;
  receive_shutdown : forall a cap timeout t t' bytes,
    transport_receive a cap timeout t t' = Ok bytes ->
    is_shutdown t = true \/ is_shutdown t' = true -> bytes = [];
  receive_capacity : forall a cap timeout t t' bytes, 0 <= cap ->
    transport_receive a cap timeout t t' = Ok bytes -> Z.of_nat (length bytes) <= cap;
  shutdown_observed : forall t, is_shutdown (transport_shutdown t) = true /\
    is_connected (transport_shutdown t) = is_connected t;
  close_observed : forall t, is_shutdown (transport_close t) = true /\
    is_connected (transport_close t) = false;
}.

(** The exceptions the calls throw are [std::exception]s. *)
Class TransportErrors (T : TransportOps) : Prop := {
  connect_error : forall a host port t t' e,
    transport_connect a host port t = (Throw e, t') -> exn_what e <> None;
  send_error : forall a bytes t e, transport_send a bytes t = Throw e -> exn_what e <> None;
  receive_error : forall a cap timeout t t' e,
    transport_receive a cap timeout t t' = Throw e -> exn_what e <> None;
}.
