(* ===== verification/Sockets.v ===== *)
(** * Sockets: what the two transports share

    [UdpTransport] of src/src/detail/udp_transport.hpp, the system calls both
    implementations make and which descriptors they leave open, the loop over
    resolved addresses, and the conversion of a waiting time. *)

From S2P Require Export Transport.

#[local] Open Scope Z_scope.

(** ** System calls *)

Inductive Syscall :=
| SysSocket (fd : Z)
| SysConnect (fd : Z)
| SysSend (fd : Z) (bytes : list Z)
| SysPoll (fd : Z) (milliseconds : Z)
| SysRecv (fd : Z) (capacity : Z)
| SysShutdown (fd : Z)
| SysClose (fd : Z).

(** What [socket] and [connect] answer for one address: no descriptor, a
    descriptor that does not connect, or one that does. *)
Inductive Attempt :=
| NoSocket (errno : Z)
| Refused (fd errno : Z)
| Connected (fd : Z).

Definition int_max : Z := 2 ^ 31 - 1.

(** ** The transport *)

Record UdpTransport := MkUdpTransport {
  socket_ : option Z;
  shutdown_requested_ : bool;
}.
#[export] Instance UdpTransport_eta : Eta UdpTransport := fun t =>
  MkUdpTransport (socket_ t) (shutdown_requested_ t).

Definition udp_initial : UdpTransport := MkUdpTransport None false.

Definition not_connected : exn := RuntimeError "UDP socket is not connected".

(** The loop over the addresses: the calls made, and the connected descriptor
    or the last error. *)
Fixpoint try_addresses (addresses : list Attempt) (last_error : Z) : list Syscall * (Z + Z) :=
  match addresses with
  | [] => ([], inl last_error)
  | NoSocket errno :: rest => try_addresses rest errno
  | Refused fd errno :: rest =>
      let '(calls, r) := try_addresses rest errno in
      ([SysSocket fd; SysConnect fd; SysClose fd] ++ calls, r)
  | Connected fd :: _ => ([SysSocket fd; SysConnect fd], inr fd)
  end.

Definition close_calls (t : UdpTransport) : list Syscall :=
  match socket_ t with Some fd => [SysClose fd] | None => [] end.

(** [static_cast<int>(std::ceil(timeout.count() * 1000.0))], saturating. *)
Definition timeout_milliseconds (timeout : float) : Z :=
  let milliseconds := ceil binary64 (fmul binary64 timeout (dbl 1000)) in
  if fle (dbl int_max) milliseconds then int_max else trunc milliseconds.

(** ** Descriptors

    What the process has open, call by call: a call on a descriptor that is not
    open has no result, nor has opening one that is. *)

Definition replay_call (open : list Z) (c : Syscall) : option (list Z) :=
  match c with
  | SysSocket fd => if decide (fd ∈ open) then None else Some (fd :: open)
  | SysClose fd => if decide (fd ∈ open) then Some (List.filter (fun x => negb (x =? fd)) open) else None
  | SysConnect fd | SysSend fd _ | SysPoll fd _ | SysRecv fd _ | SysShutdown fd =>
      if decide (fd ∈ open) then Some open else None
  end.

Definition replay (calls : list Syscall) (open : list Z) : option (list Z) :=
  foldl (fun o c => open ← o; replay_call open c) (Some open) calls.

Definition attempt_fd (a : Attempt) : option Z :=
  match a with NoSocket _ => None | Refused fd _ | Connected fd => Some fd end.

(** The descriptors the transport holds. *)
Definition held (t : UdpTransport) : list Z := option_list (socket_ t).

Lemma replay_app c1 c2 open : replay (c1 ++ c2) open = (o ← replay c1 open; replay c2 o).
Proof.
  unfold replay. rewrite foldl_app. destruct (foldl _ (Some open) c1) as [o|]; [done|].
  simpl. induction c2; [done|]. done.
Qed.

Lemma replay_uses fd calls open : fd ∈ open ->
  Forall (fun c => match c with
                   | SysConnect x | SysSend x _ | SysPoll x _ | SysRecv x _ | SysShutdown x => x = fd
                   | _ => False end) calls ->
  replay calls open = Some open.
Proof.
  intros Hf. induction 1 as [|c calls Hc _ IH]; [done|].
  change (c :: calls) with ([c] ++ calls). rewrite replay_app.
  replace (replay [c] open) with (Some open); [exact IH|].
  destruct c; try done; subst; unfold replay; simpl; by rewrite decide_True.
Qed.

Lemma replay_attempt fd open : fd ∉ open ->
  replay [SysSocket fd; SysConnect fd] open = Some (fd :: open).
Proof. intros H. unfold replay. simpl. rewrite decide_False by done. simpl. by rewrite decide_True by left. Qed.

Lemma filter_head fd open : fd ∉ open ->
  List.filter (fun x => negb (x =? fd)) (fd :: open) = open.
Proof.
  intros H. simpl. rewrite Z.eqb_refl. simpl. induction open as [|x open IH]; [done|].
  apply not_elem_of_cons in H as [Hne H]. simpl. destruct (Z.eqb_spec x fd); [congruence|]. simpl. by rewrite IH.
Qed.

Lemma replay_close fd open calls : fd ∉ open ->
  replay (SysClose fd :: calls) (fd :: open) = replay calls open.
Proof.
  intros H. change (SysClose fd :: calls) with ([SysClose fd] ++ calls). rewrite replay_app.
  assert (replay [SysClose fd] (fd :: open) = Some open) as ->; [|done].
  pose proof (filter_head fd open H) as E. unfold replay, replay_call. cbn [foldl mbind option_bind].
  rewrite decide_True by left. by rewrite E.
Qed.

Lemma try_addresses_replay l : forall e calls r open, try_addresses l e = (calls, r) ->
  Forall (fun at_ => forall fd, attempt_fd at_ = Some fd -> fd ∉ open) l ->
  replay calls open = Some (match r with inl _ => open | inr fd => fd :: open end) /\
  (forall fd, r = inr fd -> fd ∉ open).
Proof.
  induction l as [|[errno|fd errno|fd] l IH]; intros e calls r open H Hf; cbn [try_addresses] in H.
  - by injection H as <- <-.
  - apply Forall_cons in Hf as [_ Hf]. by eapply IH.
  - apply Forall_cons in Hf as [Hfd Hf]. specialize (Hfd fd eq_refl).
    destruct (try_addresses l errno) as [calls' r'] eqn:E. injection H as <- <-.
    destruct (IH _ _ _ open E Hf) as [Hr Hn]. split; [|done].
    transitivity (replay ([SysSocket fd; SysConnect fd] ++ SysClose fd :: calls') open); [done|].
    rewrite replay_app, replay_attempt by done. cbn [mbind option_bind]. by rewrite replay_close.
  - apply Forall_cons in Hf as [Hfd _]. specialize (Hfd fd eq_refl). injection H as <- <-.
    split; [by apply replay_attempt|]. by intros ? [= <-].
Qed.

Lemma close_calls_replay t : replay (close_calls t) (held t) = Some [].
Proof.
  unfold close_calls, held. destruct (socket_ t) as [fd|]; [|done]. simpl.
  rewrite replay_close; [done|apply not_elem_of_nil].
Qed.

(** Connecting: the attempts, then the old socket is closed. *)
Lemma connect_replay t l e calls r : try_addresses l e = (calls, r) ->
  Forall (fun at_ => forall fd, attempt_fd at_ = Some fd -> socket_ t <> Some fd) l ->
  match r with
  | inl _ => replay calls (held t) = Some (held t)
  | inr fd => replay (calls ++ close_calls t) (held t) = Some [fd]
  end.
Proof.
  intros E Hf. destruct (try_addresses_replay l e calls r (held t) E) as [Hr Hn].
  { eapply Forall_impl; [exact Hf|]. intros at_ H fd Hfd. unfold held.
    specialize (H fd Hfd). destruct (socket_ t); simpl; [|apply not_elem_of_nil].
    rewrite list_elem_of_singleton. congruence. }
  destruct r as [errno|fd]; [done|]. specialize (Hn fd eq_refl).
  rewrite replay_app, Hr. cbn [mbind option_bind]. unfold close_calls, held in *.
  destruct (socket_ t) as [s|]; [|done]. simpl in *.
  assert (fd <> s) as Hne by (intros ->; apply Hn; left).
  unfold replay, replay_call. cbn [foldl mbind option_bind].
  rewrite decide_True by (right; left). cbn [List.filter].
  rewrite Z.eqb_refl, (proj2 (Z.eqb_neq fd s)) by done. done.
Qed.

(** Sequences of operations, each of which leaves open what its object holds. *)
Section sequences.
  Context {Op : Type} (step : Op -> UdpTransport -> UdpTransport * list Syscall)
    (fresh_op : Op -> UdpTransport -> Prop).
  Context (step_replay : forall op t, fresh_op op t ->
    replay (snd (step op t)) (held t) = Some (held (fst (step op t)))).

Fixpoint run_ops (ops : list Op) (t : UdpTransport) : UdpTransport * list Syscall :=
  match ops with
  | [] => (t, [])
  | op :: rest =>
      let '(t, calls) := step op t in
      let '(t, more) := run_ops rest t in (t, calls ++ more)
  end.

Fixpoint fresh_run (ops : list Op) (t : UdpTransport) : Prop :=
  match ops with
  | [] => True
  | op :: rest => fresh_op op t /\ fresh_run rest (fst (step op t))
  end.

Lemma run_ops_replay ops : forall t, fresh_run ops t ->
  replay (snd (run_ops ops t)) (held t) = Some (held (fst (run_ops ops t))).
Proof.
  induction ops as [|op ops IH]; intros t Hf; [done|]. destruct Hf as [Ho Hf]. cbn [run_ops].
  pose proof (step_replay op t Ho) as H. destruct (step op t) as [t1 calls]. simpl in H, Hf.
  specialize (IH t1 Hf). destruct (run_ops ops t1) as [t2 more]. simpl in *.
  by rewrite replay_app, H.
Qed.

(** From the beginning to the destructor. *)
Lemma run_ops_balanced ops : fresh_run ops udp_initial ->
  let '(t, calls) := run_ops ops udp_initial in
  replay calls [] = Some (held t) /\ replay (calls ++ close_calls t) [] = Some [].
Proof.
  intros Hf. pose proof (run_ops_replay ops udp_initial Hf) as H.
  destruct (run_ops ops udp_initial) as [t calls]. simpl in H.
  change (held udp_initial) with (@nil Z) in H. split; [exact H|].
  rewrite replay_app, H. apply close_calls_replay.
Qed.

End sequences.

(** ** Waiting times *)

(** A timeout that is a positive finite number. *)
Definition positive_seconds (t : float) : Prop :=
  valid binary64 t = true /\ is_finite t = true /\ sign t = false /\ 0 < mag binary64 t.

Lemma dbl_positive z : 0 < z < 2 ^ 64 ->
  valid binary64 (dbl z) = true /\ is_finite (dbl z) = true /\ sign (dbl z) = false /\
  unit_of binary64 <= mag binary64 (dbl z) <= 2 ^ 64 * unit_of binary64.
Proof.
  intros Hz. destruct (of_Z_bounded binary64 z 64 ltac:(lia) ltac:(simpl; lia)) as (V & S & F & M & B).
  rewrite (proj2 (Z.ltb_ge z 0)) in S by lia. split_and!; try done. rewrite M.
  pose proof (unit_pos binary64).
  pose proof (round_exact 53 ltac:(lia) 1 (- fmin binary64) ltac:(lia) ltac:(done)) as E.
  change (2 ^ (- fmin binary64)) with (unit_of binary64) in E. rewrite Z.mul_1_l in E.
  rewrite <- E at 1. apply (round_mono 53); nia.
Qed.

(** A positive count of nanoseconds is a positive time. *)
Lemma seconds_of_ns_positive ns : 0 < ns < 2 ^ 64 -> positive_seconds (seconds_of_ns ns).
Proof.
  intros Hns. destruct (dbl_positive ns Hns) as (V & F & S & L & U).
  destruct (of_Z_exact binary64 period_den ltac:(done)) as (V1 & S1 & F1 & M1).
  pose proof (unit_pos binary64) as Hu.
  assert (0 < mag binary64 (dbl period_den)) as Hd by (rewrite M1; unfold period_den; lia).
  destruct (fdiv_bounded binary64 (dbl ns) (dbl period_den) V V1 F F1 Hd) as (Vr & Sr & Fr & Mr).
  { rewrite M1. etransitivity; [apply Z.mul_le_mono_nonneg_r; [lia|exact U]|].
    rewrite Z.mul_assoc. apply Z.mul_le_mono_nonneg_r; [lia|]. by vm_compute. }
  unfold seconds_of_ns. split; [done|]. split; [done|]. rewrite Sr, S, S1, Mr. split; [done|].
  assert (mag binary64 (dbl period_den) <= mag binary64 (dbl ns) * unit_of binary64) as Hle.
  { rewrite M1. apply Z.mul_le_mono_nonneg_r; [lia|]. etransitivity; [|exact L]. by vm_compute. }
  pose proof (round_pos binary64 (mag binary64 (dbl ns) * unit_of binary64) (mag binary64 (dbl period_den)) ltac:(lia)).
  change (prec binary64) with 53 in *. lia.
Qed.

Lemma timeout_milliseconds_bounds t : positive_seconds t -> 1 <= timeout_milliseconds t <= int_max.
Proof.
  intros (V & F & S & M). unfold timeout_milliseconds.
  destruct (ceil_scaled binary64 t 1000 V F S M ltac:(done) ltac:(done)) as [E|(c & Hc & F' & V' & S' & M' & Et)].
  - by rewrite E.
  - destruct (of_Z_exact binary64 int_max ltac:(done)) as (V1 & S1 & F1 & M1).
    rewrite (fle_sval binary64) by done. unfold sval. rewrite S1, S', M1, M'.
    change (int_max <? 0) with false. change (Z.abs int_max) with int_max. cbv iota.
    pose proof (unit_pos binary64) as Hu. rewrite Et.
    destruct (Z.leb_spec (int_max * unit_of binary64) (c * unit_of binary64)) as [H|H]; [done|].
    apply Z.mul_lt_mono_pos_r in H; [lia|done].
Qed.
