(* ===== verification/XmlConfig.v ===== *)
(** * The sensor's configuration document: src/src/detail/xml_config.cpp

    [xml] is the list of the document's characters; a position in it is the
    list of what follows, [find] splits it.  The scanner's stack, texts and
    marks are [Scan]; one iteration of its loop is [scan_step].  The second
    half reads the numbers and units and builds the configuration. *)

From S2P Require Export Types.

Abbreviation chars := (list ascii).
Abbreviation chars_of := String.list_ascii_of_string.
Abbreviation string_of := String.string_of_list_ascii.

(** ** Characters and searches *)

Definition kMaximumFieldLength : nat := 128.
Definition kRequiredTags : list string := ["prodname"; "cfgcpf"; "cfgcpt"; "scfgfu"; "scfgtu"]%string.

Definition is_ascii_whitespace (c : ascii) : bool :=
  (Ascii.eqb c " " || Ascii.eqb c "009" || Ascii.eqb c "010" || Ascii.eqb c "013"
   || Ascii.eqb c "012" || Ascii.eqb c "011")%char.

Fixpoint trim_front (value : chars) : chars :=
  match value with
  | c :: rest => if is_ascii_whitespace c then trim_front rest else value
  | [] => []
  end.

Definition trim_ascii_whitespace (value : chars) : chars := rev (trim_front (rev (trim_front value))).

(** [None] for the source's [-1]. *)
Definition required_tag_index (name : chars) : option nat :=
  fst <$> list_find (fun tag => name = chars_of tag) kRequiredTags.

(** The name of a required tag. *)
Definition required_tag (index : nat) : string := nth index kRequiredTags ""%string.

(** What follows a prefix, if the characters start with it. *)
Fixpoint strip_prefix (p xml : chars) : option chars :=
  match p, xml with
  | [], _ => Some xml
  | c :: p, d :: xml => if Ascii.eqb c d then strip_prefix p xml else None
  | _ :: _, [] => None
  end.

(** [find]: what comes before the first occurrence, and what after it. *)
Fixpoint find (p xml : chars) : option (chars * chars) :=
  match strip_prefix p xml with
  | Some rest => Some ([], rest)
  | None =>
      match xml with
      | [] => None
      | c :: xml => '(before, rest) ← find p xml; Some (c :: before, rest)
      end
  end.

(** [find_first_of] on white space: the characters up to it. *)
Fixpoint until_space (value : chars) : chars :=
  match value with
  | c :: rest => if is_ascii_whitespace c then [] else c :: until_space rest
  | [] => []
  end.

(** The two quote characters, by code. *)
Definition is_quote (c : ascii) : bool := (Ascii.eqb c "039" || Ascii.eqb c "034")%char.

Definition unterminated_markup : exn :=
  DiscoveryError "sensor configuration contains unterminated markup".
Definition malformed_markup : exn :=
  DiscoveryError "sensor configuration contains malformed markup".
Definition malformed_nesting : exn :=
  DiscoveryError "sensor configuration contains malformed element nesting".
Definition field_error (index : nat) (problem : string) : exn :=
  DiscoveryError ("sensor configuration field '" +:+ required_tag index +:+ "' " +:+ problem).

(** [quote] is the open quote, if any; the characters before the closing [>]
    and those after it. *)
Fixpoint find_tag_end (quote : option ascii) (xml : chars) : result (chars * chars) :=
  match xml with
  | [] => Throw unterminated_markup
  | c :: rest =>
      let go quote := '(before, after) ← find_tag_end quote rest; Ok (c :: before, after) in
      match quote with
      | Some q => go (if Ascii.eqb c q then None else Some q)
      | None => if is_quote c then go (Some c)
                else if Ascii.eqb c ">" then Ok ([], rest) else go None
      end
  end.

(** ** The floating-point environment

    What the [fenv] functions answer: whether [feholdexcept] works, the mode
    [fegetround] finds, if it finds one, and whether [fesetround] works.
    [ScopedRoundToNearest] throws or returns the mode that the rest of the
    block runs in.  Restoring the caller's environment is taken to work; the
    source ends the process otherwise. *)
Inductive Rounding := ToNearest | Upward | Downward | TowardZero.

#[export] Instance Rounding_eq_dec : EqDecision Rounding.
Proof. solve_decision. Defined.

Record FenvAnswer := MkFenvAnswer {
  fenv_held : bool;
  fenv_mode : option Rounding;
  fenv_set : bool;
}.

Definition ScopedRoundToNearest (a : FenvAnswer) : result Rounding :=
  _ ← throw_if (negb (fenv_held a)) (DiscoveryError "failed to hold the floating-point environment");
  match fenv_mode a with
  | None => Throw (DiscoveryError "failed to inspect the floating-point rounding mode")
  | Some mode =>
      if bool_decide (mode = ToNearest) then Ok mode
      else if fenv_set a then Ok ToNearest
      else Throw (DiscoveryError "failed to select round-to-nearest floating-point parsing")
  end.

(** ** The scanner *)

Record OpenElement := MkOpenElement { name : chars; required_index : option nat }.

(** [elements] has its back first; [fields] and [seen] have one entry for each
    required tag. *)
Record Scan := MkScan {
  elements : list OpenElement;
  fields : list chars;
  seen : list bool;
}.
#[export] Instance Scan_eta : Eta Scan := fun s => MkScan (elements s) (fields s) (seen s).

Definition scan_initial : Scan :=
  MkScan [] (replicate (length kRequiredTags) []) (replicate (length kRequiredTags) false).

(** The required field whose element is open, if the innermost one is. *)
Definition open_field (s : Scan) : option nat := e ← head (elements s); required_index e.

Definition append_required_text (text : chars) (s : Scan) : Scan :=
  match open_field s with
  | Some index => s <| fields := alter (fun f => f ++ text) index (fields s) |>
  | None => s
  end.

Definition close_tag (tag : chars) (s : Scan) : result Scan :=
  let closing := trim_ascii_whitespace tag in
  match elements s with
  | e :: outer =>
      if bool_decide (closing = []) || existsb (fun c => is_ascii_whitespace c || Ascii.eqb c "/") closing
         || negb (bool_decide (name e = closing))
      then Throw malformed_nesting else Ok (s <| elements := outer |>)
  | [] => Throw malformed_nesting
  end.

Definition mark_seen (index : option nat) (s : Scan) : result Scan :=
  match index with
  | Some i =>
      _ ← throw_if (nth i (seen s) false) (field_error i "must appear exactly once");
      Ok (s <| seen := <[i := true]> (seen s) |>)
  | None => Ok s
  end.

Definition open_tag (tag : chars) (s : Scan) : result Scan :=
  let self_closing := bool_decide (last tag = Some "/"%char) in
  let tag := if self_closing then trim_ascii_whitespace (removelast tag) else tag in
  let opened := until_space tag in
  _ ← throw_if (bool_decide (opened = []) || bool_decide (head opened = Some "/"%char)) malformed_markup;
  let index := required_tag_index opened in
  _ ← throw_if (bool_decide (is_Some (open_field s)))
        (DiscoveryError "sensor configuration fields must contain text only");
  s ← mark_seen index s;
  Ok (if self_closing then s else s <| elements := MkOpenElement opened index :: elements s |>).

(** A tag: what follows its [<] or the error. *)
Definition scan_tag (s : Scan) (after_bracket : chars) : result (Scan * chars) :=
  '(content, rest) ← find_tag_end None after_bracket;
  match trim_ascii_whitespace content with
  | [] => Throw malformed_markup
  | c :: tail =>
      s ← (if Ascii.eqb c "/" then close_tag tail s else open_tag (c :: tail) s);
      Ok (s, rest)
  end.

(** The text of a comment, a CDATA section or a processing instruction, and
    what follows its end. *)
Definition section_end (closing : string) (e : exn) (xml : chars) : result (chars * chars) :=
  match find (chars_of closing) xml with Some r => Ok r | None => Throw e end.

(** From a [<] on. *)
Definition scan_markup (s : Scan) (markup : chars) : result (Scan * chars) :=
  match strip_prefix (chars_of "<!--") markup with
  | Some inside =>
      '(_, rest) ← section_end "-->"
        (DiscoveryError "sensor configuration contains an unterminated comment") inside;
      Ok (s, rest)
  | None =>
  match strip_prefix (chars_of "<![CDATA[") markup with
  | Some inside =>
      '(text, rest) ← section_end "]]>"
        (DiscoveryError "sensor configuration contains unterminated CDATA") inside;
      Ok (append_required_text text s, rest)
  | None =>
  match strip_prefix (chars_of "<?") markup with
  | Some inside => '(_, rest) ← section_end "?>" unterminated_markup inside; Ok (s, rest)
  | None =>
  match strip_prefix (chars_of "<!") markup with
  | Some _ => Throw (DiscoveryError "sensor configuration contains unsupported markup")
  | None => scan_tag s (tail markup)
  end end end end.

(** The body of the loop. *)
Definition scan_step (s : Scan) (xml : chars) : result (Scan * chars) :=
  match find ["<"%char] xml with
  | None => Ok (append_required_text xml s, [])
  | Some (text, rest) => scan_markup (append_required_text text s) ("<"%char :: rest)
  end.

(** [fuel] bounds the iterations; [None] when it runs out. *)
Fixpoint scan_loop (fuel : nat) (s : Scan) (xml : chars) : option (result Scan) :=
  match fuel with
  | O => None
  | S n =>
      match xml with
      | [] => Some (Ok s)
      | _ =>
          match scan_step s xml with
          | Throw e => Some (Throw e)
          | Ok (s, xml) => scan_loop n s xml
          end
      end
  end.

(** One field after the scan. *)
Definition finish_field (s : Scan) (index : nat) : result chars :=
  if nth index (seen s) false then
    let value := trim_ascii_whitespace (nth index (fields s) []) in
    _ ← throw_if (bool_decide (value = [])) (field_error index "is empty");
    _ ← throw_if (kMaximumFieldLength <? length value)%nat (field_error index "is too long");
    Ok value
  else if (index =? 0)%nat then Ok (chars_of "ATI Net F/T")
  else Throw (field_error index "must appear exactly once").

Definition finish_scan (s : Scan) : result (list chars) :=
  _ ← throw_if (negb (bool_decide (elements s = []))) malformed_nesting;
  mapM (finish_field s) (seq 0 (length kRequiredTags)).

(** Every iteration consumes a character: the fuel is always enough. *)
Definition extract_required_fields (xml : chars) : option (result (list chars)) :=
  r ← scan_loop (S (length xml)) scan_initial xml;
  Some (s ← r; finish_scan s).

(** ** Numbers

    [input >> noskipws >> result] in the classic locale is the C++ library's.
    What it accepts differs: all libraries read decimal numerals, libc++ and
    Microsoft's also hexadecimal ones, and they treat the ends of the range
    differently.  So it is an interface: [extract_double mode value] is the double
    read when the whole of [value] is read without an error, in a thread whose
    rounding mode is [mode].  The theorems about the parser as a whole hold for
    every such library. *)
Class NumericInput := {
  extract_double : Rounding -> chars -> option float;
  extract_valid : forall mode value r, extract_double mode value = Some r -> valid binary64 r = true;
}.

(** *** libstdc++

    The longest run of characters that can continue a decimal number is collected
    and converted as a whole by [strtod].  Since the source accepts only a value
    that is read to its end, so does [read_decimal]; the result is a sign, a
    decimal mantissa and a decimal exponent. *)

Definition is_digit (c : ascii) : bool := ("0" <=? c)%char && (c <=? "9")%char.
Definition digit_value (c : ascii) : Z := Z.of_N (N_of_ascii c) - 48.

(** Reads digits after [acc]: the value, how many there were, and the rest. *)
Fixpoint read_digits (acc : Z) (count : Z) (value : chars) : Z * Z * chars :=
  match value with
  | c :: rest =>
      if is_digit c then read_digits (10 * acc + digit_value c) (count + 1) rest
      else (acc, count, value)
  | [] => (acc, count, [])
  end.

Definition read_sign (value : chars) : bool * chars :=
  match value with
  | c :: rest =>
      if Ascii.eqb c "-" then (true, rest) else if Ascii.eqb c "+" then (false, rest) else (false, value)
  | [] => (false, [])
  end.

(** Digits with an optional point: the mantissa and how many digits follow the point. *)
Definition read_mantissa (value : chars) : option (Z * Z * chars) :=
  let '(whole, whole_digits, value) := read_digits 0 0 value in
  let '(mantissa, fraction_digits, value) :=
    match value with
    | c :: rest => if Ascii.eqb c "." then read_digits whole 0 rest else (whole, 0, value)
    | [] => (whole, 0, [])
    end in
  if whole_digits + fraction_digits =? 0 then None else Some (mantissa, fraction_digits, value).

(** The exponent, up to the end. *)
Definition read_exponent (value : chars) : option Z :=
  match value with
  | [] => Some 0
  | c :: rest =>
      if Ascii.eqb c "e" || Ascii.eqb c "E" then
        let '(negative, rest) := read_sign rest in
        let '(exponent, exponent_digits, rest) := read_digits 0 0 rest in
        if (exponent_digits =? 0) || negb (bool_decide (rest = [])) then None
        else Some (if negative : bool then - exponent else exponent)
      else None
  end.

Definition read_decimal (value : chars) : option (bool * Z * Z) :=
  let '(negative, value) := read_sign value in
  '(mantissa, fraction_digits, value) ← read_mantissa value;
  exponent ← read_exponent value;
  Some (negative, mantissa, exponent - fraction_digits).

(** A magnitude [n/d], in units of the smallest double, rounded down or up to 53
    bits; rounding down stays finite. *)
Definition round_directed (up : bool) (n d : Z) : Z :=
  let unit := d * 2 ^ round_shift 53 n d in
  let m := n / unit + (if up && negb (n mod unit =? 0) then 1 else 0) in
  let r := m * 2 ^ round_shift 53 n d in
  if up then r else Z.min r (mag_max binary64).

(** The conversion [mantissa * 10 ^ exponent] in the thread's rounding mode; a
    zero has no sign. *)
Definition of_decimal (mode : Rounding) (negative : bool) (mantissa exponent : Z) : float :=
  let n := mantissa * 10 ^ Z.max 0 exponent in
  let d := 10 ^ Z.max 0 (- exponent) in
  let signed z := if negative then - z else z in
  let directed up := of_frac binary64 (signed (round_directed up (n * unit_of binary64) d)) (unit_of binary64) in
  match mode with
  | ToNearest => of_frac binary64 (signed n) d
  | Upward => directed (negb negative)
  | Downward => directed negative
  | TowardZero => directed false
  end.

(** An overflow sets [failbit]. *)
Definition libstdcxx_double (mode : Rounding) (value : chars) : option float :=
  '(negative, mantissa, exponent) ← read_decimal value;
  let r := of_decimal mode negative mantissa exponent in
  if is_finite r then Some r else None.

(** Between 1 and the next double. *)
Example directed_modes :
  map (fun mode => mag binary64 (of_decimal mode false 10000000000000001 (-16)) / 2 ^ (1074 - 52) - 2 ^ 52)
    [ToNearest; Upward; Downward; TowardZero] = [0; 1; 0; 0].
Proof. vm_compute. reflexivity. Qed.

(** ** A count *)

Definition parse_positive_count `{N : NumericInput} (a : FenvAnswer) (value : chars) (tag : string)
    : result float :=
  let error := Throw (DiscoveryError
    ("sensor configuration field '" +:+ tag +:+ "' must be a finite positive number")) in
  mode ← ScopedRoundToNearest a;
  match extract_double mode value with
  | None => error
  | Some result =>
      if bool_decide (value = []) || bool_decide (head value = Some "+"%char)
         || negb (is_finite result) || fle result (S754_zero false)
      then error else Ok result
  end.

(** ** Units and the configuration *)

Definition normalize_torque_spelling (value : string) : string :=
  if String.eqb value "Nm" then "N-m"
  else if String.eqb value "Nmm" then "N-mm"
  else if String.eqb value "kg-cm" then "kgf-cm"
  else value.

Definition parse_force_unit (value : string) : result ForceUnit :=
  match force_unit_from_string value with
  | None | Some ForceUnknown =>
      Throw (DiscoveryError "sensor configuration contains an unknown force unit")
  | Some unit => Ok unit
  end.

Definition parse_torque_unit (value : string) : result TorqueUnit :=
  match torque_unit_from_string (normalize_torque_spelling value) with
  | None | Some TorqueUnknown =>
      Throw (DiscoveryError "sensor configuration contains an unknown torque unit")
  | Some unit => Ok unit
  end.

(** [catch (const std::invalid_argument &error)]. *)
Definition rethrow_invalid {A} (r : result A) : result A :=
  match r with
  | Throw (InvalidArgument what) => Throw (DiscoveryError what)
  | _ => r
  end.

(** [fields[i]] of the five fields. *)
Definition configuration_of_fields `{N : NumericInput} (a1 a2 : FenvAnswer) (fields : list chars)
    : result SensorConfiguration :=
  let field i := nth i fields [] in
  cpf ← parse_positive_count a1 (field 1%nat) "cfgcpf";
  cpt ← parse_positive_count a2 (field 2%nat) "cfgcpt";
  fu ← parse_force_unit (string_of (field 3%nat));
  tu ← parse_torque_unit (string_of (field 4%nat));
  let calibration := MkCalibration cpf cpt fu tu in
  _ ← rethrow_invalid (validate_calibration calibration);
  Ok (MkSensorConfiguration (string_of (field 0%nat)) calibration Sensor 1).

Definition parse_sensor_configuration `{N : NumericInput} (a1 a2 : FenvAnswer) (xml : chars)
    : option (result SensorConfiguration) :=
  r ← extract_required_fields xml;
  Some (fields ← r; configuration_of_fields a1 a2 fields).

(** ** Lemmas: searches and progress *)

Lemma strip_prefix_spec p : forall xml r, strip_prefix p xml = Some r <-> xml = p ++ r.
Proof.
  induction p as [|c p IH]; intros [|d xml] r; simpl; try (split; congruence).
  destruct (Ascii.eqb_spec c d) as [->|Hne]; [|split; congruence].
  rewrite IH. split; congruence.
Qed.

Lemma find_split p : forall xml before rest,
  find p xml = Some (before, rest) -> xml = before ++ p ++ rest.
Proof.
  induction xml as [|c xml IH]; intros before rest; cbn [find].
  - destruct (strip_prefix p []) eqn:E; [|done]. apply strip_prefix_spec in E.
    intros [= <- <-]. done.
  - destruct (strip_prefix p (c :: xml)) eqn:E.
    + apply strip_prefix_spec in E. intros [= <- <-]. done.
    + destruct (find p xml) as [[b r]|]; simpl; [|done]. intros [= <- <-].
      by rewrite (IH b r).
Qed.

Lemma section_end_shorter closing e xml text rest :
  section_end closing e xml = Ok (text, rest) -> (length rest <= length xml)%nat.
Proof.
  unfold section_end. destruct (find _ xml) as [[b r]|] eqn:E; [|done]. intros [= <- <-].
  apply find_split in E. rewrite E, !length_app. lia.
Qed.

Lemma find_tag_end_shorter xml : forall quote before after,
  find_tag_end quote xml = Ok (before, after) -> (length after < length xml)%nat.
Proof.
  induction xml as [|c xml IH]; [done|]. intros quote before after. simpl.
  assert (forall q, ('(b, a) ← find_tag_end q xml; Ok (c :: b, a)) = Ok (before, after) ->
    (length after < S (length xml))%nat) as Hgo.
  { intros q. destruct (find_tag_end q xml) as [[b a]|] eqn:E; [|done]. intros [= _ <-].
    apply IH in E. lia. }
  destruct quote as [q|]; [by destruct (Ascii.eqb c q); apply Hgo|].
  destruct (is_quote c); [apply Hgo|]. destruct (Ascii.eqb c ">"); [|apply Hgo].
  intros [= _ <-]. lia.
Qed.

Lemma scan_tag_shorter s xml s' rest : scan_tag s xml = Ok (s', rest) ->
  (length rest < length xml)%nat.
Proof.
  unfold scan_tag. destruct (find_tag_end None xml) as [[content after]|] eqn:E; [|done]. simpl.
  apply find_tag_end_shorter in E. destruct (trim_ascii_whitespace content); [done|].
  destruct (if Ascii.eqb _ _ then _ else _); [|done]. simpl. intros [= _ <-]. done.
Qed.

Lemma scan_markup_shorter s xml s' rest : xml <> [] ->
  scan_markup s xml = Ok (s', rest) -> (length rest < length xml)%nat.
Proof.
  intros Hne. unfold scan_markup.
  repeat match goal with
  | |- context [strip_prefix ?p xml] =>
      destruct (strip_prefix p xml) as [inside|] eqn:E;
      [apply strip_prefix_spec in E; subst xml; try done;
       match goal with |- context [section_end ?c ?e ?i] =>
         destruct (section_end c e i) as [[t r]|] eqn:Es; [|done];
         apply section_end_shorter in Es; simpl; intros [= _ <-]; lia end
      |clear E]
  end.
  intros H%scan_tag_shorter. destruct xml; [done|simpl in *; lia].
Qed.

(** Every iteration consumes a character. *)
Lemma scan_step_shorter s xml s' rest : xml <> [] ->
  scan_step s xml = Ok (s', rest) -> (length rest < length xml)%nat.
Proof.
  intros Hne. unfold scan_step. destruct (find ["<"%char] xml) as [[text r]|] eqn:E.
  - apply find_split in E. intros H. apply scan_markup_shorter in H; [|done].
    rewrite E, length_app. simpl in *. lia.
  - intros [= _ <-]. destruct xml; simpl; [done|lia].
Qed.

Lemma scan_loop_total n : forall s xml, (length xml < n)%nat -> is_Some (scan_loop n s xml).
Proof.
  induction n as [|n IH]; intros s xml Hn; [lia|]. cbn [scan_loop].
  destruct xml as [|c xml]; [done|].
  destruct (scan_step s (c :: xml)) as [[s' rest]|] eqn:E; [|done].
  apply IH. apply scan_step_shorter in E; [lia|done].
Qed.

Lemma extract_required_fields_total xml : is_Some (extract_required_fields xml).
Proof.
  unfold extract_required_fields.
  destruct (scan_loop_total (S (length xml)) scan_initial xml ltac:(lia)) as [r E].
  rewrite E. done.
Qed.

(** ** Lemmas: errors *)

Definition discovery_error (e : exn) : Prop := exists what, e = DiscoveryError what.

(** A result that fails only with a [DiscoveryError], and is right otherwise. *)
Definition discovers {A} (Q : A -> Prop) (r : result A) : Prop :=
  match r with Ok a => Q a | Throw e => discovery_error e end.

Lemma discovers_bind {A B} (Q : A -> Prop) (R : B -> Prop) (m : result A) (k : A -> result B) :
  discovers Q m -> (forall a, Q a -> discovers R (k a)) -> discovers R (m ≫= k).
Proof. destruct m as [a|e]; simpl; auto. Qed.

Lemma discovers_bind_any {A B} (R : B -> Prop) (m : result A) (k : A -> result B) :
  discovers (fun _ => True) m -> (forall a, discovers R (k a)) -> discovers R (m ≫= k).
Proof. intros Hm Hk. by eapply discovers_bind; [exact Hm|intros a _; apply Hk]. Qed.

Lemma discovers_throw {A} (Q : A -> Prop) what : discovers Q (Throw (DiscoveryError what)).
Proof. by exists what. Qed.

Lemma discovers_throw_if c what : discovers (fun _ => c = false) (throw_if c (DiscoveryError what)).
Proof. destruct c; simpl; [by exists what|done]. Qed.

Lemma discovers_weaken {A} (Q R : A -> Prop) r : (forall a, Q a -> R a) -> discovers Q r -> discovers R r.
Proof. destruct r; simpl; auto. Qed.

Create HintDb discovers.
#[export] Hint Resolve discovers_throw : discovers.

(** Follow the binds, the branches and the throws. *)
Ltac discovers :=
  repeat first
    [ done | apply discovers_throw | apply discovers_throw_if
    | apply discovers_bind_any; [eapply discovers_weaken; [|apply discovers_throw_if]; done|intros ?]
    | apply discovers_bind_any; [solve [auto with discovers]|intros ?] | solve [auto with discovers]
    | match goal with
      | |- discovers _ (match ?x with _ => _ end) => destruct x
      | |- discovers _ (let '(_, _) := ?x in _) => destruct x
      end ].

Lemma find_tag_end_discovers xml : forall quote, discovers (fun _ => True) (find_tag_end quote xml).
Proof.
  induction xml as [|c xml IH]; intros quote; [apply discovers_throw|]. simpl.
  assert (forall q, discovers (fun _ => True) ('(b, a) ← find_tag_end q xml; Ok (c :: b, a))) as Hgo
    by (intros q; apply discovers_bind_any; [apply IH|by intros []]).
  destruct quote as [q|]; [by destruct (Ascii.eqb c q)|].
  destruct (is_quote c); [done|]. by destruct (Ascii.eqb c ">").
Qed.
#[export] Hint Resolve find_tag_end_discovers : discovers.

Lemma close_tag_discovers tag s : discovers (fun _ => True) (close_tag tag s).
Proof. unfold close_tag, malformed_nesting. discovers. Qed.

Lemma mark_seen_discovers index s : discovers (fun _ => True) (mark_seen index s).
Proof. unfold mark_seen, field_error. discovers. Qed.
#[export] Hint Resolve close_tag_discovers mark_seen_discovers : discovers.

Lemma open_tag_discovers tag s : discovers (fun _ => True) (open_tag tag s).
Proof. unfold open_tag, malformed_markup. cbv zeta. discovers. Qed.
#[export] Hint Resolve open_tag_discovers : discovers.

Lemma section_end_discovers closing what xml :
  discovers (fun _ => True) (section_end closing (DiscoveryError what) xml).
Proof. unfold section_end. discovers. Qed.
#[export] Hint Resolve section_end_discovers : discovers.

Lemma scan_step_discovers s xml : discovers (fun _ => True) (scan_step s xml).
Proof.
  unfold scan_step, scan_markup, scan_tag, unterminated_markup, malformed_markup.
  destruct (find _ xml) as [[text rest]|]; [|done].
  repeat case_match_goal; try apply discovers_throw;
    apply discovers_bind_any; auto with discovers; intros [content r]; try done.
  destruct (trim_ascii_whitespace content); [apply discovers_throw|].
  apply discovers_bind_any; [destruct (Ascii.eqb _ _); auto with discovers|done].
Qed.

Lemma scan_loop_discovers n : forall s xml r, scan_loop n s xml = Some r -> discovers (fun _ => True) r.
Proof.
  induction n as [|n IH]; intros s xml r; [done|]. cbn [scan_loop].
  destruct xml as [|c xml]; [by intros [= <-]|].
  pose proof (scan_step_discovers s (c :: xml)) as H.
  destruct (scan_step s (c :: xml)) as [[s' rest]|]; [apply IH|by intros [= <-]].
Qed.

(** ** Specification: decimal numerals

    Digits are numbers from 0 to 9; [numeral_sign] and the exponent's sign are
    [Some true] for a minus, [Some false] for a plus. *)

Definition digit_char (d : Z) : ascii := ascii_of_N (Z.to_N (48 + d)).
Definition digits_value (acc : Z) (ds : list Z) : Z := fold_left (fun a d => 10 * a + d) ds acc.

Record numeral := MkNumeral {
  numeral_sign : option bool;
  whole : list Z;
  fraction : option (list Z);
  exponent_part : option (ascii * option bool * list Z);
}.

Definition fraction_digits (n : numeral) : list Z := default [] (fraction n).
Definition numeral_mantissa (n : numeral) : Z := digits_value 0 (whole n ++ fraction_digits n).
Definition signed_exponent (e : option (ascii * option bool * list Z)) : Z :=
  match e with
  | Some (_, Some true, ds) => - digits_value 0 ds
  | Some (_, _, ds) => digits_value 0 ds
  | None => 0
  end.
Definition numeral_exponent (n : numeral) : Z :=
  signed_exponent (exponent_part n) - Z.of_nat (length (fraction_digits n)).

Definition digits_ok (ds : list Z) : Prop := Forall (fun d => 0 <= d < 10) ds.

Definition wf_exponent (e : option (ascii * option bool * list Z)) : Prop :=
  match e with
  | Some (c, _, ds) => (c = "e"%char \/ c = "E"%char) /\ digits_ok ds /\ ds <> []
  | None => True
  end.

Definition wf_numeral (n : numeral) : Prop :=
  digits_ok (whole n) /\ digits_ok (fraction_digits n) /\ whole n ++ fraction_digits n <> [] /\
  wf_exponent (exponent_part n).

Definition print_sign (s : option bool) : chars :=
  match s with Some true => ["-"%char] | Some false => ["+"%char] | None => [] end.

Definition print_exponent (e : option (ascii * option bool * list Z)) : chars :=
  match e with Some (c, s, ds) => c :: print_sign s ++ map digit_char ds | None => [] end.

Definition print_fraction (f : option (list Z)) : chars :=
  match f with Some ds => "."%char :: map digit_char ds | None => [] end.

Definition print_numeral (n : numeral) : chars :=
  print_sign (numeral_sign n) ++ map digit_char (whole n) ++ print_fraction (fraction n)
  ++ print_exponent (exponent_part n).

(** The value [mantissa * 10 ^ exponent] as a fraction. *)
Definition numeral_numerator (n : numeral) : Z := numeral_mantissa n * 10 ^ Z.max 0 (numeral_exponent n).
Definition numeral_denominator (n : numeral) : Z := 10 ^ Z.max 0 (- numeral_exponent n).

(** ** Lemmas: numbers *)

Definition no_digit (value : chars) : Prop :=
  match value with c :: _ => is_digit c = false | [] => True end.

Lemma digit_char_ok d : 0 <= d < 10 -> is_digit (digit_char d) = true /\ digit_value (digit_char d) = d.
Proof.
  intros Hd. assert (In d [0; 1; 2; 3; 4; 5; 6; 7; 8; 9]) as H by (simpl; lia).
  repeat (destruct H as [<-|H]; [done|]). done.
Qed.

Lemma is_digit_char c : is_digit c = true -> exists d, 0 <= d < 10 /\ c = digit_char d.
Proof.
  intros H. exists (digit_value c). revert H.
  destruct c as [[] [] [] [] [] [] [] []]; intros H; try discriminate H;
    (split; [split; [by compute|by compute]|reflexivity]).
Qed.

Lemma read_digits_print ds : forall acc count rest, digits_ok ds -> no_digit rest ->
  read_digits acc count (map digit_char ds ++ rest) =
  (digits_value acc ds, count + Z.of_nat (length ds), rest).
Proof.
  induction ds as [|d ds IH]; intros acc count rest Hds Hr; cbn [map app].
  - simpl. rewrite Z.add_0_r. destruct rest as [|c rest]; [done|]. simpl in *. by rewrite Hr.
  - apply Forall_cons in Hds as [Hd Hds]. destruct (digit_char_ok d Hd) as [E V].
    cbn [read_digits]. rewrite E, V, IH by done. simpl. f_equal. f_equal. lia.
Qed.

Lemma read_digits_inv value : forall acc count m k rest,
  read_digits acc count value = (m, k, rest) ->
  exists ds, digits_ok ds /\ value = map digit_char ds ++ rest /\ m = digits_value acc ds /\
    k = count + Z.of_nat (length ds) /\ no_digit rest.
Proof.
  induction value as [|c value IH]; intros acc count m k rest; cbn [read_digits].
  - intros [= <- <- <-]. exists []. simpl. repeat split; [constructor|lia].
  - destruct (is_digit c) eqn:E.
    + intros H%IH. destruct (is_digit_char c E) as (d & Hd & ->). destruct H as (ds & ? & -> & -> & -> & ?).
      exists (d :: ds). destruct (digit_char_ok d Hd) as [_ V]. simpl. rewrite V.
      repeat split; try done; [by constructor|lia].
    + intros [= <- <- <-]. exists []. simpl. repeat split; [constructor|lia|done].
Qed.

Definition no_sign (value : chars) : Prop :=
  match value with c :: _ => c <> "-"%char /\ c <> "+"%char | [] => True end.

Lemma digits_no_sign d ds rest : digits_ok (d :: ds) -> no_sign (map digit_char (d :: ds) ++ rest).
Proof.
  intros [Hd _]%Forall_cons. simpl. destruct (digit_char_ok d Hd) as [H _].
  split; intros E; rewrite E in H; done.
Qed.

Lemma read_sign_print s value : no_sign value ->
  read_sign (print_sign s ++ value) = (bool_decide (s = Some true), value).
Proof.
  intros Hv. destruct s as [[]|]; [done..|]. simpl. destruct value as [|c value]; [done|].
  simpl in *. destruct Hv. by destruct (Ascii.eqb_spec c "-"), (Ascii.eqb_spec c "+").
Qed.

Lemma read_sign_inv value negative rest : read_sign value = (negative, rest) ->
  exists s, value = print_sign s ++ rest /\ negative = bool_decide (s = Some true).
Proof.
  destruct value as [|c value]; simpl; [intros [= <- <-]; by exists None|].
  destruct (Ascii.eqb_spec c "-") as [->|]; [intros [= <- <-]; by exists (Some true)|].
  destruct (Ascii.eqb_spec c "+") as [->|]; intros [= <- <-]; [by exists (Some false)|by exists None].
Qed.

(** Digits after the first part continue its value. *)
Lemma digits_value_app acc ds es : digits_value acc (ds ++ es) = digits_value (digits_value acc ds) es.
Proof. apply fold_left_app. Qed.

Lemma digits_end value ds : digits_ok ds -> value = map digit_char ds ->
  read_digits 0 0 value = (digits_value 0 ds, Z.of_nat (length ds), []).
Proof.
  intros Hds ->. rewrite <- (app_nil_r (map digit_char ds)). by rewrite read_digits_print.
Qed.

Lemma read_exponent_print e : wf_exponent e -> read_exponent (print_exponent e) = Some (signed_exponent e).
Proof.
  destruct e as [[[c s] [|d ds]]|]; [by intros (_ & _ & ?)| |done]. intros (Hc & Hds & _).
  unfold read_exponent, print_exponent. cbv iota beta.
  replace (Ascii.eqb c "e" || Ascii.eqb c "E") with true by by destruct Hc as [->| ->].
  rewrite read_sign_print by (rewrite <- (app_nil_r (map _ _)); by apply digits_no_sign).
  rewrite (digits_end _ (d :: ds)) by done.
  destruct (Z.eqb_spec (Z.of_nat (length (d :: ds))) 0); [simpl in *; lia|]. by destruct s as [[]|].
Qed.

Lemma read_exponent_inv value x : read_exponent value = Some x ->
  exists e, wf_exponent e /\ value = print_exponent e.
Proof.
  destruct value as [|c value]; [by exists None|]. cbn [read_exponent].
  destruct (Ascii.eqb c "e" || Ascii.eqb c "E") eqn:Ec; [|done].
  destruct (read_sign value) as [b rest] eqn:Es. apply read_sign_inv in Es as (s & -> & ->).
  destruct (read_digits 0 0 rest) as [[m k] rest'] eqn:Ed.
  apply read_digits_inv in Ed as (ds & Hds & -> & -> & -> & _).
  case_bool_decide as Hr; [subst rest'|by rewrite orb_true_r].
  destruct ds as [|d ds]; [done|]. intros _. exists (Some (c, s, d :: ds)).
  split; [|simpl; by rewrite app_nil_r]. split; [|done].
  apply orb_true_iff in Ec as [->%Ascii.eqb_eq| ->%Ascii.eqb_eq]; auto.
Qed.

Lemma read_mantissa_print ws f rest : digits_ok ws -> digits_ok (default [] f) ->
  ws ++ default [] f <> [] -> no_digit rest -> head rest <> Some "."%char ->
  read_mantissa (map digit_char ws ++ print_fraction f ++ rest) =
  Some (digits_value 0 (ws ++ default [] f), Z.of_nat (length (default [] f)), rest).
Proof.
  intros Hw Hf Hne Hnd Hdot. unfold read_mantissa.
  rewrite read_digits_print by (done || by destruct f).
  destruct f as [fs|]; cbn [print_fraction app default] in *.
  - cbn [Ascii.eqb Bool.eqb]. rewrite read_digits_print by done. rewrite digits_value_app.
    destruct (Z.eqb_spec (0 + Z.of_nat (length ws) + (0 + Z.of_nat (length fs))) 0); [|done].
    destruct ws, fs; simpl in *; try lia; done.
  - rewrite app_nil_r in *. destruct ws as [|w ws]; [done|].
    replace (match rest with c :: rest' => if Ascii.eqb c "." then _ else _ | [] => _ end)
      with (digits_value 0 (w :: ws), 0, rest)
      by (destruct rest as [|c rest]; [done|]; simpl in Hdot; by destruct (Ascii.eqb_spec c "."); [congruence|]).
    destruct (Z.eqb_spec (0 + Z.of_nat (length (w :: ws)) + 0) 0); [simpl in *; lia|done].
Qed.

Lemma read_mantissa_inv value m k rest : read_mantissa value = Some (m, k, rest) ->
  exists ws f, digits_ok ws /\ digits_ok (default [] f) /\ ws ++ default [] f <> [] /\
    value = map digit_char ws ++ print_fraction f ++ rest.
Proof.
  unfold read_mantissa. destruct (read_digits 0 0 value) as [[w wk] value'] eqn:Ew.
  apply read_digits_inv in Ew as (ws & Hws & -> & -> & -> & _).
  assert (forall m' k' (rest' : chars) (f : option (list Z)), digits_ok (default [] f) ->
    value' = print_fraction f ++ rest' -> k' = Z.of_nat (length (default [] f)) ->
    (if 0 + Z.of_nat (length ws) + k' =? 0 then None else Some (m', k', rest')) = Some (m, k, rest) ->
    exists ws0 f, digits_ok ws0 /\ digits_ok (default [] f) /\ ws0 ++ default [] f <> [] /\
      map digit_char ws ++ value' = map digit_char ws0 ++ print_fraction f ++ rest) as Hf.
  { intros m' k' rest' f Hf -> ->. destruct (_ =? 0) eqn:En; [done|]. apply Z.eqb_neq in En. intros [= _ _ ->].
    exists ws, f. split_and!; [done..| |done]. intros [-> E]%app_nil. by rewrite E in En. }
  assert (digits_ok []) as H0 by constructor.
  destruct value' as [|c value']; [by intros H; eapply (Hf _ 0 [] None)|].
  destruct (Ascii.eqb_spec c ".") as [->|]; [|by intros H; eapply (Hf _ 0 (c :: value') None)].
  destruct (read_digits _ 0 value') as [[m' k'] r'] eqn:Er.
  apply read_digits_inv in Er as (fs & Hfs & -> & -> & -> & _).
  intros H. by eapply (Hf _ _ r' (Some fs)).
Qed.

(** Printing and extraction are inverse: [read_decimal] reads every numeral to
    the right value, and nothing else. *)
Lemma extract_print n : wf_numeral n ->
  read_decimal (print_numeral n) =
  Some (bool_decide (numeral_sign n = Some true), numeral_mantissa n, numeral_exponent n).
Proof.
  intros (Hw & Hf & Hne & He). unfold read_decimal, print_numeral, fraction_digits in *.
  assert (no_digit (print_exponent (exponent_part n)) /\
          head (print_exponent (exponent_part n)) <> Some "."%char) as [Hnd Hdot].
  { destruct (exponent_part n) as [[[c s] ds]|]; [|done]. by destruct He as [[->| ->] _]. }
  rewrite read_sign_print.
  2: { destruct (whole n) as [|d ds]; [|by apply digits_no_sign].
       by destruct (fraction n); [|destruct Hne]. }
  rewrite read_mantissa_print by done. simpl. by rewrite read_exponent_print.
Qed.

Lemma extract_inv value r : read_decimal value = Some r ->
  exists n, wf_numeral n /\ print_numeral n = value.
Proof.
  unfold read_decimal. destruct (read_sign value) as [b v] eqn:Es.
  apply read_sign_inv in Es as (s & -> & _).
  destruct (read_mantissa v) as [[[m k] rest]|] eqn:Em; [|done].
  apply read_mantissa_inv in Em as (ws & f & ? & ? & ? & ->). simpl.
  destruct (read_exponent rest) as [x|] eqn:Ex; [|done].
  apply read_exponent_inv in Ex as (e & He & ->). intros _.
  exists (MkNumeral s ws f e). done.
Qed.

Lemma of_decimal_rounded negative m x : 0 <= m ->
  rounded binary64 (negative && negb (m =? 0)) (m * 10 ^ Z.max 0 x * unit_of binary64)
    (10 ^ Z.max 0 (- x)) (of_decimal ToNearest negative m x).
Proof.
  intros Hm. unfold of_decimal. set (k := 10 ^ Z.max 0 x). set (d := 10 ^ Z.max 0 (- x)).
  assert (0 < k) as Hk by (apply Z.pow_pos_nonneg; lia).
  assert (0 < d) as Hd by (apply Z.pow_pos_nonneg; lia).
  pose proof (of_frac_rounded binary64 (if negative then - (m * k) else m * k) d Hd) as H.
  replace (_ <? 0) with (negative && negb (m =? 0)) in H.
  2: { destruct negative; simpl; destruct (Z.eqb_spec m 0); simpl; symmetry;
       apply Z.ltb_lt || apply Z.ltb_ge; nia. }
  replace (Z.abs _) with (m * k) in H; [done|]. destruct negative; nia.
Qed.

Lemma of_frac_valid n d : 0 < d -> valid binary64 (of_frac binary64 n d) = true.
Proof. intros Hd. by apply of_frac_rounded. Qed.

Lemma of_decimal_valid mode negative m x : valid binary64 (of_decimal mode negative m x) = true.
Proof.
  assert (0 < 10 ^ Z.max 0 (- x)) by (apply Z.pow_pos_nonneg; lia).
  unfold of_decimal. destruct mode; by apply of_frac_valid.
Qed.

Lemma libstdcxx_valid mode value r : libstdcxx_double mode value = Some r -> valid binary64 r = true.
Proof.
  unfold libstdcxx_double. destruct (read_decimal value) as [[[negative m] x]|]; [|done]. simpl.
  destruct (is_finite _); [|done]. intros [= <-]. apply of_decimal_valid.
Qed.

Definition libstdcxx : NumericInput :=
  {| extract_double := libstdcxx_double; extract_valid := libstdcxx_valid |}.

Lemma digits_value_nonneg ds : forall acc, 0 <= acc -> digits_ok ds -> 0 <= digits_value acc ds.
Proof.
  induction ds as [|d ds IH]; intros acc Ha; [done|]. intros [Hd Hds]%Forall_cons. simpl.
  apply IH; [lia|done].
Qed.

(** ** Theorems: numbers *)

Definition count_error (tag : string) : exn := DiscoveryError
  ("sensor configuration field '" +:+ tag +:+ "' must be a finite positive number").

(** The exact value of a numeral in units of the smallest double, rounded once
    to 53 bits. *)
Definition nearest_double (n : numeral) : Z :=
  round 53 (numeral_numerator n * unit_of binary64) (numeral_denominator n).

Lemma print_numeral_head n : wf_numeral n ->
  head (print_numeral n) = Some "+"%char <-> numeral_sign n = Some false.
Proof.
  intros (Hw & _ & Hne & _). unfold print_numeral, fraction_digits in *.
  destruct (numeral_sign n) as [[]|]; [done..|]. split; [|done]. simpl.
  destruct (whole n) as [|d ds].
  - destruct (fraction n); [done|by destruct Hne].
  - pose proof (digits_no_sign d ds [] Hw) as [_ H]. simpl. congruence.
Qed.

Lemma print_numeral_nonempty n : wf_numeral n -> print_numeral n <> [].
Proof.
  intros (_ & _ & Hne & _) [_ [E1%map_eq_nil [E2 _]%app_nil]%app_nil]%app_nil.
  unfold fraction_digits in Hne. rewrite E1 in Hne. by destruct (fraction n).
Qed.

Lemma fle_zero r : valid binary64 r = true -> is_finite r = true ->
  fle r (S754_zero false) = (sval binary64 r <=? 0).
Proof. intros. by rewrite (fle_sval binary64). Qed.

(** The block runs in round-to-nearest, whatever the caller's mode is. *)
Lemma scoped_round_nearest a mode : ScopedRoundToNearest a = Ok mode -> mode = ToNearest.
Proof.
  unfold ScopedRoundToNearest. destruct (negb (fenv_held a)); [done|]. simpl.
  destruct (fenv_mode a) as [caller|]; [|done]. case_bool_decide; [by intros [= <-]|].
  destruct (fenv_set a); [by intros [= <-]|done].
Qed.

(** A count under any library: what it reads to nearest, if that is positive and
    finite and the text does not begin with a plus. *)
Lemma count_accepted `{N : NumericInput} a value tag r : parse_positive_count a value tag = Ok r ->
  value <> [] /\ head value <> Some "+"%char /\ extract_double ToNearest value = Some r /\
  is_finite r = true /\ fle r (S754_zero false) = false.
Proof.
  unfold parse_positive_count. destruct (ScopedRoundToNearest a) as [mode|] eqn:Ea; [|done].
  apply scoped_round_nearest in Ea as ->. cbn [mbind result_bind].
  destruct (extract_double ToNearest value) as [r'|]; [|done].
  destruct (_ || _) eqn:E; [done|]. intros [= <-].
  apply orb_false_iff in E as [[[E1 E2]%orb_false_iff E3]%orb_false_iff E4].
  apply bool_decide_eq_false in E1, E2. apply negb_false_iff in E3. done.
Qed.

Lemma libstdcxx_numeral n : wf_numeral n ->
  if nearest_double n <=? mag_max binary64
  then exists r, libstdcxx_double ToNearest (print_numeral n) = Some r /\ valid binary64 r = true /\
    is_finite r = true /\ mag binary64 r = nearest_double n /\
    sign r = bool_decide (numeral_sign n = Some true) && negb (numeral_mantissa n =? 0)
  else libstdcxx_double ToNearest (print_numeral n) = None.
Proof.
  intros Hwf. unfold libstdcxx_double. rewrite (extract_print n Hwf). cbn [mbind option_bind].
  assert (0 <= numeral_mantissa n) as Hm.
  { destruct Hwf as (? & ? & _). apply digits_value_nonneg; [lia|by apply Forall_app_2]. }
  pose proof (of_decimal_rounded (bool_decide (numeral_sign n = Some true)) _ (numeral_exponent n) Hm) as Hr.
  fold (numeral_numerator n) (numeral_denominator n) in Hr.
  set (r := of_decimal _ _ _ _) in *. clearbody r. destruct Hr as (Hv & Hs & Hr).
  change (prec binary64) with 53 in Hr. fold (nearest_double n) in Hr. cbv zeta.
  destruct (nearest_double n <=? mag_max binary64).
  - destruct Hr as [Hf Hr]. rewrite Hf. by exists r.
  - by rewrite Hr.
Qed.

Lemma zero_numeral n : wf_numeral n -> numeral_mantissa n = 0 -> nearest_double n = 0.
Proof.
  intros _ E. unfold nearest_double, numeral_numerator. rewrite E.
  apply (round_0 binary64). apply Z.pow_pos_nonneg; lia.
Qed.

(** C36: a count of the document is read exactly, whatever rounding mode the
    calling thread has set, and in spite of it: with libstdc++, whose conversion
    follows that mode, an unsigned decimal numeral is accepted when the double
    nearest to its exact value (ties to even) is positive and finite, and then
    yields that double; a numeral that carries a sign, is zero, underflows to
    zero or overflows is rejected with the field's error; and nothing but a
    numeral that ends where the text ends is accepted. *)
Theorem count_numerals a caller tag :
  fenv_held a = true -> fenv_mode a = Some caller -> fenv_set a = true ->
  (forall n, wf_numeral n ->
    if bool_decide (numeral_sign n = None) && (0 <? nearest_double n)
       && (nearest_double n <=? mag_max binary64)
    then exists r, parse_positive_count (N := libstdcxx) a (print_numeral n) tag = Ok r /\
      valid binary64 r = true /\ sign r = false /\ is_finite r = true /\
      mag binary64 r = nearest_double n
    else parse_positive_count (N := libstdcxx) a (print_numeral n) tag = Throw (count_error tag)) /\
  (forall value r, parse_positive_count (N := libstdcxx) a value tag = Ok r ->
    exists n, wf_numeral n /\ print_numeral n = value).
Proof.
  intros Hh Hm Hset. split.
  - intros n Hwf. assert (ScopedRoundToNearest a = Ok ToNearest) as Ha.
    { unfold ScopedRoundToNearest. rewrite Hh, Hm, Hset. simpl. by case_bool_decide; subst. }
    unfold parse_positive_count. rewrite Ha. cbn [mbind result_bind extract_double libstdcxx].
    rewrite (bool_decide_ext _ _ (print_numeral_head n Hwf)).
    pose proof (libstdcxx_numeral n Hwf) as Hl.
    destruct (nearest_double n <=? mag_max binary64); [|by rewrite Hl, andb_false_r].
    destruct Hl as (r & -> & Hv & Hf & Er & Hs). rewrite Hf, fle_zero, andb_true_r by done.
    rewrite (bool_decide_eq_false_2 (print_numeral n = [])) by by apply print_numeral_nonempty.
    unfold sval. rewrite Hs, Er. pose proof (mag_nonneg binary64 r) as Hn. rewrite Er in Hn.
    destruct (numeral_sign n) as [[]|]; simpl in *; [|done|].
    + destruct (Z.eqb_spec (numeral_mantissa n) 0) as [E|_]; simpl.
      * by rewrite (zero_numeral n).
      * by rewrite (proj2 (Z.leb_le _ _)) by lia.
    + destruct (Z.ltb_spec 0 (nearest_double n)); [|by rewrite (proj2 (Z.leb_le _ _)) by lia].
      rewrite (proj2 (Z.leb_gt _ _)) by lia. by exists r.
  - intros value r H. apply count_accepted in H as (_ & _ & H & _). simpl in H.
    unfold libstdcxx_double in H. destruct (read_decimal value) eqn:E; [|done]. by eapply extract_inv.
Qed.

(** A caller that rounds upward; the nearest double of the count is 1, the
    conversion in the caller's mode would give the next one. *)
Lemma count_numerals_witness :
  let n := MkNumeral None [1] (Some [0; 0; 0; 0; 0; 0; 0; 0; 0; 0; 0; 0; 0; 0; 0; 1]) None in
  let value := chars_of "1.0000000000000001" in
  let a := MkFenvAnswer true (Some Upward) true in
  print_numeral n = value /\
  mag binary64 <$> libstdcxx_double Upward value = Some (unit_of binary64 + 2 ^ (1074 - 52)) /\
  exists r, parse_positive_count (N := libstdcxx) a value "cfgcpf" = Ok r /\
    mag binary64 r = unit_of binary64.
Proof.
  intros n value a. split; [done|]. split; [vm_compute; reflexivity|].
  destruct (count_numerals a Upward "cfgcpf" eq_refl eq_refl eq_refl) as [H _].
  specialize (H n ltac:(repeat split; try (repeat constructor; done); done)).
  replace (nearest_double n) with (unit_of binary64) in H by (vm_compute; reflexivity).
  replace (_ && _) with true in H by (vm_compute; reflexivity).
  destruct H as (r & E & _ & _ & _ & Em). exists r. split; [exact E|exact Em].
Defined.

(** ** Theorems: any document *)

Lemma finish_field_discovers s index :
  discovers (fun v => v <> [] /\ (length v <= kMaximumFieldLength)%nat) (finish_field s index).
Proof.
  unfold finish_field, field_error. destruct (nth index (seen s) false).
  - eapply discovers_bind; [apply discovers_throw_if|]. intros _ H%bool_decide_eq_false.
    eapply discovers_bind; [apply discovers_throw_if|]. intros _ H2%Nat.ltb_ge. done.
  - destruct (index =? 0)%nat; [|apply discovers_throw]. split; [done|]. vm_compute. lia.
Qed.

Lemma mapM_discovers {A B} (Q : B -> Prop) (f : A -> result B) l :
  (forall a, discovers Q (f a)) -> discovers (fun bs => Forall Q bs /\ length bs = length l) (mapM f l).
Proof.
  intros Hf. induction l as [|a l IH]; simpl; [done|].
  eapply discovers_bind; [apply Hf|]. intros b Hb. eapply discovers_bind; [apply IH|].
  intros bs [Hbs Hl]. simpl. split; [by constructor|by rewrite Hl].
Qed.

Definition wf_fields (fields : list chars) : Prop :=
  length fields = length kRequiredTags /\
  Forall (fun v => v <> [] /\ (length v <= kMaximumFieldLength)%nat) fields.

Lemma extract_required_fields_discovers xml r :
  extract_required_fields xml = Some r -> discovers wf_fields r.
Proof.
  unfold extract_required_fields. destruct (scan_loop _ _ xml) as [r0|] eqn:E; [|done]. simpl.
  intros [= <-]. apply discovers_bind_any; [by eapply scan_loop_discovers|]. intros s.
  unfold finish_scan, malformed_nesting. apply discovers_bind_any.
  { eapply discovers_weaken; [|apply discovers_throw_if]. done. }
  intros _. eapply discovers_weaken; [|apply mapM_discovers, finish_field_discovers].
  intros bs [? ?]. split; [by rewrite length_seq in *|done].
Qed.

Lemma scoped_round_discovers a : discovers (fun _ => True) (ScopedRoundToNearest a).
Proof.
  destruct a as [[] [[]|] []]; try done; by eexists.
Qed.

Lemma parse_positive_count_discovers `{N : NumericInput} a value tag :
  discovers (fun r => valid binary64 r = true) (parse_positive_count a value tag).
Proof.
  unfold parse_positive_count. apply discovers_bind_any; [apply scoped_round_discovers|]. intros mode.
  destruct (extract_double mode value) as [r|] eqn:E; [|apply discovers_throw].
  destruct (_ || _); [apply discovers_throw|]. by eapply extract_valid.
Qed.

Lemma validate_calibration_discovers c :
  discovers (fun _ => validate_calibration c = Ok tt) (rethrow_invalid (validate_calibration c)).
Proof.
  assert (forall e, validate_calibration c = Throw e -> exists what, e = InvalidArgument what) as H.
  { intros e. unfold validate_calibration, require_safe_count, require_positive_finite, throw_if.
    repeat (case_match_goal; simpl; try (intros [= <-]; by eexists)); done. }
  destruct (validate_calibration c) as [[]|e] eqn:E; [done|].
  destruct (H e eq_refl) as [what ->]. by eexists.
Qed.

Lemma parse_force_unit_discovers v : discovers (fun _ => True) (parse_force_unit v).
Proof. unfold parse_force_unit. destruct (force_unit_from_string v) as [[]|]; done || by eexists. Qed.

Lemma parse_torque_unit_discovers v : discovers (fun _ => True) (parse_torque_unit v).
Proof. unfold parse_torque_unit. destruct (torque_unit_from_string _) as [[]|]; done || by eexists. Qed.

Lemma string_of_length (f : chars) : String.length (string_of f) = length f.
Proof. induction f as [|c f IH]; [done|]. exact (f_equal S IH). Qed.

(** A configuration the client can use. *)
Definition usable (c : SensorConfiguration) : Prop :=
  valid_calibration (calibration c) /\ source c = Sensor /\ revision c = 1 /\
  (0 < String.length (product_name c) <= 128)%nat.

Lemma parse_sensor_configuration_discovers `{N : NumericInput} a1 a2 xml :
  exists r, parse_sensor_configuration a1 a2 xml = Some r /\ discovers usable r.
Proof.
  unfold parse_sensor_configuration. destruct (extract_required_fields_total xml) as [r0 E].
  rewrite E. eexists. split; [done|]. apply extract_required_fields_discovers in E.
  eapply discovers_bind; [exact E|]. intros fs [Hl Hfs]. unfold configuration_of_fields. cbv zeta.
  eapply discovers_bind; [apply parse_positive_count_discovers|]. intros cpf Hf.
  eapply discovers_bind; [apply parse_positive_count_discovers|]. intros cpt Ht.
  apply discovers_bind_any; [apply parse_force_unit_discovers|]. intros fu.
  apply discovers_bind_any; [apply parse_torque_unit_discovers|]. intros tu.
  eapply discovers_bind; [apply validate_calibration_discovers|]. intros [] Hv. unfold usable. simpl.
  destruct fs as [|f fs]; [done|]. apply Forall_cons in Hfs as [[Hn Hm] _]. simpl.
  rewrite string_of_length. split; [done|]. split; [done|]. split; [done|].
  split; [destruct f; [done|simpl; lia]|exact Hm].
Qed.

(** C35: whatever bytes the sensor's web server sends and however the C++ library
    reads a number, parsing them ends, and
    either throws a [DiscoveryError] (no other exception gets out) or returns a
    configuration the client can use: its calibration passes [validate] and
    holds proper doubles, the product name has between 1 and 128 characters, the
    source is the sensor and the revision is 1. *)
Theorem parse_sensor_configuration_safe `{N : NumericInput} a1 a2 xml :
  exists r, parse_sensor_configuration a1 a2 xml = Some r /\
    match r with
    | Ok c => valid_calibration (calibration c) /\ source c = Sensor /\ revision c = 1 /\
        (0 < String.length (product_name c) <= 128)%nat
    | Throw e => exists what, e = DiscoveryError what
    end.
Proof.
  destruct (parse_sensor_configuration_discovers a1 a2 xml) as (r & E & Hr). exists r.
  split; [exact E|]. by destruct r.
Qed.
