(* ===== verification/XmlDocument.v ===== *)
(** * Well-formed configuration documents

    A specification of what the scanner of XmlConfig.v reads: documents as
    trees, how they are written, and what their required fields are.  The
    theorem says the scanner finds exactly these fields, or fails with exactly
    the error the tree deserves. *)

From S2P Require Export XmlConfig.

(** ** Documents *)

(** White space, a name, [=] and a quoted value. *)
Record attribute := MkAttribute {
  attribute_pad : chars;
  attribute_name : chars;
  attribute_quote : ascii;
  attribute_value : chars;
}.

(** The inside of a tag: a name, attributes and white space before the end. *)
Record tag := MkTag {
  tag_name : chars;
  tag_attributes : list attribute;
  tag_pad : chars;
}.

(** First thing, then the rest.  [close_pad] is the white space in the closing
    tag. *)
Inductive document :=
| DocEnd
| DocText (text : chars) (rest : document)
| DocCData (text : chars) (rest : document)
| DocComment (text : chars) (rest : document)
| DocInstruction (text : chars) (rest : document)
| DocEmpty (t : tag) (rest : document)
| DocElement (t : tag) (content : document) (close_pad : chars) (rest : document).

Definition write_attribute (a : attribute) : chars :=
  attribute_pad a ++ attribute_name a ++ ["="%char] ++ attribute_quote a :: attribute_value a
  ++ [attribute_quote a].

Definition write_attributes (l : list attribute) : chars := concat (map write_attribute l).

Definition write_tag (t : tag) : chars := tag_name t ++ write_attributes (tag_attributes t) ++ tag_pad t.

Fixpoint write (d : document) : chars :=
  match d with
  | DocEnd => []
  | DocText text rest => text ++ write rest
  | DocCData text rest => chars_of "<![CDATA[" ++ text ++ chars_of "]]>" ++ write rest
  | DocComment text rest => chars_of "<!--" ++ text ++ chars_of "-->" ++ write rest
  | DocInstruction text rest => chars_of "<?" ++ text ++ chars_of "?>" ++ write rest
  | DocEmpty t rest => chars_of "<" ++ write_tag t ++ chars_of "/>" ++ write rest
  | DocElement t content close_pad rest =>
      chars_of "<" ++ write_tag t ++ chars_of ">" ++ write content
      ++ chars_of "</" ++ tag_name t ++ close_pad ++ chars_of ">" ++ write rest
  end.

(** ** Well-formedness *)

Definition blank (value : chars) : Prop := Forall (fun c => is_ascii_whitespace c = true) value.

(** No quote and no [>]. *)
Definition plain (c : ascii) : Prop := is_quote c = false /\ c <> ">"%char.

Definition name_char (c : ascii) : Prop := plain c /\ is_ascii_whitespace c = false /\ c <> "/"%char.

Definition wf_name (n : chars) : Prop :=
  Forall name_char n /\ match n with c :: _ => c <> "!"%char /\ c <> "?"%char | [] => False end.

Definition wf_attribute (a : attribute) : Prop :=
  attribute_pad a <> [] /\ blank (attribute_pad a) /\ Forall plain (attribute_name a) /\
  is_quote (attribute_quote a) = true /\ Forall (fun c => c <> attribute_quote a) (attribute_value a).

Definition wf_tag (t : tag) : Prop :=
  wf_name (tag_name t) /\ Forall wf_attribute (tag_attributes t) /\ blank (tag_pad t).

(** [closing] first occurs in [text ++ closing] at its end. *)
Definition ends_first (closing : string) (text : chars) : Prop :=
  forall a b, text ++ chars_of closing = a ++ chars_of closing ++ b -> b = [].

Fixpoint wf_document (d : document) : Prop :=
  match d with
  | DocEnd => True
  | DocText text rest => Forall (fun c => c <> "<"%char) text /\ wf_document rest
  | DocCData text rest => ends_first "]]>" text /\ wf_document rest
  | DocComment text rest => ends_first "-->" text /\ wf_document rest
  | DocInstruction text rest => ends_first "?>" text /\ wf_document rest
  | DocEmpty t rest => wf_tag t /\ wf_document rest
  | DocElement t content close_pad rest =>
      wf_tag t /\ wf_document content /\ blank close_pad /\ wf_document rest
  end.

(** ** The fields of a document

    What was found so far: the texts of the required fields and which of them
    have appeared.  [inside] is the field whose element is being read. *)

Definition found : Type := list chars * list bool.
Definition nothing_found : found := (replicate 5 [], replicate 5 false).

Definition add_text (inside : option nat) (text : chars) (f : found) : found :=
  match inside with
  | Some i => (alter (fun old => old ++ text) i (fst f), snd f)
  | None => f
  end.

(** An element with the given name begins. *)
Definition begin_element (inside : option nat) (n : chars) (f : found) : result found :=
  match inside with
  | Some _ => Throw (DiscoveryError "sensor configuration fields must contain text only")
  | None =>
      match required_tag_index n with
      | Some i =>
          if nth i (snd f) false then Throw (field_error i "must appear exactly once")
          else Ok (fst f, <[i := true]> (snd f))
      | None => Ok f
      end
  end.

Fixpoint collect (d : document) (inside : option nat) (f : found) : result found :=
  match d with
  | DocEnd => Ok f
  | DocText text rest | DocCData text rest => collect rest inside (add_text inside text f)
  | DocComment _ rest | DocInstruction _ rest => collect rest inside f
  | DocEmpty t rest => f ← begin_element inside (tag_name t) f; collect rest inside f
  | DocElement t content _ rest =>
      f ← begin_element inside (tag_name t) f;
      f ← collect content (required_tag_index (tag_name t)) f;
      collect rest inside f
  end.

(** The five values: trimmed, not empty, at most 128 characters; only the
    product name has a default. *)
Definition document_fields (d : document) : result (list chars) :=
  f ← collect d None nothing_found; finish_scan (MkScan [] (fst f) (snd f)).

(** ** Lemmas: searches *)

Lemma strip_prefix_app p xml : strip_prefix p (p ++ xml) = Some xml.
Proof. by apply strip_prefix_spec. Qed.

Lemma find_first closing text rest : ends_first closing text ->
  find (chars_of closing) (text ++ chars_of closing ++ rest) = Some (text, rest).
Proof.
  unfold ends_first. set (p := chars_of closing). clearbody p.
  induction text as [|c text IH]; intros H.
  - pose proof (strip_prefix_app p rest) as E. cbn [app]. destruct (p ++ rest); cbn [find]; by rewrite E.
  - cbn [app find]. destruct (strip_prefix p (c :: text ++ p ++ rest)) as [r|] eqn:E.
    + exfalso. apply strip_prefix_spec in E.
      assert (c :: text ++ p = p ++ take (length (c :: text ++ p) - length p) r) as Ht.
      { transitivity (take (length (c :: text ++ p)) (c :: text ++ p ++ rest)).
        - rewrite app_assoc. change (c :: (text ++ p) ++ rest) with ((c :: text ++ p) ++ rest).
          by rewrite take_app_length.
        - rewrite E, take_app. f_equal. apply take_ge. simpl. rewrite length_app. lia. }
      pose proof (H [] _ Ht) as Hb. rewrite Hb, app_nil_r in Ht.
      apply (f_equal length) in Ht. simpl in Ht. rewrite length_app in Ht. lia.
    + rewrite IH; [done|]. intros a b Hab. apply (H (c :: a) b). simpl. by rewrite Hab.
Qed.

Lemma find_bracket text : Forall (fun c => c <> "<"%char) text -> forall xml,
  find ["<"%char] (text ++ xml) = '(before, rest) ← find ["<"%char] xml; Some (text ++ before, rest).
Proof.
  induction 1 as [|c text Hc _ IH]; intros xml.
  - simpl. by destruct (find _ xml) as [[]|].
  - cbn [app find]. replace (strip_prefix ["<"%char] (c :: text ++ xml)) with (@None chars).
    2: { cbn [strip_prefix]. destruct (Ascii.eqb_spec "<" c); [congruence|done]. }
    rewrite IH. by destruct (find _ xml) as [[]|].
Qed.

(** ** Lemmas: tags *)

(** [find_tag_end] reads past [p]. *)
Definition passes (p : chars) : Prop := forall xml,
  find_tag_end None (p ++ xml) = '(before, after) ← find_tag_end None xml; Ok (p ++ before, after).

Lemma passes_nil : passes [].
Proof. intros xml. simpl. by destruct (find_tag_end None xml) as [[]|]. Qed.

Lemma passes_app p q : passes p -> passes q -> passes (p ++ q).
Proof.
  intros Hp Hq xml. rewrite <- app_assoc, Hp, Hq.
  destruct (find_tag_end None xml) as [[]|]; [|done]. simpl. by rewrite app_assoc.
Qed.

Lemma passes_plain p : Forall plain p -> passes p.
Proof.
  induction 1 as [|c p [Hq Hc] _ IH]; [apply passes_nil|]. intros xml. cbn [app find_tag_end].
  rewrite Hq. destruct (Ascii.eqb_spec c ">"); [done|]. rewrite IH.
  by destruct (find_tag_end None xml) as [[]|].
Qed.

Lemma passes_value q v : Forall (fun c => c <> q) v -> forall xml,
  find_tag_end (Some q) (v ++ q :: xml) =
  '(before, after) ← find_tag_end None xml; Ok (v ++ q :: before, after).
Proof.
  induction 1 as [|c v Hc _ IH]; intros xml; cbn [app find_tag_end].
  - by rewrite Ascii.eqb_refl.
  - destruct (Ascii.eqb_spec c q); [done|]. rewrite IH. by destruct (find_tag_end None xml) as [[]|].
Qed.

Lemma passes_quoted q v : is_quote q = true -> Forall (fun c => c <> q) v -> passes (q :: v ++ [q]).
Proof.
  intros Hq Hv xml. cbn [app find_tag_end]. rewrite Hq, <- app_assoc. simpl. rewrite passes_value by done.
  destruct (find_tag_end None xml) as [[]|]; [|done]. simpl. by rewrite <- app_assoc.
Qed.

Lemma space_plain c : is_ascii_whitespace c = true -> plain c.
Proof. destruct c as [[] [] [] [] [] [] [] []]; (discriminate 1 || by split). Qed.

Lemma passes_attributes l : Forall wf_attribute l -> passes (write_attributes l).
Proof.
  induction 1 as [|a l (_ & Hp & Hn & Hq & Hv) _ IH]; [apply passes_nil|].
  unfold write_attributes, write_attribute. simpl. apply passes_app; [|done].
  apply passes_app; [apply passes_plain; eapply Forall_impl; [exact Hp|apply space_plain]|].
  apply passes_app; [by apply passes_plain|].
  change (passes (["="%char] ++ (attribute_quote a :: attribute_value a ++ [attribute_quote a]))).
  apply passes_app; [apply passes_plain; by repeat constructor|by apply passes_quoted].
Qed.

Lemma name_plain n : wf_name n -> Forall plain n.
Proof. intros [H _]. eapply Forall_impl; [exact H|]. by intros c []. Qed.

Lemma passes_tag t : wf_tag t -> passes (write_tag t).
Proof.
  intros (Hn & Ha & Hp). apply passes_app; [by apply passes_plain, name_plain|].
  apply passes_app; [by apply passes_attributes|].
  apply passes_plain. eapply Forall_impl; [exact Hp|apply space_plain].
Qed.

Lemma tag_end p xml : passes p -> find_tag_end None (p ++ ">"%char :: xml) = Ok (p, xml).
Proof. intros Hp. rewrite Hp. simpl. by rewrite app_nil_r. Qed.

(** ** Lemmas: trimming *)

(** The first character is there and is not white space. *)
Definition edge (value : chars) : Prop :=
  match value with c :: _ => is_ascii_whitespace c = false | [] => False end.

Lemma trim_front_edge value : edge value -> trim_front value = value.
Proof. destruct value as [|c value]; [done|]. simpl. by intros ->. Qed.

Lemma trim_front_blank pad value : blank pad -> trim_front (pad ++ value) = trim_front value.
Proof. induction 1 as [|c pad Hc _ IH]; [done|]. simpl. by rewrite Hc. Qed.

Lemma edge_app a b : edge a -> edge (a ++ b).
Proof. by destruct a. Qed.

Lemma trim_core core pad : edge core -> edge (rev core) -> blank pad ->
  trim_ascii_whitespace (core ++ pad) = core.
Proof.
  intros H1 H2 Hp. unfold trim_ascii_whitespace.
  rewrite (trim_front_edge (core ++ pad)) by by apply edge_app. rewrite rev_app_distr, trim_front_blank.
  - rewrite trim_front_edge by done. by rewrite rev_involutive.
  - unfold blank in *. by apply Forall_rev.
Qed.

Lemma wf_name_edge n : wf_name n -> edge n.
Proof. intros [H Hn]. destruct n; [done|]. apply Forall_cons in H as [(_ & H & _) _]. exact H. Qed.

(** How a name ends, and how a tag does: not in white space, not in a slash. *)
Definition tag_edge (c : ascii) : Prop := is_ascii_whitespace c = false /\ c <> "/"%char.

Lemma quote_tag_edge q : is_quote q = true -> tag_edge q.
Proof. destruct q as [[] [] [] [] [] [] [] []]; (discriminate 1 || by split). Qed.

Lemma attributes_end l : Forall wf_attribute l -> l <> [] ->
  exists core q, write_attributes l = core ++ [q] /\ tag_edge q.
Proof.
  intros Hl Hne. destruct (exists_last Hne) as (l' & a & ->).
  apply Forall_app in Hl as [_ (_ & _ & _ & Hq & _)%Forall_singleton].
  exists (write_attributes l' ++ attribute_pad a ++ attribute_name a
          ++ "="%char :: attribute_quote a :: attribute_value a), (attribute_quote a).
  split; [|by apply quote_tag_edge].
  unfold write_attributes. rewrite map_app, concat_app. simpl.
  unfold write_attribute. by rewrite app_nil_r, <- !app_assoc.
Qed.

(** The name and the attributes of a tag. *)
Definition tag_core (t : tag) : chars := tag_name t ++ write_attributes (tag_attributes t).

Lemma tag_core_end t : wf_tag t -> exists core c, tag_core t = core ++ [c] /\ tag_edge c.
Proof.
  intros (Hn & Ha & _). unfold tag_core. destruct (tag_attributes t) as [|a l] eqn:E.
  - destruct Hn as [Hn Hne]. assert (tag_name t <> []) as Hx by by destruct (tag_name t).
    destruct (exists_last Hx) as (n & c & En). rewrite En in *.
    exists n, c. split; [by rewrite app_nil_r|].
    apply Forall_app in Hn as [_ (_ & ? & ?)%Forall_singleton]. by split.
  - destruct (attributes_end (a :: l) Ha ltac:(done)) as (core & q & -> & Hq).
    exists (tag_name t ++ core), q. by rewrite app_assoc.
Qed.

Lemma tag_core_edges t : wf_tag t ->
  edge (tag_core t) /\ edge (rev (tag_core t)) /\ last (tag_core t) <> Some "/"%char.
Proof.
  intros Ht. split; [apply edge_app, wf_name_edge, Ht|].
  destruct (tag_core_end t Ht) as (core & c & E & H1 & H2). rewrite E, rev_app_distr.
  split; [exact H1|]. rewrite last_snoc. congruence.
Qed.

Lemma until_space_name n rest : Forall name_char n ->
  match rest with c :: _ => is_ascii_whitespace c = true | [] => True end ->
  until_space (n ++ rest) = n.
Proof.
  intros Hn Hr. induction Hn as [|c n (_ & Hc & _) _ IH]; simpl.
  - destruct rest as [|c rest]; [done|]. simpl. by rewrite Hr.
  - by rewrite Hc, IH.
Qed.

Lemma until_space_tag t : wf_tag t -> until_space (tag_core t) = tag_name t.
Proof.
  intros ([Hn _] & Ha & _). apply until_space_name; [done|].
  destruct (tag_attributes t) as [|a l]; [done|].
  apply Forall_cons in Ha as [(Hp & Hb & _) _]. unfold write_attributes, write_attribute. simpl.
  destruct (attribute_pad a); [done|]. simpl. by apply Forall_cons in Hb as [-> _].
Qed.

(** ** Lemmas: reading tags *)

Definition scan_of (es : list OpenElement) (f : found) : Scan := MkScan es (fst f) (snd f).

(** What an opening tag does. *)
Definition opened (t : tag) (self_closing : bool) (es : list OpenElement) (f : found) : result Scan :=
  f ← begin_element (open_field (scan_of es f)) (tag_name t) f;
  Ok (scan_of (if self_closing then es
               else MkOpenElement (tag_name t) (required_tag_index (tag_name t)) :: es) f).

(** What follows the core of an opening tag once its end is trimmed. *)
Definition slash (t : tag) (self_closing : bool) : chars :=
  if self_closing then tag_pad t ++ ["/"%char] else [].

Lemma slash_core t self_closing : wf_tag t ->
  let inside := tag_core t ++ slash t self_closing in
  bool_decide (last inside = Some "/"%char) = self_closing /\
  (if self_closing then trim_ascii_whitespace (removelast inside) else inside) = tag_core t.
Proof.
  intros Ht. destruct (tag_core_edges t Ht) as (He1 & He2 & Hl). unfold slash. destruct self_closing; cbv zeta.
  - rewrite app_assoc, last_snoc, bool_decide_eq_true_2, removelast_last by done.
    split; [done|]. apply trim_core; [done..|apply Ht].
  - by rewrite app_nil_r, bool_decide_eq_false_2.
Qed.

Lemma open_tag_core t es f self_closing : wf_tag t ->
  open_tag (tag_core t ++ slash t self_closing) (scan_of es f) = opened t self_closing es f.
Proof.
  intros Ht. destruct (slash_core t self_closing Ht) as [H1 H2]. unfold open_tag, opened.
  rewrite H1, H2, until_space_tag by done. pose proof Ht as ((Hn & Hne) & _).
  rewrite (bool_decide_eq_false_2 (tag_name t = [])) by by destruct (tag_name t).
  rewrite (bool_decide_eq_false_2 (head (tag_name t) = _)); [|destruct (tag_name t); [done|];
    apply Forall_cons in Hn as [(_ & _ & ?) _]; simpl; congruence].
  cbn [orb throw_if mbind result_bind]. unfold begin_element, mark_seen, throw_if.
  destruct (open_field (scan_of es f)); [done|].
  rewrite bool_decide_eq_false_2 by by intros [? ?].
  cbn [mbind result_bind]. destruct (required_tag_index (tag_name t)) as [i|]; simpl.
  - destruct (nth i (snd f) false); [done|]. by destruct self_closing.
  - by destruct self_closing, f.
Qed.

Lemma tag_core_head t : wf_tag t -> exists c rest, tag_core t = c :: rest /\
  c <> "/"%char /\ c <> "!"%char /\ c <> "?"%char.
Proof.
  intros ([Hn Hne] & _). unfold tag_core. destruct (tag_name t) as [|c n]; [done|].
  apply Forall_cons in Hn as [(_ & _ & ?) _]. destruct Hne. eexists c, _. done.
Qed.

Lemma write_tag_core t : write_tag t = tag_core t ++ tag_pad t.
Proof. unfold write_tag, tag_core. by rewrite app_assoc. Qed.

Lemma trim_opening t (self_closing : bool) : wf_tag t ->
  trim_ascii_whitespace (write_tag t ++ if self_closing then ["/"%char] else []) =
  tag_core t ++ slash t self_closing.
Proof.
  intros Ht. destruct (tag_core_edges t Ht) as (He1 & He2 & _). rewrite write_tag_core, <- app_assoc.
  destruct self_closing; simpl.
  - rewrite <- (app_nil_r (tag_core t ++ _)) at 1. apply trim_core; [by apply edge_app| |by constructor].
    by rewrite !rev_app_distr.
  - rewrite !app_nil_r. apply trim_core; [done..|apply Ht].
Qed.

Lemma scan_opening t es f (self_closing : bool) xml : wf_tag t ->
  scan_tag (scan_of es f) (write_tag t ++ (if self_closing then ["/"%char] else []) ++ ">"%char :: xml) =
  s ← opened t self_closing es f; Ok (s, xml).
Proof.
  intros Ht. unfold scan_tag. rewrite app_assoc, tag_end.
  2: { apply passes_app; [by apply passes_tag|].
       destruct self_closing; [apply passes_plain; by repeat constructor|apply passes_nil]. }
  cbn [mbind result_bind]. rewrite trim_opening by done.
  destruct (tag_core_head t Ht) as (c & rest & E & Hc & _). rewrite <- open_tag_core by done. rewrite E.
  cbn [app]. by destruct (Ascii.eqb_spec c "/").
Qed.

Lemma scan_closing n pad e es f xml : wf_name n -> blank pad -> name e = n ->
  scan_tag (scan_of (e :: es) f) ("/"%char :: n ++ pad ++ ">"%char :: xml) = Ok (scan_of es f, xml).
Proof.
  intros Hn Hp He. unfold scan_tag.
  assert (edge (rev n)) as Hend.
  { destruct (tag_core_edges (MkTag n [] [])) as (_ & H & _); [exact (conj Hn (conj (Forall_nil_2 _) (Forall_nil_2 _)))|].
    unfold tag_core in H. simpl in H. by rewrite app_nil_r in H. }
  change ("/"%char :: n ++ pad ++ ">"%char :: xml) with (("/"%char :: n) ++ pad ++ ">"%char :: xml).
  rewrite app_assoc, tag_end.
  2: { apply passes_app; apply passes_plain.
       - constructor; [done|by apply name_plain].
       - eapply Forall_impl; [exact Hp|apply space_plain]. }
  cbn [mbind result_bind]. rewrite trim_core; [|done|simpl; by apply edge_app|done].
  cbv beta iota. cbn [Ascii.eqb Bool.eqb]. unfold close_tag.
  assert (trim_ascii_whitespace n = n) as ->.
  { rewrite <- (app_nil_r n) at 1. apply trim_core; [by apply wf_name_edge|done|constructor]. }
  cbn [scan_of elements]. rewrite He, (bool_decide_eq_false_2 (n = [])) by by destruct n, Hn.
  rewrite (bool_decide_eq_true_2 (n = n)) by done.
  replace (existsb _ n) with false; [done|]. symmetry. destruct Hn as [Hn _].
  clear -Hn. induction Hn as [|c n' (_ & Hw & Hs) _ IH]; [done|]. simpl. rewrite Hw.
  destruct (Ascii.eqb_spec c "/"); [done|]. apply IH.
Qed.

(** ** Lemmas: the loop *)

(** The loop with enough fuel. *)
Definition run_scan (s : Scan) (xml : chars) : option (result Scan) := scan_loop (S (length xml)) s xml.

Lemma scan_loop_more n : forall m s xml r, (n <= m)%nat ->
  scan_loop n s xml = Some r -> scan_loop m s xml = Some r.
Proof.
  induction n as [|n IH]; intros [|m] s xml r Hm; cbn [scan_loop]; try done; [lia|].
  destruct xml as [|c xml]; [done|]. destruct (scan_step s (c :: xml)) as [[s' xml']|]; [|done].
  apply IH. lia.
Qed.

Lemma run_scan_step s xml : xml <> [] ->
  run_scan s xml = match scan_step s xml with
                   | Ok (s', rest) => run_scan s' rest
                   | Throw e => Some (Throw e)
                   end.
Proof.
  intros Hne. unfold run_scan at 1. cbn [scan_loop]. destruct xml as [|c xml]; [done|].
  destruct (scan_step s (c :: xml)) as [[s' rest]|] eqn:E; [|done].
  apply scan_step_shorter in E; [|done]. simpl in E. unfold run_scan.
  destruct (scan_loop_total (S (length rest)) s' rest ltac:(lia)) as [r Er]. rewrite Er.
  eapply scan_loop_more; [|exact Er]. simpl. lia.
Qed.

Lemma append_text_of text es f :
  append_required_text text (scan_of es f) = scan_of es (add_text (open_field (scan_of es f)) text f).
Proof. unfold append_required_text, add_text. destruct (open_field (scan_of es f)); [done|]. by destruct f. Qed.

Lemma add_text_app inside t u f : add_text inside (t ++ u) f = add_text inside u (add_text inside t f).
Proof.
  destruct inside as [i|], f as [fs sn]; simpl; [|done]. f_equal.
  rewrite list_alter_alter_eq. apply list_alter_ext; [|done]. intros x _. simpl. by rewrite app_assoc.
Qed.

Lemma add_text_nil inside f : add_text inside [] f = f.
Proof.
  destruct inside as [i|], f as [fs sn]; simpl; [|done]. f_equal.
  apply list_alter_id. intros x. apply app_nil_r.
Qed.

Lemma open_field_text es f g : open_field (scan_of es f) = open_field (scan_of es g).
Proof. done. Qed.

Lemma scan_text es f text xml : Forall (fun c => c <> "<"%char) text ->
  run_scan (scan_of es f) (text ++ xml) =
  run_scan (scan_of es (add_text (open_field (scan_of es f)) text f)) xml.
Proof.
  intros Ht. destruct text as [|c text]; [by rewrite add_text_nil|].
  destruct xml as [|d xml].
  - rewrite app_nil_r, run_scan_step by done. unfold scan_step.
    rewrite <- (app_nil_r (c :: text)), find_bracket by done. simpl. by rewrite app_nil_r, append_text_of.
  - rewrite !run_scan_step by done. unfold scan_step. rewrite find_bracket by done.
    destruct (find ["<"%char] (d :: xml)) as [[before rest]|]; simpl; rewrite !append_text_of;
      change (c :: text ++ ?x) with ((c :: text) ++ x); by rewrite add_text_app.
Qed.

(** The scanner stands at a [<]. *)
Lemma run_scan_markup es f xml :
  run_scan (scan_of es f) ("<"%char :: xml) =
  match scan_markup (scan_of es f) ("<"%char :: xml) with
  | Ok (s', rest) => run_scan s' rest
  | Throw e => Some (Throw e)
  end.
Proof.
  rewrite run_scan_step by done. unfold scan_step. cbn [find strip_prefix Ascii.eqb Bool.eqb].
  by rewrite append_text_of, add_text_nil.
Qed.

Lemma scan_markup_tag s c rest : c <> "!"%char -> c <> "?"%char ->
  scan_markup s ("<"%char :: c :: rest) = scan_tag s (c :: rest).
Proof.
  intros H1 H2. unfold scan_markup, chars_of. cbn [strip_prefix]. rewrite !Ascii.eqb_refl.
  destruct (Ascii.eqb_spec "!" c); [congruence|]. by destruct (Ascii.eqb_spec "?" c); [congruence|].
Qed.

(** The sections that hold no elements. *)
Lemma scan_comment s text xml : ends_first "-->" text ->
  scan_markup s (chars_of "<!--" ++ text ++ chars_of "-->" ++ xml) = Ok (s, xml).
Proof.
  intros H. unfold scan_markup. rewrite strip_prefix_app. unfold section_end. by rewrite find_first.
Qed.

Lemma scan_cdata s text xml : ends_first "]]>" text ->
  scan_markup s (chars_of "<![CDATA[" ++ text ++ chars_of "]]>" ++ xml) =
  Ok (append_required_text text s, xml).
Proof.
  intros H. unfold scan_markup.
  change (strip_prefix (chars_of "<!--") (chars_of "<![CDATA[" ++ ?x)) with (@None chars).
  rewrite strip_prefix_app. unfold section_end. by rewrite find_first.
Qed.

Lemma scan_instruction s text xml : ends_first "?>" text ->
  scan_markup s (chars_of "<?" ++ text ++ chars_of "?>" ++ xml) = Ok (s, xml).
Proof.
  intros H. unfold scan_markup.
  change (strip_prefix (chars_of "<!--") (chars_of "<?" ++ ?x)) with (@None chars).
  change (strip_prefix (chars_of "<![CDATA[") (chars_of "<?" ++ ?x)) with (@None chars).
  rewrite strip_prefix_app. unfold section_end. by rewrite find_first.
Qed.

(** Reading a whole tag from its bracket. *)
Lemma run_opening t es f (self_closing : bool) xml : wf_tag t ->
  run_scan (scan_of es f)
    ("<"%char :: write_tag t ++ (if self_closing then ["/"%char] else []) ++ ">"%char :: xml) =
  match opened t self_closing es f with
  | Ok s => run_scan s xml
  | Throw e => Some (Throw e)
  end.
Proof.
  intros Ht. rewrite run_scan_markup. destruct (tag_core_head t Ht) as (c & rest & E & _ & H1 & H2).
  pose proof (scan_opening t es f self_closing xml Ht) as Hs.
  rewrite write_tag_core, E in *. cbn [app] in *. rewrite scan_markup_tag, Hs by done.
  by destruct (opened t self_closing es f).
Qed.

Lemma run_closing n pad e es f xml : wf_name n -> blank pad -> name e = n ->
  run_scan (scan_of (e :: es) f) ("<"%char :: "/"%char :: n ++ pad ++ ">"%char :: xml) =
  run_scan (scan_of es f) xml.
Proof. intros. by rewrite run_scan_markup, scan_markup_tag, scan_closing by done. Qed.

Lemma scan_document d : wf_document d -> forall es f xml,
  run_scan (scan_of es f) (write d ++ xml) =
  match collect d (open_field (scan_of es f)) f with
  | Ok f' => run_scan (scan_of es f') xml
  | Throw e => Some (Throw e)
  end.
Proof.
  induction d as [|text d IH|text d IH|text d IH|text d IH|t d IH|t content IHc pad d IH];
    intros Hwf es f xml; cbn [write collect]; [done|destruct Hwf as [H Hd]..|].
  - rewrite <- app_assoc, scan_text, IH by done. done.
  - rewrite <- !app_assoc. change (chars_of "<![CDATA[" ++ ?x) with ("<"%char :: chars_of "![CDATA[" ++ x).
    rewrite run_scan_markup.
    change ("<"%char :: chars_of "![CDATA[" ++ ?x) with (chars_of "<![CDATA[" ++ x).
    rewrite scan_cdata, append_text_of, IH by done. done.
  - rewrite <- !app_assoc. change (chars_of "<!--" ++ ?x) with ("<"%char :: chars_of "!--" ++ x).
    rewrite run_scan_markup. change ("<"%char :: chars_of "!--" ++ ?x) with (chars_of "<!--" ++ x).
    rewrite scan_comment, IH by done. done.
  - rewrite <- !app_assoc. change (chars_of "<?" ++ ?x) with ("<"%char :: chars_of "?" ++ x).
    rewrite run_scan_markup. change ("<"%char :: chars_of "?" ++ ?x) with (chars_of "<?" ++ x).
    rewrite scan_instruction, IH by done. done.
  - rewrite <- !app_assoc.
    change (chars_of "<" ++ write_tag t ++ chars_of "/>" ++ ?x)
      with ("<"%char :: write_tag t ++ ["/"%char] ++ ">"%char :: x).
    rewrite (run_opening t es f true) by done. unfold opened.
    destruct (begin_element _ (tag_name t) f) as [f'|e]; [|done]. simpl. by rewrite IH.
  - destruct Hwf as (Ht & Hc & Hp & Hd). rewrite <- !app_assoc.
    change (chars_of "<" ++ write_tag t ++ chars_of ">" ++ ?x)
      with ("<"%char :: write_tag t ++ [] ++ ">"%char :: x).
    rewrite (run_opening t es f false) by done. unfold opened.
    destruct (begin_element _ (tag_name t) f) as [f1|e]; [|done]. cbn [mbind result_bind].
    rewrite IHc by done.
    change (open_field (scan_of (MkOpenElement (tag_name t) (required_tag_index (tag_name t)) :: es) f1))
      with (required_tag_index (tag_name t)).
    destruct (collect content _ f1) as [f2|e]; [|done]. cbn [mbind result_bind].
    change (chars_of "</" ++ tag_name t ++ pad ++ chars_of ">" ++ ?x)
      with ("<"%char :: "/"%char :: tag_name t ++ pad ++ ">"%char :: x).
    rewrite run_closing by (done || apply Ht). by rewrite IH.
Qed.

(** ** Theorem *)

(** C34: on every well-formed document the scanner does what the tree says: the
    texts of the required elements come out whole, joined across comments,
    CDATA sections and instructions, whatever attributes, quoting and white
    space the tags carry, and trimmed; a document that nests an element in a
    required field or repeats one fails with the error of the first such fault in
    document order; and of those without, one that omits a required field (other
    than the product name) or leaves one empty or too long fails with the error
    of the first such field in the order of the required tags. *)
Theorem extract_document d : wf_document d ->
  extract_required_fields (write d) = Some (document_fields d).
Proof.
  intros Hwf. unfold extract_required_fields, document_fields.
  change scan_initial with (scan_of [] nothing_found).
  fold (run_scan (scan_of [] nothing_found) (write d)).
  rewrite <- (app_nil_r (write d)), scan_document by done.
  change (open_field (scan_of [] nothing_found)) with (@None nat).
  by destruct (collect d None nothing_found) as [f|e].
Qed.

(** ** An example *)

Lemma find_least p xml : forall before rest a b,
  find p xml = Some (before, rest) -> xml = a ++ p ++ b -> (length before <= length a)%nat.
Proof.
  induction xml as [|c xml IH]; intros before rest a b; cbn [find].
  - destruct (strip_prefix p []); [|done]. intros [= <- _] _. simpl. lia.
  - destruct (strip_prefix p (c :: xml)) as [r|] eqn:E; [intros [= <- _] _; simpl; lia|].
    destruct (find p xml) as [[before' rest']|] eqn:Ef; [|done]. intros [= <- _] H.
    destruct a as [|d a]; [simpl in H; rewrite H, strip_prefix_app in E; done|].
    injection H as -> H. specialize (IH _ _ a b eq_refl H). simpl. lia.
Qed.

Lemma ends_first_find closing text :
  find (chars_of closing) (text ++ chars_of closing) = Some (text, []) -> ends_first closing text.
Proof.
  intros H a b Hab. pose proof (find_least _ _ _ _ _ _ H Hab) as Hl.
  apply (f_equal length) in Hab. rewrite !length_app in Hab. destruct b; [done|simpl in *; lia].
Qed.

Definition plain_tag (n : string) : tag := MkTag (chars_of n) [] [].
Definition field_element (n value : string) (rest : document) : document :=
  DocElement (plain_tag n) (DocText (chars_of value) DocEnd) [] rest.

(** A declaration, a comment inside a value, CDATA, attributes and other elements. *)
Definition example_document : document :=
  DocInstruction (chars_of "xml version='1.0'")
  (DocElement (MkTag (chars_of "netft") [MkAttribute [" "%char] (chars_of "a") "'" (chars_of "1>0")] [" "%char])
    (DocElement (plain_tag "prodname")
       (DocText (chars_of " Axia") (DocComment (chars_of " - ") (DocText (chars_of "80 ") DocEnd))) [" "%char]
    (field_element "cfgcpf" "1000000"
    (DocEmpty (plain_tag "setbias")
    (DocElement (plain_tag "cfgcpt") (DocCData (chars_of "1.5e3") DocEnd) []
    (field_element "scfgfu" "N" (field_element "scfgtu" "Nm" DocEnd)))))) [] DocEnd).

Lemma example_document_wf : wf_document example_document.
Proof.
  repeat split; try (apply ends_first_find; by vm_compute);
    repeat first [apply Forall_nil_2 | apply Forall_cons_2]; try done; try by vm_compute.
  repeat split; try done; repeat first [apply Forall_nil_2 | apply Forall_cons_2]; done.
Qed.

Lemma extract_document_witness : wf_document example_document /\
  extract_required_fields (write example_document) =
    Some (Ok (map chars_of ["Axia80"; "1000000"; "1.5e3"; "N"; "Nm"]%string)).
Proof.
  split; [apply example_document_wf|].
  rewrite (extract_document example_document example_document_wf). by vm_compute.
Defined.
