(* ===== verification/Discovery.v ===== *)
(** * Sensor discovery: src/src/discovery.cpp, src/include/netft/discovery.hpp

    One HTTP request for the sensor's configuration document.  libcurl is a
    parameter: [CurlAnswer] is what its functions answer during one call, the
    options and URL parts the source hands to it are values, so that what is
    requested can be stated.  [std::string]s of the request are [string]s, the
    response body is a list of characters. *)

From S2P Require Export XmlConfig.

Definition kMaximumResponseBytes : Z := 65536.
Definition kAtiConfigurationProtocol : string := "http".

Record DiscoveryOptions := MkDiscoveryOptions {
  sensor_host : string;
  http_port : Z;
  connect_timeout : float;
  total_timeout : float;
}.
#[export] Instance DiscoveryOptions_eta : Eta DiscoveryOptions := fun o =>
  MkDiscoveryOptions (sensor_host o) (http_port o) (connect_timeout o) (total_timeout o).

(** The default member initialisers. *)
Definition default_options : DiscoveryOptions :=
  MkDiscoveryOptions "192.168.1.1" 80 (of_frac binary64 1 2) (of_frac binary64 1 1).

(** ** Options *)

Definition is_ascii_blank (value : string) : bool :=
  match value with EmptyString => true | _ => string_forallb is_ascii_whitespace value end.

(** [std::ceil(static_cast<long double>(seconds) * 1000.0L)] is the expression
    of [require_safe_timeout]; here the bound itself is let through.  The
    result is the integer the cast to [long] converts. *)
Definition timeout_milliseconds `{Platform} (timeout : float) (name : string) : result Z :=
  let error := Throw (DiscoveryError (name +:+ " must be finite, positive, and representable")) in
  if negb (is_finite timeout) || fle timeout (S754_zero false) then error
  else
    let rounded_milliseconds := http_milliseconds timeout in
    if negb (is_finite rounded_milliseconds)
       || flt (of_Z long_double long_max) rounded_milliseconds
    then error else Ok (trunc rounded_milliseconds).

Definition validate_options `{Platform} (options : DiscoveryOptions) : result unit :=
  _ ← throw_if (is_ascii_blank (sensor_host options)) (DiscoveryError "sensor_host must not be blank");
  _ ← throw_if ((http_port options <? 1) || (65535 <? http_port options))
        (DiscoveryError "http_port must be in the range 1..65535");
  _ ← timeout_milliseconds (connect_timeout options) "connect_timeout";
  _ ← timeout_milliseconds (total_timeout options) "total_timeout";
  Ok tt.

(** A host with a colon is an IPv6 address: it goes into brackets unless it
    already is. *)
Definition url_host (host : string) : string :=
  let c := chars_of host in
  if bool_decide (":"%char ∈ c)
     && ((length c <? 2)%nat || negb (bool_decide (head c = Some "["%char))
         || negb (bool_decide (last c = Some "]"%char)))
  then "[" +:+ host +:+ "]" else host.

(** ** The response *)

Record ResponseBuffer := MkResponseBuffer {
  body : chars;
  too_large : bool;
  write_failed : bool;
}.
#[export] Instance ResponseBuffer_eta : Eta ResponseBuffer := fun r =>
  MkResponseBuffer (body r) (too_large r) (write_failed r).

Definition empty_response : ResponseBuffer := MkResponseBuffer [] false false.

(** [std::numeric_limits<std::size_t>::max()] on the 64-bit targets. *)
Definition size_max : Z := 2 ^ 64 - 1.

(** The write callback: [data] points at the delivered characters, [memory] is
    whether the append can allocate.  The number returned comes first. *)
Definition append_response (memory : bool) (data : chars) (size count : Z) (response : ResponseBuffer)
    : Z * ResponseBuffer :=
  if negb (size =? 0) && (size_max / size <? count) then (0, response <| too_large := true |>)
  else
    let byte_count := u64 (size * count) in
    if kMaximumResponseBytes - Z.of_nat (length (body response)) <? byte_count
    then (0, response <| too_large := true |>)
    else if memory
    then (byte_count, response <| body := body response ++ take (Z.to_nat byte_count) data |>)
    else (0, response <| write_failed := true |>).

(** ** libcurl *)

Inductive CurlUrlPart := PartScheme | PartHost | PartPort | PartPath.

Inductive CurlOption :=
| OptCurlu
| OptProtocols (protocol : string)
| OptFollowLocation (value : Z)
| OptMaxRedirs (value : Z)
| OptNoSignal (value : Z)
| OptProxy (value : string)
| OptConnectTimeoutMs (value : Z)
| OptTimeoutMs (value : Z)
| OptWriteFunction
| OptWriteData.

(** One call of the write callback: size, count, data, and whether memory
    suffices. *)
Record Chunk := MkChunk {
  chunk_size : Z;
  chunk_count : Z;
  chunk_data : chars;
  chunk_memory : bool;
}.

(** What the library answers.  [curl_global] is what [curl_global_init] would
    return; codes are whether they are [CURLE_OK]; [curl_transfer] is the text of
    a failed transfer's code.  [curl_status] is the response code, if it can be read. *)
Record CurlAnswer := MkCurlAnswer {
  curl_global : bool;
  curl_handle : bool;
  curl_url : bool;
  curl_set_url : CurlUrlPart -> string -> bool;
  curl_setopt : CurlOption -> bool;
  curl_chunks : list Chunk;
  curl_transfer : option string;
  curl_status : option Z;
}.

(** [initialization_result] and [initialization_flag]: whether the once flag is
    set, and the result. *)
Definition CurlGlobal : Type := option bool.

Definition initialize_curl_once (a : CurlAnswer) (g : CurlGlobal) : bool * CurlGlobal :=
  match g with
  | Some result => (result, g)
  | None => (curl_global a, Some (curl_global a))
  end.

Definition set_curl_option (a : CurlAnswer) (option : CurlOption) : result unit :=
  throw_if (negb (curl_setopt a option))
    (DiscoveryError "failed to configure sensor discovery request").

Definition set_url_part (a : CurlAnswer) (part : CurlUrlPart) (value : string) : result unit :=
  throw_if (negb (curl_set_url a part value)) (DiscoveryError "invalid sensor discovery URL").

(** [curl_easy_perform]: delivers the chunks until the callback takes fewer
    bytes than it was given. *)
Fixpoint deliver_chunks (chunks : list Chunk) (response : ResponseBuffer) : ResponseBuffer :=
  match chunks with
  | [] => response
  | c :: rest =>
      let '(taken, response) := append_response (chunk_memory c) (chunk_data c) (chunk_size c)
                                  (chunk_count c) response in
      if taken =? chunk_size c * chunk_count c then deliver_chunks rest response else response
  end.

(** The URL parts, in the order they are set. *)
Definition url_parts (options : DiscoveryOptions) : list (CurlUrlPart * string) :=
  [(PartScheme, kAtiConfigurationProtocol); (PartHost, url_host (sensor_host options));
   (PartPort, to_string (http_port options)); (PartPath, "/netftapi2.xml"%string)].

(** The options, in the order they are set; the two timeouts are computed in
    between. *)
Definition fixed_options : list CurlOption :=
  [OptCurlu; OptProtocols kAtiConfigurationProtocol; OptFollowLocation 0; OptMaxRedirs 0;
   OptNoSignal 1; OptProxy ""].

Definition run_all {A} (f : A -> result unit) (l : list A) : result unit :=
  foldr (fun x r => _ ← f x; r) (Ok tt) l.

Section discover.
  Context `{P : Platform} {N : NumericInput} (a : CurlAnswer).

(** Up to the transfer: the options and parts that were set, if all were. *)
Definition request_setup (options : DiscoveryOptions) : result unit :=
  _ ← throw_if (negb (curl_handle a)) (DiscoveryError "failed to create HTTP transport");
  _ ← throw_if (negb (curl_url a)) (DiscoveryError "failed to create sensor discovery URL");
  _ ← run_all (fun '(part, value) => set_url_part a part value) (url_parts options);
  _ ← run_all (set_curl_option a) fixed_options;
  connect_ms ← timeout_milliseconds (connect_timeout options) "connect_timeout";
  _ ← set_curl_option a (OptConnectTimeoutMs connect_ms);
  total_ms ← timeout_milliseconds (total_timeout options) "total_timeout";
  run_all (set_curl_option a) [OptTimeoutMs total_ms; OptWriteFunction; OptWriteData].

(** After the transfer: the body of a good response. *)
Definition response_body : result chars :=
  let response := deliver_chunks (curl_chunks a) empty_response in
  _ ← throw_if (too_large response)
        (DiscoveryError "sensor configuration response exceeds 65536 bytes");
  _ ← throw_if (write_failed response) (DiscoveryError "failed to store sensor configuration response");
  _ ← match curl_transfer a with
      | None => Ok tt
      | Some what => Throw (DiscoveryError ("sensor configuration request failed: " +:+ what))
      end;
  match curl_status a with
  | None => Throw (DiscoveryError "failed to inspect sensor configuration response")
  | Some status =>
      _ ← throw_if (negb (status =? 200))
            (DiscoveryError ("sensor configuration request returned HTTP " +:+ to_string status));
      Ok (body response)
  end.

(** [None] would be a parser that does not return. *)
Definition discover_sensor (f1 f2 : FenvAnswer) (options : DiscoveryOptions) (g : CurlGlobal)
    : option (result SensorConfiguration) * CurlGlobal :=
  match validate_options options with
  | Throw e => (Some (Throw e), g)
  | Ok _ =>
      let '(initialized, g) := initialize_curl_once a g in
      if negb initialized then (Some (Throw (DiscoveryError "failed to initialize HTTP transport")), g)
      else
        (match (_ ← request_setup options; response_body) with
         | Throw e => Some (Throw e)
         | Ok xml => parse_sensor_configuration f1 f2 xml
         end, g)
  end.

End discover.

(** ** Lemmas: timeouts *)

Section timeouts.
  Context {P : Platform} {HP : PlatformLaws P}.

  #[local] Existing Instance long_double_wf.
  Abbreviation ld := (@long_double P).

(** The milliseconds of a positive timeout: an integer that is at least one,
    or infinity. *)
Lemma http_milliseconds_facts t : valid binary64 t = true -> is_finite t = true ->
  fle t (S754_zero false) = false ->
  http_milliseconds t = S754_infinity false \/
  exists c, 1 <= c /\ is_finite (http_milliseconds t) = true /\
    valid ld (http_milliseconds t) = true /\ sign (http_milliseconds t) = false /\
    mag ld (http_milliseconds t) = c * unit_of ld /\ trunc (http_milliseconds t) = c.
Proof.
  intros Vt Ft Hp. destruct (positive_finite_mag t Vt Ft Hp) as [St Mt].
  destruct (of_Z_ld 1000 ltac:(reflexivity)) as (V1 & S1 & F1 & M1). pose proof (unit_pos ld) as Hu.
  pose proof (duration_ticks_rounded t Vt Ft) as Rc. rewrite St in Rc.
  assert (fmin ld <= fmin binary64) as Hmin.
  { pose proof long_double_prec. pose proof long_double_emax. unfold fmin, emin. simpl. lia. }
  rewrite (Z.max_l 0 (fmin ld - _)), Z.pow_0_r in Rc by lia. unfold http_milliseconds.
  destruct (rounded_infinite _ _ _ _ _ Rc) as [Fc|Ec].
  2: { left. rewrite Ec. destruct (of_Z_finite_pos ld 1000 ltac:(lia)) as (m & e & ->); [|done].
       pose proof long_double_prec. pose proof (pow2_le 53 (prec ld)). lia. }
  destruct (rounded_is_finite ld _ _ _ _ Rc Fc) as [_ Mc].
  pose proof (pow2_pos (Z.max 0 (fmin binary64 - fmin ld)) ltac:(lia)).
  pose proof (round_pos ld (mag binary64 t * 2 ^ Z.max 0 (fmin binary64 - fmin ld)) 1 ltac:(nia)) as Hc1.
  rewrite <- Mc in Hc1.
  apply (ceil_scaled ld); try done; [apply (rounded_valid ld _ _ _ _ Rc)|apply (rounded_sign _ _ _ _ _ Rc)|lia|].
  pose proof long_double_prec. pose proof (pow2_le 53 (prec ld)). lia.
Qed.

(** [LONG_MAX] as a long double. *)
Lemma long_max_float :
  valid ld (of_Z ld long_max) = true /\ sign (of_Z ld long_max) = false /\
  is_finite (of_Z ld long_max) = true /\
  mag ld (of_Z ld long_max) <= (long_max + 1) * unit_of ld /\
  (long_bits - 1 <= prec ld -> mag ld (of_Z ld long_max) = long_max * unit_of ld).
Proof.
  pose proof long_bits_range. pose proof long_double_emax. unfold long_max.
  assert (2 ^ 1 <= 2 ^ (long_bits - 1)) as H1 by (apply pow2_le; lia). change (2 ^ 1) with 2 in H1.
  set (m := 2 ^ (long_bits - 1)) in *.
  destruct (of_Z_bounded ld (m - 1) (long_bits - 1)) as (V & S & F & _ & M); [unfold m in *; lia|lia|].
  fold m in M.
  rewrite Z.sub_add. split_and!; try done.
  - rewrite S. apply Z.ltb_ge. lia.
  - intros Hp. apply pow2_le in Hp. fold m in Hp.
    destruct (of_Z_exact ld (m - 1)) as (_ & _ & _ & ->); [lia|]. f_equal. lia.
Qed.

Lemma timeout_milliseconds_ok t name ms : timeout_milliseconds t name = Ok ms ->
  is_finite t = true /\ fle t (S754_zero false) = false /\ is_finite (http_milliseconds t) = true /\
  flt (of_Z ld long_max) (http_milliseconds t) = false /\ ms = trunc (http_milliseconds t).
Proof.
  unfold timeout_milliseconds. destruct (is_finite t), (fle t _); simpl; try discriminate.
  destruct (is_finite _), (flt _ _); simpl; try discriminate. by intros [= <-].
Qed.

End timeouts.

(** ** Lemmas: the response *)

(** A chunk as libcurl delivers it; appending nothing needs no memory. *)
Definition wf_chunk (c : Chunk) : Prop :=
  0 <= chunk_size c <= size_max /\ 0 <= chunk_count c <= size_max /\
  Z.of_nat (length (chunk_data c)) = chunk_size c * chunk_count c /\
  (chunk_data c = [] -> chunk_memory c = true).

Definition total_length (chunks : list Chunk) : Z :=
  Z.of_nat (length (concat (map chunk_data chunks))).

(** [append_response] on a chunk that is what it says. *)
Lemma append_response_chunk c r : wf_chunk c -> Z.of_nat (length (body r)) <= kMaximumResponseBytes ->
  append_response (chunk_memory c) (chunk_data c) (chunk_size c) (chunk_count c) r =
  (if kMaximumResponseBytes <? Z.of_nat (length (body r) + length (chunk_data c))
   then (0, r <| too_large := true |>)
   else if chunk_memory c
   then (chunk_size c * chunk_count c, r <| body := body r ++ chunk_data c |>)
   else (0, r <| write_failed := true |>)).
Proof.
  intros (Hs & Hc & Hl & _) Hb. unfold append_response, size_max, kMaximumResponseBytes in *.
  rewrite Nat2Z.inj_add, Hl.
  destruct (Z.eqb_spec (chunk_size c) 0) as [E|E]; cbn [negb andb].
  - rewrite E in *. rewrite Z.mul_0_l in *. rewrite (wrap_small 64 0) by done.
    destruct (Z.ltb_spec (65536 - Z.of_nat (length (body r))) 0), (Z.ltb_spec 65536 (Z.of_nat (length (body r)) + 0));
      try lia. destruct (chunk_data c); [done|simpl in *; lia].
  - destruct (Z.ltb_spec ((2 ^ 64 - 1) / chunk_size c) (chunk_count c)) as [H|H].
    + pose proof (Z.mul_succ_div_gt (2 ^ 64 - 1) (chunk_size c) ltac:(lia)).
      destruct (Z.ltb_spec 65536 (Z.of_nat (length (body r)) + chunk_size c * chunk_count c)); [done|nia].
    + pose proof (Z.mul_div_le (2 ^ 64 - 1) (chunk_size c) ltac:(lia)).
      rewrite (wrap_small 64) by (split; nia).
      destruct (Z.ltb_spec (65536 - Z.of_nat (length (body r))) (chunk_size c * chunk_count c)),
        (Z.ltb_spec 65536 (Z.of_nat (length (body r)) + chunk_size c * chunk_count c)); try lia; [done|].
      destruct (chunk_memory c); [|done]. rewrite <- Hl, Nat2Z.id, take_ge by lia. done.
Qed.

(** What [deliver_chunks] has done: the body holds whole chunks, and a flag
    tells when one did not fit. *)
Lemma deliver_chunks_spec chunks : Forall wf_chunk chunks -> forall r,
  Z.of_nat (length (body r)) <= kMaximumResponseBytes ->
  exists taken left, chunks = taken ++ left /\
    let r' := deliver_chunks chunks r in
    body r' = body r ++ concat (map chunk_data taken) /\
    Z.of_nat (length (body r')) <= kMaximumResponseBytes /\
    match left with
    | [] => too_large r' = too_large r /\ write_failed r' = write_failed r
    | c :: _ =>
        if kMaximumResponseBytes <? Z.of_nat (length (body r') + length (chunk_data c))
        then too_large r' = true /\ write_failed r' = write_failed r
        else too_large r' = too_large r /\ write_failed r' = true /\ chunk_memory c = false
    end.
Proof.
  induction 1 as [|c chunks Hc _ IH]; intros r Hr.
  { exists [], []. simpl. by rewrite app_nil_r. }
  cbn [deliver_chunks]. rewrite append_response_chunk by done. pose proof Hc as (Hs & Hn & Hl & Hz).
  destruct (Z.ltb_spec kMaximumResponseBytes (Z.of_nat (length (body r) + length (chunk_data c)))) as [H|H].
  - exists [], (c :: chunks). split; [done|].
    rewrite (proj2 (Z.eqb_neq _ _)) by lia. cbv zeta. cbn [body too_large write_failed map concat].
    rewrite app_nil_r. split_and!; [done..|]. change (body (r <| too_large := true |>)) with (body r).
    by rewrite (proj2 (Z.ltb_lt _ _)) by lia.
  - destruct (chunk_memory c) eqn:Em.
    + rewrite Z.eqb_refl.
      destruct (IH (r <| body := body r ++ chunk_data c |>)) as (taken & left & -> & Hb & Hm & Hf).
      { change (body (r <| body := ?x |>)) with x. rewrite length_app. lia. }
      exists (c :: taken), left. split; [done|]. cbv zeta in *.
      split; [|by split]. rewrite Hb. change (body (r <| body := ?x |>)) with x. by rewrite <- app_assoc.
    + assert (chunk_data c <> []) as Hne by (intros E; by specialize (Hz E)).
      assert (length (chunk_data c) <> 0%nat) by by destruct (chunk_data c).
      rewrite (proj2 (Z.eqb_neq 0 _)) by lia. exists [], (c :: chunks). split; [done|]. cbv zeta.
      rewrite app_nil_r. split_and!; [done..|]. change (body (r <| write_failed := true |>)) with (body r).
      by rewrite (proj2 (Z.ltb_ge _ _)) by lia.
Qed.

(** ** Theorems *)

(** The two timers of the request: a timeout that is accepted becomes at
    least one millisecond and at most [LONG_MAX] milliseconds wherever
    [long double] holds [LONG_MAX] exactly (one more elsewhere); and a timeout
    [validate] has accepted in a [Config] is always accepted here and fits a
    [long] on every platform. *)
Theorem timeout_milliseconds_range {P : Platform} {HP : PlatformLaws P} t name : valid binary64 t = true ->
  (forall ms, timeout_milliseconds t name = Ok ms ->
    1 <= ms <= long_max + 1 /\ (long_bits - 1 <= prec long_double -> ms <= long_max)) /\
  (safe_timeout true t -> exists ms, timeout_milliseconds t name = Ok ms /\ 1 <= ms <= long_max).
Proof.
  intros Vt. destruct long_max_float as (Vl & Sl & Fl & Ml & El).
  pose proof (unit_pos long_double) as Hu. split.
  - intros ms (Ft & Hp & F & Hb & ->)%timeout_milliseconds_ok.
    destruct (http_milliseconds_facts t Vt Ft Hp) as [E|(c & Hc & _ & V & S & M & ->)]; [by rewrite E in F|].
    rewrite (flt_sval long_double) in Hb by done. unfold sval in Hb. rewrite Sl, S, M in Hb. bool_to_prop.
    split; [nia|]. intros Hp'. specialize (El Hp'). nia.
  - intros [Ft Hp _ Hh]. specialize (Hh eq_refl).
    destruct (http_milliseconds_facts t Vt Ft Hp) as [E|(c & Hc & F & V & S & M & Et)].
    { rewrite E in Hh. destruct (of_Z long_double long_max) as [| | |[]]; done. }
    rewrite (fle_sval long_double) in Hh by done. unfold sval in Hh. rewrite Sl, S, M in Hh. bool_to_prop.
    exists c. split; [|nia]. unfold timeout_milliseconds. rewrite Ft, Hp, F, Et. simpl.
    rewrite (flt_sval long_double) by done. unfold sval. rewrite Sl, S, M, (proj2 (Z.ltb_ge _ _)) by lia. done.
Qed.

Lemma timeout_milliseconds_range_witness :
  exists ms, @timeout_milliseconds linux_x86_64 (of_frac binary64 1 2) "connect_timeout" = Ok ms /\
    1 <= ms <= @long_max linux_x86_64.
Proof.
  destruct (timeout_milliseconds_range (P := linux_x86_64) (of_frac binary64 1 2) "connect_timeout" eq_refl)
    as [_ H].
  apply H. split; [done|done|exists 500000000; vm_compute; split; [done|by intuition]|by vm_compute].
Defined.

(** Where [long double] is no wider than [double] and [long] has 64 bits, the
    timeout 2^63 milliseconds passes the test and its conversion to [long] is out
    of range. *)
Lemma timeout_conversion_overflows :
  let t := of_frac binary64 (2 ^ 63) 1000 in
  @timeout_milliseconds macos_arm64 t "total_timeout" = Ok (2 ^ 63) /\
  @long_max macos_arm64 = 2 ^ 63 - 1 /\ valid binary64 t = true.
Proof. vm_compute. repeat split. Qed.

(** The response buffer is bounded and complete: whatever sizes the chunks
    have, products of size and count beyond [size_t] included, the body never
    exceeds 65536 bytes; if no flag is set it is exactly what was delivered, in
    order; and where memory suffices, [too_large] is set exactly when more than
    65536 bytes arrived. *)
Theorem response_bounded chunks : Forall wf_chunk chunks ->
  let r := deliver_chunks chunks empty_response in
  Z.of_nat (length (body r)) <= kMaximumResponseBytes /\
  (too_large r = false -> write_failed r = false -> body r = concat (map chunk_data chunks)) /\
  (Forall (fun c => chunk_memory c = true) chunks ->
     write_failed r = false /\ (too_large r = true <-> kMaximumResponseBytes < total_length chunks)).
Proof.
  intros Hwf r. destruct (deliver_chunks_spec chunks Hwf empty_response ltac:(done))
    as (taken & left & -> & Hb & Hm & Hf). cbv zeta in *. fold r in Hb, Hm, Hf.
  change (body empty_response ++ ?x) with x in Hb.
  unfold total_length. rewrite map_app, concat_app, length_app, <- Hb, Nat2Z.inj_add.
  split; [done|]. destruct left as [|c left]; cbn [map concat].
  - destruct Hf as [Hl Hw]. rewrite Hl, Hw, app_nil_r. simpl. split; [done|]. intros _. split; [done|].
    split; [done|lia].
  - rewrite length_app. destruct (Z.ltb_spec kMaximumResponseBytes (Z.of_nat (length (body r) + length (chunk_data c)))) as [H|H].
    + destruct Hf as [Hl Hw]. rewrite Hl, Hw. split; [done|]. intros _. split; [done|]. split; [lia|done].
    + destruct Hf as (_ & Hw & Hc). rewrite Hw. split; [done|].
      intros [_ [Hc' _]%Forall_cons]%Forall_app. congruence.
Qed.

Lemma response_bounded_witness :
  let chunks := [MkChunk 1 3 (chars_of "abc") true; MkChunk 2 1 (chars_of "de") true] in
  body (deliver_chunks chunks empty_response) = chars_of "abcde".
Proof.
  intros chunks. destruct (response_bounded chunks) as (_ & H & _);
    [repeat constructor; simpl; done|].
  exact (H eq_refl eq_refl).
Defined.

(** The options of an accepted request. *)
Definition request_options (connect_ms total_ms : Z) : list CurlOption :=
  fixed_options ++ [OptConnectTimeoutMs connect_ms; OptTimeoutMs total_ms; OptWriteFunction; OptWriteData].

Lemma run_all_discovers {A} (f : A -> result unit) l :
  (forall x, discovers (fun _ => True) (f x)) -> discovers (fun _ => True) (run_all f l).
Proof. intros Hf. induction l as [|x l IH]; [done|]. apply discovers_bind_any; [apply Hf|done]. Qed.

Lemma run_all_ok {A} (f : A -> result unit) l u : run_all f l = Ok u -> Forall (fun x => f x = Ok tt) l.
Proof.
  revert u. induction l as [|x l IH]; intros u H; [constructor|].
  apply bind_ok in H as ([] & H1 & H2). constructor; eauto.
Qed.

Section outcome.
  Context {P : Platform} {N : NumericInput} (a : CurlAnswer).

Lemma timeout_milliseconds_discovers t name : discovers (fun _ => True) (timeout_milliseconds t name).
Proof. unfold timeout_milliseconds. destruct (_ || _); [by eexists|]. destruct (_ || _); [by eexists|done]. Qed.

Lemma validate_options_discovers options :
  discovers (fun _ => validate_options options = Ok tt) (validate_options options).
Proof.
  destruct (validate_options options) as [[]|e] eqn:E; [done|]. simpl.
  assert (discovers (fun _ => True) (validate_options options)) as H; [|by rewrite E in H].
  unfold validate_options. repeat (apply discovers_bind_any; [|intros _]); try done;
    try apply timeout_milliseconds_discovers; (eapply discovers_weaken; [|apply discovers_throw_if]; done).
Qed.

Lemma request_setup_spec options : discovers (fun _ =>
    Forall (fun '(part, value) => curl_set_url a part value = true) (url_parts options) /\
    exists connect_ms total_ms,
      timeout_milliseconds (connect_timeout options) "connect_timeout" = Ok connect_ms /\
      timeout_milliseconds (total_timeout options) "total_timeout" = Ok total_ms /\
      Forall (fun o => curl_setopt a o = true) (request_options connect_ms total_ms))
  (request_setup a options).
Proof.
  assert (forall o, set_curl_option a o = Ok tt -> curl_setopt a o = true) as Ho
    by (intros o; unfold set_curl_option; by destruct (curl_setopt a o)).
  assert (forall o, discovers (fun _ => curl_setopt a o = true) (set_curl_option a o)) as Hd
    by (intros o; unfold set_curl_option; destruct (curl_setopt a o); [done|by eexists]).
  assert (forall l, discovers (fun _ => Forall (fun o => curl_setopt a o = true) l) (run_all (set_curl_option a) l)) as Hl.
  { intros l. destruct (run_all (set_curl_option a) l) as [u|e] eqn:E.
    - eapply Forall_impl; [by eapply run_all_ok|done].
    - pose proof (run_all_discovers (set_curl_option a) l) as H. rewrite E in H. apply H.
      intros o. by eapply discovers_weaken; [|apply Hd]. }
  unfold request_setup.
  do 2 (apply discovers_bind_any; [eapply discovers_weaken; [|apply discovers_throw_if]; done|intros _]).
  eapply (discovers_bind (fun _ => Forall (fun '(part, value) => curl_set_url a part value = true) (url_parts options))).
  { unfold url_parts, run_all, set_url_part. cbn [foldr].
    destruct (curl_set_url a PartScheme _) eqn:E1; [|by eexists].
    destruct (curl_set_url a PartHost _) eqn:E2; [|by eexists].
    destruct (curl_set_url a PartPort _) eqn:E3; [|by eexists].
    destruct (curl_set_url a PartPath _) eqn:E4; [|by eexists].
    simpl. by repeat constructor. }
  intros [] Hu. eapply discovers_bind; [apply Hl|]. intros [] Hfix.
  pose proof (timeout_milliseconds_discovers (connect_timeout options) "connect_timeout") as H1.
  destruct (timeout_milliseconds (connect_timeout options) _) as [c_ms|e] eqn:E1; [|done].
  cbn [mbind result_bind]. eapply discovers_bind; [apply Hd|]. intros [] Hc.
  pose proof (timeout_milliseconds_discovers (total_timeout options) "total_timeout") as H2.
  destruct (timeout_milliseconds (total_timeout options) _) as [t_ms|e] eqn:E2; [|done].
  cbn [mbind result_bind]. eapply discovers_weaken; [|apply Hl]. intros [] Hrest.
  split; [done|]. exists c_ms, t_ms. split_and!; [done..|]. unfold request_options.
  apply Forall_app_2; [done|]. by constructor.
Qed.

(** What a good response is. *)
Definition good_response (xml : chars) : Prop :=
  let r := deliver_chunks (curl_chunks a) empty_response in
  xml = body r /\ too_large r = false /\ write_failed r = false /\
  curl_transfer a = None /\ curl_status a = Some 200.

Lemma response_body_spec : discovers good_response (response_body a).
Proof.
  unfold response_body, good_response. cbv zeta.
  set (r := deliver_chunks (curl_chunks a) empty_response).
  eapply discovers_bind; [apply discovers_throw_if|]. intros [] H1.
  eapply discovers_bind; [apply discovers_throw_if|]. intros [] H2.
  destruct (curl_transfer a); [by eexists|]. cbn [mbind result_bind].
  destruct (curl_status a) as [status|]; [|by eexists].
  eapply discovers_bind; [apply discovers_throw_if|]. intros [] H3.
  apply negb_false_iff, Z.eqb_eq in H3 as ->. done.
Qed.

(** What a returned configuration says of the request. *)
Definition discovered (f1 f2 : FenvAnswer) (options : DiscoveryOptions) (g' : CurlGlobal)
    (c : SensorConfiguration) : Prop :=
  validate_options options = Ok tt /\ g' = Some true /\
  Forall (fun '(part, value) => curl_set_url a part value = true) (url_parts options) /\
  (exists connect_ms total_ms,
    timeout_milliseconds (connect_timeout options) "connect_timeout" = Ok connect_ms /\
    timeout_milliseconds (total_timeout options) "total_timeout" = Ok total_ms /\
    Forall (fun o => curl_setopt a o = true) (request_options connect_ms total_ms)) /\
  curl_transfer a = None /\ curl_status a = Some 200 /\
  (let xml := concat (map chunk_data (curl_chunks a)) in
   Z.of_nat (length xml) <= kMaximumResponseBytes /\
   parse_sensor_configuration f1 f2 xml = Some (Ok c)) /\
  valid_calibration (calibration c).

Lemma discover_sensor_spec f1 f2 options g : Forall wf_chunk (curl_chunks a) ->
  exists r g', discover_sensor a f1 f2 options g = (Some r, g') /\ (g <> None -> g' = g) /\
    discovers (discovered f1 f2 options g') r.
Proof.
  intros Hch. unfold discover_sensor. pose proof (validate_options_discovers options) as Hv.
  destruct (validate_options options) as [[]|e] eqn:Ev; [|by exists (Throw e), g].
  destruct (initialize_curl_once a g) as [b g'] eqn:Eg.
  assert (g' = Some b /\ (g <> None -> g' = g)) as [-> Hg] by (destruct g; by injection Eg as <- <-).
  destruct b; cbn [negb]; [|eexists _, _; split; [done|]; split; [done|by eexists]].
  pose proof (request_setup_spec options) as Hs.
  destruct (request_setup a options) as [[]|e]; cbn [mbind result_bind];
    [|eexists _, _; by split_and!].
  pose proof response_body_spec as Hb.
  destruct (response_body a) as [xml|e]; [|eexists _, _; by split_and!].
  destruct Hb as (-> & Hl & Hw & Ht & Hst).
  destruct (response_bounded (curl_chunks a) Hch) as (Hlen & Hbody & _).
  rewrite (Hbody Hl Hw) in *.
  destruct (parse_sensor_configuration_discovers f1 f2 (concat (map chunk_data (curl_chunks a))))
    as (r & Er & Hr). exists r, (Some true). rewrite Er. split; [done|]. split; [done|].
  destruct r as [c|e]; [|done]. destruct Hs as [Hu Ho]. destruct Hr as [Hvc _]. change (discovered f1 f2 options (Some true) c). unfold discovered. cbv zeta. by split_and!.
Qed.

(** C37: [discover_sensor] always returns or throws, and throws nothing but
    [DiscoveryError].  When it returns a configuration, the options were valid
    and libcurl was initialised; the URL was plain HTTP to the given host and
    port and the fixed path, no redirect, no proxy and no signals were allowed
    and both timers were set; the transfer succeeded with status 200 and a body of
    at most 65536 bytes that was received whole; and the configuration is what
    parsing this body yields, so its calibration is a validated one.  libcurl is
    initialised at most once per process. *)
Theorem discover_sensor_outcome f1 f2 options g : Forall wf_chunk (curl_chunks a) ->
  exists r g', discover_sensor a f1 f2 options g = (Some r, g') /\ (g <> None -> g' = g) /\
    match r with
    | Throw e => exists what, e = DiscoveryError what
    | Ok c => validate_options options = Ok tt /\ g' = Some true /\
        Forall (fun '(part, value) => curl_set_url a part value = true) (url_parts options) /\
        (exists connect_ms total_ms,
          timeout_milliseconds (connect_timeout options) "connect_timeout" = Ok connect_ms /\
          timeout_milliseconds (total_timeout options) "total_timeout" = Ok total_ms /\
          Forall (fun o => curl_setopt a o = true) (request_options connect_ms total_ms)) /\
        curl_transfer a = None /\ curl_status a = Some 200 /\
        (let xml := concat (map chunk_data (curl_chunks a)) in
         Z.of_nat (length xml) <= kMaximumResponseBytes /\
         parse_sensor_configuration f1 f2 xml = Some (Ok c)) /\
        valid_calibration (calibration c)
    end.
Proof.
  intros Hch. destruct (discover_sensor_spec f1 f2 options g Hch) as (r & g' & E & Hg & Hr).
  exists r, g'. split; [exact E|]. split; [exact Hg|]. by destruct r.
Qed.
End outcome.

(** A sensor that answers in two pieces. *)
Definition example_xml : string :=
  "<n><cfgcpf>1000000</cfgcpf><cfgcpt>2.5</cfgcpt><scfgfu>N</scfgfu><scfgtu>N-m</scfgtu></n>".

Definition example_curl : CurlAnswer := {|
  curl_global := true;
  curl_handle := true;
  curl_url := true;
  curl_set_url _ _ := true;
  curl_setopt _ := true;
  curl_chunks := [MkChunk 1 20 (take 20 (chars_of example_xml)) true;
                  MkChunk 1 69 (drop 20 (chars_of example_xml)) true];
  curl_transfer := None;
  curl_status := Some 200;
|}.

Definition nearest_mode : FenvAnswer := MkFenvAnswer true (Some ToNearest) true.

Lemma example_curl_wf : Forall wf_chunk (curl_chunks example_curl).
Proof.
  unfold example_curl. cbn [curl_chunks].
  repeat (apply Forall_cons_2 || apply Forall_nil_2);
    (split; [|split; [|split]]); vm_compute; intuition discriminate.
Qed.

Lemma discover_sensor_outcome_witness :
  exists c, discover_sensor (P := linux_x86_64) (N := libstdcxx) example_curl nearest_mode nearest_mode default_options None
    = (Some (Ok c), Some true) /\ valid_calibration (calibration c).
Proof.
  destruct (discover_sensor_outcome (P := linux_x86_64) (N := libstdcxx) example_curl nearest_mode nearest_mode default_options None)
    as (r & g' & E & _ & H); [apply example_curl_wf|].
  pose proof E as E'. vm_compute in E'. injection E' as <- <-. eexists. split; [exact E|apply H].
Defined.
