(* ===== verification/ClientState.v ===== *)
(** * The client's state and its world:
    src/src/detail/client_impl.hpp and the helpers of client_impl.cpp

    [Impl] is [Client::Impl] with its members; [World] adds what the program
    does not hold: how many steps have passed and what was observable from
    outside.  [Env] answers everything the worker thread asks and says what the
    other threads do between its steps. *)

From S2P Require Export Transport Status Protocol Sequence FaultLatch Discovery.

Definition kMalformedStormThreshold : Z := 10.

Inductive SessionResult :=
| ResStopped | ResSensorConfiguration | ResTimeout | ResSocket | ResSeriousStatus
| ResFtStall | ResFtBackward | ResMalformedStorm | ResCallback.

#[export] Instance SessionResult_eq_dec : EqDecision SessionResult.
Proof. solve_decision. Defined.

Record SessionOutcome := MkSessionOutcome {
  outcome_result : SessionResult;
  outcome_message : string;
  received_valid_record : bool;
}.
#[export] Instance SessionOutcome_eta : Eta SessionOutcome := fun o =>
  MkSessionOutcome (outcome_result o) (outcome_message o) (received_valid_record o).

Definition fault_for (result : SessionResult) : FaultCode :=
  match result with
  | ResSensorConfiguration => FaultSensorConfiguration
  | ResTimeout => FaultTimeout
  | ResSocket => FaultSocket
  | ResSeriousStatus => FaultSeriousStatus
  | ResFtStall => FaultFtStall
  | ResFtBackward => FaultFtBackward
  | ResMalformedStorm => FaultMalformedStorm
  | ResCallback => FaultCallback
  | ResStopped => FaultNone
  end.

Definition message_for (result : SessionResult) : string :=
  match result with
  | ResSensorConfiguration => "sensor configuration discovery failed"
  | ResTimeout => "no valid RDT record before timeout"
  | ResSocket => "UDP socket failure"
  | ResSeriousStatus => "serious device status"
  | ResFtStall => "FT sequence stalled"
  | ResFtBackward => "FT sequence moved backward"
  | ResMalformedStorm => "malformed packet storm"
  | ResCallback => "sample callback failed"
  | ResStopped => ""
  end.

(** [==] on [double] compares values. *)
Definition same_calibration (left right : Calibration) : bool :=
  feq (counts_per_force_unit left) (counts_per_force_unit right) &&
  feq (counts_per_torque_unit left) (counts_per_torque_unit right) &&
  bool_decide (force_unit left = force_unit right) &&
  bool_decide (torque_unit left = torque_unit right).

(** [std::chrono::seconds{1}] in clock ticks. *)
Definition rate_window : Z := period_den.

Fixpoint prune_rate_window (times : list Z) (now : Z) : list Z :=
  match times with
  | [] => []
  | front :: rest => if rate_window <? now - front then prune_rate_window rest now else times
  end.

Definition ft_progress_name (kind : FtSequenceKind) : string :=
  match kind with
  | FtFirst => "first"
  | FtForward => "forward"
  | FtStall => "stall"
  | FtBackward => "backward"
  | FtRestart => "restart"
  end.

(** How a call of the user's callback ends. *)
Inductive CallbackAnswer :=
| CallbackReturns
| CallbackThrows (what : string)
| CallbackThrowsUnknown.

(** Who sends a request. *)
Inductive Source := SrcWorker | SrcStop | SrcBias.

(** What can be seen from outside, in order. *)
Inductive Event :=
| EvConnect (ok : bool)
| EvSend (source : Source) (command : Command) (ok : bool)
| EvShutdown
| EvClose
| EvCallback (sample : Sample) (answer : CallbackAnswer).

(** [std::thread::id]; [None] below is the id that no thread has. *)
Definition thread_id : Type := positive.

Section client_state.
  Context {T : TransportOps}.

(** What other threads do between two steps of the worker, with the answers
    they get. [stop] first raises the flag and then, under the command lock,
    ends the session. *)
Inductive Action :=
| ActStopFlag
| ActStopCommand (a : os_answer)
| ActBias (a1 a2 : os_answer)
| ActHealth (now : Z).

(** [callback_] is whether the [std::function] is not empty; [worker_] is the
    thread a joinable thread object stands for. *)
Record Impl := MkImpl {
  config_ : Config;
  worker_ : option thread_id;
  active_worker_id_ : option thread_id;
  joining_ : bool;
  callback_ : bool;
  transport_ : transport;
  rdt_sequence_ : RdtSequenceTracker;
  ft_sequence_ : FtSequenceTracker;
  stopping_ : bool;
  worker_exited_ : bool;
  session_started_ : bool;
  fault_latch_ : FaultLatch;
  health_ : HealthSnapshot;
  latest_ : option Sample;
  last_delivery_at_ : Z;
  last_record_at_ : Z;
  generation_ : Z;
  delivered_generation_ : Z;
  receive_times_ : list Z;
  delivery_times_ : list Z;
  consecutive_malformed_ : Z;
}.

#[global] Instance impl_eta : Eta Impl := fun i =>
  MkImpl (config_ i) (worker_ i) (active_worker_id_ i) (joining_ i) (callback_ i) (transport_ i)
    (rdt_sequence_ i) (ft_sequence_ i) (stopping_ i) (worker_exited_ i) (session_started_ i)
    (fault_latch_ i) (health_ i) (latest_ i) (last_delivery_at_ i) (last_record_at_ i)
    (generation_ i) (delivered_generation_ i) (receive_times_ i) (delivery_times_ i)
    (consecutive_malformed_ i).

(** [Client::Impl::Impl]: the members' initialisers, then [validate] and the two
    health fields. *)
Definition impl_members (config : Config) : Impl :=
  MkImpl config None None false false transport_initial rdt_initial ft_initial false true false
    latch_initial default_health None 0 0 0 0 [] [] 0.

Definition impl_construct `{Platform} (now : nat -> Z) (config : Config) : result Impl :=
  _ ← validate_config now config;
  let i := impl_members config in
  Ok (i <| health_ := health_ i <| health_sensor_host := config_sensor_host config |>
                                 <| health_rdt_port := config_rdt_port config |> |>).

Record Env := MkEnv {
  clock : nat -> Z;
  others : nat -> list Action;
  net : nat -> os_answer;
  discover : DiscoveryOptions -> nat -> result SensorConfiguration;
  user : nat -> CallbackAnswer;
}.

Record World := MkWorld {
  im : Impl;
  tick : nat;
  log : list Event;
}.
#[global] Instance World_eta : Eta World := fun w => MkWorld (im w) (tick w) (log w).

Definition faulted_ (i : Impl) : bool := faulted (fault_latch_ i).
Definition fault_code_ (i : Impl) : FaultCode := latch_code (fault_latch_ i).

Definition record_event (e : Event) (w : World) : World := w <| log := log w ++ [e] |>.
Definition set_im (i : Impl) (w : World) : World := w <| im := i |>.

(** ** Sending a request *)

Definition send_command (a : os_answer) (source : Source) (command : Command) (w : World)
    : result unit * World :=
  let r := transport_send a (encode_request command 0) (transport_ (im w)) in
  (r, record_event (EvSend source command (is_ok r)) w).

(** ** The other threads' operations *)

(** [stop], under the command lock; it never throws. *)
Definition stop_command (a : os_answer) (w : World) : World :=
  let w := if session_started_ (im w) then
      let '(_, w) := send_command a SrcStop StopStreaming w in
      set_im (im w <| session_started_ := false |>) w
    else w in
  record_event EvShutdown (set_im (im w <| transport_ := transport_shutdown (transport_ (im w)) |>) w).

(** [bias]: the two sends may throw, then the tracker keeps its state. *)
Definition bias (a1 a2 : os_answer) (w : World) : result unit * World :=
  let i := im w in
  if stopping_ i || negb (session_started_ i) || faulted_ i
     || negb (bool_decide (state (health_ i) = Streaming))
  then (Throw (NotConnectedError "client is not streaming"), w)
  else
    match send_command a1 SrcBias SetSoftwareBias w with
    | (Throw e, w) => (Throw e, w)
    | (Ok _, w) =>
        match send_command a2 SrcBias StartRealtime w with
        | (Throw e, w) => (Throw e, w)
        | (Ok _, w) => (Ok tt, set_im (im w <| rdt_sequence_ := rdt_reset (rdt_sequence_ (im w)) |>) w)
        end
    end.

(** [health]: prunes both windows, returns the completed copy. *)
Definition health (now : Z) (i : Impl) : HealthSnapshot * Impl :=
  let receive := prune_rate_window (receive_times_ i) now in
  let delivery := prune_rate_window (delivery_times_ i) now in
  let i' := i <| receive_times_ := receive |> <| delivery_times_ := delivery |> in
  let code := fault_code_ i in
  let s := health_ i <| health_fault_code := code |> in
  let s := if bool_decide (code = FaultNone) then s else s <| state := Faulted |> in
  let s := s <| receive_rate_hz := Z.of_nat (length receive) |>
             <| delivery_rate_hz := Z.of_nat (length delivery) |> in
  let s := if last_record_at_ i =? 0 then s
           else s <| last_record_age := Some (now - last_record_at_ i) |> in
  (s, i').

Definition latest_sample (i : Impl) : option Sample := latest_ i.

(** One action; [stop]'s second part comes after its first. *)
Definition act (w : World) (a : Action) : World :=
  match a with
  | ActStopFlag => set_im (im w <| stopping_ := true |>) w
  | ActStopCommand a => if stopping_ (im w) then stop_command a w else w
  | ActBias a1 a2 => snd (bias a1 a2 w)
  | ActHealth now => set_im (snd (health now (im w))) w
  end.

(** A point where the worker holds no lock: the others run, time passes. *)
Definition interleave (env : Env) (w : World) : World :=
  fold_left act (others env (tick w)) w <| tick := S (tick w) |>.

End client_state.
Arguments Action : clear implicits.
Arguments Impl : clear implicits.
Arguments Env : clear implicits.
Arguments World : clear implicits.
Arguments interleave {T} env w : simpl never.
