(* ===== verification/ClientSession.v ===== *)
(** * One receive session: [handle_record] and [receive_session] of
    src/src/detail/client_impl.cpp

    The worker's code is a state and error monad over [World].  A critical
    section is one atomic function of the state; before each section, atomic
    read and call the worker makes, the other threads run ([interleave]). *)

From S2P Require Export ClientState.

Section client_session.
  Context {T : TransportOps} {P : Platform} (env : Env T).

(** ** The worker's monad *)

Definition W (A : Type) : Type := World T -> result A * World T.

Definition ret {A} (a : A) : W A := fun w => (Ok a, w).
Definition bind {A B} (m : W A) (k : A -> W B) : W B := fun w =>
  match m w with
  | (Ok a, w') => k a w'
  | (Throw e, w') => (Throw e, w')
  end.

#[local] Notation "'let!' x := m 'in' k" := (bind m (fun x => k))
  (at level 10, x name, m at level 100, k at level 200).
#[local] Notation "m ;; k" := (bind m (fun _ => k)) (at level 100, right associativity).

Definition lift {A} (r : result A) : W A := fun w => (r, w).

(** [try { m } catch] with the handler for every exception. *)
Definition try_catch {A} (m : W A) (handler : exn -> W A) : W A := fun w =>
  match m w with
  | (Ok a, w') => (Ok a, w')
  | (Throw e, w') => handler e w'
  end.

(** [catch (const std::exception &error)], [error.what()] passed on. *)
Definition catch_std {A} (m : W A) (handler : string -> W A) : W A :=
  try_catch m (fun e => match exn_what e with Some what => handler what | None => lift (Throw e) end).

(** A block that may return early, followed by the rest of the function. *)
Definition unless_returned {R A} (m : W (option R)) (k : W (A + R)) : W (A + R) :=
  let! early := m in
  match early with Some r => ret (inr r) | None => k end.

(** One critical section. *)
Definition locked {A} (f : Impl T -> result A * Impl T) : W A := fun w =>
  let w := interleave env w in
  let '(r, i) := f (im w) in (r, set_im i w).

Definition modify (f : Impl T -> Impl T) : W unit := locked (fun i => (Ok tt, f i)).
Definition read {A} (f : Impl T -> A) : W A := locked (fun i => (Ok (f i), i)).

Definition read_clock : W Z := fun w =>
  let w := interleave env w in (Ok (clock env (tick w)), w).

(** ** Calls of the transport *)

Definition connect : W unit := fun w =>
  let w := interleave env w in
  let '(r, t) := transport_connect (net env (tick w)) (config_sensor_host (config_ (im w)))
                   (config_rdt_port (config_ (im w))) (transport_ (im w)) in
  (r, record_event (EvConnect (is_ok r)) (set_im (im w <| transport_ := t |>) w)).

Definition buffer_size : Z := 65536.

(** The wait is between the two interleavings. *)
Definition receive (timeout : float) : W (list Z) := fun w =>
  let w1 := interleave env w in
  let w2 := interleave env w1 in
  (transport_receive (net env (tick w2)) buffer_size timeout (transport_ (im w1))
     (transport_ (im w2)), w2).

(** ** Health counters *)

Definition inc64 (z : Z) : Z := u64 (z + 1).

Definition set_health (f : HealthSnapshot -> HealthSnapshot) (i : Impl T) : Impl T :=
  i <| health_ := f (health_ i) |>.

(** ** handle_record *)

(** What the first critical section decides. *)
Record Decision_ := MkDecision {
  decided_configuration : SensorConfiguration;
  deliver : bool;
  outcome : option SessionResult;
}.

(** The switch on [rdt.kind]. *)
Definition count_rdt (rdt : SequenceObservation) (h : HealthSnapshot) : HealthSnapshot :=
  match sequence_kind rdt with
  | SeqGap => h <| lost_count := u64 (lost_count h + gap rdt) |>
  | SeqDuplicate => h <| duplicate_count := inc64 (duplicate_count h) |>
  | SeqOutOfOrder => h <| out_of_order_count := inc64 (out_of_order_count h) |>
  | SeqFirst | SeqContiguous => h
  end.

Definition rdt_delivers (kind : SequenceKind) : bool :=
  match kind with SeqDuplicate | SeqOutOfOrder => false | _ => true end.

(** [last_ft_progress] and the switch on [ft.kind]. *)
Definition count_ft (kind : FtSequenceKind) (h : HealthSnapshot) : HealthSnapshot :=
  let h := h <| last_ft_progress := ft_progress_name kind |> in
  match kind with
  | FtStall => h <| ft_stall_count := inc64 (ft_stall_count h) |>
  | FtBackward => h <| ft_backward_count := inc64 (ft_backward_count h) |>
  | FtRestart => h <| ft_restart_count := inc64 (ft_restart_count h) |>
  | FtFirst | FtForward => h
  end.

Definition count_severity (severity : StatusSeverity) (h : HealthSnapshot) : HealthSnapshot :=
  match severity with
  | SeverityWarn => h <| warning_count := inc64 (warning_count h) |>
  | SeverityError => h <| device_error_count := inc64 (device_error_count h) |>
  | SeverityOk => h
  end.

Definition ft_discontinuity (kind : FtSequenceKind) : bool :=
  bool_decide (kind = FtStall) || bool_decide (kind = FtBackward).

(** The outcome before the rate limit. *)
Definition record_outcome (config : Config) (severity : StatusSeverity) (ft : FtSequenceKind)
    : option SessionResult :=
  let outcome := if bool_decide (severity = SeverityError) then Some ResSeriousStatus else None in
  let outcome :=
    match outcome with
    | None => if bool_decide (ft = FtStall) then Some ResFtStall
              else if bool_decide (ft = FtBackward) then Some ResFtBackward else None
    | Some r => Some r
    end in
  if ft_discontinuity ft && bool_decide (recovery_policy config = Reconnect)
     && (bool_decide (outcome = Some ResFtStall) || bool_decide (outcome = Some ResFtBackward))
  then None else outcome.

(** Whether the record is delivered, before the rate limit. *)
Definition record_delivers (config : Config) (rdt : SequenceKind) (severity : StatusSeverity)
    (ft : FtSequenceKind) : bool :=
  let d := rdt_delivers rdt in
  let d := if bool_decide (severity = SeverityError)
           then deliver_samples_with_error_status config && d else d in
  if ft_discontinuity ft then false else d.

Definition rate_limited (config : Config) (last_delivery received_at : Z) : bool :=
  flt (S754_zero false) (sample_rate_limit_hz config) && negb (last_delivery =? 0) &&
  ns_lt_seconds (received_at - last_delivery)
    (fdiv binary64 (dbl 1) (sample_rate_limit_hz config)).

(** The counters and windows of one record, in the order of the code. *)
Definition count_record (record : RawRecord) (received_at : Z) (rdt : SequenceObservation)
    (ft : FtSequenceKind) (severity : StatusSeverity) (i : Impl T) : Impl T :=
  let i := set_health (fun h => h <| state := Streaming |>
             <| received_count := inc64 (received_count h) |>) i in
  let i := i <| receive_times_ := prune_rate_window (receive_times_ i ++ [received_at]) received_at |> in
  let i := set_health (fun h => h
             <| receive_rate_hz := Z.of_nat (length (receive_times_ i)) |>
             <| last_rdt_sequence := Some (rdt_sequence record) |>
             <| last_ft_sequence := Some (ft_sequence record) |>
             <| last_status := status record |>) i in
  let i := i <| last_record_at_ := received_at |> in
  set_health (fun h => count_severity severity (count_ft ft (count_rdt rdt h))) i.

(** The section under the record and data locks. *)
Definition record_section (record : RawRecord) (received_at : Z) (i : Impl T)
    : result Decision_ * Impl T :=
  let '(rdt_tracker, rdt) := rdt_observe (rdt_sequence_ i) (rdt_sequence record) in
  let '(ft_tracker, ft) := ft_observe (ft_sequence_ i) (ft_sequence record) in
  let i := i <| rdt_sequence_ := rdt_tracker |> <| ft_sequence_ := ft_tracker |> in
  let severity := classify_status (status record) in
  match sensor_configuration (health_ i) with
  | None => (Throw (LogicError "sensor configuration is unavailable while streaming"), i)
  | Some configuration =>
      let i := count_record record received_at rdt ft severity i in
      let outcome := record_outcome (config_ i) severity ft in
      let deliver := record_delivers (config_ i) (sequence_kind rdt) severity ft in
      if deliver && rate_limited (config_ i) (last_delivery_at_ i) received_at then
        (Ok (MkDecision configuration false outcome),
         set_health (fun h => h <| rate_limited_count := inc64 (rate_limited_count h) |>) i)
      else (Ok (MkDecision configuration deliver outcome), i)
  end.

Definition scale (counts : float) (raw : Z) : float := fdiv binary64 (dbl raw) counts.

Definition make_sample (record : RawRecord) (configuration : SensorConfiguration) (received_at : Z)
    : Sample :=
  let c := calibration configuration in
  {| sample_rdt_sequence := rdt_sequence record;
     sample_ft_sequence := ft_sequence record;
     sample_status := status record;
     raw_wrench := [fx record; fy record; fz record; tx record; ty record; tz record];
     force := map (scale (counts_per_force_unit c)) [fx record; fy record; fz record];
     torque := map (scale (counts_per_torque_unit c)) [tx record; ty record; tz record];
     sample_force_unit := force_unit c;
     sample_torque_unit := torque_unit c;
     configuration_revision := revision configuration;
     received_at := received_at |}.

Definition sample_finite (s : Sample) : bool :=
  forallb is_finite (force s) && forallb is_finite (torque s).

Definition record_callback_error (message : string) : W unit :=
  modify (set_health (fun h => h <| callback_error_count := inc64 (callback_error_count h) |>
                                 <| last_error := message |>)).

Definition callback_failure_outcome (config : Config) (outcome : option SessionResult)
    : option SessionResult :=
  match outcome with
  | Some r => Some r
  | None => if bool_decide (recovery_policy config = Reconnect) then None else Some ResCallback
  end.

(** The call of the copied [std::function], if it holds one. *)
Definition call_callback (sample : Sample) : W (option string) := fun w =>
  let w := interleave env w in
  if callback_ (im w) then
    let answer := user env (tick w) in
    (Ok (match answer with
         | CallbackReturns => None
         | CallbackThrows what => Some what
         | CallbackThrowsUnknown => Some "sample callback failed"%string
         end), record_event (EvCallback sample answer) w)
  else (Ok None, w).

Definition deliver_section (sample : Sample) (i : Impl T) : Impl T :=
  let at_ := received_at sample in
  let i := i <| last_delivery_at_ := at_ |> <| latest_ := Some sample |> in
  let i := set_health (fun h => h <| delivered_count := inc64 (delivered_count h) |>) i in
  let i := i <| delivery_times_ := prune_rate_window (delivery_times_ i ++ [at_]) at_ |> in
  let i := set_health (fun h => h <| delivery_rate_hz := Z.of_nat (length (delivery_times_ i)) |>) i in
  i <| delivered_generation_ := generation_ i |>.

Definition handle_record (record : RawRecord) (received_at : Z) : W (option SessionResult) :=
  let! d := locked (record_section record received_at) in
  if negb (deliver d) then ret (outcome d)
  else
    let sample := make_sample record (decided_configuration d) received_at in
    if negb (sample_finite sample) then ret (Some ResSensorConfiguration)
    else
      let! failure := call_callback sample in
      match failure with
      | Some what =>
          record_callback_error what ;;
          let! config := read config_ in
          ret (callback_failure_outcome config (outcome d))
      | None =>
          modify (deliver_section sample) ;;
          ret (outcome d)
      end.

(** ** receive_session *)

Definition configuration_for_session : W SensorConfiguration := fun w =>
  let w := interleave env w in
  let config := config_ (im w) in
  match calibration_override config with
  | Some c => (Ok (MkSensorConfiguration "" c Override 1), w)
  | None =>
      (discover env (MkDiscoveryOptions (config_sensor_host config) (config_http_port config)
         (configuration_connect_timeout config) (configuration_timeout config)) (tick w), w)
  end.

Definition apply_configuration (configuration : SensorConfiguration) (i : Impl T) : Impl T :=
  match sensor_configuration (health_ i) with
  | Some previous =>
      if same_calibration (calibration previous) (calibration configuration) then
        set_health (fun h => h <| sensor_configuration :=
          Some (configuration <| revision := revision previous |>) |>) i
      else
        set_health (fun h => h <| calibration_change_count := inc64 (calibration_change_count h) |>
          <| sensor_configuration :=
               Some (configuration <| revision := u64 (revision previous + 1) |>) |>) i
  | None =>
      set_health (fun h => h <| sensor_configuration :=
        Some (configuration <| revision := 1 |>) |>) i
  end.

Definition stopped_outcome (valid : bool) : SessionOutcome := MkSessionOutcome ResStopped "" valid.

(** The outcome of a [catch] block: [stopping_ ? Stopped : result]. *)
Definition failed_outcome (result : SessionResult) (what : string) (valid : bool)
    : W SessionOutcome :=
  let! s := read stopping_ in
  ret (MkSessionOutcome (if s then ResStopped else result) what valid).

Definition discover_block : W (option SessionOutcome) :=
  try_catch
    (let! configuration := configuration_for_session in
     modify (apply_configuration configuration) ;;
     ret None)
    (fun e => match e with
              | DiscoveryError what => let! o := failed_outcome ResSensorConfiguration what false in ret (Some o)
              | _ => lift (Throw e)
              end).

(** The command-locked part of the connect block. *)
Definition start_streaming : W (option SessionOutcome) := fun w =>
  let w := interleave env w in
  if stopping_ (im w) then (Ok (Some (stopped_outcome false)), w)
  else match send_command (net env (tick w)) SrcWorker StartRealtime w with
       | (Throw e, w) => (Throw e, w)
       | (Ok _, w) => (Ok None, set_im (im w <| session_started_ := true |>) w)
       end.

Definition connect_block : W (option SessionOutcome) :=
  catch_std (connect ;; start_streaming)
    (fun what => let! o := failed_outcome ResSocket what false in ret (Some o)).

(** [if (stopping_) return Stopped;] *)
Definition return_if_stopping (valid : bool) : W (option SessionOutcome) :=
  let! s := read stopping_ in
  ret (if s then Some (stopped_outcome valid) else None).

(** Everything before the receive loop: the first deadline, or an outcome. *)
Definition session_setup : W (Z + SessionOutcome) :=
  modify (set_health (fun h => h <| state := Connecting |>)) ;;
  unless_returned (return_if_stopping false)
  (unless_returned discover_block
  (unless_returned (return_if_stopping false)
  (unless_returned connect_block
  (modify (fun i => i <| rdt_sequence_ := rdt_reset (rdt_sequence_ i) |>
                      <| ft_sequence_ := ft_begin_session (ft_sequence_ i) |>) ;;
   let! config := read config_ in
   let! now := read_clock in
   let! deadline := lift (checked_deadline now (receive_timeout config)) in
   ret (inl deadline))))).

(** The section that counts a timeout, unless the client is stopping. *)
Definition timeout_section (valid : bool) (i : Impl T) : result SessionOutcome * Impl T :=
  if stopping_ i then (Ok (stopped_outcome valid), i)
  else (Ok (MkSessionOutcome ResTimeout "" valid),
        set_health (fun h => h <| timeout_count := inc64 (timeout_count h) |>) i).

(** The section of the [ProtocolError] handler: whether the storm is reached. *)
Definition malformed_section (i : Impl T) : result bool * Impl T :=
  let i := set_health (fun h => h <| malformed_count := inc64 (malformed_count h) |>) i in
  let i := i <| consecutive_malformed_ := inc64 (consecutive_malformed_ i) |> in
  (Ok (kMalformedStormThreshold <=? consecutive_malformed_ i), i).

(** The loop's variables: [deadline] and [received_valid_record]. *)
Definition LoopState : Type := Z * bool.

(** What the iteration does with a datagram. *)
Definition session_datagram (ls : LoopState) (bytes : list Z) : W (LoopState + SessionOutcome) :=
  let '(deadline, valid) := ls in
  let size := Z.of_nat (length bytes) in
  if size =? 0 then
    let! o := locked (timeout_section valid) in ret (inr o)
  else
    match decode_record (Some bytes) size with
    | Throw (ProtocolError _) =>
        let! storm := locked malformed_section in
        if storm : bool then ret (inr (MkSessionOutcome ResMalformedStorm "" valid))
        else ret (inl (deadline, valid))
    | Throw e => lift (Throw e)
    | Ok record =>
        let! received_at := read_clock in
        modify (fun i => i <| consecutive_malformed_ := 0 |>) ;;
        let! config := read config_ in
        let! deadline := lift (checked_deadline received_at (receive_timeout config)) in
        let! o := handle_record record received_at in
        match o with
        | Some r => ret (inr (MkSessionOutcome r "" true))
        | None => ret (inl (deadline, true))
        end
    end.

(** The body of [while (!stopping_)]. *)
Definition session_body (ls : LoopState) : W (LoopState + SessionOutcome) :=
  let '(deadline, valid) := ls in
  let! now := read_clock in
  if deadline <=? now then
    let! o := locked (timeout_section valid) in ret (inr o)
  else
    let! received := catch_std
        (let! bytes := receive (seconds_of_ns (deadline - now)) in ret (inl bytes))
        (fun what => let! o := failed_outcome ResSocket what valid in ret (inr o)) in
    match received with
    | inr o => ret (inr o)
    | inl bytes => unless_returned (return_if_stopping valid) (session_datagram ls bytes)
    end.

(** One evaluation of the condition and the body. *)
Definition session_step (ls : LoopState) : W (LoopState + SessionOutcome) :=
  unless_returned (return_if_stopping (snd ls)) (session_body ls).

(** [fuel] bounds the iterations of the loop; [None] when it runs out. *)
Fixpoint session_loop (fuel : nat) (ls : LoopState) (w : World T)
    : option (result SessionOutcome * World T) :=
  match fuel with
  | O => None
  | S n =>
      match session_step ls w with
      | (Throw e, w') => Some (Throw e, w')
      | (Ok (inr o), w') => Some (Ok o, w')
      | (Ok (inl ls'), w') => session_loop n ls' w'
      end
  end.

Definition receive_session (fuel : nat) (w : World T) : option (result SessionOutcome * World T) :=
  match session_setup w with
  | (Throw e, w') => Some (Throw e, w')
  | (Ok (inr o), w') => Some (Ok o, w')
  | (Ok (inl deadline), w') => session_loop fuel (deadline, false) w'
  end.

End client_session.
