(* ===== verification/ClientRun.v ===== *)
(** * The worker thread and the public operations:
    [run], [close_session], [set_fault], [finish_session], [start], [stop],
    [wait_for_first_sample] of src/src/detail/client_impl.cpp *)

From S2P Require Export ClientSession.

Section client_run.
  Context {T : TransportOps} {P : Platform} (env : Env T).

(** [close_session] under the command lock; a failed send is swallowed. *)
Definition close_section (a : os_answer) (w : World T) : World T :=
  let w := if session_started_ (im w) then
      let '(_, w) := send_command a SrcWorker StopStreaming w in
      set_im (im w <| session_started_ := false |>) w
    else w in
  record_event EvClose (set_im (im w <| transport_ := transport_close (transport_ (im w)) |>) w).

Definition close_session (w : World T) : World T :=
  let w := interleave env w in close_section (net env (tick w)) w.

(** [set_fault] publishes under the data lock. *)
Definition fault_section (code : FaultCode) (message : string) (i : Impl T) : Impl T :=
  let '(_, l, h) := publish true (fault_latch_ i) (health_ i) code message in
  i <| fault_latch_ := l |> <| health_ := h |>.

Definition set_fault (code : FaultCode) (message : string) (w : World T) : World T :=
  let w := interleave env w in set_im (fault_section code message (im w)) w.

Definition finish_section (i : Impl T) : Impl T :=
  let i := i <| worker_exited_ := true |> in
  if faulted_ i then i else set_health (fun h => h <| state := Stopped |>) i.

Definition finish_session (w : World T) : World T :=
  let w := close_session w in
  let w := interleave env w in set_im (finish_section (im w)) w.

(** [std::min(backoff * 2.0, reconnect_max_delay)] *)
Definition next_backoff (config : Config) (backoff : float) : float :=
  let doubled := fmul binary64 backoff (dbl 2) in
  if flt (reconnect_max_delay config) doubled then reconnect_max_delay config else doubled.

(** How one iteration of [run] goes on. *)
Inductive RunStep := RunContinue (backoff : float) | RunBreak.

Definition backoff_section (message : string) (h : HealthSnapshot) : HealthSnapshot :=
  h <| last_error := message |> <| state := Backoff |> <| reconnect_count := inc64 (reconnect_count h) |>.

(** The part of an iteration after [close_session]. *)
Definition after_session (backoff : float) (o : SessionOutcome) (w : World T)
    : result RunStep * World T :=
  let o := if String.eqb (outcome_message o) "" then o <| outcome_message := message_for (outcome_result o) |>
           else o in
  let config := config_ (im w) in
  if negb (bool_decide (outcome_result o = ResStopped))
     && bool_decide (recovery_policy config = FailStop)
  then (Ok RunBreak, set_fault (fault_for (outcome_result o)) (outcome_message o) w)
  else if bool_decide (outcome_result o = ResStopped) then (Ok RunBreak, w)
  else
    let w := interleave env w in
    if stopping_ (im w) then (Ok RunBreak, w)
    else
      let backoff := if received_valid_record o then reconnect_initial_delay config else backoff in
      let w := interleave env w in
      let w := set_im (set_health (backoff_section (outcome_message o)) (im w)) w in
      let w := interleave env w in
      match checked_deadline (clock env (tick w)) backoff with
      | Throw e => (Throw e, w)
      | Ok _ => (Ok (RunContinue (next_backoff config backoff)), interleave env w)
      end.

(** [while (!stopping_ && !faulted())]: [fuel] bounds the sessions and the
    iterations of each; [None] when it runs out. *)
Fixpoint run_loop (fuel : nat) (backoff : float) (w : World T) : option (result unit * World T) :=
  match fuel with
  | O => None
  | S n =>
      let w := interleave env w in
      if stopping_ (im w) then Some (Ok tt, w)
      else
      let w := interleave env w in
      if faulted_ (im w) then Some (Ok tt, w)
      else
      match receive_session env fuel w with
      | None => None
      | Some (Throw e, w) => Some (Throw e, w)
      | Some (Ok o, w) =>
          match after_session backoff o (close_session w) with
          | (Throw e, w) => Some (Throw e, w)
          | (Ok RunBreak, w) => Some (Ok tt, w)
          | (Ok (RunContinue backoff), w) => run_loop n backoff w
          end
      end
  end.

Definition run_failure_message (e : exn) : string :=
  match exn_what e with Some what => what | None => "unknown client failure" end.

(** The [catch] blocks around the loop, then [finish_session]. *)
Definition run (fuel : nat) (w : World T) : option (World T) :=
  match run_loop fuel (reconnect_initial_delay (config_ (im w))) w with
  | None => None
  | Some (Ok _, w) => Some (finish_session w)
  | Some (Throw e, w) =>
      let w := interleave env w in
      let w := if stopping_ (im w) then w
               else set_fault FaultSocket (run_failure_message e) w in
      Some (finish_session w)
  end.

(** ** start

    The branch of [start] that has no worker thread left to reap, under the
    lifecycle lock: [thread] is what [create_worker_thread] answers.  The code
    takes the data lock for the health members only and clears [stopping_] after
    it has released it; the two are one step here.  In between no worker runs and
    no other [start] or [stop] can hold the lifecycle lock, so only an accessor or a
    [wait_for_first_sample] that begins there can tell: it may still see the old
    stop flag with the new generation, and answer no. *)
Definition start_section (callback : bool) (thread : result thread_id) (i : Impl T)
    : result unit * Impl T :=
  let previous_stopping := stopping_ i in
  let previous_worker_exited := worker_exited_ i in
  let previous_fault := fault_code_ i in
  let previous_callback := callback_ i in
  let i := i <| callback_ := false |> in
  let previous_last_delivery := last_delivery_at_ i in
  let i := i <| last_delivery_at_ := 0 |> in
  let previous_health := health_ i in
  let previous_latest := latest_ i in
  let previous_last_record := last_record_at_ i in
  let previous_generation := generation_ i in
  let previous_delivered_generation := delivered_generation_ i in
  let previous_receive_times := receive_times_ i in
  let previous_delivery_times := delivery_times_ i in
  let previous_consecutive_malformed := consecutive_malformed_ i in
  let i := i <| fault_latch_ := latch_reset (fault_latch_ i) |> in
  let i := set_health (fun h => h <| state := Connecting |> <| health_fault_code := FaultNone |>
    <| last_error := ""%string |> <| receive_rate_hz := 0 |> <| delivery_rate_hz := 0 |>) i in
  let i := i <| latest_ := None |> <| last_record_at_ := 0 |>
             <| generation_ := inc64 (generation_ i) |> <| delivered_generation_ := 0 |>
             <| receive_times_ := [] |> <| delivery_times_ := [] |>
             <| consecutive_malformed_ := 0 |> in
  let i := i <| stopping_ := false |> <| worker_exited_ := false |> <| callback_ := callback |> in
  match thread with
  | Ok id => (Ok tt, i <| worker_ := Some id |> <| active_worker_id_ := Some id |>)
  | Throw e =>
      let i := i <| stopping_ := previous_stopping |>
                 <| worker_exited_ := previous_worker_exited |>
                 <| callback_ := previous_callback |> in
      let i := i <| last_delivery_at_ := previous_last_delivery |> in
      let i := i <| health_ := previous_health |> <| latest_ := previous_latest |>
                 <| last_record_at_ := previous_last_record |>
                 <| generation_ := previous_generation |>
                 <| delivered_generation_ := previous_delivered_generation |>
                 <| receive_times_ := previous_receive_times |>
                 <| delivery_times_ := previous_delivery_times |>
                 <| consecutive_malformed_ := previous_consecutive_malformed |> in
      let i := i <| fault_latch_ := latch_reset (fault_latch_ i) |> in
      let i := if bool_decide (previous_fault = FaultNone) then i
               else fault_section previous_fault (last_error previous_health) i in
      (Throw e, i)
  end.

(** [called_from_worker_thread], and the guards of [start] and [stop]. *)
Definition called_from_worker_thread (me : thread_id) (i : Impl T) : bool :=
  negb (worker_exited_ i) && bool_decide (active_worker_id_ i = Some me).

(** What one pass of the loop of [start] does: throw, wait for a joiner, wait
    for the exit of a faulted worker, reap an exited one, or start here. *)
Inductive StartStep :=
| StartThrow (e : exn)
| StartAwaitJoiner
| StartAwaitExit
| StartReap (id : thread_id)
| StartHere.

(** The part after the wait for [!joining_]. *)
Definition start_worker (i : Impl T) : StartStep :=
  match worker_ i with
  | Some id =>
      if negb (worker_exited_ i) then
        if negb (faulted_ i) then StartThrow (LogicError "client is already running")
        else StartAwaitExit
      else StartReap id
  | None => StartHere
  end.

Definition start_entry (me : thread_id) (i : Impl T) : StartStep :=
  if called_from_worker_thread me i then StartThrow (LogicError "client is already running")
  else if joining_ i then StartAwaitJoiner
  else start_worker i.

(** The predicate of the wait for a faulted worker's exit. *)
Definition exit_awaited (i : Impl T) : bool := worker_exited_ i || negb (faulted_ i).

(** The section that claims the join, of [start] and of [stop]. *)
Definition claim_section (i : Impl T) : Impl T := i <| joining_ := true |> <| worker_ := None |>.

(** The section after the join in [start]. *)
Definition reaped_section (i : Impl T) : Impl T :=
  i <| active_worker_id_ := None |> <| joining_ := false |>.

(** ** stop

    Raising the flag; then [stop_command] ends the session; then what is left
    to do. *)
Definition stop_flag (w : World T) : World T := set_im (im w <| stopping_ := true |>) w.

Inductive StopStep :=
| StopReturn
| StopAwaitJoiner
| StopIdle
| StopJoin (id : thread_id).

Definition stop_entry (me : thread_id) (i : Impl T) : StopStep :=
  if called_from_worker_thread me i then StopReturn
  else if joining_ i then StopAwaitJoiner
  else match worker_ i with None => StopIdle | Some id => StopJoin id end.

Definition mark_stopped (i : Impl T) : Impl T :=
  if faulted_ i then i else set_health (fun h => h <| state := Stopped |>) i.

(** [StopIdle] ends with [mark_stopped]; [StopJoin] claims the join, joins and
    then runs the section below. *)
Definition joined_section (i : Impl T) : Impl T := reaped_section (mark_stopped i).

(** ** wait_for_first_sample

    [now] is the clock on entry; the wait ends when the predicate holds or at
    the deadline, and the answer is read from the state it then finds. *)
Definition wait_begin (now : Z) (timeout : float) (i : Impl T) : result (option Z) :=
  deadline ← checked_deadline now timeout;
  Ok (if generation_ i =? 0 then None else Some (generation_ i)).

Definition wait_done (captured : Z) (i : Impl T) : bool :=
  negb (generation_ i =? captured) || (delivered_generation_ i =? captured)
  || stopping_ i || faulted_ i.

Definition wait_end (captured : Z) (i : Impl T) : bool :=
  if negb (generation_ i =? captured) then false else delivered_generation_ i =? captured.

End client_run.
