(* ===== verification/Scripted.v ===== *)
(** * A scripted world

    A transport whose operating system follows a script, and environments built
    from it: the concrete inputs on which the development evaluates the
    client.  [None] is a failing call, [Some d] a working one whose datagram,
    where one is received, is [d]. *)

From S2P Require Export ClientRun.

#[local] Open Scope Z_scope.

Record ScriptedSocket := MkScriptedSocket { open_ : bool; shut_ : bool }.

Definition scripted_error : exn := RuntimeError "scripted network error".

Definition scripted_receive (a : option (list Z)) (capacity : Z) (t t' : ScriptedSocket)
    : result (list Z) :=
  if negb (open_ t) then Throw (RuntimeError "UDP socket is not connected")
  else if shut_ t || shut_ t' then Ok []
  else match a with Some d => Ok (take (Z.to_nat capacity) d) | None => Throw scripted_error end.

#[export] Instance scripted_transport : TransportOps := {|
  transport := ScriptedSocket;
  os_answer := option (list Z);
  transport_initial := MkScriptedSocket false true;
  transport_connect a host port t :=
    match a with Some _ => (Ok tt, MkScriptedSocket true false) | None => (Throw scripted_error, t) end;
  transport_send a bytes t :=
    if negb (open_ t) then Throw (RuntimeError "UDP socket is not connected")
    else match a with Some _ => Ok tt | None => Throw scripted_error end;
  transport_receive a capacity timeout t t' := scripted_receive a capacity t t';
  transport_shutdown t := MkScriptedSocket (open_ t) true;
  transport_close t := MkScriptedSocket false true;
  is_connected := open_;
  is_shutdown := shut_;
|}.

#[export] Instance scripted_laws : TransportLaws scripted_transport.
Proof.
  split; simpl; try done.
  - intros [d|] _ _ t t'; [|done]. intros [= <-]. done.
  - intros [d|] _ _ t t' e; [done|]. by intros [= _ <-].
  - intros a _ t. by destruct (open_ t).
  - intros a cap _ t t' bytes. unfold scripted_receive. by destruct (open_ t).
  - intros a cap _ t t' bytes. unfold scripted_receive. destruct (open_ t); [|done].
    simpl. intros H [E|E]; rewrite E, ?orb_true_r in H; by injection H.
  - intros a cap _ t t' bytes Hc. unfold scripted_receive. destruct (open_ t); [|done]. simpl.
    destruct (_ || _); [intros [= <-]; simpl; lia|]. destruct a as [d|]; [|done].
    intros [= <-]. rewrite length_take. lia.
Qed.

#[export] Existing Instance linux_x86_64.

(** A record that the sensor numbers [k]. *)
Definition record_of (k : nat) : RawRecord :=
  MkRawRecord (Z.of_nat k) (Z.of_nat k) 0 1000 (-2000) int32_max int32_min 5 0.

Definition example_config : Config :=
  default_config <| calibration_override := Some example_calibration |>.

(** The world right after [start] on a constructed client. *)
Definition started (config : Config) : World scripted_transport :=
  let i := impl_members config in
  MkWorld (snd (start_section true (Ok 1%positive) i)) 0 [].

(** A millisecond per step, from one; one thread calls [stop] at [stop_at]. *)
Definition scripted_env (stop_at : nat) (data : nat -> option (list Z)) : Env scripted_transport :=
  MkEnv (fun k => 1000000 * (Z.of_nat k + 1))
    (fun k => if (k =? stop_at)%nat then [ActStopFlag; ActStopCommand (data k)] else [])
    data
    (fun _ _ => Throw (DiscoveryError "no sensor"))
    (fun _ => CallbackReturns).

(** Good records until the end. *)
Definition streaming_env : Env scripted_transport :=
  scripted_env 60 (fun k => Some (wire_record (record_of k))).

(** The state of a finished run, or the initial one. *)
Definition run_result (env : Env scripted_transport) (fuel : nat) (config : Config)
    : World scripted_transport :=
  match run env fuel (started config) with Some w => w | None => started config end.

Example streaming_run :
  let h := health_ (im (run_result streaming_env 30 example_config)) in
  (state h, received_count h, delivered_count h, lost_count h) = (Stopped, 4, 4, 30).
Proof. vm_compute. reflexivity. Qed.
