(* ===== verification/ClientSteps.v ===== *)
(** * The client as a step relation

    [session_rel] and [worker_rel] list every atomic transition the worker and
    the threads beside it make; the executable definitions of ClientSession and
    ClientRun only make such transitions ([run_steps]), so an invariant of the
    relation, proved by rule induction, holds of the whole worker. *)

From stdpp Require Export relations.
From S2P Require Export ClientRun.

#[local] Open Scope Z_scope.

Section client_steps.
  Context {T : TransportOps} {P : Platform} (env : Env T).

(** The critical sections of a session that change the state. *)
Inductive session_section : (Impl T -> Impl T) -> Prop :=
| sec_connecting : session_section (set_health (fun h => h <| state := Connecting |>))
| sec_apply c : session_section (apply_configuration c)
| sec_begin : session_section (fun i => i <| rdt_sequence_ := rdt_reset (rdt_sequence_ i) |>
                                         <| ft_sequence_ := ft_begin_session (ft_sequence_ i) |>)
| sec_timeout valid : session_section (fun i => snd (timeout_section valid i))
| sec_malformed : session_section (fun i => snd (malformed_section i))
| sec_wellformed : session_section (fun i => i <| consecutive_malformed_ := 0 |>)
| sec_record r at_ : session_section (fun i => snd (record_section r at_ i))
| sec_callback_error m : session_section (set_health (fun h =>
    h <| callback_error_count := inc64 (callback_error_count h) |> <| last_error := m |>))
| sec_deliver s : session_section (deliver_section s).

(** One transition of a session by the worker itself. *)
Inductive session_move : World T -> World T -> Prop :=
| rel_section w f : session_section f -> faulted_ (im w) = false ->
    session_move w (set_im (f (im w)) w)
| rel_connect w a r t : session_started_ (im w) = false ->
    transport_connect a (config_sensor_host (config_ (im w))) (config_rdt_port (config_ (im w)))
      (transport_ (im w)) = (r, t) ->
    session_move w (record_event (EvConnect (is_ok r)) (set_im (im w <| transport_ := t |>) w))
| rel_start_failed w a e w' : stopping_ (im w) = false -> session_started_ (im w) = false ->
    send_command a SrcWorker StartRealtime w = (Throw e, w') -> session_move w w'
| rel_start w a w' : stopping_ (im w) = false -> session_started_ (im w) = false ->
    send_command a SrcWorker StartRealtime w = (Ok tt, w') ->
    session_move w (set_im (im w' <| session_started_ := true |>) w')
| rel_callback w s answer : callback_ (im w) = true ->
    session_move w (record_event (EvCallback s answer) w).

(** One of the loop around the sessions. *)
Inductive loop_move : World T -> World T -> Prop :=
| rel_close w a : loop_move w (close_section a w)
| rel_fault w code m : code <> FaultNone ->
    loop_move w (set_im (fault_section code m (im w)) w)
| rel_backoff w m : faulted_ (im w) = false ->
    loop_move w (set_im (set_health (backoff_section m) (im w)) w).

(** One transition while a session runs, the other threads' included. *)
Inductive session_rel : World T -> World T -> Prop :=
| rel_interleave w : session_rel w (interleave env w)
| rel_move w w' : session_move w w' -> session_rel w w'.

(** One transition of the whole worker. *)
Inductive worker_rel : World T -> World T -> Prop :=
| rel_session w w' : session_rel w w' -> worker_rel w w'
| rel_loop w w' : loop_move w w' -> worker_rel w w'
| rel_finish w : worker_rel w (set_im (finish_section (im w)) w).

Abbreviation session_steps := (rtc session_rel).
Abbreviation worker_steps := (rtc worker_rel).

(** ** The latch only moves by [set_fault] *)

Lemma send_command_log a src c (w w' : World T) r : send_command a src c w = (r, w') ->
  w' = record_event (EvSend src c (is_ok r)) w.
Proof. by intros [= <- <-]. Qed.

Lemma send_command_latch a src c w : fault_latch_ (im (snd (send_command a src c w))) = fault_latch_ (im w).
Proof. reflexivity. Qed.

Lemma act_latch w a : fault_latch_ (im (act w a)) = fault_latch_ (im w).
Proof.
  destruct a; simpl; try done.
  - destruct (stopping_ _); [|done]. unfold stop_command. destruct (session_started_ _); done.
  - unfold bias. destruct (_ || _); [done|]. unfold send_command.
    destruct (is_ok _); do 2 (simpl; case_match; try done); done.
Qed.

Lemma session_section_latch f i : session_section f -> fault_latch_ (f i) = fault_latch_ i.
Proof.
  destruct 1; try done.
  - unfold apply_configuration. repeat case_match; done.
  - unfold timeout_section. case_match; done.
  - unfold record_section. repeat case_match; done.
Qed.

(** What each action and the passing of time preserve, an interleaving does. *)
Lemma interleave_inv (Inv : World T -> Prop) w :
  (forall w a, Inv w -> Inv (act w a)) ->
  (forall w k, Inv w -> Inv (w <| tick := k |>)) -> Inv w -> Inv (interleave env w).
Proof.
  intros Hact Htick Hw. unfold interleave. apply Htick. revert Hw. generalize (others env (tick w)).
  intros acts. generalize (tick w) as k. intros k. revert w.
  induction acts as [|a acts IH]; intros w Hw; simpl; auto.
Qed.

Lemma interleave_latch w : fault_latch_ (im (interleave env w)) = fault_latch_ (im w).
Proof.
  apply (interleave_inv (fun w' => fault_latch_ (im w') = fault_latch_ (im w))); [|done..].
  intros w' a <-. apply act_latch.
Qed.

Lemma session_rel_latch w w' : session_rel w w' -> fault_latch_ (im w') = fault_latch_ (im w).
Proof.
  destruct 1 as [w|w w' []]; simpl; try done.
  - apply interleave_latch.
  - by apply session_section_latch.
  - match goal with H : send_command _ _ _ _ = _ |- _ => inv H end. done.
  - match goal with H : send_command _ _ _ _ = _ |- _ => inv H end. done.
Qed.

Lemma session_steps_faulted w w' : session_steps w w' -> faulted_ (im w') = faulted_ (im w).
Proof.
  induction 1 as [|w1 w2 w3 H _ IH]; [done|]. rewrite IH. unfold faulted_.
  by rewrite (session_rel_latch _ _ H).
Qed.

(** ** What the other threads leave alone

    They write the transport, the RDT tracker (a reset), the stop flag, the
    session flag and the two windows; every other member is the worker's. *)
Definition owned (i : Impl T) : Impl T :=
  i <| transport_ := transport_initial |> <| rdt_sequence_ := rdt_initial |>
    <| stopping_ := false |> <| session_started_ := false |>
    <| receive_times_ := [] |> <| delivery_times_ := [] |>.

Lemma act_owned w a : owned (im (act w a)) = owned (im w).
Proof.
  destruct a; simpl; try done.
  - destruct (stopping_ _); [|done]. unfold stop_command. by destruct (session_started_ _).
  - unfold bias. destruct (_ || _); [done|]. unfold send_command.
    destruct (is_ok _); do 2 (simpl; case_match; try done); done.
Qed.

Lemma interleave_owned w : owned (im (interleave env w)) = owned (im w).
Proof.
  apply (interleave_inv (fun w' => owned (im w') = owned (im w))); [|done..].
  intros w' a <-. apply act_owned.
Qed.

(** A member the others leave alone. *)
Lemma interleave_keeps {A} (f : Impl T -> A) w :
  (forall i, f (owned i) = f i) -> f (im (interleave env w)) = f (im w).
Proof. intros Hf. rewrite <- Hf, interleave_owned. apply Hf. Qed.

Lemma act_tick w a : tick (act w a) = tick w.
Proof.
  destruct a; simpl; try done.
  - destruct (stopping_ _); [|done]. unfold stop_command. by destruct (session_started_ _).
  - unfold bias. destruct (_ || _); [done|]. unfold send_command.
    destruct (is_ok _); do 2 (simpl; case_match; try done); done.
Qed.

Lemma interleave_tick w : tick (interleave env w) = S (tick w).
Proof. done. Qed.

(** ** The stop flag is only raised *)

Lemma act_stopping w a : stopping_ (im w) = true -> stopping_ (im (act w a)) = true.
Proof.
  intros Hs. destruct a; simpl; try done.
  - rewrite Hs. unfold stop_command. destruct (session_started_ _); exact Hs.
  - unfold bias. rewrite Hs. exact Hs.
Qed.

Lemma interleave_stopping w : stopping_ (im w) = true -> stopping_ (im (interleave env w)) = true.
Proof.
  apply (interleave_inv (fun w => stopping_ (im w) = true)); [|done]. intros w' a. apply act_stopping.
Qed.

Lemma acts_stopping acts : forall w, stopping_ (im w) = true ->
  stopping_ (im (fold_left act acts w)) = true.
Proof.
  induction acts as [|a acts IH]; intros w Hs; simpl; [done|]. apply IH. by apply act_stopping.
Qed.

Lemma acts_stop acts : In ActStopFlag acts -> forall w,
  stopping_ (im (fold_left act acts w)) = true.
Proof.
  induction acts as [|a acts IH]; intros Hin w; [done|]. simpl.
  destruct Hin as [->|Hin]; [by apply acts_stopping|by apply IH].
Qed.

Lemma interleave_stops w : In ActStopFlag (others env (tick w)) ->
  stopping_ (im (interleave env w)) = true.
Proof. intros Hin. exact (acts_stop _ Hin w). Qed.

(** ** The others never start a session *)

Definition idle (w : World T) : Prop :=
  faulted_ (im w) = false /\ session_started_ (im w) = false.

Lemma act_started w a : session_started_ (im w) = false ->
  session_started_ (im (act w a)) = false.
Proof.
  intros Hs. destruct a; simpl; try done.
  - destruct (stopping_ _); [|done]. unfold stop_command. rewrite Hs. exact Hs.
  - unfold bias. rewrite Hs. rewrite !orb_true_r. exact Hs.
Qed.

Lemma interleave_started w : session_started_ (im w) = false ->
  session_started_ (im (interleave env w)) = false.
Proof.
  apply (interleave_inv (fun w => session_started_ (im w) = false)); [|done].
  intros w' a. apply act_started.
Qed.

Lemma session_section_started f i : session_section f -> session_started_ (f i) = session_started_ i.
Proof.
  destruct 1; try done.
  - unfold apply_configuration. repeat case_match; done.
  - unfold timeout_section. case_match; done.
  - unfold record_section. repeat case_match; done.
Qed.

(** ** The session only makes session steps *)

Lemma interleave_steps w : session_steps w (interleave env w).
Proof. apply rtc_once, rel_interleave. Qed.

Lemma interleave_faulted w : faulted_ (im (interleave env w)) = faulted_ (im w).
Proof. apply session_steps_faulted, interleave_steps. Qed.

Lemma interleave_idle w : idle w -> idle (interleave env w).
Proof. intros [Hf Hs]. split; [by rewrite interleave_faulted|by apply interleave_started]. Qed.

(** One interleaving, then one transition. *)
Lemma interleave_then w w' : session_rel (interleave env w) w' -> session_steps w w'.
Proof. intros H. eapply rtc_r; [apply interleave_steps|exact H]. Qed.

(** [m] only makes session steps while no fault is latched. *)
Definition steps {A} (m : W A) : Prop :=
  forall w, faulted_ (im w) = false -> session_steps w (snd (m w)).

Lemma steps_ret {A} (a : A) : steps (ret a).
Proof. intros w _. apply rtc_refl. Qed.

Lemma steps_lift {A} (r : result A) : steps (lift r).
Proof. intros w _. apply rtc_refl. Qed.

Lemma steps_bind {A B} (m : W A) (k : A -> W B) :
  steps m -> (forall a, steps (k a)) -> steps (bind m k).
Proof.
  intros Hm Hk w Hf. unfold bind. specialize (Hm w Hf). destruct (m w) as [[a|e] w']; [|done].
  simpl in Hm. etrans; [exact Hm|]. apply Hk. by rewrite (session_steps_faulted _ _ Hm).
Qed.

Lemma steps_try_catch {A} (m : W A) h : steps m -> (forall e, steps (h e)) -> steps (try_catch m h).
Proof.
  intros Hm Hh w Hf. unfold try_catch. specialize (Hm w Hf). destruct (m w) as [[a|e] w']; [done|].
  simpl in Hm. etrans; [exact Hm|]. apply Hh. by rewrite (session_steps_faulted _ _ Hm).
Qed.

Lemma steps_catch_std {A} (m : W A) h : steps m -> (forall e, steps (h e)) -> steps (catch_std m h).
Proof. intros Hm Hh. apply steps_try_catch; [done|]. intros e. case_match; [apply Hh|apply steps_lift]. Qed.

Lemma steps_unless_returned {R A} (m : W (option R)) (k : W (A + R)) :
  steps m -> steps k -> steps (unless_returned m k).
Proof. intros Hm Hk. apply steps_bind; [done|]. intros [r|]; [apply steps_ret|done]. Qed.

Lemma steps_locked {A} (f : Impl T -> result A * Impl T) :
  session_section (fun i => snd (f i)) -> steps (locked env f).
Proof.
  intros Hf w Hw. unfold locked. destruct (f (im (interleave env w))) as [r i] eqn:E. simpl.
  apply interleave_then. replace i with (snd (f (im (interleave env w)))) by by rewrite E.
  apply rel_move, (rel_section _ _ Hf). by rewrite interleave_faulted.
Qed.

Lemma steps_modify f : session_section f -> steps (modify env f).
Proof. intros Hf. by apply steps_locked. Qed.

Lemma set_im_same (w : World T) : set_im (im w) w = w.
Proof. by destruct w. Qed.

Lemma steps_read {A} (f : Impl T -> A) : steps (read env f).
Proof.
  intros w _.
  change (session_steps w (set_im (im (interleave env w)) (interleave env w))).
  rewrite set_im_same. apply interleave_steps.
Qed.

Lemma steps_read_clock : steps (read_clock env).
Proof. intros w _. apply interleave_steps. Qed.

Lemma steps_receive timeout : steps (receive env timeout).
Proof. intros w _. simpl. etrans; apply interleave_steps. Qed.

Lemma steps_call_callback s : steps (call_callback env s).
Proof.
  intros w _. unfold call_callback. destruct (callback_ _) eqn:E; [|apply interleave_steps].
  apply interleave_then. by apply rel_move, rel_callback.
Qed.

Lemma steps_configuration_for_session : steps (configuration_for_session env).
Proof. intros w _. unfold configuration_for_session. case_match; apply interleave_steps. Qed.

(** [m] makes session steps from an idle state, and [quiet] ones stay idle. *)
Definition starts {A} (m : W A) : Prop := forall w, idle w -> session_steps w (snd (m w)).
Definition quiet {A} (m : W A) : Prop := forall w, idle w -> session_steps w (snd (m w)) /\ idle (snd (m w)).

Lemma quiet_of_steps {A} (m : W A) : steps m ->
  (forall w, session_started_ (im w) = false -> session_started_ (im (snd (m w))) = false) -> quiet m.
Proof.
  intros Hm Hs w [Hf Hw]. pose proof (Hm w Hf) as H. split; [exact H|]. split; [|auto].
  by rewrite (session_steps_faulted _ _ H).
Qed.

Lemma quiet_ret {A} (a : A) : quiet (ret a).
Proof. apply quiet_of_steps; [apply steps_ret|done]. Qed.

Lemma quiet_lift {A} (r : result A) : quiet (lift r).
Proof. apply quiet_of_steps; [apply steps_lift|done]. Qed.

Lemma quiet_read {A} (f : Impl T -> A) : quiet (read env f).
Proof. apply quiet_of_steps; [apply steps_read|]. intros w. simpl. apply interleave_started. Qed.

Lemma quiet_modify f : session_section f -> quiet (modify env f).
Proof.
  intros Hf. apply quiet_of_steps; [by apply steps_modify|]. intros w Hw.
  change (session_started_ (f (im (interleave env w))) = false).
  rewrite (session_section_started f) by done. by apply interleave_started.
Qed.

Lemma quiet_connect : quiet (connect env).
Proof.
  intros w Hw. unfold connect. pose proof (interleave_idle w Hw) as Hi.
  destruct (transport_connect _ _ _ _) as [r t] eqn:E. split; [|exact Hi].
  apply interleave_then. eapply rel_move, rel_connect; [apply Hi|exact E].
Qed.

Lemma quiet_configuration_for_session : quiet (configuration_for_session env).
Proof.
  apply quiet_of_steps; [apply steps_configuration_for_session|]. intros w Hw.
  unfold configuration_for_session. case_match; by apply interleave_started.
Qed.

Lemma quiet_bind {A B} (m : W A) (k : A -> W B) : quiet m -> (forall a, quiet (k a)) -> quiet (bind m k).
Proof.
  intros Hm Hk w Hw. unfold bind. destruct (Hm w Hw) as [H1 H2]. destruct (m w) as [[a|e] w']; [|done].
  destruct (Hk a w' H2). split; [by etrans|done].
Qed.

Lemma quiet_try_catch {A} (m : W A) h : quiet m -> (forall e, quiet (h e)) -> quiet (try_catch m h).
Proof.
  intros Hm Hk w Hw. unfold try_catch. destruct (Hm w Hw) as [H1 H2].
  destruct (m w) as [[a|e] w']; [done|]. destruct (Hk e w' H2). split; [by etrans|done].
Qed.

Lemma starts_of_quiet {A} (m : W A) : quiet m -> starts m.
Proof. intros Hm w Hw. by apply Hm. Qed.

Lemma starts_bind {A B} (m : W A) (k : A -> W B) : quiet m -> (forall a, starts (k a)) -> starts (bind m k).
Proof.
  intros Hm Hk w Hw. unfold bind. destruct (Hm w Hw) as [H1 H2]. destruct (m w) as [[a|e] w']; [|done].
  etrans; [exact H1|by apply Hk].
Qed.

Lemma starts_bind_steps {A B} (m : W A) (k : A -> W B) : starts m -> (forall a, steps (k a)) -> starts (bind m k).
Proof.
  intros Hm Hk w Hw. unfold bind. specialize (Hm w Hw). destruct (m w) as [[a|e] w']; [|done].
  cbn [snd] in Hm. etrans; [exact Hm|]. apply Hk. rewrite (session_steps_faulted _ _ Hm). apply Hw.
Qed.

Lemma starts_catch_std {A} (m : W A) h : starts m -> (forall e, steps (h e)) -> starts (catch_std m h).
Proof.
  intros Hm Hh w Hw. unfold catch_std, try_catch. specialize (Hm w Hw).
  destruct (m w) as [[a|e] w']; [done|]. etrans; [exact Hm|]. case_match; [|done].
  apply Hh. simpl in Hm. rewrite (session_steps_faulted _ _ Hm). apply Hw.
Qed.

Lemma starts_start_streaming : starts (start_streaming env).
Proof.
  intros w [Hf Hw]. unfold start_streaming. destruct (stopping_ _) eqn:E; [apply interleave_steps|].
  pose proof (interleave_started w Hw).
  destruct (send_command _ _ _ _) as [[[]|e] w'] eqn:Es; apply interleave_then.
  - by eapply rel_move, rel_start.
  - by eapply rel_move, rel_start_failed.
Qed.

Create HintDb steps.
#[local] Hint Resolve steps_ret steps_lift steps_bind steps_try_catch steps_catch_std
  steps_unless_returned steps_locked steps_modify steps_read steps_read_clock
  steps_receive steps_call_callback steps_configuration_for_session
  quiet_ret quiet_lift quiet_read quiet_modify quiet_connect quiet_configuration_for_session
  starts_start_streaming : steps.
#[local] Hint Constructors session_section : steps.

(** Walk through the code of a session, one construct at a time. *)
Ltac walk :=
  repeat first
    [ progress intros
    | solve [auto 2 with steps nocore]
    | apply steps_bind | apply steps_unless_returned | apply steps_catch_std | apply steps_try_catch
    | apply quiet_bind | apply quiet_try_catch
    | case_match ].

Lemma steps_handle_record r at_ : steps (handle_record env r at_).
Proof. unfold handle_record, record_callback_error. walk. Qed.
#[local] Hint Resolve steps_handle_record : steps.

Lemma quiet_discover_block : quiet (discover_block env).
Proof. unfold discover_block, failed_outcome. walk. Qed.

Lemma starts_connect_block : starts (connect_block env).
Proof.
  unfold connect_block, failed_outcome. apply starts_catch_std; [|walk].
  apply starts_bind; [apply quiet_connect|]. intros _. apply starts_start_streaming.
Qed.

Lemma starts_session_setup : starts (session_setup env).
Proof.
  unfold session_setup, return_if_stopping. apply starts_bind; [walk|]. intros _.
  do 3 (apply starts_bind; [first [apply quiet_discover_block | walk]|];
    intros [o|]; [apply starts_of_quiet; walk|]).
  apply starts_bind_steps; [apply starts_connect_block|]. intros [o|]; walk.
Qed.

Lemma steps_session_datagram ls bytes : steps (session_datagram env ls bytes).
Proof. unfold session_datagram. destruct ls. walk. Qed.
#[local] Hint Resolve steps_session_datagram : steps.

Lemma steps_session_body ls : steps (session_body env ls).
Proof. unfold session_body, return_if_stopping, failed_outcome. destruct ls. walk. Qed.

Lemma steps_session_step ls : steps (session_step env ls).
Proof.
  unfold session_step, return_if_stopping. walk. apply steps_session_body.
Qed.

Lemma session_loop_steps fuel : forall ls w r w', faulted_ (im w) = false ->
  session_loop env fuel ls w = Some (r, w') -> session_steps w w'.
Proof.
  induction fuel as [|n IH]; intros ls w r w' Hf H; [done|]. simpl in H.
  pose proof (steps_session_step ls w Hf) as Hs.
  destruct (session_step env ls w) as [[[ls'|o]|e] w1]; simpl in Hs.
  - etrans; [exact Hs|]. eapply IH; [|exact H]. by rewrite (session_steps_faulted _ _ Hs).
  - by injection H as _ <-.
  - by injection H as _ <-.
Qed.

Lemma receive_session_steps fuel w r w' : idle w ->
  receive_session env fuel w = Some (r, w') -> session_steps w w'.
Proof.
  intros Hf H. unfold receive_session in H. pose proof (starts_session_setup w Hf) as Hs.
  destruct (session_setup env w) as [[[d|o]|e] w1]; simpl in Hs.
  - etrans; [exact Hs|]. eapply session_loop_steps; [|exact H].
    rewrite (session_steps_faulted _ _ Hs). apply Hf.
  - by injection H as _ <-.
  - by injection H as _ <-.
Qed.

(** ** The worker only makes worker steps *)

Lemma session_worker w w' : session_steps w w' -> worker_steps w w'.
Proof. induction 1; [done|]. eapply rtc_l; [by apply rel_session|done]. Qed.

Lemma interleave_worker w : worker_steps w (interleave env w).
Proof. apply session_worker, interleave_steps. Qed.

Lemma interleave_then_worker w w' : worker_rel (interleave env w) w' -> worker_steps w w'.
Proof. intros H. eapply rtc_r; [apply interleave_worker|exact H]. Qed.

Lemma close_session_steps w : worker_steps w (close_session env w).
Proof. apply interleave_then_worker. apply rel_loop, rel_close. Qed.

Lemma close_section_latch a (w : World T) :
  fault_latch_ (im (close_section a w)) = fault_latch_ (im w).
Proof. unfold close_section. destruct (session_started_ _); done. Qed.

Lemma close_session_faulted w : faulted_ (im (close_session env w)) = faulted_ (im w).
Proof.
  unfold close_session. unfold faulted_. rewrite close_section_latch. apply interleave_faulted.
Qed.

Lemma close_section_started a (w : World T) : session_started_ (im (close_section a w)) = false.
Proof. unfold close_section. destruct (session_started_ (im w)) eqn:E; [done|exact E]. Qed.

Lemma close_session_idle w : faulted_ (im w) = false -> idle (close_session env w).
Proof.
  intros Hf. split; [by rewrite close_session_faulted|]. apply close_section_started.
Qed.

Lemma set_fault_steps code m w : code <> FaultNone -> worker_steps w (set_fault env code m w).
Proof. intros Hc. apply interleave_then_worker. by apply rel_loop, rel_fault. Qed.

Lemma finish_session_steps w : worker_steps w (finish_session env w).
Proof.
  unfold finish_session. etrans; [apply close_session_steps|].
  apply interleave_then_worker. apply rel_finish.
Qed.

Lemma fault_for_none r : fault_for r = FaultNone <-> r = ResStopped.
Proof. destruct r; done. Qed.

Lemma after_session_steps b o w r w' : idle w -> after_session env b o w = (r, w') ->
  worker_steps w w' /\ (r <> Ok RunBreak -> idle w').
Proof.
  intros Hf. unfold after_session. cbv zeta. set (o' := if String.eqb _ _ then _ else _).
  destruct (negb _ && _) eqn:Efs.
  { intros [= <- <-]. bool_to_prop. split; [|done]. apply set_fault_steps.
    rewrite fault_for_none. by apply bool_decide_eq_false in H. }
  case_match; [intros [= <- <-]; split; [done|by intros]|].
  case_match; [intros [= <- <-]; split; [apply interleave_worker|by intros]|].
  set (w1 := interleave env (interleave env w)).
  assert (idle w1) as Hf2 by by do 2 apply interleave_idle.
  set (w2 := set_im _ w1).
  assert (worker_steps w w2) as Hs.
  { etrans; [apply interleave_worker|]. etrans; [apply interleave_worker|].
    apply rtc_once, rel_loop, rel_backoff, Hf2. }
  assert (idle w2) as Hf3 by exact Hf2.
  assert (worker_steps w (interleave env w2)) as Hs3 by (etrans; [exact Hs|apply interleave_worker]).
  case_match; intros [= <- <-]; (split; [|intros _; by repeat apply interleave_idle]); [|done].
  etrans; [exact Hs3|apply interleave_worker].
Qed.

Lemma run_loop_steps fuel : forall b w r w', idle w ->
  run_loop env fuel b w = Some (r, w') -> worker_steps w w'.
Proof.
  induction fuel as [|n IH]; intros b w r w' Hf H; [done|].
  cbn [run_loop] in H. cbv zeta in H.
  set (w1 := interleave env w) in *. set (w2 := interleave env w1) in *.
  assert (worker_steps w w1) as Hs1 by apply interleave_worker.
  assert (worker_steps w w2) as Hs2 by (etrans; [exact Hs1|apply interleave_worker]).
  assert (idle w2) as Hf2 by by do 2 apply interleave_idle.
  destruct (stopping_ (im w1)); [by injection H as _ <-|].
  destruct (faulted_ (im w2)); [by injection H as _ <-|].
  destruct (receive_session env (S n) w2) as [[[o|e] w3]|] eqn:Es; [| |done].
  - pose proof (receive_session_steps _ _ _ _ Hf2 Es) as Hs3.
    assert (idle (close_session env w3)) as Hf4.
    { apply close_session_idle. rewrite (session_steps_faulted _ _ Hs3). apply Hf2. }
    assert (worker_steps w (close_session env w3)) as Hs4.
    { etrans; [exact Hs2|]. etrans; [by apply session_worker|]. apply close_session_steps. }
    destruct (after_session env b o (close_session env w3)) as [r5 w5] eqn:Ea.
    destruct (after_session_steps _ _ _ _ _ Hf4 Ea) as [Hs5 Hf5].
    assert (worker_steps w w5) as Hs by (etrans; [exact Hs4|exact Hs5]).
    destruct r5 as [[b'|]|e]; [|by injection H as _ <-..].
    etrans; [exact Hs|]. eapply IH; [|exact H]. by apply Hf5.
  - injection H as _ <-. etrans; [exact Hs2|]. apply session_worker. by eapply receive_session_steps.
Qed.

Lemma run_steps fuel w w' : idle w -> run env fuel w = Some w' ->
  worker_steps w w'.
Proof.
  intros Hf H. unfold run in H. destruct (run_loop _ _ _ _) as [[[u|e] w1]|] eqn:E; [| |done];
    pose proof (run_loop_steps _ _ _ _ _ Hf E) as Hs; injection H as <-.
  - etrans; [exact Hs|apply finish_session_steps].
  - etrans; [exact Hs|]. etrans; [|apply finish_session_steps].
    etrans; [apply interleave_worker|]. case_match; [done|]. by apply set_fault_steps.
Qed.

(** An invariant of the relation is an invariant of the worker. *)
Lemma run_invariant (Inv : World T -> Prop) fuel w w' :
  (forall a b, worker_rel a b -> Inv a -> Inv b) ->
  idle w -> run env fuel w = Some w' -> Inv w -> Inv w'.
Proof.
  intros Hinv Hf H. pose proof (run_steps _ _ _ Hf H) as Hs. clear H Hf.
  induction Hs; eauto.
Qed.

End client_steps.
