(* ===== verification/ClientWire.v ===== *)
(** * What the client puts on the wire, over a whole worker run *)

From S2P Require Export ClientSteps Scripted.

#[local] Open Scope Z_scope.

(** ** The discipline, as an automaton over the events

    The state: a session is open; [stop] has shut the transport. *)
Definition Wire : Type := bool * bool.

Definition wire_step (s : Wire) (e : Event) : option Wire :=
  let '(open, shut) := s in
  match e with
  | EvConnect _ => if open then None else Some s
  | EvSend SrcWorker StartRealtime ok => if open || shut then None else Some (ok, shut)
  | EvSend SrcWorker StopStreaming _ | EvSend SrcStop StopStreaming _ =>
      if open then Some (false, shut) else None
  | EvSend SrcBias SetSoftwareBias _ | EvSend SrcBias StartRealtime _ =>
      if open && negb shut then Some s else None
  | EvSend _ _ _ => None
  | EvShutdown => if open then None else Some (false, true)
  | EvClose => if open then None else Some s
  | EvCallback _ _ => Some s
  end.

Fixpoint wire_run (s : Wire) (es : list Event) : option Wire :=
  match es with
  | [] => Some s
  | e :: rest => match wire_step s e with Some s' => wire_run s' rest | None => None end
  end.

Lemma wire_run_snoc es : forall s e,
  wire_run s (es ++ [e]) = match wire_run s es with Some s' => wire_step s' e | None => None end.
Proof.
  induction es as [|e0 es IH]; intros s e; simpl; [by case_match|]. case_match; [apply IH|done].
Qed.

Section client_wire.
  Context {T : TransportOps} {P : Platform} (env : Env T).

(** The log obeys the discipline and ends where the state says. *)
Definition wire_inv (w : World T) : Prop :=
  exists shut, wire_run (false, false) (log w) = Some (session_started_ (im w), shut) /\
    (shut = true -> stopping_ (im w) = true /\ session_started_ (im w) = false).

Lemma wire_inv_same (w w' : World T) : log w' = log w ->
  session_started_ (im w') = session_started_ (im w) -> stopping_ (im w') = stopping_ (im w) ->
  wire_inv w -> wire_inv w'.
Proof. unfold wire_inv. intros -> -> ->. done. Qed.

Lemma wire_inv_event e (w : World T) i :
  (forall shut, (shut = true -> stopping_ (im w) = true /\ session_started_ (im w) = false) ->
     exists shut', wire_step (session_started_ (im w), shut) e = Some (session_started_ i, shut') /\
       (shut' = true -> stopping_ i = true /\ session_started_ i = false)) ->
  wire_inv w -> wire_inv (record_event e (set_im i w)).
Proof.
  intros H (shut & Hr & Hs). destruct (H shut Hs) as (shut' & E & Hs').
  exists shut'. split; [|exact Hs']. simpl. rewrite wire_run_snoc, Hr. exact E.
Qed.

Lemma stop_command_wire a (w : World T) : stopping_ (im w) = true -> wire_inv w ->
  wire_inv (stop_command a w).
Proof.
  intros Hst Hw. unfold stop_command. destruct (session_started_ (im w)) eqn:E.
  - destruct (send_command a SrcStop StopStreaming w) as [r w1] eqn:Es.
    apply send_command_log in Es as ->.
    apply wire_inv_event; [intros; exists true; done|].
    apply (wire_inv_event _ w (im w <| session_started_ := false |>)); [|done].
    intros shut Hs. exists shut. rewrite E. simpl. rewrite E in Hs. split; [done|].
    intros Hsh. destruct (Hs Hsh). done.
  - apply wire_inv_event; [|done]. intros shut Hs. exists true. simpl. rewrite E. done.
Qed.

Lemma act_wire (w : World T) a : wire_inv w -> wire_inv (act w a).
Proof.
  intros Hw. destruct a; simpl.
  - destruct Hw as (shut & Hr & Hs). exists shut. split; [exact Hr|]. intros H. by destruct (Hs H).
  - destruct (stopping_ (im w)) eqn:E; [by apply stop_command_wire|done].
  - unfold bias. destruct (_ || _) eqn:E; [done|]. bool_to_prop.
    assert (forall c ok (w' : World T), In c [SetSoftwareBias; StartRealtime] -> im w' = im w ->
      wire_inv w' -> wire_inv (record_event (EvSend SrcBias c ok) w')) as Hsend.
    { intros c ok w' Hc Him Hi. replace w' with (set_im (im w') w') by by destruct w'.
      apply wire_inv_event; [|done]. rewrite Him. intros shut Hs. exists shut.
      destruct shut; [destruct Hs; congruence|]. rewrite H2. destruct Hc as [<-|[<-|[]]]; done. }
    destruct (send_command _ SrcBias SetSoftwareBias w) as [[?|?] w1] eqn:E1;
      apply send_command_log in E1 as ->; [|apply Hsend; simpl; auto].
    destruct (send_command _ SrcBias StartRealtime _) as [[?|?] w2] eqn:E2;
      apply send_command_log in E2 as ->; [|repeat apply Hsend; simpl; auto].
    apply (wire_inv_same (record_event (EvSend SrcBias StartRealtime true)
             (record_event (EvSend SrcBias SetSoftwareBias true) w))); [done..|].
    repeat apply Hsend; simpl; auto.
  - by apply (wire_inv_same w).
Qed.

Lemma session_section_stopping f i : session_section f -> stopping_ (f i) = stopping_ i.
Proof.
  destruct 1; try done.
  - unfold apply_configuration. repeat case_match; done.
  - unfold timeout_section. case_match; done.
  - unfold record_section. repeat case_match; done.
Qed.

Lemma session_rel_wire w w' : session_rel env w w' -> wire_inv w -> wire_inv w'.
Proof.
  destruct 1 as [w|? ? [w f Hf _|w a r t Hs _|w a e w' Hst Hs Es|w a w' Hst Hs Es|w s answer _]];
    intros Hw.
  - apply (interleave_inv env wire_inv); [exact act_wire| |done].
    intros w' k. by apply wire_inv_same.
  - apply (wire_inv_same w); [done| | |done].
    + exact (session_section_started f (im w) Hf).
    + exact (session_section_stopping f (im w) Hf).
  - apply wire_inv_event; [|done]. simpl. intros shut Hsh. exists shut. by rewrite Hs in Hsh |- *.
  - apply send_command_log in Es as ->. replace w with (set_im (im w) w) by by destruct w.
    apply wire_inv_event; [|done]. simpl. intros shut Hsh. exists shut.
    destruct shut; [destruct Hsh; congruence|]. by rewrite Hs.
  - apply send_command_log in Es as ->.
    apply (wire_inv_event _ w (im w <| session_started_ := true |>)); [|done].
    simpl. intros shut Hsh. exists shut.
    destruct shut; [destruct Hsh; congruence|]. by rewrite Hs.
  - replace w with (set_im (im w) w) by by destruct w.
    apply wire_inv_event; [|done]. simpl. intros shut Hsh. by exists shut.
Qed.

Lemma close_section_wire a w : wire_inv w -> wire_inv (close_section a w).
Proof.
  intros Hw. unfold close_section. destruct (session_started_ (im w)) eqn:E.
  - destruct (send_command a SrcWorker StopStreaming w) as [r w1] eqn:Es.
    apply send_command_log in Es as ->.
    apply wire_inv_event; [intros shut Hs; exists shut; split; [done|]; apply Hs|].
    apply (wire_inv_event _ w (im w <| session_started_ := false |>)); [|done].
    intros shut Hs. exists shut. rewrite E. simpl. rewrite E in Hs. split; [done|].
    intros Hsh. destruct (Hs Hsh). done.
  - apply wire_inv_event; [|done]. intros shut Hs. exists shut. simpl in *. rewrite E in *. done.
Qed.

Lemma worker_rel_wire w w' : worker_rel env w w' -> wire_inv w -> wire_inv w'.
Proof.
  destruct 1 as [w w' H|? ? [w a|w code m _|w m _]|w]; intros Hw.
  - by eapply session_rel_wire.
  - by apply close_section_wire.
  - apply (wire_inv_same w); try done; unfold fault_section; destruct (publish _ _ _ _ _) as [[? ?] ?]; done.
  - by apply (wire_inv_same w).
  - apply (wire_inv_same w); try done; unfold finish_section; cbv zeta; case_match; done.
Qed.

Lemma wire_shut_silent es : forall s, wire_run (false, true) es = Some s ->
  Forall (fun e => match e with EvSend _ _ _ => False | _ => True end) es.
Proof.
  induction es as [|e es IH]; intros s H; [done|]. simpl in H.
  destruct e as [ok|src c ok| | |]; simpl in H; try (constructor; [done|eapply IH; exact H]).
  destruct src, c; discriminate H.
Qed.

Lemma wire_run_app es1 es2 : forall s, wire_run s (es1 ++ es2) =
  match wire_run s es1 with Some s' => wire_run s' es2 | None => None end.
Proof. induction es1 as [|e es1 IH]; intros s; simpl; [done|]. case_match; [apply IH|done]. Qed.

Lemma run_wire fuel w w' : idle w -> log w = [] -> run env fuel w = Some w' -> wire_inv w'.
Proof.
  intros Hi Hl H. eapply (run_invariant env wire_inv); [apply worker_rel_wire|exact Hi|exact H|].
  exists false. rewrite Hl, (proj2 Hi). done.
Qed.

Lemma finish_session_closed w : session_started_ (im (finish_session env w)) = false.
Proof.
  unfold finish_session. change (session_started_ (finish_section (im (interleave env (close_session env w)))) = false).
  assert (session_started_ (im (interleave env (close_session env w))) = false) as H.
  { apply interleave_started. apply close_section_started. }
  unfold finish_section. cbv zeta. case_match; exact H.
Qed.

Lemma run_finishes fuel w w' : run env fuel w = Some w' -> exists w1, w' = finish_session env w1.
Proof.
  unfold run. destruct (run_loop _ _ _ _) as [[[?|?] ?]|]; intros [= <-]; eauto.
Qed.

(** C1: the request discipline of a whole worker run, whatever the sensor, the
    network, the callback and the other threads do: the worker asks for
    realtime streaming only outside a session and never once [stop] has shut
    the transport; a session that was accepted is ended by exactly one
    StopStreaming request, sent by the worker or by [stop], before the socket
    is shut, closed or reconnected; bias requests are sent only inside a
    session; nothing else is sent, and when the worker exits no session is
    open. *)
Theorem wire_discipline fuel w w' : idle w -> log w = [] -> run env fuel w = Some w' ->
  exists shut, wire_run (false, false) (log w') = Some (false, shut).
Proof.
  intros Hi Hl H. destruct (run_wire _ _ _ Hi Hl H) as (shut & Hr & _).
  destruct (run_finishes _ _ _ H) as [w1 ->]. rewrite finish_session_closed in Hr. by exists shut.
Qed.

(** C6: once [stop] has shut the transport, no request of any kind is sent for
    the rest of the worker's life, by the worker, by [stop] or by [bias]. *)
Theorem silent_after_stop fuel w w' before after : idle w -> log w = [] ->
  run env fuel w = Some w' -> log w' = before ++ EvShutdown :: after ->
  Forall (fun e => match e with EvSend _ _ _ => False | _ => True end) after.
Proof.
  intros Hi Hl H E. destruct (run_wire _ _ _ Hi Hl H) as (shut & Hr & _).
  rewrite E, wire_run_app in Hr. destruct (wire_run (false, false) before) as [[open sh]|]; [|done].
  simpl in Hr. destruct open; [done|]. by eapply wire_shut_silent.
Qed.

End client_wire.

Definition streaming_end : World scripted_transport := run_result streaming_env 30 example_config.

Lemma streaming_ends : run streaming_env 30 (started example_config) = Some streaming_end.
Proof. vm_compute. reflexivity. Qed.

Lemma started_idle config : idle (started config).
Proof. split; reflexivity. Qed.

Lemma wire_discipline_witness :
  exists shut, wire_run (false, false) (log streaming_end) = Some (false, shut).
Proof.
  exact (wire_discipline streaming_env 30 (started example_config) streaming_end
    (started_idle _) eq_refl streaming_ends).
Defined.

Definition before_shutdown : list Event := take 7 (log streaming_end).

Lemma silent_after_stop_witness :
  Forall (fun e => match e with EvSend _ _ _ => False | _ => True end)
    (drop 8 (log streaming_end)).
Proof.
  apply (silent_after_stop streaming_env 30 (started example_config) streaming_end before_shutdown
    _ (started_idle _) eq_refl streaming_ends).
  vm_compute. reflexivity.
Defined.
