(* ===== verification/ClientPolicy.v ===== *)
(** * Faults, recovery policies and reconnect delays over a worker run *)

From S2P Require Export ClientWire.

#[local] Open Scope Z_scope.

Section client_policy.
  Context {T : TransportOps} {P : Platform} (env : Env T).

(** ** The latch and the health snapshot agree *)

Definition latch_inv (w : World T) : Prop :=
  health_fault_code (health_ (im w)) = fault_code_ (im w) /\
  (state (health_ (im w)) = Faulted <-> faulted_ (im w) = true).

Lemma latch_inv_same (w w' : World T) : health_ (im w') = health_ (im w) ->
  fault_latch_ (im w') = fault_latch_ (im w) -> latch_inv w -> latch_inv w'.
Proof. unfold latch_inv, fault_code_, faulted_. intros -> ->. done. Qed.

Lemma latch_inv_owned (w w' : World T) : owned (im w') = owned (im w) -> latch_inv w -> latch_inv w'.
Proof.
  intros E. apply latch_inv_same; [exact (f_equal health_ E)|exact (f_equal fault_latch_ E)].
Qed.

(** The counting switches touch neither the state nor the fault code. *)
Definition fault_view (h : HealthSnapshot) : ClientState * FaultCode := (state h, health_fault_code h).

Lemma count_rdt_view rdt h : fault_view (count_rdt rdt h) = fault_view h.
Proof. unfold count_rdt. by destruct (sequence_kind rdt). Qed.

Lemma count_ft_view ft h : fault_view (count_ft ft h) = fault_view h.
Proof. by destruct ft. Qed.

Lemma count_severity_view sev h : fault_view (count_severity sev h) = fault_view h.
Proof. by destruct sev. Qed.

Lemma count_record_view r at_ rdt ft sev (i : Impl T) :
  fault_view (health_ (count_record r at_ rdt ft sev i)) =
    (Streaming, health_fault_code (health_ i)).
Proof.
  unfold count_record, set_health. cbn [health_].
  etrans; [apply count_severity_view|]. etrans; [apply count_ft_view|].
  etrans; [apply count_rdt_view|]. reflexivity.
Qed.

(** A section leaves the fault code alone and never writes [Faulted]. *)
Lemma session_section_health f (i : Impl T) : session_section f ->
  health_fault_code (health_ (f i)) = health_fault_code (health_ i) /\
  (state (health_ (f i)) = Faulted -> state (health_ i) = Faulted).
Proof.
  destruct 1; try done.
  - unfold apply_configuration. repeat case_match; done.
  - unfold timeout_section. case_match; done.
  - unfold record_section. destruct (rdt_observe _ _) as [rt rdt], (ft_observe _ _) as [ft kind].
    destruct (sensor_configuration _); [|done]. cbv zeta. set (i1 := i <| rdt_sequence_ := rt |> <| _ := _ |>).
    pose proof (count_record_view r at_ rdt kind (classify_status (status r)) i1) as Hv.
    injection Hv as Hs Hc. destruct (_ && _); simpl; by rewrite ?Hc, ?Hs.
Qed.

Lemma session_move_latch_inv (w w' : World T) : session_move w w' -> latch_inv w -> latch_inv w'.
Proof.
  destruct 1 as [w f Hf Hn|w a r t Hs _|w a e w' Hst Hs Es|w a w' Hst Hs Es|w s answer _]; intros Hw.
  - destruct Hw as [Hc Hs]. pose proof (session_section_latch f (im w) Hf) as El.
    destruct (session_section_health f (im w) Hf) as [Ec Es].
    assert (faulted_ (im (set_im (f (im w)) w)) = false) as Hn' by (unfold faulted_; simpl; by rewrite El).
    split.
    + unfold fault_code_. simpl. by rewrite Ec, El.
    + rewrite Hn'. split; [|done]. intros H. apply Hs, Es in H || apply Es, Hs in H. congruence.
  - by apply (latch_inv_same w).
  - apply send_command_log in Es as ->. by apply (latch_inv_same w).
  - apply send_command_log in Es as ->. by apply (latch_inv_same w).
  - by apply (latch_inv_same w).
Qed.

Lemma loop_move_latch_inv (w w' : World T) : loop_move w w' -> latch_inv w -> latch_inv w'.
Proof.
  destruct 1 as [w a|w code m Hc|w m Hn]; intros Hw.
  - apply (latch_inv_same w); [| |done]; unfold close_section; by destruct (session_started_ _).
  - destruct Hw as [Hc' Hs]. unfold latch_inv, fault_section, fault_code_, faulted_.
    destruct (publish true _ _ code m) as [[[] l] h] eqn:E; simpl.
    + apply publish_won in E as (_ & El & Es & Ec & _). unfold latch_code, faulted.
      rewrite El, Es, Ec. rewrite bool_decide_eq_false_2 by done. done.
    + apply publish_lost in E as (-> & -> & _). done.
  - destruct Hw as [Hc Hs]. split; [exact Hc|]. simpl. split; [done|]. intros H.
    change (faulted_ (im w) = true) in H. congruence.
Qed.

(** [finish_session] and [stop] write [Stopped] only without a fault. *)
Lemma guarded_stopped_latch_inv (w : World T) (i : Impl T) :
  health_ i = health_ (im w) -> fault_latch_ i = fault_latch_ (im w) ->
  latch_inv w -> latch_inv (set_im (mark_stopped i) w).
Proof.
  intros Eh El Hw. assert (latch_inv (set_im i w)) as Hi by by apply (latch_inv_same w).
  unfold mark_stopped. destruct (faulted_ i) eqn:E; [done|]. destruct Hi as [Hc Hs].
  split; [exact Hc|]. split; [done|]. intros H. change (faulted_ i = true) in H. congruence.
Qed.

Lemma finish_section_latch_inv (w : World T) : latch_inv w -> latch_inv (set_im (finish_section (im w)) w).
Proof. by apply (guarded_stopped_latch_inv w (im w <| worker_exited_ := true |>)). Qed.

Lemma session_rel_latch_inv w w' : session_rel env w w' -> latch_inv w -> latch_inv w'.
Proof.
  destruct 1 as [w|w w' H]; [|by apply session_move_latch_inv].
  apply latch_inv_owned, interleave_owned.
Qed.

Lemma worker_rel_latch_inv w w' : worker_rel env w w' -> latch_inv w -> latch_inv w'.
Proof.
  destruct 1 as [w w' H|w w' H|w];
    [by apply session_rel_latch_inv|by apply loop_move_latch_inv|apply finish_section_latch_inv].
Qed.

(** ** Outcomes *)

(** A session that says it was stopped found the stop flag raised. *)
Definition stopped_honest {A} (m : W (A + SessionOutcome)) : Prop := forall w,
  match m w with
  | (Ok (inr o), w') => outcome_result o = ResStopped -> stopping_ (im w') = true
  | _ => True
  end.

Definition returns_honest (m : W (option SessionOutcome)) : Prop := forall w,
  match m w with
  | (Ok (Some o), w') => outcome_result o = ResStopped -> stopping_ (im w') = true
  | _ => True
  end.

Lemma honest_bind {A B} (m : W A) (k : A -> W (B + SessionOutcome)) :
  (forall a, stopped_honest (k a)) -> stopped_honest (bind m k).
Proof. intros Hk w. unfold bind. destruct (m w) as [[a|e] w']; [apply Hk|done]. Qed.

Lemma honest_unless_returned {A} (m : W (option SessionOutcome)) (k : W (A + SessionOutcome)) :
  returns_honest m -> stopped_honest k -> stopped_honest (unless_returned m k).
Proof.
  intros Hm Hk w. unfold unless_returned, bind. specialize (Hm w).
  destruct (m w) as [[[o|]|e] w']; [exact Hm|apply Hk|done].
Qed.

Lemma honest_return_if_stopping valid : returns_honest (return_if_stopping env valid).
Proof.
  intros w. unfold return_if_stopping, bind, read, locked, ret. cbv beta iota zeta.
  destruct (stopping_ (im (interleave env w))) eqn:E; [|done]. intros _.
  exact E.
Qed.

Lemma honest_failed_outcome r what valid w : r <> ResStopped ->
  match failed_outcome env r what valid w with
  | (Ok o, w') => outcome_result o = ResStopped -> stopping_ (im w') = true
  | _ => True
  end.
Proof.
  intros Hr. unfold failed_outcome, bind, read, locked, ret. cbv beta iota zeta.
  destruct (stopping_ (im (interleave env w))) eqn:E; [|cbn; by intros ->]. intros _. exact E.
Qed.

Lemma honest_fail {A} r what valid : r <> ResStopped ->
  stopped_honest (bind (failed_outcome env r what valid) (fun o => ret (A := A + SessionOutcome) (inr o))).
Proof.
  intros Hr w. unfold bind. pose proof (honest_failed_outcome r what valid w Hr) as H.
  by destruct (failed_outcome _ _ _ _ _) as [[o|e] w'].
Qed.

Lemma honest_timeout {A} valid :
  stopped_honest (bind (locked env (timeout_section valid)) (fun o => ret (A := A + SessionOutcome) (inr o))).
Proof.
  intros w. unfold bind, locked, timeout_section.
  destruct (stopping_ (im (interleave env w))) eqn:E; [|done]. intros _. exact E.
Qed.

Lemma honest_discover_block : returns_honest (discover_block env).
Proof.
  intros w. unfold discover_block, try_catch. destruct (bind _ _ w) as [[o|e] w1] eqn:E.
  - unfold bind in E. destruct (configuration_for_session env w) as [[?|?] ?]; [|done]. by injection E as <- _.
  - destruct e; try done. unfold bind.
    pose proof (honest_failed_outcome ResSensorConfiguration what false w1) as H.
    destruct (failed_outcome _ _ _ _ _) as [[o|e] w2]; [exact (H ltac:(discriminate))|done].
Qed.

Lemma honest_catch_std (m : W (option SessionOutcome)) what_result valid : what_result <> ResStopped ->
  returns_honest m ->
  returns_honest (catch_std m (fun what =>
    bind (failed_outcome env what_result what valid) (fun o => ret (Some o)))).
Proof.
  intros Hr Hm w. unfold catch_std, try_catch. specialize (Hm w).
  destruct (m w) as [[o|e] w1]; [exact Hm|]. destruct (exn_what e) as [s|]; [|done].
  unfold bind. pose proof (honest_failed_outcome what_result s valid w1 Hr) as H.
  by destruct (failed_outcome _ _ _ _ _) as [[o|e'] w3].
Qed.

Lemma honest_connect_block : returns_honest (connect_block env).
Proof.
  apply honest_catch_std; [done|]. intros w. unfold bind.
  destruct (connect env w) as [[[]|e] w1]; [|done].
  unfold start_streaming. destruct (stopping_ (im (interleave env w1))) eqn:E; [by intros _|].
  by destruct (send_command _ _ _ _) as [[?|e] w2].
Qed.

Lemma honest_setup : stopped_honest (session_setup env).
Proof.
  unfold session_setup. apply honest_bind. intros _.
  apply honest_unless_returned; [apply honest_return_if_stopping|].
  apply honest_unless_returned; [apply honest_discover_block|].
  apply honest_unless_returned; [apply honest_return_if_stopping|].
  apply honest_unless_returned; [apply honest_connect_block|].
  repeat (apply honest_bind; intros ?). by intros w.
Qed.

Lemma record_outcome_not_stopped config sev ft : record_outcome config sev ft <> Some ResStopped.
Proof. unfold record_outcome. destruct sev, ft, (recovery_policy config); done. Qed.

Lemma record_section_outcome r at_ (i i' : Impl T) d :
  record_section r at_ i = (Ok d, i') -> outcome d <> Some ResStopped.
Proof.
  unfold record_section. destruct (rdt_observe _ _), (ft_observe _ _).
  destruct (sensor_configuration _); [|done]. cbv zeta.
  case_match; intros [= <- _]; apply record_outcome_not_stopped.
Qed.

Lemma callback_failure_not_stopped config o : o <> Some ResStopped ->
  callback_failure_outcome config o <> Some ResStopped.
Proof. unfold callback_failure_outcome. intros H. by repeat case_match. Qed.

Lemma handle_record_not_stopped r at_ w o w' :
  handle_record env r at_ w = (Ok o, w') -> o <> Some ResStopped.
Proof.
  unfold handle_record. unfold bind at 1. unfold locked.
  destruct (record_section r at_ (im (interleave env w))) as [[d|e] i] eqn:E; [|done].
  apply record_section_outcome in E. destruct (negb (deliver d)); [by intros [= <- _]|].
  cbv zeta. destruct (negb (sample_finite _)); [by intros [= <- _]|].
  unfold bind at 1. destruct (call_callback _ _ _) as [[[what|]|e] w1]; [| |done].
  - unfold bind. destruct (record_callback_error _ _ _) as [[[]|e] w2]; [|done].
    destruct (read _ _ _) as [[c|e] w3]; [|done]. intros [= <- _]. by apply callback_failure_not_stopped.
  - unfold bind. destruct (modify _ _ _) as [[[]|e] w2]; [|done]. by intros [= <- _].
Qed.

Lemma honest_datagram ls bytes : stopped_honest (session_datagram env ls bytes).
Proof.
  destruct ls as [deadline valid]. unfold session_datagram.
  cbv zeta. destruct (_ =? 0); [apply honest_timeout|].
  destruct (decode_record _ _) as [record|e].
  - do 4 (apply honest_bind; intros ?). intros w2. unfold bind.
    destruct (handle_record _ _ _ _) as [[[r|]|e] w3] eqn:Eh; [|done..].
    apply handle_record_not_stopped in Eh. simpl. intros ->. done.
  - destruct e; try (by intros ?). apply honest_bind. intros []; by intros ?.
Qed.

Lemma honest_step ls : stopped_honest (session_step env ls).
Proof.
  unfold session_step. apply honest_unless_returned; [apply honest_return_if_stopping|].
  destruct ls as [deadline valid]. unfold session_body.
  apply honest_bind. intros now. destruct (deadline <=? now); [apply honest_timeout|].
  intros w. unfold bind at 1. destruct (catch_std _ _ w) as [[[bytes|o]|e] w1] eqn:E; [| |done].
  - apply (honest_unless_returned (A := LoopState)); [apply honest_return_if_stopping|].
    apply honest_datagram.
  - unfold catch_std, try_catch in E. destruct (bind _ _ w) as [[x|e] w2] eqn:E1.
    + unfold bind in E1. destruct (receive _ _ _) as [[?|?] ?]; [|done]. injection E1 as <- _. done.
    + destruct (exn_what e) as [what|]; [|done]. cbn [ret]. unfold bind in E.
      pose proof (honest_failed_outcome ResSocket what valid w2) as H.
      destruct (failed_outcome _ _ _ _ _) as [[o'|e'] w3]; [|done]. injection E as -> ->.
      exact (H ltac:(discriminate)).
Qed.

Lemma session_loop_honest fuel : forall ls w o w',
  session_loop env fuel ls w = Some (Ok o, w') -> outcome_result o = ResStopped ->
  stopping_ (im w') = true.
Proof.
  induction fuel as [|n IH]; intros ls w o w' H; [done|]. simpl in H.
  pose proof (honest_step ls w) as Hs. destruct (session_step env ls w) as [[[ls'|o']|e] w1].
  - eauto.
  - injection H as -> ->. exact Hs.
  - done.
Qed.

Lemma receive_session_honest fuel w o w' :
  receive_session env fuel w = Some (Ok o, w') -> outcome_result o = ResStopped ->
  stopping_ (im w') = true.
Proof.
  unfold receive_session. pose proof (honest_setup w) as Hs.
  destruct (session_setup env w) as [[[d|o']|e] w1]; [|by intros [= -> ->]|done].
  apply session_loop_honest.
Qed.

(** ** The configuration never changes *)

Lemma session_section_config f (i : Impl T) : session_section f -> config_ (f i) = config_ i.
Proof.
  destruct 1; try done.
  - unfold apply_configuration. repeat case_match; done.
  - unfold timeout_section. case_match; done.
  - unfold record_section. repeat case_match; done.
Qed.

Lemma interleave_config w : config_ (im (interleave env w)) = config_ (im w).
Proof. by apply (interleave_keeps env config_). Qed.

Lemma session_steps_config w w' : rtc (session_rel env) w w' -> config_ (im w') = config_ (im w).
Proof.
  induction 1 as [|w1 w2 w3 H _ IH]; [done|]. rewrite IH. clear IH.
  destruct H as [w|? ? [w f Hf Hn|w a r t Hs _|w a e w' Hst Hs Es|w a w' Hst Hs Es|w s answer _]]; simpl; try done.
  - apply interleave_config.
  - by apply session_section_config.
  - by apply send_command_log in Es as ->.
  - by apply send_command_log in Es as ->.
Qed.

Lemma close_session_config w : config_ (im (close_session env w)) = config_ (im w).
Proof.
  rewrite <- (interleave_config w). unfold close_session, close_section.
  by destruct (session_started_ _).
Qed.

Lemma close_session_stopping w : stopping_ (im w) = true -> stopping_ (im (close_session env w)) = true.
Proof.
  intros H%(interleave_stopping env). unfold close_session, close_section.
  destruct (session_started_ _); exact H.
Qed.

(** ** How the worker ends *)

Lemma close_session_latch w : fault_latch_ (im (close_session env w)) = fault_latch_ (im w).
Proof. unfold close_session. rewrite close_section_latch. apply interleave_latch. Qed.

Lemma close_session_health w : health_ (im (close_session env w)) = health_ (im w).
Proof.
  transitivity (health_ (im (interleave env w))); [|by apply (interleave_keeps env health_)].
  unfold close_session, close_section. by destruct (session_started_ _).
Qed.

Lemma finish_session_facts w : worker_exited_ (im (finish_session env w)) = true /\
  fault_code_ (im (finish_session env w)) = fault_code_ (im w) /\
  last_error (health_ (im (finish_session env w))) = last_error (health_ (im w)) /\
  (faulted_ (im w) = true -> health_ (im (finish_session env w)) = health_ (im w)) /\
  (faulted_ (im w) = false -> state (health_ (im (finish_session env w))) = Stopped) /\
  (stopping_ (im w) = true -> stopping_ (im (finish_session env w)) = true).
Proof.
  unfold finish_session. cbv zeta. set (w1 := interleave env (close_session env w)).
  assert (fault_latch_ (im w1) = fault_latch_ (im w)) as El
    by (unfold w1; rewrite interleave_latch; apply close_session_latch).
  assert (health_ (im w1) = health_ (im w)) as Eh.
  { transitivity (health_ (im (close_session env w))); [|apply close_session_health].
    by apply (interleave_keeps env health_). }
  assert (stopping_ (im w) = true -> stopping_ (im w1) = true) as Es
    by (intros H; by apply interleave_stopping, close_session_stopping).
  clearbody w1. unfold finish_section, set_im, fault_code_. cbv zeta.
  change (faulted_ (im w1 <| worker_exited_ := true |>)) with (faulted_ (im w1)).
  replace (faulted_ (im w1)) with (faulted_ (im w)) by (unfold faulted_; by rewrite El).
  destruct (faulted_ (im w)); simpl; rewrite ?El, ?Eh; split_and!; done || auto.
Qed.

Lemma set_fault_facts code m w : faulted_ (im w) = false -> code <> FaultNone ->
  fault_code_ (im (set_fault env code m w)) = code /\
  faulted_ (im (set_fault env code m w)) = true /\
  state (health_ (im (set_fault env code m w))) = Faulted /\
  last_error (health_ (im (set_fault env code m w))) = m.
Proof.
  intros Hf Hc. unfold set_fault. cbv zeta. rewrite <- (interleave_faulted env) in Hf.
  unfold fault_section. rewrite publish_free by exact Hf.
  unfold faulted_, faulted. simpl. rewrite bool_decide_eq_false_2 by done. done.
Qed.

Definition final_message (o : SessionOutcome) : string :=
  if String.eqb (outcome_message o) "" then message_for (outcome_result o) else outcome_message o.

Lemma after_session_fail_stop b o w r w' : recovery_policy (config_ (im w)) = FailStop ->
  after_session env b o w = (r, w') ->
  r = Ok RunBreak /\
  ((outcome_result o = ResStopped /\ w' = w) \/
   (outcome_result o <> ResStopped /\
    w' = set_fault env (fault_for (outcome_result o)) (final_message o) w)).
Proof.
  intros Hp. unfold after_session, final_message. cbv zeta. rewrite Hp.
  assert (forall o' : SessionOutcome, outcome_result (if String.eqb (outcome_message o') "" then
    o' <| outcome_message := message_for (outcome_result o') |> else o') = outcome_result o') as Er
    by (intros o'; by case_match).
  assert (outcome_message (if String.eqb (outcome_message o) "" then
    o <| outcome_message := message_for (outcome_result o) |> else o) =
    if String.eqb (outcome_message o) "" then message_for (outcome_result o) else outcome_message o)
    as Em by (by case_match).
  rewrite Er, Em. destruct (bool_decide_reflect (outcome_result o = ResStopped)) as [E|E]; simpl.
  - intros [= <- <-]. auto.
  - intros [= <- <-]. auto.
Qed.

Lemma after_session_reconnect b o w r w' : recovery_policy (config_ (im w)) = Reconnect ->
  (outcome_result o = ResStopped -> stopping_ (im w) = true) ->
  after_session env b o w = (r, w') ->
  (r = Ok RunBreak -> stopping_ (im w') = true) /\ fault_latch_ (im w') = fault_latch_ (im w) /\
  config_ (im w') = config_ (im w).
Proof.
  intros Hp Hs. unfold after_session. cbv zeta. rewrite Hp. rewrite andb_false_r.
  set (o' := if String.eqb _ _ then _ else _).
  assert (outcome_result o' = outcome_result o) as -> by (unfold o'; by case_match).
  destruct (bool_decide_reflect (outcome_result o = ResStopped)) as [E|E].
  { intros [= <- <-]. auto. }
  destruct (stopping_ (im (interleave env w))) eqn:Est.
  { intros [= <- <-]. split; [done|]. split; [apply interleave_latch|apply interleave_config]. }
  set (w1 := interleave env (interleave env w)). set (w2 := set_im _ w1).
  assert (fault_latch_ (im w2) = fault_latch_ (im w)) as El
    by (change (fault_latch_ (im w1) = fault_latch_ (im w)); unfold w1; by rewrite !interleave_latch).
  assert (config_ (im w2) = config_ (im w)) as Ec
    by (change (config_ (im w1) = config_ (im w)); unfold w1; by rewrite !interleave_config).
  case_match; intros [= <- <-]; (split; [done|]); rewrite ?interleave_latch, ?interleave_config; done.
Qed.

Lemma receive_session_latch fuel w r w' : idle w -> receive_session env fuel w = Some (r, w') ->
  faulted_ (im w') = false /\ config_ (im w') = config_ (im w).
Proof.
  intros Hi H. pose proof (receive_session_steps env _ _ _ _ Hi H) as Hs.
  split; [|by apply session_steps_config]. rewrite (session_steps_faulted env _ _ Hs). apply Hi.
Qed.

Lemma run_loop_reconnect fuel : forall b w w', idle w ->
  recovery_policy (config_ (im w)) = Reconnect -> run_loop env fuel b w = Some (Ok tt, w') ->
  stopping_ (im w') = true /\ faulted_ (im w') = false.
Proof.
  induction fuel as [|n IH]; intros b w w' Hi Hp H; [done|]. cbn [run_loop] in H. cbv zeta in H.
  pose proof (interleave_idle env w Hi) as Hi1. pose proof (interleave_config w) as Hc1.
  set (w1 := interleave env w) in *. clearbody w1. rewrite <- Hc1 in Hp.
  destruct (stopping_ (im w1)) eqn:Est; [injection H as <-; split; [done|apply Hi1]|].
  pose proof (interleave_idle env w1 Hi1) as Hi2. pose proof (interleave_config w1) as Hc2.
  set (w2 := interleave env w1) in *. clearbody w2. rewrite <- Hc2 in Hp.
  rewrite (proj1 Hi2) in H.
  destruct (receive_session env (S n) w2) as [[[o|e] w3]|] eqn:Es; [|done..].
  destruct (receive_session_latch _ _ _ _ Hi2 Es) as [Hf3 Hc3].
  destruct (after_session env b o (close_session env w3)) as [r5 w5] eqn:Ea.
  assert (idle (close_session env w3)) as Hi4 by by apply close_session_idle.
  assert (recovery_policy (config_ (im (close_session env w3))) = Reconnect) as Hp4
    by by rewrite close_session_config, Hc3.
  destruct (after_session_reconnect _ _ _ _ _ Hp4 (fun E => close_session_stopping _
    (receive_session_honest _ _ _ _ Es E)) Ea) as (Hb & El & Ec).
  destruct (after_session_steps env _ _ _ _ _ Hi4 Ea) as [_ Hi5].
  destruct r5 as [[b'|]|e]; [| |done].
  - apply (IH _ _ _ (Hi5 ltac:(discriminate)) ltac:(by rewrite Ec) H).
  - injection H as <-. split; [by apply Hb|]. unfold faulted_. rewrite El. apply Hi4.
Qed.

Lemma run_loop_throw fuel : forall b w e w', idle w ->
  run_loop env fuel b w = Some (Throw e, w') -> faulted_ (im w') = false.
Proof.
  induction fuel as [|n IH]; intros b w e w' Hi H; [done|]. cbn [run_loop] in H. cbv zeta in H.
  pose proof (interleave_idle env _ (interleave_idle env _ Hi)) as Hi2.
  destruct (stopping_ _); [done|]. rewrite (proj1 Hi2) in H.
  destruct (receive_session env (S n) _) as [[[o|e3] w3]|] eqn:Es; [| |done].
  - destruct (receive_session_latch _ _ _ _ Hi2 Es) as [Hf3 _].
    destruct (after_session env b o (close_session env w3)) as [r5 w5] eqn:Ea.
    destruct (after_session_steps env _ _ _ _ _ (close_session_idle env _ Hf3) Ea) as [_ Hi5].
    destruct r5 as [[b'|]|e5]; [|done|].
    + exact (IH _ _ _ _ (Hi5 ltac:(discriminate)) H).
    + injection H as <- <-. apply Hi5. done.
  - injection H as <- <-. by apply (receive_session_latch _ _ _ _ Hi2 Es).
Qed.

(** ** Properties *)

Lemma not_faulted (w : World T) : faulted_ (im w) = false -> fault_code_ (im w) = FaultNone.
Proof.
  unfold faulted_, faulted, fault_code_, latch_code. intros H. by apply negb_false_iff, bool_decide_eq_true in H.
Qed.

Lemma finish_clean w : faulted_ (im w) = false -> let i := im (finish_session env w) in
  worker_exited_ i = true /\ fault_code_ i = FaultNone /\ state (health_ i) = Stopped.
Proof.
  intros H. cbv zeta. destruct (finish_session_facts w) as (-> & -> & _ & _ & Hs & _).
  split_and!; [done|by apply not_faulted|by apply Hs].
Qed.

Lemma finish_faulted code m w : faulted_ (im w) = false -> code <> FaultNone ->
  let i := im (finish_session env (set_fault env code m w)) in
  worker_exited_ i = true /\ fault_code_ i = code /\ state (health_ i) = Faulted /\
  last_error (health_ i) = m.
Proof.
  intros H Hc. cbv zeta. destruct (set_fault_facts code m w H Hc) as (? & Hf & ? & ?).
  destruct (finish_session_facts (set_fault env code m w)) as (-> & -> & -> & Hh & _).
  by rewrite (Hh Hf).
Qed.

(** C7: under [FailStop] the first session decides: the worker returns exactly
    when its first session does; if the session ended for any reason but [stop],
    its reason's fault code is latched, the health state is [Faulted] and the last
    error is the session's message or, where it has none, the standard text; a session ended by [stop] leaves the client stopped without
    a fault; an exception latches a socket fault unless the client is stopping. *)
Theorem fail_stop_outcome n w : idle w -> recovery_policy (config_ (im w)) = FailStop ->
  stopping_ (im (interleave env w)) = false ->
  match receive_session env (S n) (interleave env (interleave env w)) with
  | None => run env (S n) w = None
  | Some (r, w3) => exists w', run env (S n) w = Some w' /\ worker_exited_ (im w') = true /\
    match r with
    | Ok o =>
        if bool_decide (outcome_result o = ResStopped)
        then fault_code_ (im w') = FaultNone /\ state (health_ (im w')) = Stopped
        else fault_code_ (im w') = fault_for (outcome_result o) /\
             state (health_ (im w')) = Faulted /\ last_error (health_ (im w')) = final_message o
    | Throw e =>
        if stopping_ (im (interleave env w3))
        then fault_code_ (im w') = FaultNone /\ state (health_ (im w')) = Stopped
        else fault_code_ (im w') = FaultSocket /\ state (health_ (im w')) = Faulted /\
             last_error (health_ (im w')) = run_failure_message e
    end
  end.
Proof.
  intros Hi Hp Hst. pose proof (interleave_idle env _ (interleave_idle env _ Hi)) as Hi2.
  unfold run. cbn [run_loop]. cbv zeta. rewrite Hst, (proj1 Hi2).
  destruct (receive_session env (S n) _) as [[r3 w3]|] eqn:Es; [|done].
  destruct (receive_session_latch _ _ _ _ Hi2 Es) as [Hf3 Hc3]. rewrite !interleave_config in Hc3.
  destruct r3 as [o|e].
  - assert (faulted_ (im (close_session env w3)) = false) as Hf4 by by apply close_session_idle.
    destruct (after_session env _ o (close_session env w3)) as [r5 w5] eqn:Ea.
    apply after_session_fail_stop in Ea as [-> Hw5]; [|by rewrite close_session_config, Hc3].
    eexists. split; [done|]. destruct Hw5 as [[Hr ->]|[Hr ->]].
    + rewrite bool_decide_eq_true_2 by done. by apply finish_clean.
    + rewrite bool_decide_eq_false_2 by done. apply finish_faulted; [done|]. by rewrite fault_for_none.
  - eexists. split; [done|]. rewrite <- (interleave_faulted env) in Hf3.
    destruct (stopping_ (im (interleave env w3))); [by apply finish_clean|by apply finish_faulted].
Qed.

(** Under [Reconnect] no session outcome is ever latched: the worker's loop
    ends normally only because [stop] was requested, and then the client is
    stopped without a fault; otherwise an exception left the loop, and it is
    latched as a socket fault with its message unless the client is stopping. *)
Theorem reconnect_outcome fuel w w' : idle w -> recovery_policy (config_ (im w)) = Reconnect ->
  run env fuel w = Some w' ->
  worker_exited_ (im w') = true /\
  ((stopping_ (im w') = true /\ fault_code_ (im w') = FaultNone /\ state (health_ (im w')) = Stopped) \/
   (exists e w1, run_loop env fuel (reconnect_initial_delay (config_ (im w))) w = Some (Throw e, w1) /\
      fault_code_ (im w') = FaultSocket /\ state (health_ (im w')) = Faulted /\
      last_error (health_ (im w')) = run_failure_message e)).
Proof.
  intros Hi Hp H. unfold run in H.
  destruct (run_loop env fuel _ w) as [[[[]|e] w1]|] eqn:E; [| |done]; apply (inj Some) in H; subst w'.
  - destruct (run_loop_reconnect _ _ _ _ Hi Hp E) as [Hs Hf].
    destruct (finish_clean _ Hf) as (? & ? & ?). split; [done|]. left. split; [|done].
    by apply (finish_session_facts w1).
  - pose proof (run_loop_throw _ _ _ _ _ Hi E) as Hf. rewrite <- (interleave_faulted env) in Hf.
    cbv zeta. destruct (stopping_ (im (interleave env w1))) eqn:Est; cbv iota.
    + destruct (finish_clean _ Hf) as (? & ? & ?). split; [done|]. left. split; [|done].
      by apply (finish_session_facts (interleave env w1)).
    + destruct (finish_faulted FaultSocket (run_failure_message e) _ Hf ltac:(done)) as (? & ? & ? & ?).
      split; [done|]. right. by exists e, w1.
Qed.

End client_policy.

(** ** Witnesses *)

Definition fail_stop_config : Config := example_config <| recovery_policy := FailStop |>.

(** The network fails from step 30 on, and nobody stops the client. *)
Definition failing_env : Env scripted_transport :=
  scripted_env 1000 (fun k => if (k <? 30)%nat then Some (wire_record (record_of k)) else None).

Lemma started_latch config : latch_inv (started config).
Proof. split; reflexivity || (split; discriminate). Qed.

Lemma fail_stop_outcome_witness : exists w',
  run failing_env 30 (started fail_stop_config) = Some w' /\ worker_exited_ (im w') = true /\
  fault_code_ (im w') = FaultSocket /\ state (health_ (im w')) = Faulted.
Proof.
  assert (exists m b w3, receive_session failing_env 30 (interleave failing_env
    (interleave failing_env (started fail_stop_config))) = Some (Ok (MkSessionOutcome ResSocket m b), w3))
    as (m & b & w3 & E) by (do 3 eexists; vm_compute; reflexivity).
  pose proof (fail_stop_outcome failing_env 29 (started fail_stop_config) (started_idle _) eq_refl eq_refl) as H.
  rewrite E in H. destruct H as (w' & Hr & He & H1 & H2 & _). exists w'.
  split; [exact Hr|]. split; [exact He|]. split; [exact H1|exact H2].
Defined.

Lemma reconnect_outcome_witness : worker_exited_ (im streaming_end) = true.
Proof.
  destruct (reconnect_outcome streaming_env 30 (started example_config) _
    (started_idle _) eq_refl streaming_ends) as [Hx _]. exact Hx.
Defined.
