(* ===== verification/ClientLiveness.v ===== *)
(** * Termination: sessions end, and the worker exits after a stop request *)

From S2P Require Export ClientPolicy.

#[local] Open Scope Z_scope.

Create HintDb takes.

Section client_liveness.
  Context {T : TransportOps} {P : Platform} (env : Env T).

(** ** Time passes *)

Lemma session_rel_tick w w' : session_rel env w w' -> (tick w <= tick w')%nat.
Proof.
  destruct 1 as [w|? ? [w f Hf Hn|w a r t Hs _|w a e w' Hst Hs Es|w a w' Hst Hs Es|w s answer _]];
    try (apply send_command_log in Es as ->); simpl; lia.
Qed.

Lemma session_steps_tick w w' : rtc (session_rel env) w w' -> (tick w <= tick w')%nat.
Proof. induction 1 as [|w1 w2 w3 H _ IH]; [lia|]. apply session_rel_tick in H. lia. Qed.

(** [m] takes at most [k] steps of the worker. *)
Definition takes {A} (k : nat) (m : W A) : Prop := forall w, (tick (snd (m w)) <= k + tick w)%nat.

Lemma takes_weaken {A} j k (m : W A) : takes j m -> (j <= k)%nat -> takes k m.
Proof. intros H Hjk w. specialize (H w). lia. Qed.

Lemma takes_ret {A} k (a : A) : takes k (ret a).
Proof. intros w. simpl. lia. Qed.

Lemma takes_lift {A} k (r : result A) : takes k (lift r).
Proof. intros w. simpl. lia. Qed.

Lemma takes_bind {A B} j k (m : W A) (f : A -> W B) :
  takes j m -> (forall a, takes k (f a)) -> takes (j + k) (bind m f).
Proof.
  intros Hm Hf w. unfold bind. specialize (Hm w). destruct (m w) as [[a|e] w']; cbn [snd] in *; [|lia].
  specialize (Hf a w'). lia.
Qed.

Lemma takes_try_catch {A} j k (m : W A) h :
  takes j m -> (forall e, takes k (h e)) -> takes (j + k) (try_catch m h).
Proof.
  intros Hm Hh w. unfold try_catch. specialize (Hm w). destruct (m w) as [[a|e] w']; cbn [snd] in *; [lia|].
  specialize (Hh e w'). lia.
Qed.

Lemma takes_catch_std {A} j k (m : W A) h :
  takes j m -> (forall e, takes k (h e)) -> takes (j + k) (catch_std m h).
Proof.
  intros Hm Hh. apply takes_try_catch; [done|]. intros e. case_match; [apply Hh|].
  apply takes_lift.
Qed.

Lemma takes_unless_returned {R A} j k (m : W (option R)) (f : W (A + R)) :
  takes j m -> takes k f -> takes (j + k) (unless_returned m f).
Proof.
  intros Hm Hf. apply takes_bind; [done|]. intros [r|]; [|done].
  apply takes_ret.
Qed.

Lemma takes_locked {A} (f : Impl T -> result A * Impl T) : takes 1 (locked env f).
Proof. intros w. unfold locked. destruct (f _) as [r i]. simpl. lia. Qed.

Lemma takes_modify f : takes 1 (modify env f).
Proof. apply takes_locked. Qed.

Lemma takes_read {A} (f : Impl T -> A) : takes 1 (read env f).
Proof. apply takes_locked. Qed.

Lemma takes_read_clock : takes 1 (read_clock env).
Proof. intros w. simpl. lia. Qed.

Lemma takes_connect : takes 1 (connect env).
Proof. intros w. unfold connect. destruct (transport_connect _ _ _ _). simpl. lia. Qed.

Lemma takes_start_streaming : takes 1 (start_streaming env).
Proof.
  intros w. unfold start_streaming. destruct (stopping_ _); [simpl; lia|].
  destruct (send_command _ _ _ _) as [[u|e] w'] eqn:E; apply send_command_log in E as ->; simpl; lia.
Qed.

Lemma takes_receive timeout : takes 2 (receive env timeout).
Proof. intros w. simpl. lia. Qed.

Lemma takes_call_callback s : takes 1 (call_callback env s).
Proof. intros w. unfold call_callback. destruct (callback_ _); simpl; lia. Qed.

Lemma takes_configuration_for_session : takes 1 (configuration_for_session env).
Proof. intros w. unfold configuration_for_session. case_match; simpl; lia. Qed.

#[local] Hint Resolve takes_locked takes_modify takes_read takes_read_clock takes_connect
  takes_start_streaming takes_receive takes_call_callback takes_configuration_for_session : takes.

(** Bounds a block of one-step parts. *)
Ltac takes := repeat first
  [ apply takes_ret | apply takes_lift
  | eapply (takes_bind 1); [solve [eauto with takes]|intros ?]
  | eapply (takes_bind 0); [apply takes_lift|intros ?]
  | case_match ].

Lemma takes_failed_outcome r what v : takes 1 (failed_outcome env r what v).
Proof. unfold failed_outcome. takes. Qed.

Lemma takes_return_if_stopping v : takes 1 (return_if_stopping env v).
Proof. unfold return_if_stopping. takes. Qed.

#[local] Hint Resolve takes_failed_outcome takes_return_if_stopping : takes.

Lemma takes_handle_record r at_ : takes 4 (handle_record env r at_).
Proof. unfold handle_record, record_callback_error. cbv zeta. takes. Qed.

Lemma takes_session_datagram ls bytes : takes 7 (session_datagram env ls bytes).
Proof.
  unfold session_datagram. destruct ls as [d v]. cbv zeta. takes.
  apply (takes_bind 4 0); [apply takes_handle_record|]. intros o. takes.
Qed.

Lemma takes_session_body ls : takes 12 (session_body env ls).
Proof.
  unfold session_body. destruct ls as [d v]. apply (takes_bind 1 11); [auto with takes|]. intros now.
  case_match; [takes|]. apply (takes_bind 3 8).
  - apply (takes_catch_std 2 1); [|intros what; takes].
    apply (takes_bind 2 0); [auto with takes|]. intros bytes. takes.
  - intros [bytes|o]; [|takes]. apply (takes_unless_returned 1 7); [auto with takes|].
    apply takes_session_datagram.
Qed.

Lemma takes_session_step ls : takes 13 (session_step env ls).
Proof. apply (takes_unless_returned 1 12); [auto with takes|]. apply takes_session_body. Qed.

Lemma takes_discover_block : takes 3 (discover_block env).
Proof. apply (takes_try_catch 2 1); [takes|]. intros e. takes. Qed.

Lemma takes_connect_block : takes 3 (connect_block env).
Proof.
  apply (takes_catch_std 2 1); [|intros e; takes]. apply (takes_bind 1 1); auto with takes.
Qed.

Lemma takes_session_setup : takes 12 (session_setup env).
Proof.
  apply (takes_bind 1 11); [auto with takes|]. intros _.
  apply (takes_unless_returned 1 10); [auto with takes|].
  apply (takes_unless_returned 3 7); [apply takes_discover_block|].
  apply (takes_unless_returned 1 6); [auto with takes|].
  apply (takes_unless_returned 3 3); [apply takes_connect_block|]. takes.
Qed.

(** A thread calls [stop] at step [N]. *)
Variable N : nat.
Hypothesis stop_requested : In ActStopFlag (others env N).

Definition late (w : World T) : Prop := (N < tick w)%nat -> stopping_ (im w) = true.

Lemma interleave_late w : late w -> late (interleave env w).
Proof.
  intros Hl H. rewrite interleave_tick in H.
  destruct (Nat.eq_dec (tick w) N) as [E|E].
  - apply interleave_stops. by rewrite E.
  - apply interleave_stopping, Hl. lia.
Qed.

Lemma late_same (w w' : World T) : tick w' = tick w -> stopping_ (im w') = stopping_ (im w) ->
  late w -> late w'.
Proof. unfold late. by intros -> ->. Qed.

Lemma session_rel_late w w' : session_rel env w w' -> late w -> late w'.
Proof.
  destruct 1 as [w|? ? [w f Hf Hn|w a r t Hs _|w a e w' Hst Hs Es|w a w' Hst Hs Es|w s answer _]];
    try (apply send_command_log in Es as ->).
  - apply interleave_late.
  - apply late_same; [done|]. exact (session_section_stopping f (im w) Hf).
  - by apply late_same.
  - by apply late_same.
  - by apply late_same.
  - by apply late_same.
Qed.

Lemma worker_rel_late w w' : worker_rel env w w' -> late w -> late w'.
Proof.
  destruct 1 as [w w' H|? ? [w a|w code m _|w m _]|w].
  - by apply session_rel_late.
  - apply late_same; unfold close_section; by destruct (session_started_ _).
  - apply late_same; unfold fault_section; by destruct (publish _ _ _ _ _) as [[? ?] ?].
  - by apply late_same.
  - apply late_same; [done|]. unfold finish_section. cbv zeta. simpl. by case_match.
Qed.

Lemma worker_steps_late w w' : rtc (worker_rel env) w w' -> late w -> late w'.
Proof. induction 1; eauto using worker_rel_late. Qed.

Lemma session_steps_late w w' : rtc (session_rel env) w w' -> late w -> late w'.
Proof. intros H. apply worker_steps_late. by apply session_worker. Qed.

(** ** The loop condition *)

Lemma session_step_stops ls w : stopping_ (im (interleave env w)) = true ->
  session_step env ls w = (Ok (inr (stopped_outcome (snd ls))), interleave env w).
Proof.
  intros Hs. unfold session_step, unless_returned, return_if_stopping, bind, read, locked, ret.
  cbv beta iota zeta. by rewrite Hs, set_im_same.
Qed.

Lemma session_step_goes ls w : stopping_ (im (interleave env w)) = false ->
  session_step env ls w = session_body env ls (interleave env w).
Proof.
  intros Hs. unfold session_step, unless_returned, return_if_stopping, bind, read, locked, ret.
  cbv beta iota zeta. rewrite Hs, set_im_same. done.
Qed.

(** ** Sessions and the worker end

    Each lemma also bounds the step at which the part ends, counted from the
    stop request: a loop that has not ended is still before step [N] when its
    condition is evaluated. *)

Lemma late_goes w : late w -> stopping_ (im (interleave env w)) = false -> (tick w < N)%nat.
Proof.
  intros Hl Hs. destruct (Nat.lt_ge_cases (tick w) N); [done|].
  rewrite (interleave_late w Hl) in Hs; [done|]. rewrite interleave_tick. lia.
Qed.

Lemma session_loop_ends fuel : forall ls w, faulted_ (im w) = false -> late w ->
  (N + 2 <= fuel + tick w)%nat -> (1 <= fuel)%nat -> (tick w <= N + 13)%nat ->
  exists r w', session_loop env fuel ls w = Some (r, w') /\ (tick w' <= N + 14)%nat.
Proof.
  induction fuel as [|n IH]; intros ls w Hf Hl Hfuel Hn Hb; [lia|]. cbn [session_loop].
  destruct (stopping_ (im (interleave env w))) eqn:Est.
  { rewrite session_step_stops by done. do 2 eexists. split; [done|]. rewrite interleave_tick. lia. }
  pose proof (late_goes w Hl Est) as Ht. pose proof (takes_session_step ls w) as Hk.
  rewrite session_step_goes in Hk |- * by done.
  assert (faulted_ (im (interleave env w)) = false) as Hf1 by by rewrite interleave_faulted.
  pose proof (steps_session_body env ls _ Hf1) as Hs.
  destruct (session_body env ls (interleave env w)) as [[[ls'|o]|e] w1]; cbn [snd] in Hs, Hk;
    [|do 2 eexists; (split; [done|lia])..].
  pose proof (session_steps_tick _ _ Hs) as Htick. rewrite interleave_tick in Htick.
  apply IH; [by rewrite (session_steps_faulted env _ _ Hs)| |lia..].
  eapply session_steps_late; [exact Hs|]. by apply interleave_late.
Qed.

Lemma receive_session_ends fuel w : idle w -> late w -> (N + 2 <= fuel + tick w)%nat -> (1 <= fuel)%nat ->
  (tick w <= N + 1)%nat ->
  exists r w', receive_session env fuel w = Some (r, w') /\ (tick w <= tick w' <= N + 14)%nat.
Proof.
  intros Hi Hl Hfuel Hn Hb. unfold receive_session. pose proof (starts_session_setup env w Hi) as Hs.
  pose proof (session_steps_tick _ _ Hs). pose proof (takes_session_setup w) as Hk.
  destruct (session_setup env w) as [[[d|o]|e] w1]; cbn [snd] in *;
    [|do 2 eexists; (split; [done|lia])..].
  assert (faulted_ (im w1) = false) as Hf1
    by (rewrite (session_steps_faulted env _ _ Hs); apply Hi).
  destruct (session_loop_ends fuel (d, false) w1 Hf1) as (r & w' & E & Hend); [|lia..|].
  - by eapply session_steps_late.
  - exists r, w'. split; [done|]. pose proof (session_loop_steps env _ _ _ _ _ Hf1 E) as Hs2.
    pose proof (session_steps_tick _ _ Hs2). lia.
Qed.

Lemma close_session_tick w : tick (close_session env w) = S (tick w).
Proof. unfold close_session, close_section. by destruct (session_started_ _). Qed.

Lemma set_fault_tick code message w : tick (set_fault env code message w) = S (tick w).
Proof. done. Qed.

Lemma after_session_tick b o w r w' : after_session env b o w = (r, w') ->
  (tick w <= tick w' <= tick w + 4)%nat.
Proof.
  unfold after_session. cbv zeta.
  repeat case_match; intros [= <- <-]; try lia; unfold set_fault, set_im, set_health;
    cbv zeta; cbn [tick set_field]; rewrite ?interleave_tick; simpl; lia.
Qed.

Lemma run_loop_ends fuel : forall b w, idle w -> late w -> (N + 2 <= fuel + tick w)%nat ->
  (1 <= fuel)%nat -> (tick w <= N + 19)%nat ->
  exists r w', run_loop env fuel b w = Some (r, w') /\ (tick w' <= N + 20)%nat /\ late w'.
Proof.
  induction fuel as [|n IH]; intros b w Hi Hl Hfuel Hn Hb; [lia|]. cbn [run_loop]. cbv zeta.
  pose proof (interleave_idle env w Hi) as Hi1. pose proof (interleave_late w Hl) as Hl1.
  pose proof (interleave_tick env w) as Ht1. pose proof (late_goes w Hl) as Ht.
  set (w1 := interleave env w) in *. clearbody w1.
  destruct (stopping_ (im w1)) eqn:Est; [do 2 eexists; split; [done|]; split; [lia|done]|].
  specialize (Ht eq_refl).
  pose proof (interleave_idle env w1 Hi1) as Hi2. pose proof (interleave_late w1 Hl1) as Hl2.
  pose proof (interleave_tick env w1) as Ht2. set (w2 := interleave env w1) in *. clearbody w2.
  rewrite (proj1 Hi2).
  destruct (receive_session_ends (S n) w2 Hi2 Hl2 ltac:(lia) ltac:(lia) ltac:(lia)) as (r & w3 & Es & Ht3).
  rewrite Es.
  assert (late w3) as Hl3 by (eapply session_steps_late; [by eapply receive_session_steps|done]).
  destruct r as [o|e]; [|do 2 eexists; split; [done|]; split; [lia|done]].
  destruct (receive_session_latch env _ _ _ _ Hi2 Es) as [Hf3 _].
  assert (late (close_session env w3)) as Hl4
    by (eapply worker_steps_late; [apply close_session_steps|done]).
  pose proof (close_session_tick w3) as Ht4.
  destruct (after_session env b o (close_session env w3)) as [r5 w5] eqn:Ea.
  destruct (after_session_steps env _ _ _ _ _ (close_session_idle env _ Hf3) Ea) as [Hs5 Hi5].
  apply after_session_tick in Ea. assert (late w5) as Hl5 by by eapply worker_steps_late.
  destruct r5 as [[b'|]|e5]; [|do 2 eexists; (split; [done|]; split; [lia|done])..].
  apply IH; [by apply Hi5|done|lia..].
Qed.

Lemma finish_session_tick w : tick (finish_session env w) = S (S (tick w)).
Proof. unfold finish_session. cbv zeta. rewrite <- close_session_tick. done. Qed.

Lemma finish_session_started w : session_started_ (im (finish_session env w)) = false.
Proof.
  unfold finish_session. cbv zeta. set (w1 := interleave env (close_session env w)).
  assert (session_started_ (im w1) = false) as Hw.
  { apply interleave_started. unfold close_session, close_section.
    destruct (session_started_ (im (interleave env w))) eqn:E; [done|exact E]. }
  change (session_started_ (finish_section (im w1)) = false). unfold finish_section. cbv zeta.
  by case_match.
Qed.

(** The worker's steps from a stop request to its exit, at most. *)
Definition stop_steps : nat := 23.

(** ** Properties *)

(** C26: the worker exits soon after a stop request: if some thread raises the
    stop flag at step [N] of the worker, then whatever the sensor, the network
    and the other threads do, [run] returns, with the worker marked as exited
    and its session closed, no later than [stop_steps] steps after the request
    (a step is one critical section, atomic read or call of the worker);
    [N + 2] iterations of the loops are enough fuel to get there. *)
Theorem run_exits_after_stop fuel w : idle w -> (tick w <= N)%nat -> (N + 2 <= fuel)%nat ->
  exists w', run env fuel w = Some w' /\ worker_exited_ (im w') = true /\
    session_started_ (im w') = false /\ (tick w' <= N + stop_steps)%nat.
Proof.
  intros Hi Ht Hfuel.
  destruct (run_loop_ends fuel (reconnect_initial_delay (config_ (im w))) w Hi)
    as (r & w1 & E & Hb & Hl); [intros H; lia|lia..|].
  unfold run. rewrite E. unfold stop_steps. destruct r as [u|e]; cbv zeta; eexists;
    (split; [done|]; split; [apply finish_session_facts|]; split; [apply finish_session_started|]);
    rewrite finish_session_tick; [lia|].
  pose proof (late_goes w1 Hl) as Hg.
  destruct (stopping_ (im (interleave env w1))); rewrite ?set_fault_tick, ?interleave_tick;
    [lia|specialize (Hg eq_refl); lia].
Qed.

End client_liveness.

(** ** Witnesses *)

Lemma run_exits_after_stop_witness :
  exists w', run streaming_env 62 (started example_config) = Some w' /\ worker_exited_ (im w') = true /\
    session_started_ (im w') = false /\ (tick w' <= 60 + stop_steps)%nat.
Proof.
  apply (run_exits_after_stop streaming_env 60); [left; reflexivity|apply started_idle| |]; simpl; lia.
Defined.
