(* ===== verification/ClientStorm.v ===== *)
(** * The receive loop: what keeps a session going *)

From S2P Require Export ClientLiveness.

#[local] Open Scope Z_scope.

Section client_storm.
  Context {T : TransportOps} {P : Platform} (env : Env T).

Abbreviation malformed_run w := (consecutive_malformed_ (im w)).

Lemma interleave_consecutive w : malformed_run (interleave env w) = malformed_run w.
Proof. by apply (interleave_keeps env consecutive_malformed_). Qed.

(** [m] leaves the count of consecutive malformed datagrams alone. *)
Definition keeps_count {A} (m : W A) : Prop := forall w, malformed_run (snd (m w)) = malformed_run w.

Lemma keeps_bind {A B} (m : W A) (k : A -> W B) :
  keeps_count m -> (forall a, keeps_count (k a)) -> keeps_count (bind m k).
Proof.
  intros Hm Hk w. unfold bind. specialize (Hm w). destruct (m w) as [[a|e] w']; [|exact Hm].
  rewrite (Hk a w'). exact Hm.
Qed.

Lemma keeps_ret {A} (a : A) : keeps_count (ret a).
Proof. by intros w. Qed.

Lemma keeps_locked {A} (f : Impl T -> result A * Impl T) :
  (forall i, consecutive_malformed_ (snd (f i)) = consecutive_malformed_ i) -> keeps_count (locked env f).
Proof.
  intros Hf w. unfold locked. specialize (Hf (im (interleave env w))).
  destruct (f (im (interleave env w))) as [r i]. cbn [snd set_im] in *.
  etrans; [exact Hf|apply interleave_consecutive].
Qed.

Lemma keeps_read {A} (f : Impl T -> A) : keeps_count (read env f).
Proof. by apply keeps_locked. Qed.

Lemma keeps_call_callback s : keeps_count (call_callback env s).
Proof.
  intros w. unfold call_callback. rewrite <- (interleave_consecutive w).
  by destruct (callback_ (im (interleave env w))).
Qed.

Lemma record_section_count r at_ (i : Impl T) :
  consecutive_malformed_ (snd (record_section r at_ i)) = consecutive_malformed_ i.
Proof. unfold record_section. repeat case_match; done. Qed.

Lemma keeps_handle_record r at_ : keeps_count (handle_record env r at_).
Proof.
  unfold handle_record, record_callback_error, modify.
  apply keeps_bind; [apply keeps_locked, record_section_count|]. intros d.
  case_match; [apply keeps_ret|]. cbv zeta. case_match; [apply keeps_ret|].
  apply keeps_bind; [apply keeps_call_callback|]. intros [what|].
  - apply keeps_bind; [by apply keeps_locked|]. intros _.
    apply keeps_bind; [apply keeps_read|]. intros c. apply keeps_ret.
  - apply keeps_bind; [by apply keeps_locked|]. intros _. apply keeps_ret.
Qed.

Lemma keeps_modify (f : Impl T -> Impl T) :
  (forall i, consecutive_malformed_ (f i) = consecutive_malformed_ i) -> keeps_count (modify env f).
Proof. intros Hf. by apply keeps_locked. Qed.

Lemma keeps_lift {A} (r : result A) : keeps_count (lift r).
Proof. by intros w. Qed.

Lemma keeps_try_catch {A} (m : W A) h :
  keeps_count m -> (forall e, keeps_count (h e)) -> keeps_count (try_catch m h).
Proof.
  intros Hm Hh w. unfold try_catch. specialize (Hm w). destruct (m w) as [[a|e] w']; [exact Hm|].
  rewrite (Hh e w'). exact Hm.
Qed.

Lemma keeps_unless_returned {R A} (m : W (option R)) (k : W (A + R)) :
  keeps_count m -> keeps_count k -> keeps_count (unless_returned m k).
Proof. intros Hm Hk. apply keeps_bind; [done|]. intros [r|]; [apply keeps_ret|done]. Qed.

Lemma keeps_failed_outcome r what v : keeps_count (failed_outcome env r what v).
Proof. apply keeps_bind; [apply keeps_read|]. intros s. apply keeps_ret. Qed.

Lemma keeps_return_if_stopping v : keeps_count (return_if_stopping env v).
Proof. apply keeps_bind; [apply keeps_read|]. intros s. apply keeps_ret. Qed.

Lemma keeps_configuration_for_session : keeps_count (configuration_for_session env).
Proof.
  intros w. unfold configuration_for_session. rewrite <- (interleave_consecutive w). by case_match.
Qed.

Lemma keeps_discover_block : keeps_count (discover_block env).
Proof.
  apply keeps_try_catch.
  - apply keeps_bind; [apply keeps_configuration_for_session|]. intros c.
    apply keeps_bind; [|intros _; apply keeps_ret]. apply keeps_modify. intros i.
    unfold apply_configuration. by repeat case_match.
  - intros [];
      first [apply keeps_bind; [apply keeps_failed_outcome|intros o; apply keeps_ret]|apply keeps_lift].
Qed.

Lemma keeps_connect_block : keeps_count (connect_block env).
Proof.
  apply keeps_try_catch.
  - apply keeps_bind; [|intros _].
    + intros w. rewrite <- (interleave_consecutive w). unfold connect. by destruct (transport_connect _ _ _ _).
    + intros w. rewrite <- (interleave_consecutive w). unfold start_streaming.
      destruct (stopping_ _); [done|]. by destruct (send_command _ _ _ _) as [[u|e] w'] eqn:E; injection E as _ <-.
  - intros e. case_match; [|apply keeps_lift].
    apply keeps_bind; [apply keeps_failed_outcome|]. intros o. apply keeps_ret.
Qed.

Lemma keeps_session_setup : keeps_count (session_setup env).
Proof.
  apply keeps_bind; [by apply keeps_modify|]. intros _.
  apply keeps_unless_returned; [apply keeps_return_if_stopping|].
  apply keeps_unless_returned; [apply keeps_discover_block|].
  apply keeps_unless_returned; [apply keeps_return_if_stopping|].
  apply keeps_unless_returned; [apply keeps_connect_block|].
  apply keeps_bind; [by apply keeps_modify|]. intros _.
  apply keeps_bind; [apply keeps_read|]. intros c.
  apply keeps_bind; [intros w; apply interleave_consecutive|]. intros now.
  apply keeps_bind; [apply keeps_lift|]. intros d. apply keeps_ret.
Qed.

(** ** The two ways an iteration goes round *)

Definition storm_step (w w' : World T) (ls ls' : LoopState) (bytes : list Z) : Prop :=
  length bytes <> 36%nat /\ bytes <> [] /\ ls' = ls /\
  malformed_run w' = inc64 (malformed_run w) /\ malformed_run w' < kMalformedStormThreshold.

Definition record_step (w w' : World T) (ls' : LoopState) (bytes : list Z) : Prop :=
  length bytes = 36%nat /\ snd ls' = true /\ malformed_run w' = 0 /\
  exists k, (tick w < k)%nat /\
    checked_deadline (clock env k) (receive_timeout (config_ (im w))) = Ok (fst ls').

Lemma session_datagram_continues ls bytes w ls' w' :
  session_datagram env ls bytes w = (Ok (inl ls'), w') ->
  storm_step w w' ls ls' bytes \/ record_step w w' ls' bytes.
Proof.
  destruct ls as [d v]. unfold session_datagram. cbv zeta.
  destruct (Z.eqb_spec (Z.of_nat (length bytes)) 0) as [E0|E0].
  { unfold bind, locked. destruct (timeout_section _ _) as [[o|e] i]; done. }
  unfold decode_record. destruct (Z.eqb_spec (Z.of_nat (length bytes)) 36) as [E36|E36]; cbn [negb].
  - set (record := MkRawRecord _ _ _ _ _ _ _ _ _). clearbody record.
    unfold bind at 1. unfold read_clock. set (w1 := interleave env w). unfold bind at 1.
    unfold modify, locked at 1. set (w2 := set_im _ (interleave env w1)). unfold bind at 1.
    unfold read, locked at 1. set (w3 := set_im _ (interleave env w2)). unfold bind at 1, lift.
    set (received_at := clock env (tick w1)).
    assert (malformed_run w3 = 0) as H3
      by (change (malformed_run (interleave env w2) = 0); by rewrite interleave_consecutive).
    assert (config_ (im (interleave env w2)) = config_ (im w)) as Hcfg.
    { rewrite interleave_config. change (config_ (im (interleave env w1)) = config_ (im w)).
      unfold w1. by rewrite !interleave_config. }
    rewrite Hcfg. destruct (checked_deadline _ _) as [d'|e] eqn:Ed; [|done].
    unfold bind. pose proof (keeps_handle_record record received_at w3) as Hk.
    destruct (handle_record env record received_at w3) as [[[r|]|e] w4]; [done| |done].
    intros [= <- <-]. right. unfold record_step. cbn [fst snd] in *. rewrite Hk, H3.
    split; [lia|]. split_and!; try done. exists (tick w1). split; [|exact Ed].
    unfold w1. rewrite interleave_tick. lia.
  - unfold bind, locked, malformed_section. cbv zeta. set (i := set_health _ _ <| _ := _ |>).
    destruct (Z.leb_spec kMalformedStormThreshold (consecutive_malformed_ i)); [done|].
    intros [= <- <-]. left. unfold storm_step.
    assert (malformed_run (set_im i (interleave env w)) = inc64 (malformed_run w)) as Ei
      by (rewrite <- (interleave_consecutive w); reflexivity).
    rewrite Ei. repeat split; try done; [lia|by intros ->|].
    unfold i in H. rewrite <- (interleave_consecutive w). exact H.
Qed.

(** The datagram of an iteration that goes round. *)
Definition received_by (w : World T) (bytes : list Z) : Prop :=
  exists k timeout t t', (tick w < k)%nat /\
    transport_receive (net env k) buffer_size timeout t t' = Ok bytes.

Lemma session_body_continues ls w ls' w' : session_body env ls w = (Ok (inl ls'), w') ->
  exists bytes, received_by w bytes /\ (storm_step w w' ls ls' bytes \/ record_step w w' ls' bytes).
Proof.
  destruct ls as [d v]. unfold session_body. unfold bind at 1, read_clock.
  pose proof (interleave_consecutive w) as Ec1. pose proof (interleave_tick env w) as Et1.
  pose proof (interleave_config env w) as Eg1. set (w1 := interleave env w) in *. clearbody w1.
  destruct (d <=? clock env (tick w1)).
  { unfold bind, locked. destruct (timeout_section _ _) as [[o|e] i]; done. }
  unfold bind at 1, catch_std, try_catch. unfold bind at 1, receive at 1.
  assert (malformed_run (interleave env (interleave env w1)) = malformed_run w1) as Ec2
    by by rewrite !interleave_consecutive.
  assert (config_ (im (interleave env (interleave env w1))) = config_ (im w1)) as Eg2
    by by rewrite !interleave_config.
  assert (tick (interleave env (interleave env w1)) = S (S (tick w1))) as Et2 by reflexivity.
  set (w2 := interleave env (interleave env w1)) in *.
  destruct (transport_receive _ _ _ _ _) as [bytes|e] eqn:Er; cbv beta iota zeta.
  2: { destruct (exn_what e); [|done]. unfold bind. destruct (failed_outcome _ _ _ _ _) as [[?|?] ?]; done. }
  unfold ret at 1. clearbody w2.
  unfold unless_returned, bind at 1, return_if_stopping, bind at 1, read, locked at 1.
  cbv beta iota zeta. unfold ret at 1. rewrite set_im_same.
  pose proof (interleave_consecutive w2) as Ec3. pose proof (interleave_config env w2) as Eg3.
  pose proof (interleave_tick env w2) as Et3. set (w3 := interleave env w2) in *. clearbody w3.
  destruct (stopping_ (im w3)); [done|]. intros H. exists bytes. split.
  - exists (tick w2). do 3 eexists. split; [lia|exact Er].
  - apply session_datagram_continues in H as [H|H]; [left|right].
    + destruct H as (? & ? & ? & Em & ?). split_and!; try done. rewrite Em. congruence.
    + destruct H as (? & ? & ? & k & Hk & Hd). split_and!; try done. exists k.
      split; [lia|]. congruence.
Qed.

(** How many iterations a run of [m] malformed datagrams leaves: the next one
    ends the session when it reaches the threshold, which a run that an earlier
    session left at the threshold or above it does at once; the 64-bit count
    wraps to zero. *)
Definition storm_budget (m : Z) : Z :=
  if kMalformedStormThreshold <=? inc64 m then 1 else kMalformedStormThreshold + 1 - inc64 m.

Lemma storm_budget_bounds m : 1 <= storm_budget m <= 11.
Proof.
  unfold storm_budget, kMalformedStormThreshold. pose proof (wrap_range 64 (m + 1) ltac:(lia)) as [? ?].
  fold (inc64 m) in *. destruct (Z.leb_spec 10 (inc64 m)); lia.
Qed.

Lemma storm_budget_next m : inc64 m < kMalformedStormThreshold ->
  storm_budget (inc64 m) = storm_budget m - 1.
Proof.
  intros H. pose proof (wrap_range 64 (m + 1) ltac:(lia)) as [H0 _]. fold (inc64 m) in H0.
  unfold storm_budget. assert (inc64 (inc64 m) = inc64 m + 1) as ->.
  { unfold inc64 at 1. apply wrap_small. unfold in_width, kMalformedStormThreshold in *. lia. }
  unfold kMalformedStormThreshold in *.
  destruct (Z.leb_spec 10 (inc64 m)); [lia|]. destruct (Z.leb_spec 10 (inc64 m + 1)); lia.
Qed.

(** No datagram the transport returns from now on is a record. *)
Definition no_records (w : World T) : Prop :=
  forall bytes, received_by w bytes -> length bytes <> 36%nat.

Lemma no_records_later w w' : (tick w <= tick w')%nat -> no_records w -> no_records w'.
Proof.
  intros Ht Hno bytes (k & tmo & t & t' & Hk & Hr). apply Hno. exists k, tmo, t, t'. split; [lia|done].
Qed.

Lemma session_loop_storms fuel : forall ls w, faulted_ (im w) = false -> no_records w ->
  storm_budget (malformed_run w) <= Z.of_nat fuel ->
  exists r w', session_loop env fuel ls w = Some (r, w').
Proof.
  induction fuel as [|n IH]; intros ls w Hf Hno Hfuel.
  { pose proof (storm_budget_bounds (malformed_run w)). lia. }
  simpl. destruct (stopping_ (im (interleave env w))) eqn:Est.
  { rewrite session_step_stops by done. eauto. }
  rewrite session_step_goes by done.
  assert (faulted_ (im (interleave env w)) = false) as Hf1 by by rewrite interleave_faulted.
  pose proof (steps_session_body env ls _ Hf1) as Hs.
  destruct (session_body env ls (interleave env w)) as [[[ls'|o]|e] w1] eqn:Eb; [|eauto..].
  destruct (session_body_continues _ _ _ _ Eb) as (bytes & Hr & Hc).
  assert (length bytes <> 36%nat) as Hlen
    by (apply (no_records_later w (interleave env w)); [rewrite interleave_tick; lia|done..]).
  destruct Hc as [(_ & _ & -> & Em & Hlt)|(H36 & _)]; [|done].
  rewrite interleave_consecutive in Em. cbn [snd] in Hs. apply IH.
  - by rewrite (session_steps_faulted env _ _ Hs).
  - apply (no_records_later w); [|done]. apply (session_steps_tick env) in Hs.
    rewrite interleave_tick in Hs. lia.
  - rewrite Em in Hlt |- *. rewrite storm_budget_next by done. lia.
Qed.

(** ** Properties *)

(** What keeps a session going: an iteration of the receive loop goes round
    only after a datagram of another size, not empty, which counts one more
    malformed datagram, leaves the deadline alone and stays below the storm
    threshold, or after a 36-byte record, which ends the malformed run and
    moves the deadline to a receive timeout after the record.  Nothing else,
    and in particular no malformed datagram, extends the deadline. *)
Theorem session_continues_only ls w ls' w' : session_step env ls w = (Ok (inl ls'), w') ->
  exists bytes, received_by w bytes /\ (storm_step w w' ls ls' bytes \/ record_step w w' ls' bytes).
Proof.
  intros H. destruct (stopping_ (im (interleave env w))) eqn:Est.
  { rewrite session_step_stops in H by done. done. }
  rewrite session_step_goes in H by done.
  destruct (session_body_continues _ _ _ _ H) as (bytes & (k & tmo & t & t' & Hk & Hr) & Hc).
  exists bytes. split.
  - exists k, tmo, t, t'. rewrite interleave_tick in Hk. split; [lia|done].
  - destruct Hc as [(? & ? & ? & Em & ?)|(? & ? & ? & k' & Hk' & Hd)]; [left|right].
    + split_and!; try done. by rewrite Em, interleave_consecutive.
    + rewrite interleave_tick in Hk'. rewrite interleave_config in Hd.
      split_and!; try done. exists k'. split; [lia|done].
Qed.

(** C30: a session without records ends, in whatever state an earlier session
    left the count of consecutive malformed datagrams: if no datagram the
    transport returns from now on has 36 bytes, [receive_session] returns, its
    receive loop within as many iterations as the count leaves before the storm
    threshold (one, if it is at the threshold already), and never more than
    eleven, whatever else arrives and whatever the clock and the other threads
    do. *)
Theorem session_ends_without_records fuel w : idle w -> no_records w ->
  storm_budget (malformed_run w) <= Z.of_nat fuel ->
  storm_budget (malformed_run w) <= 11 /\
  exists r w', receive_session env fuel w = Some (r, w').
Proof.
  intros Hi Hno Hfuel. split; [apply storm_budget_bounds|].
  unfold receive_session. pose proof (starts_session_setup env w Hi) as Hs.
  pose proof (keeps_session_setup w) as Hk.
  destruct (session_setup env w) as [[[d|o]|e] w1]; [|eauto..]. cbn [snd] in Hs, Hk.
  apply session_loop_storms.
  - rewrite (session_steps_faulted env _ _ Hs). apply Hi.
  - apply (no_records_later w); [by apply (session_steps_tick env)|done].
  - by rewrite Hk.
Qed.

End client_storm.

(** ** Witnesses *)

(** Five-byte datagrams, and nobody stops the client. *)
Definition noisy_env : Env scripted_transport := scripted_env 1000 (fun _ => Some [1; 2; 3; 4; 5]).

Lemma noisy_datagrams w : no_records noisy_env w.
Proof.
  intros bytes (k & timeout & t & t' & _ & H). simpl in H. unfold scripted_receive in H.
  destruct (negb _); [done|]. destruct (_ || _); injection H as <-; done.
Qed.

(** After a session that ended in a storm of ten. *)
Definition after_storm : World scripted_transport :=
  set_im (im (started example_config) <| consecutive_malformed_ := 10 |>) (started example_config).

Lemma session_ends_without_records_witness :
  exists r w', receive_session noisy_env 1 after_storm = Some (r, w').
Proof.
  apply (session_ends_without_records noisy_env 1 after_storm).
  - split; reflexivity.
  - apply noisy_datagrams.
  - vm_compute. discriminate.
Defined.

(** The state of a session that has connected. *)
Definition connected_world : World scripted_transport :=
  set_im (im (started example_config) <| transport_ := MkScriptedSocket true false |>)
    (started example_config).

Definition noisy_step : World scripted_transport :=
  snd (session_step noisy_env (100000000, false) connected_world).

Lemma session_continues_only_witness :
  exists bytes, received_by noisy_env connected_world bytes /\
    (storm_step connected_world noisy_step (100000000, false) (100000000, false) bytes \/
     record_step noisy_env connected_world noisy_step (100000000, false) bytes).
Proof.
  apply (session_continues_only noisy_env). vm_compute. reflexivity.
Defined.
