(* ===== verification/ClientRecord.v ===== *)
(** * One record, one configuration: what the sections compute *)

From S2P Require Export ClientStorm.

#[local] Open Scope Z_scope.

Section client_record.
  Context {T : TransportOps}.

(** ** The specification of a record's verdict *)

(** The observations a record makes of the state it finds. *)
Definition observed_rdt (r : RawRecord) (i : Impl T) : SequenceObservation :=
  snd (rdt_observe (rdt_sequence_ i) (rdt_sequence r)).
Definition observed_ft (r : RawRecord) (i : Impl T) : FtSequenceKind :=
  snd (ft_observe (ft_sequence_ i) (ft_sequence r)).

(** In order, fresh, healthy enough and continuous. *)
Definition deliverable (config : Config) (rdt : SequenceKind) (status : Z) (ft : FtSequenceKind) : Prop :=
  (rdt = SeqFirst \/ rdt = SeqContiguous \/ rdt = SeqGap) /\
  (classify_status status = SeverityError -> deliver_samples_with_error_status config = true) /\
  (ft = FtFirst \/ ft = FtForward \/ ft = FtRestart).

(** What ends the session, by priority: a serious status, then under
    [FailStop] a discontinuity of the F/T sequence. *)
Definition verdict (config : Config) (status : Z) (ft : FtSequenceKind) : option SessionResult :=
  match classify_status status, recovery_policy config, ft with
  | SeverityError, _, _ => Some ResSeriousStatus
  | _, FailStop, FtStall => Some ResFtStall
  | _, FailStop, FtBackward => Some ResFtBackward
  | _, _, _ => None
  end.

Lemma record_outcome_verdict config status ft :
  record_outcome config (classify_status status) ft = verdict config status ft.
Proof.
  unfold record_outcome, verdict. by destruct (classify_status status), ft, (recovery_policy config).
Qed.

Lemma verdict_not_configuration config st ft : verdict config st ft <> Some ResSensorConfiguration.
Proof. unfold verdict. by destruct (classify_status st), (recovery_policy config), ft. Qed.

Lemma record_delivers_spec config rdt status ft :
  record_delivers config rdt (classify_status status) ft = true <-> deliverable config rdt status ft.
Proof.
  unfold record_delivers, deliverable, rdt_delivers.
  destruct rdt, (classify_status status), ft, (deliver_samples_with_error_status config); simpl;
    intuition (try congruence; discriminate).
Qed.

(** The members of a section's state the next steps look at. *)
Lemma count_record_frame r at_ rdt ft sev (i : Impl T) :
  config_ (count_record r at_ rdt ft sev i) = config_ i /\
  last_delivery_at_ (count_record r at_ rdt ft sev i) = last_delivery_at_ i /\
  last_record_at_ (count_record r at_ rdt ft sev i) = at_ /\
  rdt_sequence_ (count_record r at_ rdt ft sev i) = rdt_sequence_ i /\
  ft_sequence_ (count_record r at_ rdt ft sev i) = ft_sequence_ i /\
  latest_ (count_record r at_ rdt ft sev i) = latest_ i /\
  receive_times_ (count_record r at_ rdt ft sev i) = prune_rate_window (receive_times_ i ++ [at_]) at_.
Proof. done. Qed.

(** [record_section] in one equation. *)
Lemma record_section_eq r at_ (i : Impl T) configuration :
  sensor_configuration (health_ i) = Some configuration ->
  let i1 := i <| rdt_sequence_ := fst (rdt_observe (rdt_sequence_ i) (rdt_sequence r)) |>
              <| ft_sequence_ := fst (ft_observe (ft_sequence_ i) (ft_sequence r)) |> in
  let i2 := count_record r at_ (observed_rdt r i) (observed_ft r i) (classify_status (status r)) i1 in
  let deliver := record_delivers (config_ i) (sequence_kind (observed_rdt r i))
                   (classify_status (status r)) (observed_ft r i) in
  let outcome := verdict (config_ i) (status r) (observed_ft r i) in
  record_section r at_ i =
    if deliver && rate_limited (config_ i) (last_delivery_at_ i) at_ then
      (Ok (MkDecision configuration false outcome),
       set_health (fun h => h <| rate_limited_count := inc64 (rate_limited_count h) |>) i2)
    else (Ok (MkDecision configuration deliver outcome), i2).
Proof.
  intros Hc. unfold record_section, observed_rdt, observed_ft.
  destruct (rdt_observe _ _) as [rt rdt], (ft_observe _ _) as [ft kind]. cbn [fst snd]. cbv zeta.
  change (sensor_configuration (health_ (i <| rdt_sequence_ := rt |> <| ft_sequence_ := ft |>)))
    with (sensor_configuration (health_ i)).
  rewrite Hc, record_outcome_verdict. reflexivity.
Qed.

(** ** Counters *)

(** The counters a record can move, as a tuple. *)
Definition record_counters (h : HealthSnapshot) : list Z :=
  [received_count h; lost_count h; duplicate_count h; out_of_order_count h; warning_count h;
   device_error_count h; ft_stall_count h; ft_backward_count h; ft_restart_count h;
   rate_limited_count h].

Definition one_if (b : bool) : Z := if b then 1 else 0.

(** What a record adds to each. *)
Definition record_deltas (rdt : SequenceObservation) (status : Z) (ft : FtSequenceKind)
    (limited : bool) : list Z :=
  [1;
   (if bool_decide (sequence_kind rdt = SeqGap) then gap rdt else 0);
   one_if (bool_decide (sequence_kind rdt = SeqDuplicate));
   one_if (bool_decide (sequence_kind rdt = SeqOutOfOrder));
   one_if (bool_decide (classify_status status = SeverityWarn));
   one_if (bool_decide (classify_status status = SeverityError));
   one_if (bool_decide (ft = FtStall)); one_if (bool_decide (ft = FtBackward));
   one_if (bool_decide (ft = FtRestart)); one_if limited].

Definition bump (c d : Z) : Z := if d =? 0 then c else u64 (c + d).

Lemma bump_0 c : bump c 0 = c.
Proof. done. Qed.

Lemma bump_1 c : bump c 1 = inc64 c.
Proof. done. Qed.

Lemma rdt_gap_positive t n : sequence_kind (snd (rdt_observe t n)) = SeqGap ->
  gap (snd (rdt_observe t n)) <> 0.
Proof.
  unfold rdt_observe. destruct (negb _); [done|]. set (delta := sub_u32 n (rdt_previous t)).
  destruct (Z.eqb_spec delta 0); [done|]. destruct (Z.ltb_spec delta 0x80000000); [|done].
  destruct (Z.eqb_spec delta 1); [done|]. intros _. cbn [snd gap].
  assert (in_width 32 delta) as [? ?] by (apply wrap_range; lia).
  unfold sub_u32. rewrite wrap_small; unfold in_width; lia.
Qed.

Lemma count_rdt_counters rdt h : (sequence_kind rdt = SeqGap -> gap rdt <> 0) ->
  record_counters (count_rdt rdt h) = zip_with bump (record_counters h)
    [0; (if bool_decide (sequence_kind rdt = SeqGap) then gap rdt else 0);
     one_if (bool_decide (sequence_kind rdt = SeqDuplicate));
     one_if (bool_decide (sequence_kind rdt = SeqOutOfOrder)); 0; 0; 0; 0; 0; 0].
Proof.
  unfold count_rdt. destruct (sequence_kind rdt) eqn:E; intros Hg; try reflexivity.
  specialize (Hg eq_refl). rewrite (bool_decide_eq_true_2 (SeqGap = SeqGap)) by done.
  cbn. unfold bump at 1. destruct (Z.eqb_spec (gap rdt) 0); [done|reflexivity].
Qed.

Lemma count_ft_counters ft h : record_counters (count_ft ft h) =
  zip_with bump (record_counters h) [0; 0; 0; 0; 0; 0; one_if (bool_decide (ft = FtStall));
    one_if (bool_decide (ft = FtBackward)); one_if (bool_decide (ft = FtRestart)); 0].
Proof. by destruct ft. Qed.

Lemma count_severity_counters sev h : record_counters (count_severity sev h) =
  zip_with bump (record_counters h) [0; 0; 0; 0; one_if (bool_decide (sev = SeverityWarn));
    one_if (bool_decide (sev = SeverityError)); 0; 0; 0; 0].
Proof. by destruct sev. Qed.

Lemma count_record_counters r at_ rdt ft sev (i : Impl T) :
  (sequence_kind rdt = SeqGap -> gap rdt <> 0) ->
  record_counters (health_ (count_record r at_ rdt ft sev i)) =
  zip_with bump (record_counters (health_ i))
    [1; (if bool_decide (sequence_kind rdt = SeqGap) then gap rdt else 0);
     one_if (bool_decide (sequence_kind rdt = SeqDuplicate));
     one_if (bool_decide (sequence_kind rdt = SeqOutOfOrder));
     one_if (bool_decide (sev = SeverityWarn)); one_if (bool_decide (sev = SeverityError));
     one_if (bool_decide (ft = FtStall)); one_if (bool_decide (ft = FtBackward));
     one_if (bool_decide (ft = FtRestart)); 0].
Proof.
  intros Hg. unfold count_record. cbv zeta. unfold set_health at 1.
  etrans; [apply count_severity_counters|]. rewrite count_ft_counters, count_rdt_counters by done.
  cbn [zip_with record_counters]. rewrite !bump_0. reflexivity.
Qed.

Lemma limited_counters h l : record_counters h = l ->
  record_counters (h <| rate_limited_count := inc64 (rate_limited_count h) |>) =
    zip_with bump l [0; 0; 0; 0; 0; 0; 0; 0; 0; 1].
Proof. by intros <-. Qed.

(** ** Samples *)

Lemma scaled_finite counts raws : valid binary64 counts = true -> safe_count counts ->
  Forall in_int32 raws -> forallb is_finite (map (scale counts) raws) = true.
Proof.
  intros Hv Hs. induction 1 as [|raw raws Hr _ IH]; [done|]. simpl. rewrite IH, andb_true_r.
  by apply raw_axis_rounded.
Qed.

Lemma make_sample_finite r configuration at_ : wf_record r ->
  valid_calibration (calibration configuration) ->
  sample_finite (make_sample r configuration at_) = true.
Proof.
  intros [_ Hr] (V1 & V2 & (S1 & S2 & _)%validate_calibration_ok).
  repeat match goal with H : Forall _ (_ :: _) |- _ => apply Forall_cons_1 in H as [? H] end.
  unfold sample_finite, make_sample. cbn [force torque]. apply andb_true_iff.
  split; apply scaled_finite; auto; repeat (apply Forall_cons_2; [done|]); apply Forall_nil_2.
Qed.

(** ** Revisions *)

(** How often a calibration differs, in a count or in a unit, from the one before
    it. *)
Fixpoint changes (previous : Calibration) (cs : list SensorConfiguration) : Z :=
  match cs with
  | [] => 0
  | c :: rest => one_if (bool_decide (previous <> calibration c)) + changes (calibration c) rest
  end.

(** On finite numbers other than zero, equal values are equal doubles. *)
Lemma feq_finite s m e y : feq (S754_finite s m e) y = bool_decide (S754_finite s m e = y).
Proof.
  destruct (bool_decide_reflect (S754_finite s m e = y)) as [<-|Hn].
  - unfold feq, SFeqb, SFcompare. by destruct s; rewrite Z.compare_refl, Pos.compare_refl.
  - destruct y as [b|b| |b m' e']; [by destruct s, b|by destruct s, b|by destruct s|].
    unfold feq, SFeqb, SFcompare. destruct s, b; try done;
      (destruct (Z.compare_spec e e') as [->|Hc|Hc]; [|done..]);
      change (Pos.compare_cont Eq m m') with (Pos.compare m m');
      (destruct (Pos.compare_spec m m') as [->|Hc|Hc]; [|done..]); done.
Qed.

(** What [validate] accepts is compared by its four members. *)
Lemma same_calibration_valid a b : valid_calibration a ->
  same_calibration a b = bool_decide (a = b).
Proof.
  intros (_ & _ & H). apply validate_calibration_ok in H as (Hf & Ht & _).
  assert (forall c, safe_count c -> exists s m e, c = S754_finite s m e) as Hs
    by (intros [[]|[]| |s m e] (H1 & H2 & _); try done; by exists s, m, e).
  destruct a as [f1 t1 fu1 tu1], b as [f2 t2 fu2 tu2]. simpl in *.
  destruct (Hs _ Hf) as (s1 & m1 & e1 & ->), (Hs _ Ht) as (s2 & m2 & e2 & ->).
  unfold same_calibration. simpl. rewrite !feq_finite, <- !bool_decide_and. apply bool_decide_ext.
  split; [by intros [[[-> ->] ->] ->]|by intros [= -> -> -> ->]].
Qed.

Lemma changes_nonneg cs : forall p, 0 <= changes p cs <= Z.of_nat (length cs).
Proof.
  induction cs as [|c cs IH]; intros p; simpl; [lia|]. specialize (IH (calibration c)).
  destruct (bool_decide _); simpl; lia.
Qed.

Lemma last_cons {A} (cs : list A) : forall c d, List.last (c :: cs) d = List.last cs c.
Proof. induction cs as [|c2 cs IH]; intros c d; [done|]. etrans; [apply (IH c2 d)|]. symmetry. apply IH. Qed.

(** One session's configuration after another. *)
Lemma apply_revision c c0 (i : Impl T) : valid_calibration (calibration c0) ->
  sensor_configuration (health_ i) = Some c0 -> in_width 64 (revision c0) -> in_width 64 (revision c0 + 1) ->
  let d := one_if (bool_decide (calibration c0 <> calibration c)) in
  let h := health_ (apply_configuration c i) in
  sensor_configuration h = Some (c <| revision := revision c0 + d |>) /\
  calibration_change_count h = bump (calibration_change_count (health_ i)) d.
Proof.
  intros Hv Hc Hw Hw1. cbv zeta. unfold apply_configuration. rewrite Hc, same_calibration_valid by done.
  rewrite bool_decide_not. destruct (bool_decide _); simpl.
  - by rewrite Z.add_0_r.
  - split; [|done]. by rewrite wrap_small.
Qed.

Lemma bump_bump c a b : 0 <= a -> 0 <= b -> bump (bump c a) b = bump c (a + b).
Proof.
  intros Ha Hb. unfold bump.
  destruct (Z.eqb_spec a 0), (Z.eqb_spec b 0), (Z.eqb_spec (a + b) 0); subst; try lia; try done.
  - by rewrite Z.add_0_r.
  - unfold wrap. rewrite Zplus_mod_idemp_l. f_equal. lia.
Qed.

Lemma apply_all_revision cs : forall (i : Impl T) c0,
  Forall (fun c => valid_calibration (calibration c)) (c0 :: cs) ->
  sensor_configuration (health_ i) = Some c0 ->
  in_width 64 (revision c0 + Z.of_nat (length cs)) -> 0 <= revision c0 ->
  let h := health_ (fold_left (fun i c => apply_configuration c i) cs i) in
  sensor_configuration h =
    Some (List.last cs c0 <| revision := revision c0 + changes (calibration c0) cs |>) /\
  calibration_change_count h = bump (calibration_change_count (health_ i)) (changes (calibration c0) cs).
Proof.
  induction cs as [|c cs IH]; intros i c0 Hv Hc Hw H0; cbv zeta.
  { simpl. rewrite Z.add_0_r. split; [|done]. rewrite Hc. by destruct c0. }
  apply Forall_cons in Hv as [Hv0 Hv]. cbn [fold_left changes length] in *. unfold in_width in Hw.
  destruct (apply_revision c c0 i Hv0 Hc) as [Hc1 Hn1]; [unfold in_width; lia..|].
  set (d := one_if _) in *. assert (0 <= d <= 1) by (unfold d; by destruct (bool_decide _)).
  pose proof (changes_nonneg cs (calibration c)).
  destruct (IH _ (c <| revision := revision c0 + d |>) ltac:(apply Forall_cons in Hv as [? ?]; by constructor) Hc1) as [Ec En];
    [unfold in_width; simpl; lia|simpl; lia|].
  rewrite Ec, En, Hn1, bump_bump by (simpl; lia). split; [|done].
  rewrite last_cons, Z.add_assoc. destruct cs; [done|]. by rewrite !last_cons.
Qed.

(** ** The rate window *)

Fixpoint nondecreasing (times : list Z) : Prop :=
  match times with
  | a :: ((b :: _) as rest) => a <= b /\ nondecreasing rest
  | _ => True
  end.

Definition in_window (now t : Z) : bool := now - t <=? rate_window.

Lemma nondecreasing_head a l t : nondecreasing (a :: l) -> In t l -> a <= t.
Proof.
  revert a. induction l as [|b l IH]; intros a Hs Hin; [done|]. destruct Hs as [Hab Hl].
  destruct Hin as [->|Hin]; [done|]. specialize (IH b Hl Hin). lia.
Qed.

Lemma nondecreasing_tail a l : nondecreasing (a :: l) -> nondecreasing l.
Proof. destruct l; [done|]. intros [_ H]. exact H. Qed.

Lemma prune_filter times now : nondecreasing times ->
  prune_rate_window times now = List.filter (in_window now) times.
Proof.
  induction times as [|t times IH]; intros Hs; [done|]. simpl. unfold in_window at 1.
  destruct (Z.ltb_spec rate_window (now - t)) as [H|H].
  - destruct (Z.leb_spec (now - t) rate_window); [lia|]. apply IH. by eapply nondecreasing_tail.
  - destruct (Z.leb_spec (now - t) rate_window); [|lia]. f_equal.
    assert (forall u, In u times -> in_window now u = true) as Hall.
    { intros u Hu. apply Z.leb_le. pose proof (nondecreasing_head _ _ _ Hs Hu). lia. }
    clear - Hall. induction times as [|u times IH]; [done|]. simpl.
    rewrite (Hall u) by (by left). f_equal. apply IH. intros v Hv. apply Hall. by right.
Qed.

(** The window after a list of arrivals. *)
Definition arrivals (times : list Z) : list Z :=
  fold_left (fun window t => prune_rate_window (window ++ [t]) t) times [].

Lemma nondecreasing_snoc l t : nondecreasing l -> (forall u, In u l -> u <= t) -> nondecreasing (l ++ [t]).
Proof.
  induction l as [|a l IH]; intros Hs Ha; [done|].
  assert (nondecreasing (l ++ [t])) as H by (apply IH; [by eapply nondecreasing_tail|intros; apply Ha; by right]).
  destruct l as [|b l]; simpl in *; [split; [apply Ha; by left|done]|].
  split; [apply Hs|exact H].
Qed.

Lemma filter_nondecreasing p l : nondecreasing l -> nondecreasing (List.filter p l).
Proof.
  induction l as [|a l IH]; intros Hs; [done|]. simpl. pose proof (nondecreasing_tail _ _ Hs) as Ht.
  destruct (p a); [|by apply IH]. specialize (IH Ht).
  destruct (List.filter p l) as [|b m] eqn:E; [done|]. split; [|exact IH].
  apply (nondecreasing_head a l); [done|]. assert (In b (List.filter p l)) as Hb by (rewrite E; by left).
  apply List.filter_In in Hb. apply Hb.
Qed.

Lemma filter_twice (p q : Z -> bool) l : (forall x, p x = true -> q x = true) ->
  List.filter p (List.filter q l) = List.filter p l.
Proof.
  intros H. induction l as [|a l IH]; [done|]. simpl. destruct (q a) eqn:Eq; simpl; rewrite IH; [done|].
  destruct (p a) eqn:Ep; [|done]. apply H in Ep. congruence.
Qed.

Lemma arrivals_window times : forall now, nondecreasing (times ++ [now]) ->
  prune_rate_window (arrivals times) now = List.filter (in_window now) times /\
  nondecreasing (arrivals times) /\ (forall t, In t (arrivals times) -> In t times).
Proof.
  induction times as [|t times IH] using rev_ind; intros now Hs; [done|].
  assert (forall l a, nondecreasing (l ++ [a]) -> nondecreasing l /\ forall u, In u l -> u <= a) as Hsplit.
  { clear. induction l as [|b l IH]; intros a Hs; [done|].
    destruct (IH a) as [H1 H2]; [by eapply (nondecreasing_tail b)|]. split.
    - destruct l; [done|]. simpl in Hs. split; [apply Hs|done].
    - intros u [->|Hu]; [|by apply H2]. apply (nondecreasing_head u (l ++ [a])); [done|].
      apply in_or_app. right. by left. }
  destruct (Hsplit _ _ Hs) as [Hs1 Hle]. destruct (Hsplit _ _ Hs1) as [Hs0 Hle0].
  destruct (IH t Hs1) as (E & Hnd & Hin).
  assert (nondecreasing (arrivals times ++ [t])) as Hnd1
    by (apply nondecreasing_snoc; [done|]; intros u Hu; apply Hle0, Hin, Hu).
  assert (arrivals (times ++ [t]) = List.filter (in_window t) (arrivals times ++ [t])) as Ea.
  { unfold arrivals. rewrite fold_left_app. simpl. by apply prune_filter. }
  assert (t <= now) as Htn by (apply Hle, in_or_app; right; by left).
  split; [|split].
  - rewrite Ea, prune_filter by by apply filter_nondecreasing.
    rewrite filter_twice by (unfold in_window; intros x Hx; bool_to_prop; apply Z.leb_le; lia).
    rewrite !List.filter_app. f_equal.
    rewrite prune_filter in E by done.
    rewrite <- (filter_twice (in_window now) (in_window t) (arrivals times))
      by (unfold in_window; intros x Hx; bool_to_prop; apply Z.leb_le; lia).
    rewrite E. apply filter_twice. unfold in_window. intros x Hx. bool_to_prop. apply Z.leb_le. lia.
  - rewrite Ea. by apply filter_nondecreasing.
  - intros u Hu. rewrite Ea in Hu. apply List.filter_In in Hu as [Hu _]. apply in_app_or in Hu as [Hu|Hu];
      apply in_or_app; [left; by apply Hin|right; done].
Qed.

(** ** Properties *)

(** C27: the verdict on a record, for every combination of sequence, status,
    F/T progress, policy and options: it is delivered exactly when its sequence
    number advanced, its status is not an error (or error samples were asked
    for), the F/T sequence neither stalled nor moved backward, and the rate
    limit does not hold it back; a serious status ends the session under either
    policy, an F/T stall or backward step only under [FailStop] and only when
    the status is not already serious; both trackers move on, and the sample is
    built with the configuration in force. *)
Theorem record_verdict r at_ (i : Impl T) configuration :
  sensor_configuration (health_ i) = Some configuration ->
  exists d i', record_section r at_ i = (Ok d, i') /\ decided_configuration d = configuration /\
    (deliver d = true <->
       deliverable (config_ i) (sequence_kind (observed_rdt r i)) (status r) (observed_ft r i) /\
       rate_limited (config_ i) (last_delivery_at_ i) at_ = false) /\
    outcome d = verdict (config_ i) (status r) (observed_ft r i) /\
    rdt_sequence_ i' = fst (rdt_observe (rdt_sequence_ i) (rdt_sequence r)) /\
    ft_sequence_ i' = fst (ft_observe (ft_sequence_ i) (ft_sequence r)) /\
    last_record_at_ i' = at_ /\ latest_ i' = latest_ i.
Proof.
  intros Hc. rewrite (record_section_eq r at_ i configuration Hc). cbv zeta.
  pose proof (record_delivers_spec (config_ i) (sequence_kind (observed_rdt r i)) (status r)
    (observed_ft r i)) as Hd.
  destruct (rate_limited _ _ _); [rewrite andb_true_r|rewrite andb_false_r].
  - destruct (record_delivers _ _ _ _); do 2 eexists; (split; [done|]); cbn;
      (split_and!; try done; split; [done|]); intros [? ?]; done.
  - do 2 eexists. split; [done|]. cbn. split_and!; try done. rewrite Hd. tauto.
Qed.

(** C28: every record is accounted for: it adds one to the received count, its
    gap to the lost count if there was one, and one each to the counters of
    what it was (duplicate, out of order, warning, device error, stall,
    backward, restart, rate limited), and touches no other of them; a record
    counts as rate limited only if it would have been delivered. *)
Theorem record_accounted r at_ (i i' : Impl T) d :
  record_section r at_ i = (Ok d, i') ->
  let limited := record_delivers (config_ i) (sequence_kind (observed_rdt r i))
                   (classify_status (status r)) (observed_ft r i)
                 && rate_limited (config_ i) (last_delivery_at_ i) at_ in
  record_counters (health_ i') =
    zip_with bump (record_counters (health_ i))
      (record_deltas (observed_rdt r i) (status r) (observed_ft r i) limited).
Proof.
  intros H. destruct (sensor_configuration (health_ i)) as [c|] eqn:Ec.
  2: { unfold record_section in H. destruct (rdt_observe _ _), (ft_observe _ _).
       change (sensor_configuration (health_ (i <| rdt_sequence_ := r0 |> <| ft_sequence_ := f |>)))
         with (sensor_configuration (health_ i)) in H. by rewrite Ec in H. }
  rewrite (record_section_eq r at_ i c Ec) in H. cbv zeta in H |- *.
  pose proof (count_record_counters r at_ (observed_rdt r i) (observed_ft r i) (classify_status (status r))
    (i <| rdt_sequence_ := fst (rdt_observe (rdt_sequence_ i) (rdt_sequence r)) |>
       <| ft_sequence_ := fst (ft_observe (ft_sequence_ i) (ft_sequence r)) |>)
    (rdt_gap_positive _ _)) as Hcnt.
  destruct (_ && _); injection H as <- <-.
  - etrans; [|exact (limited_counters _ _ Hcnt)]. reflexivity.
  - exact Hcnt.
Qed.

(** C29: under a validated calibration every decoded record scales to six finite
    axes, so [handle_record] never ends a session with a configuration fault:
    the check after the scaling is a safety net that a validated configuration
    never reaches. *)
Theorem validated_records_scale {P : Platform} (env : Env T) r at_ configuration w o w' :
  wf_record r -> valid_calibration (calibration configuration) ->
  sensor_configuration (health_ (im w)) = Some configuration ->
  handle_record env r at_ w = (Ok o, w') ->
  sample_finite (make_sample r configuration at_) = true /\ o <> Some ResSensorConfiguration.
Proof.
  intros Hr Hv Hc H. pose proof (make_sample_finite r configuration at_ Hr Hv) as Hf. split; [done|].
  unfold handle_record in H. unfold bind at 1, locked in H.
  set (i := im (interleave env w)) in *.
  assert (sensor_configuration (health_ i) = Some configuration) as Hci
    by (unfold i; by rewrite (interleave_keeps env health_)).
  rewrite (record_section_eq r at_ i configuration Hci) in H. cbv zeta in H.
  pose proof (verdict_not_configuration (config_ i) (status r) (observed_ft r i)) as Hver.
  assert (forall c, callback_failure_outcome c (verdict (config_ i) (status r) (observed_ft r i))
    <> Some ResSensorConfiguration) as Hcb
    by (intros c; unfold callback_failure_outcome; repeat case_match; congruence).
  destruct (_ && _); cbn [deliver outcome decided_configuration] in H; [by injection H as <- _|].
  destruct (negb (record_delivers _ _ _ _)); [by injection H as <- _|].
  rewrite Hf in H. cbn [negb] in H. unfold bind at 1 in H.
  destruct (call_callback _ _ _) as [[[what|]|e] w1]; [| |done].
  - unfold bind in H. destruct (record_callback_error _ _ _) as [[[]|e] w2]; [|done].
    destruct (read _ _ _) as [[c|e] w3]; [|done]. by injection H as <- _.
  - unfold bind in H. destruct (modify _ _ _) as [[[]|e] w2]; [|done]. by injection H as <- _.
Qed.

(** C33: revisions count calibrations: whatever valid configurations the sessions
    of a client bring, the first gets revision 1 and the revision then grows by
    one exactly when the calibration differs in a count or a unit from the one
    before it, and [calibration_change_count] with it; the stored configuration
    is otherwise the newest one. *)
Theorem revisions_count_changes c cs (i : Impl T) :
  sensor_configuration (health_ i) = None -> in_width 64 (1 + Z.of_nat (length cs)) ->
  Forall (fun c => valid_calibration (calibration c)) (c :: cs) ->
  let h := health_ (fold_left (fun i c => apply_configuration c i) (c :: cs) i) in
  sensor_configuration h = Some (List.last cs c <| revision := 1 + changes (calibration c) cs |>) /\
  calibration_change_count h = bump (calibration_change_count (health_ i)) (changes (calibration c) cs) /\
  0 <= changes (calibration c) cs <= Z.of_nat (length cs).
Proof.
  intros Hn Hw Hv. cbv zeta. cbn [fold_left].
  assert (sensor_configuration (health_ (apply_configuration c i)) = Some (c <| revision := 1 |>) /\
    calibration_change_count (health_ (apply_configuration c i)) = calibration_change_count (health_ i))
    as [Hc Hk] by (unfold apply_configuration; by rewrite Hn).
  destruct (apply_all_revision cs _ (c <| revision := 1 |>) ltac:(apply Forall_cons in Hv as [? ?]; by constructor) Hc Hw
    ltac:(simpl; lia)) as [E1 E2].
  rewrite E1, E2, Hk. split; [destruct cs; [done|by rewrite !last_cons]|]. split; [done|]. apply changes_nonneg.
Qed.

(** The reported rate is the number of records of the last second: with a
    clock that does not run backward, after any arrivals the window [health]
    prunes holds exactly the arrivals at most one second old, oldest first, and
    the snapshot's rate is their number. *)
Theorem receive_rate_exact times now (i : Impl T) : nondecreasing (times ++ [now]) ->
  receive_times_ i = arrivals times ->
  receive_times_ (snd (health now i)) = List.filter (in_window now) times /\
  receive_rate_hz (fst (health now i)) = count_if (in_window now) times.
Proof.
  intros Hs Ha. destruct (arrivals_window times now Hs) as (E & _ & _).
  unfold health. cbv zeta. cbn [fst snd]. rewrite Ha, E. split; [done|].
  unfold count_if. by destruct (bool_decide _), (last_record_at_ i =? 0).
Qed.

(** [bias] sends only to a live stream: it throws [NotConnectedError] and
    changes nothing unless a session is open, not stopping, not faulted and
    streaming; when both requests are sent the RDT tracker forgets its baseline,
    so the restarted numbering is not counted as loss, and when one fails the
    tracker keeps it and the second is not sent after a failed first. *)
Theorem bias_effect a1 a2 (w : World T) :
  let live := negb (stopping_ (im w)) && session_started_ (im w) && negb (faulted_ (im w))
              && bool_decide (state (health_ (im w)) = Streaming) in
  let '(r, w') := bias a1 a2 w in
  let send a c := transport_send a (encode_request c 0) (transport_ (im w)) in
  if live then
    match send a1 SetSoftwareBias, send a2 StartRealtime with
    | Ok _, Ok _ => r = Ok tt /\ rdt_has_last (rdt_sequence_ (im w')) = false /\
        log w' = log w ++ [EvSend SrcBias SetSoftwareBias true; EvSend SrcBias StartRealtime true]
    | Ok _, Throw e => r = Throw e /\ im w' = im w /\
        log w' = log w ++ [EvSend SrcBias SetSoftwareBias true; EvSend SrcBias StartRealtime false]
    | Throw e, _ => r = Throw e /\ im w' = im w /\ log w' = log w ++ [EvSend SrcBias SetSoftwareBias false]
    end
  else r = Throw (NotConnectedError "client is not streaming") /\ w' = w.
Proof.
  cbv zeta. unfold bias, send_command.
  destruct (stopping_ (im w)), (session_started_ (im w)), (faulted_ (im w)),
    (bool_decide (state (health_ (im w)) = Streaming)); cbn [negb orb andb]; try done.
  destruct (transport_send a1 _ (transport_ (im w))) as [[]|e] eqn:E1; cbn [is_ok];
    [|by destruct w].
  change (transport_ (im (record_event (EvSend SrcBias SetSoftwareBias true) w)))
    with (transport_ (im w)).
  destruct (transport_send a2 _ (transport_ (im w))) as [[]|e] eqn:E2; cbn [is_ok];
    cbn; rewrite <- app_assoc; done.
Qed.

(** What a client without a running worker satisfies. *)
Definition settled (i : Impl T) : Prop :=
  worker_ i = None /\ health_fault_code (health_ i) = fault_code_ i /\
  (faulted_ i = true -> state (health_ i) = Faulted).

(** C31: [start] gives the strong guarantee: when the worker thread cannot be
    created, the exception is passed on and every member of the client is as
    before, the fault latch, the health snapshot, the latest sample, the
    callback, the generation counters and the rate windows included; when it
    can, the client is connecting, without a fault, with a new generation of
    which nothing is delivered yet. *)
Theorem start_strong_guarantee callback thread (i : Impl T) : settled i ->
  match thread with
  | Throw e => start_section callback thread i = (Throw e, i)
  | Ok _ => exists i', start_section callback thread i = (Ok tt, i') /\
      faulted_ i' = false /\ state (health_ i') = Connecting /\
      health_fault_code (health_ i') = FaultNone /\ latest_ i' = None /\
      callback_ i' = callback /\ stopping_ i' = false /\ worker_exited_ i' = false /\
      generation_ i' = inc64 (generation_ i) /\ delivered_generation_ i' = 0 /\
      receive_times_ i' = [] /\ delivery_times_ i' = [] /\ consecutive_malformed_ i' = 0
  end.
Proof.
  intros (Hw & Hc & Hs). destruct thread as [id|e]; unfold start_section; cbv zeta.
  - eexists. split; [done|]. cbn. done.
  - f_equal. unfold faulted_, faulted, fault_code_, latch_code in *.
    destruct (bool_decide_reflect (code_ (fault_latch_ i) = FaultNone)) as [E|E].
    + destruct i as [? ? ? ? ? ? ? ? ? ? ? [lc] ? ? ? ? ? ? ? ? ?]. cbn in E. rewrite E. reflexivity.
    + unfold fault_section, publish. specialize (Hs eq_refl).
      destruct i as [? ? ? ? ? ? ? ? ? ? ? [lc] h ? ? ? ? ? ? ? ?]. cbn in *. subst.
      destruct h. cbn in *. subst. rewrite bool_decide_eq_true_2 by done. reflexivity.
Qed.

(** An empty datagram ends the session: when the transport returns no
    bytes, which an empty datagram, a timeout and a shutdown all do, the
    session ends with a timeout and counts one, whatever the clock and the
    deadline are, unless the client is stopping; no malformed datagram is
    counted. *)
Theorem empty_datagram_is_timeout {P : Platform} (env : Env T) ls w :
  stopping_ (im (interleave env w)) = false ->
  exists w', session_datagram env ls [] w = (Ok (inr (MkSessionOutcome ResTimeout "" (snd ls))), w') /\
    timeout_count (health_ (im w')) = inc64 (timeout_count (health_ (im w))) /\
    malformed_count (health_ (im w')) = malformed_count (health_ (im w)).
Proof.
  intros Hs. destruct ls as [d v]. unfold session_datagram. cbv zeta. cbn [length].
  change (Z.of_nat 0 =? 0) with true. cbv iota.
  unfold bind, locked, timeout_section. cbv zeta. rewrite Hs. eexists. split; [done|].
  pose proof (interleave_keeps env health_ w ltac:(done)) as Eh. rewrite <- Eh. done.
Qed.

End client_record.

(** ** Witnesses *)

(** A client streaming with the example calibration, its last delivery 5 ms ago
    and a rate limit of 100 Hz. *)
Definition limited_config : Config := example_config <| sample_rate_limit_hz := dbl 100 |>.

Definition example_configuration : SensorConfiguration :=
  MkSensorConfiguration "" example_calibration Override 1.

Definition streaming_impl : Impl scripted_transport :=
  apply_configuration example_configuration (im (started limited_config))
    <| rdt_sequence_ := MkRdtSequenceTracker true 4 |>
    <| ft_sequence_ := MkFtSequenceTracker true 4 false 0 |>
    <| last_delivery_at_ := 5000000 |> <| session_started_ := true |>.

Lemma record_verdict_witness :
  exists d i', record_section (record_of 7) 10000000 streaming_impl = (Ok d, i') /\
    deliver d = false /\ outcome d = None.
Proof.
  destruct (record_verdict (record_of 7) 10000000 streaming_impl example_configuration eq_refl)
    as (d & i' & E & _ & Hd & Ho & _).
  exists d, i'. split; [exact E|]. split; [|exact Ho].
  destruct (deliver d); [|reflexivity]. destruct (proj1 Hd eq_refl) as [_ Hl].
  vm_compute in Hl. discriminate Hl.
Defined.

Lemma record_accounted_witness :
  record_counters (health_ (snd (record_section (record_of 7) 10000000 streaming_impl))) =
    [1; 2; 0; 0; 0; 0; 0; 0; 0; 1].
Proof.
  destruct (record_section (record_of 7) 10000000 streaming_impl) as [[d|e] i'] eqn:E.
  - cbn [snd]. rewrite (record_accounted _ _ _ _ _ E). vm_compute. reflexivity.
  - vm_compute in E. discriminate E.
Defined.

Definition streaming_world : World scripted_transport :=
  set_im streaming_impl (started limited_config).

Lemma example_valid : valid_calibration example_calibration.
Proof. split_and!; reflexivity. Qed.

Lemma record_of_wf k : Z.of_nat k < 2 ^ 32 -> wf_record (record_of k).
Proof.
  intros Hk. split; unfold record_of; cbn [rdt_sequence ft_sequence status fx fy fz tx ty tz].
  - repeat (apply Forall_cons_2; [unfold in_width; lia|]). apply Forall_nil_2.
  - repeat (apply Forall_cons_2; [unfold in_int32, int32_min, int32_max; lia|]). apply Forall_nil_2.
Qed.

Lemma validated_records_scale_witness :
  sample_finite (make_sample (record_of 7) example_configuration 99000000) = true.
Proof.
  apply (validated_records_scale streaming_env (record_of 7) 99000000 example_configuration
    streaming_world None (snd (handle_record streaming_env (record_of 7) 99000000 streaming_world))).
  - apply record_of_wf. reflexivity.
  - apply example_valid.
  - reflexivity.
  - vm_compute. reflexivity.
Defined.

(** The same counts in another unit. *)
Definition other_unit : SensorConfiguration :=
  MkSensorConfiguration "" (MkCalibration (counts_per_force_unit example_calibration)
    (counts_per_torque_unit example_calibration) PoundForce (torque_unit example_calibration)) Override 1.

Lemma revisions_count_changes_witness :
  let h := health_ (fold_left (fun i c => apply_configuration c i)
    [example_configuration; example_configuration; other_unit] (im (started example_config))) in
  sensor_configuration h = Some (other_unit <| revision := 2 |>) /\ calibration_change_count h = 1.
Proof.
  destruct (revisions_count_changes (T := scripted_transport) example_configuration
    [example_configuration; other_unit] (im (started example_config)) eq_refl) as (E & En & _).
  - unfold in_width. simpl. lia.
  - repeat (apply Forall_cons_2; [split_and!; reflexivity|]). apply Forall_nil_2.
  - split; [exact E|]. rewrite En. reflexivity.
Defined.

Definition rated_impl : Impl scripted_transport :=
  streaming_impl <| receive_times_ := arrivals [1; 900000000; 1500000000] |>.

Lemma receive_rate_exact_witness : receive_rate_hz (fst (health 2000000000 rated_impl)) = 1.
Proof.
  assert (nondecreasing ([1; 900000000; 1500000000] ++ [2000000000])) as Hn by (simpl; lia).
  destruct (receive_rate_exact [1; 900000000; 1500000000] 2000000000 rated_impl Hn eq_refl) as [_ E].
  rewrite E. reflexivity.
Defined.

Definition settled_impl : Impl scripted_transport := impl_members example_config.

Lemma start_strong_guarantee_witness :
  start_section true (Throw (RuntimeError "no thread")) settled_impl =
    (Throw (RuntimeError "no thread"), settled_impl).
Proof.
  apply (start_strong_guarantee true (Throw (RuntimeError "no thread")) settled_impl).
  split_and!; [reflexivity|reflexivity|discriminate].
Defined.

Lemma empty_datagram_is_timeout_witness :
  exists w', session_datagram streaming_env (10 ^ 12, true) [] streaming_world =
    (Ok (inr (MkSessionOutcome ResTimeout "" true)), w').
Proof.
  destruct (empty_datagram_is_timeout streaming_env (10 ^ 12, true) streaming_world) as (w' & E & _);
    [reflexivity|]. exists w'. exact E.
Defined.
