(* ===== verification/ClientBackoff.v ===== *)
(** * The reconnect delays *)

From S2P Require Export ClientRecord.

#[local] Open Scope Z_scope.

Section client_backoff.
  Context {P : Platform} {HP : PlatformLaws P}.

(** The delays of a validated configuration, as [double]s. *)
Record delays (config : Config) : Prop := {
  initial_valid : valid binary64 (reconnect_initial_delay config) = true;
  max_valid : valid binary64 (reconnect_max_delay config) = true;
  delays_safe : safe_config config;
}.

Definition good_delay (config : Config) (b : float) : Prop :=
  valid binary64 b = true /\ is_finite b = true /\ sign b = false /\
  mag binary64 (reconnect_initial_delay config) <= mag binary64 b <=
    mag binary64 (reconnect_max_delay config).

Lemma delays_order config : delays config ->
  good_delay config (reconnect_initial_delay config) /\
  good_delay config (reconnect_max_delay config) /\
  0 < mag binary64 (reconnect_initial_delay config) /\
  (exists t, checked_duration (reconnect_initial_delay config) = Ok t /\ 0 < t) /\
  (exists t, checked_duration (reconnect_max_delay config) = Ok t).
Proof.
  intros [Vi Vm [_ _ _ Hd _ Ho _ _]]. unfold good_delay.
  repeat match goal with H : Forall _ (_ :: _) |- _ => apply Forall_cons_1 in H as [? H] end.
  repeat match goal with H : safe_timeout _ _ |- _ => destruct H as [? ? (? & ? & ?) _] end.
  destruct (positive_finite_mag (reconnect_initial_delay config)) as [Si Mi]; [done..|].
  destruct (positive_finite_mag (reconnect_max_delay config)) as [Sm Mm]; [done..|].
  rewrite (flt_sval binary64) in Ho by done. unfold sval in Ho. rewrite Si, Sm in Ho. bool_to_prop.
  split_and!; try done; try lia; eauto.
Qed.

Lemma next_backoff_mag config b : delays config -> good_delay config b ->
  good_delay config (next_backoff config b) /\
  mag binary64 (next_backoff config b) =
    Z.min (2 * mag binary64 b) (mag binary64 (reconnect_max_delay config)).
Proof.
  intros Hd (Vb & Fb & Sb & Hlo & Hhi).
  destruct (delays_order config Hd) as (_ & (Vm & Fm & Sm & Hm & _) & Hpos & _ & _).
  pose proof (fmul_two binary64 b Vb Fb) as [Vd H]. unfold next_backoff. cbv zeta.
  pose proof (valid_mag_le binary64 _ Vm) as Hmax.
  assert (good_delay config (reconnect_max_delay config)) as Gm by (unfold good_delay; split_and!; done || lia).
  destruct (Z.leb_spec (2 * mag binary64 b) (mag_max binary64)) as [Hle|Hgt].
  - destruct H as (Fd & Sd & Md). change (dbl 2) with (of_Z binary64 2).
    rewrite (flt_sval binary64) by done. unfold sval. rewrite Sm, Sd, Sb, Md.
    destruct (Z.ltb_spec (mag binary64 (reconnect_max_delay config)) (2 * mag binary64 b)).
    + split; [exact Gm|]. rewrite Z.min_r by lia. done.
    + split; [|rewrite Md, Z.min_l by lia; done]. unfold good_delay. rewrite Md, Sd. split_and!; done || lia.
  - change (dbl 2) with (of_Z binary64 2). rewrite H, Sb.
    assert (flt (reconnect_max_delay config) (S754_infinity false) = true) as ->
      by (destruct (reconnect_max_delay config) as [[]|[]| |[] m e]; done).
    split; [exact Gm|]. rewrite Z.min_r by lia. done.
Qed.

(** A delay in range always gives a deadline. *)
Lemma good_delay_duration config b : delays config -> good_delay config b ->
  exists t tmax, checked_duration b = Ok t /\ 0 < t <= tmax /\
    checked_duration (reconnect_max_delay config) = Ok tmax.
Proof.
  intros Hd (Vb & Fb & Sb & Hlo & Hhi).
  destruct (delays_order config Hd) as ((Vi & Fi & Si & _) & (Vm & Fm & Sm & Hm & _) & Hpos & (ti & Hti & Hti0) & (tm & Htm)).
  destruct (checked_duration_monotone _ _ _ Vb Vm Fb Sb Hhi Htm) as (t & Ht & Hle).
  destruct (checked_duration_monotone _ _ _ Vi Vb Fi Si Hlo Ht) as (t' & Ht' & Hle').
  exists t, tm. rewrite Hti in Ht'. injection Ht' as <-. split_and!; done || lia.
Qed.

Lemma delays_iter config k : delays config ->
  good_delay config (Nat.iter k (next_backoff config) (reconnect_initial_delay config)) /\
  mag binary64 (Nat.iter k (next_backoff config) (reconnect_initial_delay config)) =
    Z.min (2 ^ Z.of_nat k * mag binary64 (reconnect_initial_delay config))
      (mag binary64 (reconnect_max_delay config)).
Proof.
  intros Hd. destruct (delays_order config Hd) as (Gi & Gm & Hpos & _).
  assert (mag binary64 (reconnect_initial_delay config) <= mag binary64 (reconnect_max_delay config))
    as Hle by apply Gi.
  induction k as [|k [IHg IHm]]; [split; [exact Gi|cbn [Nat.iter]; rewrite Z.mul_1_l, Z.min_l by lia; done]|].
  rewrite !Nat.iter_succ. destruct (next_backoff_mag config _ Hd IHg) as [Hg Hm]. split; [exact Hg|].
  rewrite Hm, IHm, Nat2Z.inj_succ, Z.pow_succ_r by lia. lia.
Qed.

(** ** Properties *)

(** C32: the reconnect delays are exponential and bounded: for a validated
    configuration the delay after [k] sessions without a record is exactly the
    smaller of 2^k times the initial delay and the maximal delay, with no
    rounding error, on every platform; it always converts to a positive tick
    count, no more than the maximal delay's, so the deadline the worker waits
    for exists whenever the clock is below the last time point by that much. *)
Theorem reconnect_delays config k now : delays config ->
  let b := Nat.iter k (next_backoff config) (reconnect_initial_delay config) in
  sign b = false /\ is_finite b = true /\
  mag binary64 b = Z.min (2 ^ Z.of_nat k * mag binary64 (reconnect_initial_delay config))
                     (mag binary64 (reconnect_max_delay config)) /\
  exists t tmax, checked_duration b = Ok t /\ 0 < t <= tmax /\
    checked_duration (reconnect_max_delay config) = Ok tmax /\
    (now <= time_point_max - tmax -> checked_deadline now b = Ok (now + t)).
Proof.
  intros Hd b. destruct (delays_iter config k Hd) as [Hg Hm].
  destruct (good_delay_duration config b Hd Hg) as (t & tmax & Ht & Hlt & Htm).
  destruct Hg as (Vb & Fb & Sb & _). split_and!; try done. exists t, tmax. split_and!; try done; try lia.
  intros Hnow. unfold checked_deadline. rewrite Ht. simpl.
  destruct (Z.ltb_spec (time_point_max - t) now); [lia|done].
Qed.

End client_backoff.

Lemma reconnect_delays_witness :
  is_finite (Nat.iter 5 (next_backoff example_config) (reconnect_initial_delay example_config)) = true.
Proof.
  assert (delays (P := linux_x86_64) example_config) as Hd.
  { constructor; [reflexivity|reflexivity|].
    apply (validate_config_ok (fun _ => 0) example_config). vm_compute. reflexivity. }
  destruct (reconnect_delays (P := linux_x86_64) example_config 5 0 Hd) as (_ & Hf & _). exact Hf.
Defined.
