(* ===== verification/ClientTotal.v ===== *)
(** * No exception leaves the worker's loop

    The parts composed: a transport that throws [std::exception]s, discovery that
    throws [DiscoveryError]s, a validated configuration and a clock that is not
    about to end.  Then [run] never reaches its [catch] blocks, so under the
    Reconnect policy only [stop] ends the worker. *)

From S2P Require Export ClientBackoff ClientLiveness.

#[local] Open Scope Z_scope.

Section triples.
  Context {T : TransportOps}.

(** ** Triples over the worker's monad

    From a state with [I], [m] returns in a state with [Q], or throws with
    [X]. *)
Definition triple {A} (I : World T -> Prop) (m : W A) (Q : A -> World T -> Prop)
    (X : exn -> World T -> Prop) : Prop :=
  forall w, I w -> match m w with (Ok a, w') => Q a w' | (Throw e, w') => X e w' end.

Definition never (e : exn) (w : World T) : Prop := False.

Lemma triple_weaken {A} (I I' : World T -> Prop) (m : W A) (Q Q' : A -> World T -> Prop) X X' :
  triple I m Q X -> (forall w, I' w -> I w) -> (forall a w, Q a w -> Q' a w) ->
  (forall e w, X e w -> X' e w) -> triple I' m Q' X'.
Proof. intros H Hi Hq Hx w Hw. specialize (H w (Hi w Hw)). destruct (m w) as [[a|e] w']; auto. Qed.

Lemma triple_ret {A} (a : A) (Q : A -> World T -> Prop) X : triple (Q a) (ret a) Q X.
Proof. by intros w. Qed.

Lemma triple_bind {A B} I (m : W A) (k : A -> W B) Q R X :
  triple I m Q X -> (forall a, triple (Q a) (k a) R X) -> triple I (bind m k) R X.
Proof.
  intros Hm Hk w Hw. unfold bind. specialize (Hm w Hw). destruct (m w) as [[a|e] w']; [|done].
  by apply Hk.
Qed.

Lemma triple_try_catch {A} I (m : W A) h Q X X' :
  triple I m Q X' -> (forall e, triple (X' e) (h e) Q X) -> triple I (try_catch m h) Q X.
Proof.
  intros Hm Hh w Hw. unfold try_catch. specialize (Hm w Hw). destruct (m w) as [[a|e] w']; [done|].
  by apply Hh.
Qed.

(** Every exception is a [std::exception], so the handler runs. *)
Definition standard (I : World T -> Prop) (e : exn) (w : World T) : Prop := exn_what e <> None /\ I w.

Lemma triple_catch_std {A} I I' (m : W A) h Q X : triple I m Q (standard I') ->
  (forall what, triple I' (h what) Q X) -> triple I (catch_std m h) Q X.
Proof.
  intros Hm Hh. eapply triple_try_catch; [exact Hm|]. intros e w [He Hw].
  destruct (exn_what e) as [what|]; [by apply Hh|done].
Qed.

Lemma triple_unless_returned {R A} I J Q (m : W (option R)) (k : W (A + R)) X :
  triple I m (fun o w => match o with Some r => Q (inr r) w | None => J w end) X ->
  triple J k Q X -> triple I (unless_returned m k) Q X.
Proof.
  intros Hm Hk. eapply triple_bind; [exact Hm|]. intros [r|]; [|exact Hk]. by intros w.
Qed.

Lemma triple_lift_ok {A} (a : A) (Q : A -> World T -> Prop) X r : r = Ok a -> triple (Q a) (lift r) Q X.
Proof. by intros -> w. Qed.

End triples.

Section client_total.
  Context {T : TransportOps} {TE : TransportErrors T} {P : Platform} {HP : PlatformLaws P} (env : Env T).
  Variable cfg : Config.

(** What the parts promise. *)
Record well_served : Prop := {
  served_discovery : forall o k e, discover env o k = Throw e -> exists what, e = DiscoveryError what;
  served_config : delays cfg;
  served_clock : forall k d t, In d [receive_timeout cfg; reconnect_max_delay cfg] ->
    checked_duration d = Ok t -> clock env k <= time_point_max - t;
}.
Hypothesis Hserved : well_served.

(** The configuration is the client's, and, with [b], the sensor's is known. *)
Definition inv (b : bool) (w : World T) : Prop :=
  config_ (im w) = cfg /\ (b = true -> is_Some (sensor_configuration (health_ (im w)))).

Lemma inv_interleave b w : inv b w -> inv b (interleave env w).
Proof.
  intros [Hc Hs]. split; [by rewrite interleave_config|].
  by rewrite (interleave_keeps env (fun i => sensor_configuration (health_ i))).
Qed.

Lemma inv_false b w : inv b w -> inv false w.
Proof. by intros [? _]. Qed.

Lemma inv_event b e (w : World T) : inv b w -> inv b (record_event e w).
Proof. done. Qed.

Lemma count_record_configured r at_ rdt ft sev (i : Impl T) :
  sensor_configuration (health_ (count_record r at_ rdt ft sev i)) = sensor_configuration (health_ i).
Proof.
  unfold count_record, count_severity, count_ft, count_rdt. cbv zeta.
  destruct (sequence_kind rdt), ft, sev; reflexivity.
Qed.

Lemma set_health_configured f (i : Impl T) :
  (forall h, sensor_configuration (f h) = sensor_configuration h) ->
  sensor_configuration (health_ (set_health f i)) = sensor_configuration (health_ i).
Proof. intros Hf. apply Hf. Qed.

Lemma session_section_configured f (i : Impl T) : session_section f ->
  is_Some (sensor_configuration (health_ i)) -> is_Some (sensor_configuration (health_ (f i))).
Proof.
  destruct 1 as [| | |v| | |r a| |]; intros Hs; try exact Hs.
  - unfold apply_configuration. repeat case_match; by eexists.
  - unfold timeout_section. by case_match.
  - destruct Hs as [c Hc]. rewrite (record_section_eq r a i c Hc). cbv zeta.
    destruct (_ && _); exists c; cbn [snd];
      rewrite ?set_health_configured, count_record_configured by done; exact Hc.
Qed.

Lemma inv_section b f (w : World T) : session_section f -> inv b w -> inv b (set_im (f (im w)) w).
Proof.
  intros Hf [Hc Hs]. split; simpl; [by rewrite session_section_config|].
  intros Hb. apply session_section_configured; auto.
Qed.

(** *** The primitives *)

Lemma triple_locked {A} b (f : Impl T -> result A * Impl T) (Q : A -> World T -> Prop) X :
  (forall w, inv b w -> match f (im w) with
     | (Ok a, i) => Q a (set_im i w) | (Throw e, i) => X e (set_im i w) end) ->
  triple (inv b) (locked env f) Q X.
Proof.
  intros Hf w Hw%inv_interleave. unfold locked. specialize (Hf _ Hw).
  by destruct (f (im (interleave env w))) as [[a|e] i].
Qed.

Lemma triple_modify b f X : session_section f -> triple (inv b) (modify env f) (fun _ => inv b) X.
Proof. intros Hf. apply triple_locked. intros w Hw. by apply inv_section. Qed.

Lemma triple_read {A} b (f : Impl T -> A) X :
  triple (inv b) (read env f) (fun a w => inv b w /\ a = f (im w)) X.
Proof. apply triple_locked. intros w Hw. by destruct w. Qed.

Lemma triple_read_clock b X :
  triple (inv b) (read_clock env) (fun now w => inv b w /\ exists k, now = clock env k) X.
Proof. intros w Hw%inv_interleave. simpl. by split; [|eexists]. Qed.

Lemma triple_receive b timeout :
  triple (inv b) (receive env timeout) (fun _ => inv b) (standard (inv b)).
Proof.
  intros w Hw. unfold receive. cbv zeta.
  assert (inv b (interleave env (interleave env w))) as Hw2 by by do 2 apply inv_interleave.
  destruct (transport_receive _ _ _ _ _) as [bytes|e] eqn:E; [done|]. split; [|done].
  by apply receive_error in E.
Qed.

Lemma triple_call_callback b s X : triple (inv b) (call_callback env s) (fun _ => inv b) X.
Proof. intros w Hw%inv_interleave. unfold call_callback. by destruct (callback_ _). Qed.

(** A deadline for a timeout of the configuration. *)
Lemma receive_deadline k : exists d, checked_deadline (clock env k) (receive_timeout cfg) = Ok d.
Proof.
  destruct Hserved as [_ [_ _ Hs] Hclock]. destruct Hs as [_ _ _ Hd _ _ _ _].
  apply Forall_cons_1 in Hd as [[_ _ (t & Ht & _) _] _].
  specialize (Hclock k _ t (in_eq _ _) Ht). unfold checked_deadline. rewrite Ht. simpl.
  destruct (Z.ltb_spec (time_point_max - t) (clock env k)); [lia|by eexists].
Qed.

Lemma backoff_deadline k b : good_delay cfg b ->
  exists d, checked_deadline (clock env k) b = Ok d.
Proof.
  destruct Hserved as [_ Hd Hclock]. intros Hb.
  destruct (good_delay_duration _ _ Hd Hb) as (t & tm & Ht & Hle & Htm).
  specialize (Hclock k _ tm (in_cons _ _ _ (in_eq _ _)) Htm). unfold checked_deadline. rewrite Ht. simpl.
  destruct (Z.ltb_spec (time_point_max - t) (clock env k)); [lia|by eexists].
Qed.

(** *** The blocks of a session *)

Lemma triple_failed_outcome b r what valid X :
  triple (inv b) (failed_outcome env r what valid) (fun _ => inv b) X.
Proof.
  eapply triple_bind; [apply triple_read|]. intros s w [Hw _]. exact Hw.
Qed.

Lemma triple_fail {A} b r what valid X :
  triple (inv b) (bind (failed_outcome env r what valid) (fun o => ret (inr o : A + SessionOutcome)))
    (fun _ => inv b) X.
Proof. eapply triple_bind; [apply triple_failed_outcome|]. intros o w Hw. exact Hw. Qed.

Lemma triple_fail_some b r what valid X :
  triple (inv b) (bind (failed_outcome env r what valid) (fun o => ret (Some o))) (fun _ => inv b) X.
Proof. eapply triple_bind; [apply triple_failed_outcome|]. intros o w Hw. exact Hw. Qed.

Lemma triple_return_if_stopping b valid X :
  triple (inv b) (return_if_stopping env valid) (fun _ => inv b) X.
Proof. eapply triple_bind; [apply triple_read|]. intros s w [Hw _]. exact Hw. Qed.

(** An early return, or on with the same invariant. *)
Lemma triple_early {R A} b b' (m : W (option R)) (k : W (A + R)) Q X :
  triple (inv b) m (fun o => inv (match o with Some _ => b | None => b' end)) X ->
  (forall r w, inv b w -> Q (inr r) w) -> triple (inv b') k Q X ->
  triple (inv b) (unless_returned m k) Q X.
Proof.
  intros Hm Hq Hk. eapply triple_unless_returned; [|exact Hk].
  eapply triple_weaken; [exact Hm|done| |done]. intros [r|] w Hw; auto.
Qed.

Lemma triple_always {R} b (m : W (option R)) X : triple (inv b) m (fun _ => inv b) X ->
  triple (inv b) m (fun o => inv (match o with Some _ => b | None => b end)) X.
Proof. intros Hm. eapply triple_weaken; [exact Hm|done| |done]. by intros [] w. Qed.

Lemma triple_discover_block : triple (inv false) (discover_block env)
  (fun o => inv (match o with Some _ => false | None => true end)) never.
Proof.
  eapply (triple_try_catch _ _ _ _ _ (fun e w => (exists what, e = DiscoveryError what) /\ inv false w)).
  - eapply (triple_bind _ _ _ (fun _ => inv false)).
    + intros w Hw%inv_interleave. unfold configuration_for_session. cbv zeta.
      destruct (calibration_override _); [done|].
      destruct (discover env _ _) as [c|e] eqn:E; [done|]. split; [|done].
      by eapply (served_discovery Hserved).
    + intros c. eapply (triple_bind _ _ _ (fun _ => inv true)).
      * apply triple_locked. intros w Hw. destruct Hw as [Hc _]. split; simpl.
        -- by rewrite (session_section_config _ _ (sec_apply c)).
        -- intros _. unfold apply_configuration. repeat case_match; by eexists.
      * intros [] w Hw. exact Hw.
  - intros e. intros w [(what & ->) Hw].
    exact (triple_fail_some false ResSensorConfiguration what false never w Hw).
Qed.

Lemma triple_connect_block b : triple (inv b) (connect_block env) (fun _ => inv b) never.
Proof.
  eapply (triple_catch_std _ (inv b)); [|intros what; apply triple_fail_some].
  eapply (triple_bind _ _ _ (fun _ => inv b)).
  - intros w Hw%inv_interleave. unfold connect. cbv zeta.
    destruct (transport_connect _ _ _ _) as [[[]|e] t] eqn:E; [exact Hw|].
    split; [by eapply connect_error|exact Hw].
  - intros []. intros w Hw%inv_interleave. unfold start_streaming. cbv zeta.
    destruct (stopping_ _); [exact Hw|]. unfold send_command.
    destruct (transport_send _ _ _) as [[]|e] eqn:E; [exact Hw|].
    split; [by eapply send_error|exact Hw].
Qed.

Lemma triple_setup : triple (inv false) (session_setup env)
  (fun r => inv (match r with inl _ => true | inr _ => false end)) never.
Proof.
  eapply triple_bind; [apply triple_modify; constructor|]. intros [].
  apply (triple_early false false); [apply triple_always, triple_return_if_stopping|done|].
  apply (triple_early false true); [exact triple_discover_block|done|].
  apply (triple_early true true);
    [apply triple_always, triple_return_if_stopping|by intros ? ? ?%inv_false|].
  apply (triple_early true true); [apply triple_always, triple_connect_block|by intros ? ? ?%inv_false|].
  eapply triple_bind; [apply (triple_modify true); constructor|]. intros [].
  eapply triple_bind; [apply triple_read|]. intros config.
  eapply (triple_bind _ _ _ (fun now w => inv true w /\ config = cfg /\ exists k, now = clock env k)).
  - intros w [Hw ->]. simpl. pose proof (inv_interleave _ _ Hw) as Hw'. split; [done|].
    split; [apply Hw|by eexists].
  - intros now w (Hw & -> & k & ->). destruct (receive_deadline k) as [d Hd].
    unfold bind, lift. rewrite Hd. exact Hw.
Qed.

(** *** The receive loop *)

Lemma triple_handle_record r at_ : triple (inv true) (handle_record env r at_) (fun _ => inv true) never.
Proof.
  eapply (triple_bind _ _ _ (fun _ => inv true)).
  - apply triple_locked. intros w Hw.
    pose proof (inv_section true _ w (sec_record r at_) Hw) as Hw'. destruct Hw as [_ Hs].
    destruct (Hs eq_refl) as [c Hc]. revert Hw'. cbv beta.
    rewrite (record_section_eq r at_ (im w) c Hc). cbv zeta. by destruct (_ && _).
  - intros d. destruct (negb _); [by intros w|]. cbv zeta. destruct (negb _); [by intros w|].
    eapply triple_bind; [apply triple_call_callback|]. intros [what|].
    + eapply triple_bind; [apply triple_modify; constructor|]. intros [].
      eapply triple_bind; [apply triple_read|]. intros config w [Hw _]. exact Hw.
    + eapply triple_bind; [apply triple_modify; constructor|]. intros [] w Hw. exact Hw.
Qed.

Lemma triple_timeout {A} b valid :
  triple (inv b) (bind (locked env (timeout_section valid)) (fun o => ret (inr o : A + SessionOutcome)))
    (fun _ => inv b) never.
Proof.
  eapply (triple_bind _ _ _ (fun _ => inv b)); [|by intros o w].
  apply triple_locked. intros w Hw. pose proof (inv_section b _ w (sec_timeout valid) Hw) as Hw'.
  revert Hw'. cbv beta. unfold timeout_section. by case_match.
Qed.

Lemma decode_record_throw data size e : decode_record (Some data) size = Throw e ->
  exists what, e = ProtocolError what.
Proof. unfold decode_record. destruct (negb _); [intros [= <-]; by eexists|done]. Qed.

Lemma triple_datagram ls bytes : triple (inv true) (session_datagram env ls bytes) (fun _ => inv true) never.
Proof.
  destruct ls as [deadline valid]. unfold session_datagram. cbv zeta.
  destruct (_ =? 0); [apply triple_timeout|].
  destruct (decode_record _ _) as [record|e] eqn:E.
  - eapply triple_bind; [apply triple_read_clock|]. intros received_at.
    eapply (triple_bind _ _ _ (fun _ w => inv true w /\ exists k, received_at = clock env k)).
    { intros w [Hw Hk]. split; [|exact Hk].
      exact (triple_modify true _ never sec_wellformed w Hw). }
    intros []. eapply (triple_bind _ _ _ (fun config w => inv true w /\ config = cfg /\ exists k, received_at = clock env k)).
    { intros w [Hw Hk]. pose proof (triple_read true config_ never w Hw) as [Hw' Hc].
      split; [exact Hw'|]. split; [|exact Hk]. rewrite Hc. apply Hw'. }
    intros config w (Hw & -> & k & ->). destruct (receive_deadline k) as [d Hd].
    unfold bind at 1, lift. rewrite Hd. revert w Hw.
    change (triple (inv true) (bind (handle_record env record (clock env k)) (fun o => match o with
      | Some r => ret (inr (MkSessionOutcome r "" true)) | None => ret (inl (d, true)) end)) (fun _ => inv true) never).
    eapply triple_bind; [apply triple_handle_record|]. by intros [r|] w.
  - apply decode_record_throw in E as [what ->].
    eapply (triple_bind _ _ _ (fun _ => inv true)).
    + apply triple_locked. intros w Hw. exact (inv_section true _ w sec_malformed Hw).
    + by intros [] w.
Qed.

Lemma triple_step ls : triple (inv true) (session_step env ls) (fun _ => inv true) never.
Proof.
  unfold session_step. apply (triple_early true true);
    [apply triple_always, triple_return_if_stopping|done|].
  destruct ls as [deadline valid]. unfold session_body.
  eapply triple_bind; [apply triple_read_clock|]. intros now.
  destruct (deadline <=? now).
  { intros w [Hw _]. exact (triple_timeout true valid w Hw). }
  eapply (triple_bind _ _ _ (fun _ => inv true)).
  - eapply (triple_catch_std _ (inv true)); [|intros what; apply triple_fail].
    eapply (triple_bind _ _ _ (fun _ => inv true)); [|by intros a w].
    intros w [Hw _]. exact (triple_receive true _ w Hw).
  - intros [bytes|o]; [|by intros w]. apply (triple_early true true);
      [apply triple_always, triple_return_if_stopping|done|apply triple_datagram].
Qed.

Lemma session_loop_total fuel : forall ls w r w', inv true w -> session_loop env fuel ls w = Some (r, w') ->
  inv true w' /\ exists o, r = Ok o.
Proof.
  induction fuel as [|n IH]; intros ls w r w' Hw H; [done|]. simpl in H.
  pose proof (triple_step ls w Hw) as Hs.
  destruct (session_step env ls w) as [[[ls'|o]|e] w1]; [by eapply IH| |done].
  injection H as <- <-. split; [done|by eexists].
Qed.

Lemma receive_session_total fuel w r w' : inv false w -> receive_session env fuel w = Some (r, w') ->
  inv false w' /\ exists o, r = Ok o.
Proof.
  intros Hw H. unfold receive_session in H. pose proof (triple_setup w Hw) as Hs.
  destruct (session_setup env w) as [[[d|o]|e] w1]; [| |done].
  - apply session_loop_total in H as [Hw' ?]; [|done]. split; [by eapply inv_false|done].
  - injection H as <- <-. split; [done|by eexists].
Qed.

(** *** The loop around the sessions *)

Lemma inv_config w : inv false w <-> config_ (im w) = cfg.
Proof. split; [by intros []|]. by intros. Qed.

Lemma set_fault_config code m w : config_ (im (set_fault env code m w)) = config_ (im w).
Proof.
  rewrite <- (interleave_config env w). unfold set_fault, fault_section.
  by destruct (publish _ _ _ _ _) as [[? ?] ?].
Qed.

Lemma next_good b : good_delay cfg b -> good_delay cfg (next_backoff cfg b).
Proof. intros Hb. apply (next_backoff_mag cfg b); [apply Hserved|done]. Qed.

Lemma initial_good : good_delay cfg (reconnect_initial_delay cfg).
Proof. apply (delays_order cfg), Hserved. Qed.

Lemma after_session_total b o w r w' : good_delay cfg b -> config_ (im w) = cfg ->
  after_session env b o w = (r, w') ->
  config_ (im w') = cfg /\ exists s, r = Ok s /\ forall b', s = RunContinue b' -> good_delay cfg b'.
Proof.
  intros Hb Hc. unfold after_session. cbv zeta. rewrite Hc.
  set (o1 := if String.eqb _ _ then _ else _). clearbody o1.
  destruct (_ && _); [intros [= <- <-]; split; [by rewrite set_fault_config|by exists RunBreak]|].
  destruct (bool_decide _); [intros [= <- <-]; split; [done|by exists RunBreak]|].
  pose proof (interleave_config env w) as Hc1. rewrite Hc in Hc1. set (w1 := interleave env w) in *.
  destruct (stopping_ (im w1)); [intros [= <- <-]; split; [done|by exists RunBreak]|].
  set (b1 := if received_valid_record o1 then _ else _).
  assert (good_delay cfg b1) as Hb1 by (unfold b1; destruct (received_valid_record o1); [apply initial_good|done]).
  clearbody b1. match goal with |- context [checked_deadline (clock env ?k) b1] =>
    destruct (backoff_deadline k b1 Hb1) as [d ->] end.
  intros [= <- <-]. split.
  - rewrite !interleave_config. etrans; [apply (interleave_config env w1)|exact Hc1].
  - eexists. split; [done|]. intros b' [= <-]. by apply next_good.
Qed.

Lemma run_loop_total fuel : forall b w r w', good_delay cfg b -> config_ (im w) = cfg ->
  run_loop env fuel b w = Some (r, w') -> r = Ok tt /\ config_ (im w') = cfg.
Proof.
  induction fuel as [|n IH]; intros b w r w' Hb Hc H; [done|]. cbn [run_loop] in H. cbv zeta in H.
  pose proof (interleave_config env w) as Hc1. set (w1 := interleave env w) in *. clearbody w1.
  rewrite Hc in Hc1. destruct (stopping_ (im w1)); [by injection H as <- <-|].
  pose proof (interleave_config env w1) as Hc2. set (w2 := interleave env w1) in *. clearbody w2.
  rewrite Hc1 in Hc2. destruct (faulted_ (im w2)); [by injection H as <- <-|].
  destruct (receive_session env (S n) w2) as [[ro w3]|] eqn:Es; [|done].
  destruct (receive_session_total _ _ _ _ (proj2 (inv_config w2) Hc2) Es) as [Hc3%inv_config [o ->]].
  destruct (after_session env b o (close_session env w3)) as [r5 w5] eqn:Ea.
  destruct (after_session_total _ _ _ _ _ Hb ltac:(by rewrite close_session_config) Ea)
    as (Hc5 & s & -> & Hs). destruct s as [b'|]; [|by injection H as <- <-].
  by apply (IH b' w5); [apply Hs| |].
Qed.

(** ** Property *)

(** C3: a client that reconnects never gives up: with a validated configuration,
    a transport that throws only [std::exception]s, discovery that throws only
    [DiscoveryError]s and a clock that is not about to end, no exception ever
    leaves the worker's loop, whatever the sensor, the network, the callback and
    the other threads do.  Under [Reconnect] the worker therefore returns only
    after a [stop], without a fault and in state Stopped; and once some thread
    has requested the stop, it does return. *)
Theorem reconnect_never_gives_up w : idle w -> config_ (im w) = cfg ->
  recovery_policy cfg = Reconnect ->
  (forall fuel w', run env fuel w = Some w' -> worker_exited_ (im w') = true /\
     stopping_ (im w') = true /\ fault_code_ (im w') = FaultNone /\ state (health_ (im w')) = Stopped) /\
  (forall N fuel, In ActStopFlag (others env N) -> (tick w <= N)%nat -> (N + 2 <= fuel)%nat ->
     exists w', run env fuel w = Some w').
Proof.
  intros Hi Hc Hp. split.
  - intros fuel w' H. unfold run in H. rewrite Hc in H.
    destruct (run_loop env fuel _ w) as [[r w1]|] eqn:E; [|done].
    destruct (run_loop_total _ _ _ _ _ initial_good Hc E) as [-> _]. injection H as <-.
    destruct (run_loop_reconnect env fuel _ _ _ Hi ltac:(by rewrite Hc) E) as [Hs Hf].
    destruct (finish_clean env _ Hf) as (? & ? & ?). split; [done|]. split; [|done].
    by apply (finish_session_facts env w1).
  - intros N fuel Hn Ht Hf.
    destruct (run_loop_ends env N Hn fuel (reconnect_initial_delay (config_ (im w))) w) as (r & w1 & E & _);
      [done|intros H; lia|lia..|].
    unfold run. rewrite E. destruct r; by eexists.
Qed.

End client_total.

(** ** Discovery over HTTP as the client's

    [discover_sensor] of step [k], with the answers libcurl gives then; libcurl
    has been initialised.  The last branch is never taken
    ([sensor_discovery_errors]). *)
Definition sensor_discovery `{P : Platform, N : NumericInput} (answers : nat -> CurlAnswer) (rounding : FenvAnswer)
    (o : DiscoveryOptions) (k : nat) : result SensorConfiguration :=
  match fst (discover_sensor (answers k) rounding rounding o (Some true)) with
  | Some r => r
  | None => Throw UnknownException
  end.

Lemma sensor_discovery_errors `{P : Platform, N : NumericInput} answers rounding o k e :
  (forall k, Forall wf_chunk (curl_chunks (answers k))) ->
  sensor_discovery answers rounding o k = Throw e -> exists what, e = DiscoveryError what.
Proof.
  intros Hch. destruct (discover_sensor_spec (answers k) rounding rounding o (Some true) (Hch k))
    as (r & g' & E & _ & Hr). unfold sensor_discovery. rewrite E. simpl. by intros ->.
Qed.

(** ** Witness: the client over the scripted network, discovering by HTTP *)

#[export] Instance scripted_errors : TransportErrors scripted_transport.
Proof.
  split; simpl.
  - intros [d|] _ _ t t' e; [done|]. by intros [= <- _].
  - intros a _ t e. destruct (open_ t); [|by intros [= <-]]. destruct a; [done|by intros [= <-]].
  - intros a c _ t t' e. unfold scripted_receive. destruct (open_ t); [|by intros [= <-]]. simpl.
    destruct (_ || _); [done|]. destruct a; [done|by intros [= <-]].
Qed.

Definition discovering_config : Config := default_config <| recovery_policy := Reconnect |>.

Definition discovering_env : Env scripted_transport :=
  MkEnv (fun k => Z.min (clock streaming_env k) (10 ^ 15)) (others streaming_env) (net streaming_env)
    (sensor_discovery (N := libstdcxx) (fun _ => example_curl) nearest_mode) (user streaming_env).

Lemma discovering_delays : delays discovering_config.
Proof.
  constructor; [reflexivity|reflexivity|].
  apply (validate_config_ok (fun _ => 0) discovering_config). vm_compute. reflexivity.
Qed.

Lemma reconnect_never_gives_up_witness : exists w',
  run discovering_env 62 (started discovering_config) = Some w' /\
  fault_code_ (im w') = FaultNone /\ state (health_ (im w')) = Stopped.
Proof.
  assert (well_served discovering_env discovering_config) as Hs.
  { split.
    - intros o k e. apply sensor_discovery_errors. intros _. apply example_curl_wf.
    - apply discovering_delays.
    - intros k d t [<-|[<-|[]]] Ht; vm_compute in Ht; injection Ht as <-;
        change (time_point_max) with (2 ^ 63 - 1); unfold discovering_env; cbn [clock]; lia. }
  destruct (reconnect_never_gives_up discovering_env discovering_config Hs (started discovering_config))
    as [Hsafe Hends]; [apply started_idle|reflexivity|reflexivity|].
  destruct (Hends 60%nat 62%nat) as [w' Hw']; [by left|simpl; lia|lia|].
  exists w'. split; [exact Hw'|]. destruct (Hsafe 62%nat w' Hw') as (_ & _ & Hf & Hst).
  exact (conj Hf Hst).
Defined.
