(* ===== verification/UdpPosix.v ===== *)
(** * The POSIX transport: src/src/detail/udp_transport_posix.cpp

    The methods of [UdpTransport].  Each is one critical section of [mutex_],
    except [receive], which reads the members when it begins and again when its
    wait is over.  The operating system is [PosixAnswer]; every method also
    returns the system calls it makes, in order, so that the use of descriptors
    can be stated.  The test hook is left out. *)

From S2P Require Export Sockets Protocol.

#[local] Open Scope Z_scope.

(** ** The operating system *)

(** The last [poll]: an error that is not [EINTR], no event, or events, [nval]
    being whether [POLLNVAL] is among them. *)
Inductive PollAnswer :=
| PollError (errno : Z)
| PollTimeout
| PollReady (nval : bool).

Definition EINTR : Z := 4.

(** The calls that block are taken to return: [poll] is interrupted at most
    finitely often, [poll_interrupts] being the clock after each interruption. *)
Record PosixAnswer := MkPosixAnswer {
  resolved : Z + list Attempt;
  send_answer : Z + Z;
  poll_start : Z;
  poll_interrupts : list Z;
  poll_answer : PollAnswer;
  recv_answer : Z + list Z;
}.

(** ** The methods *)

Section posix.
  Context `{P : Platform} (strerror gai_strerror : Z -> string).

Definition socket_error (operation : string) (errno : Z) : exn :=
  RuntimeError (operation +:+ ": " +:+ strerror errno).

Definition udp_connect (a : PosixAnswer) (t : UdpTransport) : result unit * UdpTransport * list Syscall :=
  match resolved a with
  | inl code => (Throw (RuntimeError ("failed to resolve sensor: " +:+ gai_strerror code)), t, [])
  | inr addresses =>
      let '(calls, r) := try_addresses addresses 0 in
      match r with
      | inl last_error => (Throw (socket_error "failed to connect UDP socket" last_error), t, calls)
      | inr fd => (Ok tt, MkUdpTransport (Some fd) false, calls ++ close_calls t)
      end
  end.

Definition udp_send (a : PosixAnswer) (request : list Z) (t : UdpTransport) : result unit * list Syscall :=
  match socket_ t with
  | None => (Throw not_connected, [])
  | Some fd =>
      (match send_answer a with
       | inl errno => Throw (socket_error "failed to send UDP request" errno)
       | inr sent => throw_if (negb (sent =? Z.of_nat (length request)))
                       (RuntimeError "short UDP request write")
       end, [SysSend fd request])
  end.

(** How the polling loop ends: with what [poll] answered, or at the deadline. *)
Inductive PollEnd := PollEnded (answer : PollAnswer) | PollExpired.

Fixpoint poll_loop (fd : Z) (deadline : Z) (remaining : float) (interrupts : list Z) (last : PollAnswer)
    : PollEnd * list Syscall :=
  let call := SysPoll fd (timeout_milliseconds remaining) in
  match interrupts with
  | [] => (PollEnded last, [call])
  | now :: rest =>
      if deadline <=? now then (PollExpired, [call])
      else
        let '(r, calls) := poll_loop fd deadline (seconds_of_ns (deadline - now)) rest last in
        (r, call :: calls)
  end.

(** After the poll: [t'] is the transport then; [fd] was read on entry. *)
Definition receive_ready (a : PosixAnswer) (fd : Z) (capacity : Z) (nval : bool) (t' : UdpTransport)
    : result (list Z) * list Syscall :=
  if shutdown_requested_ t' then (Ok [], [])
  else if nval then (Throw (RuntimeError "UDP socket became invalid"), [])
  else
    (match recv_answer a with
     | inl errno => if errno =? EINTR then Ok []
                    else Throw (socket_error "failed to receive UDP record" errno)
     | inr bytes => Ok (take (Z.to_nat capacity) bytes)
     end, [SysRecv fd capacity]).

Definition udp_receive (a : PosixAnswer) (capacity : Z) (timeout : float) (t t' : UdpTransport)
    : result (list Z) * list Syscall :=
  match socket_ t with
  | None => (Throw not_connected, [])
  | Some fd =>
      if shutdown_requested_ t then (Ok [], [])
      else
        match checked_deadline (poll_start a) timeout with
        | Throw e => (Throw e, [])
        | Ok deadline =>
            let '(r, calls) := poll_loop fd deadline timeout (poll_interrupts a) (poll_answer a) in
            match r with
            | PollExpired | PollEnded PollTimeout => (Ok [], calls)
            | PollEnded (PollError errno) =>
                (Throw (socket_error "failed to wait for UDP record" errno), calls)
            | PollEnded (PollReady nval) =>
                let '(r, more) := receive_ready a fd capacity nval t' in (r, calls ++ more)
            end
        end
  end.

Definition udp_shutdown (t : UdpTransport) : UdpTransport * list Syscall :=
  (t <| shutdown_requested_ := true |>,
   match socket_ t with Some fd => [SysShutdown fd] | None => [] end).

Definition udp_close (t : UdpTransport) : UdpTransport * list Syscall :=
  (MkUdpTransport None true, close_calls t).

(** ** The interface *)

Definition posix_transport : TransportOps := {|
  transport := UdpTransport;
  os_answer := PosixAnswer;
  transport_initial := udp_initial;
  transport_connect a host port t := fst (udp_connect a t);
  transport_send a bytes t := fst (udp_send a bytes t);
  transport_receive a capacity timeout t t' := fst (udp_receive a capacity timeout t t');
  transport_shutdown t := fst (udp_shutdown t);
  transport_close t := fst (udp_close t);
  is_connected t := bool_decide (is_Some (socket_ t));
  is_shutdown := shutdown_requested_;
|}.

End posix.

(** ** The promises of the interface *)

Section laws.
  Context {P : Platform} (strerror gai_strerror : Z -> string).

  #[local] Abbreviation T := (posix_transport strerror gai_strerror).

Lemma receive_ok_shutdown a capacity timeout t t' bytes calls :
  udp_receive strerror a capacity timeout t t' = (Ok bytes, calls) ->
  shutdown_requested_ t = true \/ shutdown_requested_ t' = true -> bytes = [].
Proof.
  unfold udp_receive, receive_ready. destruct (socket_ t); [|done].
  destruct (shutdown_requested_ t); [by intros [= <-]|]. intros H [|Ht']; [done|]. rewrite Ht' in H.
  repeat case_match; by simplify_eq.
Qed.

Lemma receive_ok_capacity a capacity timeout t t' bytes calls : 0 <= capacity ->
  udp_receive strerror a capacity timeout t t' = (Ok bytes, calls) -> Z.of_nat (length bytes) <= capacity.
Proof.
  intros Hc. unfold udp_receive, receive_ready.
  repeat case_match; intros; simplify_eq; simpl; try lia. rewrite length_take. lia.
Qed.

#[export] Instance posix_laws : TransportLaws T.
Proof.
  split; simpl; try done.
  - intros a _ _ t t' H. unfold udp_connect in H.
    destruct (resolved a) as [|l]; [done|]. destruct (try_addresses l 0) as [calls [|fd]]; [done|].
    injection H as <-. done.
  - intros a _ _ t t' e H. unfold udp_connect in H.
    destruct (resolved a) as [|l]; [by injection H|]. destruct (try_addresses l 0) as [calls [|fd]]; by injection H.
  - intros a bytes t. unfold udp_send. by destruct (socket_ t).
  - intros a cap timeout t t' bytes. unfold udp_receive. by destruct (socket_ t).
  - intros a cap timeout t t' bytes H. destruct (udp_receive _ _ _ _ _ _) eqn:E. simpl in H. subst.
    by eapply receive_ok_shutdown.
  - intros a cap timeout t t' bytes Hc H. destruct (udp_receive _ _ _ _ _ _) eqn:E. simpl in H. subst.
    by eapply receive_ok_capacity.
Qed.

#[export] Instance posix_errors : TransportErrors T.
Proof.
  split; simpl.
  - intros a _ _ t t' e H. unfold udp_connect, socket_error in H. repeat case_match; by simplify_eq/=.
  - intros a bytes t e H. unfold udp_send in H. destruct (socket_ t); [|by injection H as <-].
    unfold throw_if in H. simpl in H. repeat case_match; by simplify_eq/=.
  - intros a cap timeout t t' e H. unfold udp_receive, receive_ready in H.
    destruct (socket_ t); [|by injection H as <-].
    destruct (shutdown_requested_ t); [done|].
    destruct (checked_deadline _ _) as [d|e'] eqn:Ed.
    2: { apply checked_deadline_throw in Ed as [what ->]. by simplify_eq/=. }
    repeat case_match; by simplify_eq/=.
Qed.

End laws.

(** The methods, as they are called; [shut] is whether another thread shuts the
    transport down during the wait.  The destructor is [OpClose]. *)
Inductive UdpOp :=
| OpConnect (a : PosixAnswer)
| OpSend (a : PosixAnswer) (request : list Z)
| OpReceive (a : PosixAnswer) (capacity : Z) (timeout : float) (shut : bool)
| OpShutdown
| OpClose.

Section descriptors.
  Context {P : Platform} (strerror gai_strerror : Z -> string).

Definition udp_op (op : UdpOp) (t : UdpTransport) : UdpTransport * list Syscall :=
  match op with
  | OpConnect a => let '(_, t', calls) := udp_connect strerror gai_strerror a t in (t', calls)
  | OpSend a request => (t, snd (udp_send strerror a request t))
  | OpReceive a capacity timeout shut =>
      let '(t', during) := if shut : bool then udp_shutdown t else (t, []) in
      (t', during ++ snd (udp_receive strerror a capacity timeout t t'))
  | OpShutdown => udp_shutdown t
  | OpClose => udp_close t
  end.

(** The kernel does not hand out a descriptor that is open. *)
Definition fresh_op (op : UdpOp) (t : UdpTransport) : Prop :=
  match op with
  | OpConnect a =>
      forall l, resolved a = inr l -> Forall (fun at_ => forall fd, attempt_fd at_ = Some fd -> socket_ t <> Some fd) l
  | _ => True
  end.

Lemma poll_loop_uses fd deadline interrupts last : forall remaining,
  Forall (fun c => exists ms, c = SysPoll fd ms) (snd (poll_loop fd deadline remaining interrupts last)).
Proof.
  induction interrupts as [|now rest IH]; intros remaining; cbn [poll_loop].
  - constructor; [by eexists|constructor].
  - destruct (_ <=? _); [constructor; [by eexists|constructor]|].
    specialize (IH (seconds_of_ns (deadline - now))).
    destruct (poll_loop _ _ _ rest last). constructor; [by eexists|exact IH].
Qed.

Lemma udp_receive_uses a capacity timeout t t' :
  Forall (fun c => exists fd, socket_ t = Some fd /\
    (c = SysRecv fd capacity \/ exists ms, c = SysPoll fd ms))
  (snd (udp_receive strerror a capacity timeout t t')).
Proof.
  unfold udp_receive, receive_ready.
  destruct (socket_ t) as [fd|]; [|constructor]. destruct (shutdown_requested_ t); [constructor|].
  destruct (checked_deadline _ _) as [d|]; [|constructor].
  pose proof (poll_loop_uses fd d (poll_interrupts a) (poll_answer a) timeout) as H.
  destruct (poll_loop _ _ _ _ _) as [r calls]. simpl in H.
  assert (Forall (fun c => exists fd0, Some fd = Some fd0 /\
    (c = SysRecv fd0 capacity \/ exists ms, c = SysPoll fd0 ms)) calls) as Hc
    by (eapply Forall_impl; [exact H|]; intros c [ms ->]; exists fd; eauto).
  repeat case_match; simplify_eq/=; try done; apply Forall_app_2; try done; repeat constructor; eauto.
Qed.

(** A method's calls are all legal and leave open what the transport holds. *)
Lemma udp_op_replay op t : fresh_op op t ->
  replay (snd (udp_op op t)) (held t) = Some (held (fst (udp_op op t))).
Proof.
  intros Hf. destruct op as [a|a request|a capacity timeout shut| |]; cbn [udp_op fresh_op] in *.
  - unfold udp_connect. destruct (resolved a) as [code|l]; [done|].
    destruct (try_addresses l 0) as [calls r] eqn:E.
    pose proof (connect_replay t l 0 calls r E (Hf l eq_refl)) as H. by destruct r.
  - unfold udp_send, held. cbn [fst snd]. destruct (socket_ t) as [fd|]; [|done].
    apply (replay_uses fd); [left|]. by repeat constructor.
  - destruct (if shut then udp_shutdown t else (t, [])) as [t' during] eqn:Es. cbn [fst snd].
    assert (socket_ t' = socket_ t /\ during = if shut then snd (udp_shutdown t) else []) as [Ht ->]
      by (destruct shut; injection Es as <- <-; done).
    unfold held. rewrite Ht. pose proof (udp_receive_uses a capacity timeout t t') as Hu.
    destruct (socket_ t) as [fd|] eqn:Efd.
    + apply (replay_uses fd); [left|]. apply Forall_app_2.
      * destruct shut; [|constructor]. unfold udp_shutdown. rewrite Efd. by repeat constructor.
      * eapply Forall_impl; [exact Hu|]. intros c (x & [= <-] & [->|[ms ->]]); done.
    + unfold udp_shutdown. rewrite Efd. destruct (snd (udp_receive _ _ _ _ _ _)) as [|c l];
        [by destruct shut|]. apply Forall_cons in Hu as [(x & ? & _) _]. done.
  - unfold udp_shutdown, held. cbn [fst snd].
    change (socket_ (t <| shutdown_requested_ := true |>)) with (socket_ t).
    destruct (socket_ t) as [fd|]; [|done].
    apply (replay_uses fd); [left|]. by repeat constructor.
  - apply close_calls_replay.
Qed.

(** C38: the transport never leaks, reuses or closes twice a descriptor: over any
    sequence of calls, failing ones and a shutdown by another thread during a
    wait included, every system call is made on a descriptor that is open, what
    is open between two calls is exactly the connected socket, if there is one,
    and the destructor leaves nothing open. *)
Theorem posix_descriptors ops : fresh_run udp_op fresh_op ops udp_initial ->
  let '(t, calls) := run_ops udp_op ops udp_initial in
  replay calls [] = Some (held t) /\ replay (calls ++ snd (udp_close t)) [] = Some [].
Proof. apply run_ops_balanced, udp_op_replay. Qed.

End descriptors.

(** ** Waiting times *)

Section waiting.
  Context {P : Platform} {HP : PlatformLaws P}.

Definition poll_in_range (c : Syscall) : Prop :=
  match c with SysPoll _ ms => 1 <= ms <= int_max | _ => True end.

Lemma poll_loop_range fd deadline interrupts last : deadline <= time_point_max ->
  Forall (fun now => 0 <= now) interrupts -> forall remaining, positive_seconds remaining ->
  Forall poll_in_range (snd (poll_loop fd deadline remaining interrupts last)).
Proof.
  intros Hd. induction 1 as [|now rest Hnow _ IH]; intros remaining Hr; cbn [poll_loop].
  - constructor; [by apply timeout_milliseconds_bounds|constructor].
  - destruct (Z.leb_spec deadline now); [constructor; [by apply timeout_milliseconds_bounds|constructor]|].
    unfold time_point_max, int64_max in *.
    specialize (IH (seconds_of_ns (deadline - now)) (seconds_of_ns_positive (deadline - now) ltac:(lia))).
    destruct (poll_loop _ _ _ rest last). constructor; [by apply timeout_milliseconds_bounds|exact IH].
Qed.

(** C39: [receive] never waits forever and never spins: for a positive timeout
    every [poll] it makes, also after interruptions by signals, asks for at least
    one millisecond and at most [INT_MAX] (a negative number would wait without
    bound), so the conversion to [int] is defined; all polls and the one [recv] are on
    the socket read on entry. *)
Theorem receive_waits_bounded strerror a capacity timeout t t' : positive_seconds timeout ->
  0 <= poll_start a -> Forall (fun now => 0 <= now) (poll_interrupts a) ->
  Forall (fun c => poll_in_range c /\ exists fd, socket_ t = Some fd /\
    (c = SysRecv fd capacity \/ exists ms, c = SysPoll fd ms))
  (snd (udp_receive strerror a capacity timeout t t')).
Proof.
  intros Ht Hs Hi. apply Forall_and. split; [|apply udp_receive_uses].
  unfold udp_receive, receive_ready. destruct (socket_ t) as [fd|]; [|constructor].
  destruct (shutdown_requested_ t); [constructor|].
  destruct (checked_deadline (poll_start a) timeout) as [d|] eqn:Ed; [|constructor].
  destruct (checked_deadline_ok _ _ _ Ed) as (n & _ & -> & Hd).
  pose proof (poll_loop_range fd (poll_start a + n) (poll_interrupts a) (poll_answer a) Hd Hi timeout Ht) as H.
  destruct (poll_loop _ _ _ _ _) as [r calls]. simpl in H.
  repeat case_match; simplify_eq/=; try done; apply Forall_app_2; try done; by repeat constructor.
Qed.

End waiting.

(** ** Examples *)

(** Resolves to the given addresses; a wait is interrupted once and then gets
    the datagram [1; 2; 3]. *)
Definition example_answer (addresses : list Attempt) : PosixAnswer :=
  MkPosixAnswer (inr addresses) (inr 8) 1000 [2000000] (PollReady false) (inr [1; 2; 3]).

Definition example_ops : list UdpOp :=
  [OpConnect (example_answer [NoSocket 97; Refused 3 111; Connected 3]);
   OpSend (example_answer []) (encode_request StartRealtime 0);
   OpReceive (example_answer []) 65536 (of_frac binary64 1 10) false;
   OpConnect (example_answer [Refused 4 111; Connected 5]);
   OpReceive (example_answer []) 65536 (of_frac binary64 1 10) true;
   OpConnect (example_answer [Refused 3 111]);
   OpClose; OpSend (example_answer []) []].

Lemma posix_descriptors_witness :
  replay (snd (run_ops (udp_op (P := linux_x86_64) pretty pretty) example_ops udp_initial)) [] = Some [] /\
  length (snd (run_ops (udp_op (P := linux_x86_64) pretty pretty) example_ops udp_initial)) = 22%nat.
Proof.
  split; [|by vm_compute].
  assert (fresh_run (udp_op (P := linux_x86_64) pretty pretty) fresh_op example_ops udp_initial) as Hf.
  { repeat split; try (intros l [= <-]; repeat apply Forall_cons_2; try apply Forall_nil_2;
      intros fd Hfd; vm_compute in Hfd; simplify_eq; by vm_compute). }
  pose proof (posix_descriptors (P := linux_x86_64) pretty pretty example_ops Hf) as H.
  rewrite (surjective_pairing (run_ops _ _ _)) in H. destruct H as [H _]. rewrite H. by vm_compute.
Defined.

Lemma receive_waits_bounded_witness :
  Forall poll_in_range (snd (udp_receive (P := linux_x86_64) pretty (example_answer []) 65536
    (of_frac binary64 1 10) (MkUdpTransport (Some 3) false) (MkUdpTransport (Some 3) false))).
Proof.
  eapply Forall_impl; [apply (receive_waits_bounded (P := linux_x86_64))|by intros c []].
  - by vm_compute.
  - done.
  - by repeat constructor.
Defined.
