(* ===== verification/UdpWindows.v ===== *)
(** * The WinSock transport: src/src/detail/udp_transport_windows.cpp

    The methods of [UdpTransport] on Windows.  [shutdown] does not wake a waiting
    [WSAPoll] there, so [receive] polls in rounds of at most 50 ms and looks at
    the flag before each.  The operating system is [WinAnswer]; the test hook is
    left out. *)

From S2P Require Export Sockets Protocol.

#[local] Open Scope Z_scope.

(** ** WinSock *)

Definition WSAEINTR : Z := 10004.
Definition WSAENOTSOCK : Z := 10038.
Definition WSAECONNRESET : Z := 10054.
Definition WSAESHUTDOWN : Z := 10058.
Definition WSAEHOSTUNREACH : Z := 10065.

(** The events of a poll that has some. *)
Record Events := MkEvents { pollerr : bool; pollhup : bool; pollnval : bool }.

(** One round of the loop: what the shutdown flag and the clock read. *)
Record Round := MkRound { round_shutdown : bool; round_now : Z }.

(** The rounds without an event, each with the clock reading after its poll, and
    the round that ends the wait: an error or events.  [recv_shutdown] is what the
    flag reads after a failed [recv]. *)
Record WinAnswer := MkWinAnswer {
  resolved : Z + list Attempt;
  send_answer : Z + Z;
  poll_start : Z;
  idle_rounds : list (Round * Z);
  last_round : Round;
  poll_answer : Z + Events;
  getsockopt_answer : option Z;
  recv_answer : Z + list Z;
  recv_shutdown : bool;
}.

Definition winsock_error (operation : string) (error : Z) : exn :=
  RuntimeError (operation +:+ " (WinSock error " +:+ to_string error +:+ ")").

(** [WinSockRuntime]: the code [WSAStartup] answers. *)
Definition WinSockRuntime (code : Z) : result unit :=
  throw_if (negb (code =? 0)) (winsock_error "failed to initialize WinSock" code).

(** [static_cast<int>(std::ceil(timeout.count() * 1000.0))], saturating. *)
Definition win_timeout_milliseconds (timeout : float) : Z :=
  let milliseconds := ceil binary64 (fmul binary64 timeout (dbl 1000)) in
  if fle (dbl int_max) milliseconds then int_max else trunc milliseconds.

Definition socket_wait_error (a : WinAnswer) (events : Events) : Z :=
  if pollnval events then WSAENOTSOCK
  else
    match getsockopt_answer a with
    | Some error => if pollerr events && negb (error =? 0) then error else WSAECONNRESET
    | None => WSAECONNRESET
    end.

(** ** The methods *)

Section windows.
  Context `{P : Platform}.

Definition win_connect (a : WinAnswer) (t : UdpTransport) : result unit * UdpTransport * list Syscall :=
  match resolved a with
  | inl code => (Throw (winsock_error "failed to resolve sensor" code), t, [])
  | inr addresses =>
      let '(calls, r) := try_addresses addresses WSAEHOSTUNREACH in
      match r with
      | inl last_error => (Throw (winsock_error "failed to connect UDP socket" last_error), t, calls)
      | inr fd => (Ok tt, MkUdpTransport (Some fd) false, calls ++ close_calls t)
      end
  end.

Definition win_send (a : WinAnswer) (request : list Z) (t : UdpTransport) : result unit * list Syscall :=
  match socket_ t with
  | None => (Throw not_connected, [])
  | Some fd =>
      (match send_answer a with
       | inl error => Throw (winsock_error "failed to send UDP request" error)
       | inr sent => throw_if (negb (sent =? Z.of_nat (length request)))
                       (RuntimeError "short UDP request write")
       end, [SysSend fd request])
  end.

Definition kShutdownCheckIntervalMilliseconds : Z := 50.

(** [std::chrono::duration<double>{kShutdownCheckInterval}] *)
Definition shutdown_check_seconds : float :=
  fdiv binary64 (dbl kShutdownCheckIntervalMilliseconds) (dbl 1000).

(** The argument of [WSAPoll] with [remaining] nanoseconds left. *)
Definition poll_milliseconds (remaining : Z) : Z :=
  let poll_timeout :=
    if 0 <? remaining then
      let left := seconds_of_ns remaining in
      if flt shutdown_check_seconds left then shutdown_check_seconds else left
    else S754_zero false in
  Z.min kShutdownCheckIntervalMilliseconds (win_timeout_milliseconds poll_timeout).

(** How the loop ends: nothing was received, an error, or events. *)
Inductive WaitEnd := WaitNothing | WaitError (error : Z) | WaitEvents (events : Events).

(** The round that the poll ends. *)
Definition end_round (fd deadline : Z) (r : Round) (answer : Z + Events) : WaitEnd * list Syscall :=
  if round_shutdown r then (WaitNothing, [])
  else
    (match answer with
     | inl error => if error =? WSAEINTR then WaitNothing else WaitError error
     | inr events => WaitEvents events
     end, [SysPoll fd (poll_milliseconds (deadline - round_now r))]).

Fixpoint wait_loop (fd deadline : Z) (idle : list (Round * Z)) (last : Round) (answer : Z + Events)
    : WaitEnd * list Syscall :=
  match idle with
  | [] => end_round fd deadline last answer
  | (r, after) :: rest =>
      if round_shutdown r then (WaitNothing, [])
      else
        let call := SysPoll fd (poll_milliseconds (deadline - round_now r)) in
        if deadline <=? after then (WaitNothing, [call])
        else let '(e, calls) := wait_loop fd deadline rest last answer in (e, call :: calls)
  end.

(** After the loop: [t'] is the transport then; [fd] was read on entry. *)
Definition win_receive_ready (a : WinAnswer) (fd capacity : Z) (events : Events) (t' : UdpTransport)
    : result (list Z) * list Syscall :=
  if shutdown_requested_ t' then (Ok [], [])
  else if pollerr events || pollhup events || pollnval events then
    (Throw (winsock_error "failed to wait for UDP record" (socket_wait_error a events)), [])
  else
    let bounded_capacity := Z.min capacity int_max in
    (match recv_answer a with
     | inl error =>
         if recv_shutdown a || (error =? WSAEINTR) || (error =? WSAESHUTDOWN) then Ok []
         else Throw (winsock_error "failed to receive UDP record" error)
     | inr bytes => Ok (take (Z.to_nat bounded_capacity) bytes)
     end, [SysRecv fd bounded_capacity]).

Definition win_receive (a : WinAnswer) (capacity : Z) (timeout : float) (t t' : UdpTransport)
    : result (list Z) * list Syscall :=
  match socket_ t with
  | None => (Throw not_connected, [])
  | Some fd =>
      if shutdown_requested_ t then (Ok [], [])
      else
        match (_ ← checked_duration timeout; checked_deadline (poll_start a) timeout) with
        | Throw e => (Throw e, [])
        | Ok deadline =>
            let '(r, calls) := wait_loop fd deadline (idle_rounds a) (last_round a) (poll_answer a) in
            match r with
            | WaitNothing => (Ok [], calls)
            | WaitError error => (Throw (winsock_error "failed to wait for UDP record" error), calls)
            | WaitEvents events =>
                let '(r, more) := win_receive_ready a fd capacity events t' in (r, calls ++ more)
            end
        end
  end.

Definition win_shutdown (t : UdpTransport) : UdpTransport * list Syscall :=
  (t <| shutdown_requested_ := true |>,
   match socket_ t with Some fd => [SysShutdown fd] | None => [] end).

Definition win_close (t : UdpTransport) : UdpTransport * list Syscall :=
  (MkUdpTransport None true, close_calls t).

(** ** The interface *)

Definition windows_transport : TransportOps := {|
  transport := UdpTransport;
  os_answer := WinAnswer;
  transport_initial := udp_initial;
  transport_connect a host port t := fst (win_connect a t);
  transport_send a bytes t := fst (win_send a bytes t);
  transport_receive a capacity timeout t t' := fst (win_receive a capacity timeout t t');
  transport_shutdown t := fst (win_shutdown t);
  transport_close t := fst (win_close t);
  is_connected t := bool_decide (is_Some (socket_ t));
  is_shutdown := shutdown_requested_;
|}.

End windows.

(** ** The promises of the interface *)

Section laws.
  Context {P : Platform}.

Lemma win_receive_ok_shutdown a capacity timeout t t' bytes calls :
  win_receive a capacity timeout t t' = (Ok bytes, calls) ->
  shutdown_requested_ t = true \/ shutdown_requested_ t' = true -> bytes = [].
Proof.
  unfold win_receive, win_receive_ready. destruct (socket_ t); [|done].
  destruct (shutdown_requested_ t); [by intros [= <-]|]. intros H [|Ht']; [done|]. rewrite Ht' in H.
  repeat case_match; by simplify_eq.
Qed.

Lemma win_receive_ok_capacity a capacity timeout t t' bytes calls : 0 <= capacity ->
  win_receive a capacity timeout t t' = (Ok bytes, calls) -> Z.of_nat (length bytes) <= capacity.
Proof.
  intros Hc. unfold win_receive, win_receive_ready.
  repeat case_match; intros; simplify_eq; simpl; try lia. rewrite length_take. lia.
Qed.

#[export] Instance windows_laws : TransportLaws windows_transport.
Proof.
  split; simpl; try done.
  - intros a _ _ t t' H. unfold win_connect in H.
    destruct (resolved a) as [|l]; [done|]. destruct (try_addresses l _) as [calls [|fd]]; [done|].
    injection H as <-. done.
  - intros a _ _ t t' e H. unfold win_connect in H. repeat case_match; by simplify_eq/=.
  - intros a bytes t. unfold win_send. by destruct (socket_ t).
  - intros a cap timeout t t' bytes. unfold win_receive. by destruct (socket_ t).
  - intros a cap timeout t t' bytes H. destruct (win_receive _ _ _ _ _) eqn:E. simpl in H. subst.
    by eapply win_receive_ok_shutdown.
  - intros a cap timeout t t' bytes Hc H. destruct (win_receive _ _ _ _ _) eqn:E. simpl in H. subst.
    by eapply win_receive_ok_capacity.
Qed.

#[export] Instance windows_errors : TransportErrors windows_transport.
Proof.
  split; simpl.
  - intros a _ _ t t' e H. unfold win_connect in H. repeat case_match; by simplify_eq/=.
  - intros a bytes t e H. unfold win_send, throw_if in H. repeat case_match; by simplify_eq/=.
  - intros a cap timeout t t' e H. unfold win_receive, win_receive_ready in H.
    destruct (socket_ t); [|by simplify_eq/=].
    destruct (shutdown_requested_ t); [done|].
    destruct (_ ≫= _) as [d|e'] eqn:Ed; [repeat case_match; by simplify_eq/=|].
    assert (checked_deadline (poll_start a) timeout = Throw e') as Ec.
    { revert Ed. unfold checked_deadline. by destruct (checked_duration timeout). }
    apply checked_deadline_throw in Ec as [what ->]. by simplify_eq/=.
Qed.

(** ** Descriptors *)

Inductive WinOp :=
| WinConnect (a : WinAnswer)
| WinSend (a : WinAnswer) (request : list Z)
| WinReceive (a : WinAnswer) (capacity : Z) (timeout : float) (shut : bool)
| WinShutdown
| WinClose.

(** [shut] is whether another thread shuts the transport down during the wait;
    the destructor is [WinClose]. *)
Definition win_op (op : WinOp) (t : UdpTransport) : UdpTransport * list Syscall :=
  match op with
  | WinConnect a => let '(_, t', calls) := win_connect a t in (t', calls)
  | WinSend a request => (t, snd (win_send a request t))
  | WinReceive a capacity timeout shut =>
      let '(t', during) := if shut : bool then win_shutdown t else (t, []) in
      (t', during ++ snd (win_receive a capacity timeout t t'))
  | WinShutdown => win_shutdown t
  | WinClose => win_close t
  end.

(** WinSock does not hand out a socket that is open. *)
Definition win_fresh_op (op : WinOp) (t : UdpTransport) : Prop :=
  match op with
  | WinConnect a =>
      forall l, resolved a = inr l -> Forall (fun at_ => forall fd, attempt_fd at_ = Some fd -> socket_ t <> Some fd) l
  | _ => True
  end.

Definition short_poll (fd : Z) (c : Syscall) : Prop := exists ms, c = SysPoll fd ms /\ ms <= 50.

Lemma poll_milliseconds_short r : poll_milliseconds r <= 50.
Proof. unfold poll_milliseconds, kShutdownCheckIntervalMilliseconds. lia. Qed.

Lemma wait_loop_polls fd deadline idle last answer :
  let '(e, calls) := wait_loop fd deadline idle last answer in
  Forall (short_poll fd) calls /\ (length calls <= S (length idle))%nat.
Proof.
  assert (forall r, short_poll fd (SysPoll fd (poll_milliseconds r))) as Hs
    by (intros r; eexists; split; [done|apply poll_milliseconds_short]).
  induction idle as [|[r after] idle IH]; cbn [wait_loop].
  - unfold end_round. destruct (round_shutdown last); [by repeat constructor; simpl; lia|].
    by repeat constructor.
  - destruct (round_shutdown r); [by repeat constructor; simpl; lia|].
    destruct (deadline <=? after); [by split; [repeat constructor|simpl; lia]|].
    destruct (wait_loop _ _ idle _ _) as [e calls]. destruct IH. split; [by constructor|simpl; lia].
Qed.

Lemma win_receive_uses a capacity timeout t t' :
  Forall (fun c => exists fd, socket_ t = Some fd /\
    (c = SysRecv fd (Z.min capacity int_max) \/ short_poll fd c))
  (snd (win_receive a capacity timeout t t')).
Proof.
  unfold win_receive, win_receive_ready.
  destruct (socket_ t) as [fd|]; [|constructor]. destruct (shutdown_requested_ t); [constructor|].
  destruct (_ ≫= _) as [d|]; [|constructor].
  pose proof (wait_loop_polls fd d (idle_rounds a) (last_round a) (poll_answer a)) as H.
  destruct (wait_loop _ _ _ _ _) as [r calls]. destruct H as [H _].
  assert (Forall (fun c => exists fd0, Some fd = Some fd0 /\
    (c = SysRecv fd0 (Z.min capacity int_max) \/ short_poll fd0 c)) calls) as Hc
    by (eapply Forall_impl; [exact H|]; intros c Hp; exists fd; eauto).
  repeat case_match; simplify_eq/=; try done; apply Forall_app_2; try done; repeat constructor; eauto.
Qed.

Lemma win_op_replay op t : win_fresh_op op t ->
  replay (snd (win_op op t)) (held t) = Some (held (fst (win_op op t))).
Proof.
  intros Hf. destruct op as [a|a request|a capacity timeout shut| |]; cbn [win_op win_fresh_op] in *.
  - unfold win_connect. destruct (resolved a) as [code|l]; [done|].
    destruct (try_addresses l WSAEHOSTUNREACH) as [calls r] eqn:E.
    pose proof (connect_replay t l _ calls r E (Hf l eq_refl)) as H. by destruct r.
  - unfold win_send, held. cbn [fst snd]. destruct (socket_ t) as [fd|]; [|done].
    apply (replay_uses fd); [left|]. by repeat constructor.
  - destruct (if shut then win_shutdown t else (t, [])) as [t' during] eqn:Es. cbn [fst snd].
    assert (socket_ t' = socket_ t /\ during = if shut then snd (win_shutdown t) else []) as [Ht ->]
      by (destruct shut; injection Es as <- <-; done).
    unfold held. rewrite Ht. pose proof (win_receive_uses a capacity timeout t t') as Hu.
    destruct (socket_ t) as [fd|] eqn:Efd.
    + apply (replay_uses fd); [left|]. apply Forall_app_2.
      * destruct shut; [|constructor]. unfold win_shutdown. rewrite Efd. by repeat constructor.
      * eapply Forall_impl; [exact Hu|]. intros c (x & [= <-] & [->|(ms & -> & _)]); done.
    + unfold win_shutdown. rewrite Efd. destruct (snd (win_receive _ _ _ _ _)) as [|c l];
        [by destruct shut|]. apply Forall_cons in Hu as [(x & ? & _) _]. done.
  - unfold win_shutdown, held. cbn [fst snd].
    change (socket_ (t <| shutdown_requested_ := true |>)) with (socket_ t).
    destruct (socket_ t) as [fd|]; [|done]. apply (replay_uses fd); [left|]. by repeat constructor.
  - apply close_calls_replay.
Qed.

(** The descriptors of the WinSock transport are used as those of the POSIX one:
    every call on an open socket, what is open is the connected socket, and
    nothing is left open by the destructor. *)
Theorem windows_descriptors ops : fresh_run win_op win_fresh_op ops udp_initial ->
  let '(t, calls) := run_ops win_op ops udp_initial in
  replay calls [] = Some (held t) /\ replay (calls ++ snd (win_close t)) [] = Some [].
Proof. apply run_ops_balanced, win_op_replay. Qed.

End laws.

(** ** Waiting times *)

Section waiting.
  Context {P : Platform} {HP : PlatformLaws P}.

Lemma shutdown_check_positive : positive_seconds shutdown_check_seconds.
Proof. by vm_compute. Qed.

Lemma win_timeout_milliseconds_same t : win_timeout_milliseconds t = timeout_milliseconds t.
Proof. done. Qed.

Lemma poll_milliseconds_range remaining : remaining < 2 ^ 64 ->
  (if 0 <? remaining then 1 else 0) <= poll_milliseconds remaining <= 50.
Proof.
  intros Hr. split; [|apply poll_milliseconds_short].
  unfold poll_milliseconds, kShutdownCheckIntervalMilliseconds. rewrite win_timeout_milliseconds_same.
  destruct (Z.ltb_spec 0 remaining); [|by vm_compute].
  pose proof (timeout_milliseconds_bounds shutdown_check_seconds shutdown_check_positive).
  pose proof (timeout_milliseconds_bounds _ (seconds_of_ns_positive remaining ltac:(lia))).
  destruct (flt _ _); lia.
Qed.

Definition in_short_range (c : Syscall) : Prop :=
  match c with SysPoll _ ms => 0 <= ms <= 50 | _ => True end.

(** The loop up to a round that finds the flag set. *)
Lemma wait_loop_shutdown fd deadline : deadline <= time_point_max -> forall idle last answer k r,
  (map fst idle ++ [last]) !! k = Some r -> round_shutdown r = true ->
  Forall (fun x => 0 <= round_now x) (map fst idle ++ [last]) ->
  exists calls, wait_loop fd deadline idle last answer = (WaitNothing, calls) /\
    (length calls <= k)%nat /\ Forall in_short_range calls.
Proof.
  intros Hd. induction idle as [|[x after] idle IH]; intros last answer k r Hk Hs Hn; cbn [wait_loop].
  - destruct k as [|k]; [|by destruct k]. injection Hk as ->. unfold end_round. rewrite Hs.
    exists []. by split_and!.
  - cbn [map fst app] in Hk, Hn. apply Forall_cons in Hn as [Hx Hn].
    destruct (round_shutdown x) eqn:Ex; [exists []; split_and!; [done|simpl; lia|constructor]|].
    destruct k as [|k]; [injection Hk as ->; congruence|].
    assert (in_short_range (SysPoll fd (poll_milliseconds (deadline - round_now x)))) as Hp.
    { unfold time_point_max, int64_max in Hd.
      pose proof (poll_milliseconds_range (deadline - round_now x) ltac:(lia)). simpl.
      destruct (0 <? _); lia. }
    set (call := SysPoll fd (poll_milliseconds (deadline - round_now x))) in *.
    destruct (deadline <=? after).
    { exists [call]. split_and!; [done|simpl; lia|by apply Forall_singleton]. }
    destruct (IH last answer k r Hk Hs Hn) as (calls & -> & Hl & Hr).
    exists (call :: calls). split; [done|]. split; [simpl; lia|by constructor].
Qed.

(** C40: on Windows a shutdown ends a wait within one round: if the round [k] of
    the loop finds the flag set, [receive] has made at most [k] polls, none longer
    than 50 ms and none unbounded, makes no further call and returns nothing
    received. *)
Theorem windows_shutdown_latency a capacity timeout t t' fd deadline k r :
  socket_ t = Some fd -> shutdown_requested_ t = false ->
  checked_deadline (poll_start a) timeout = Ok deadline ->
  (map fst (idle_rounds a) ++ [last_round a]) !! k = Some r -> round_shutdown r = true ->
  Forall (fun x => 0 <= round_now x) (map fst (idle_rounds a) ++ [last_round a]) ->
  exists calls, win_receive a capacity timeout t t' = (Ok [], calls) /\
    (length calls <= k)%nat /\ Forall in_short_range calls.
Proof.
  intros Ht Hs Hd Hk Hr Hn. unfold win_receive. rewrite Ht, Hs.
  destruct (checked_deadline_ok _ _ _ Hd) as (n & Hdur & E & Hmax). rewrite Hdur. cbn [mbind result_bind].
  rewrite Hd. destruct (wait_loop_shutdown fd deadline ltac:(lia) _ _ (poll_answer a) k r Hk Hr Hn)
    as (calls & -> & Hl & Hc). by exists calls.
Qed.

End waiting.

(** Two rounds of waiting, then the flag is found set. *)
Definition example_win_answer : WinAnswer := {|
  resolved := inr [Connected 8];
  send_answer := inr 8;
  poll_start := 1000;
  idle_rounds := [(MkRound false 1000, 50001000); (MkRound false 50001000, 99001000)];
  last_round := MkRound true 99001000;
  poll_answer := inr (MkEvents false false false);
  getsockopt_answer := None;
  recv_answer := inr [];
  recv_shutdown := true;
|}.

Lemma windows_shutdown_latency_witness :
  exists calls, win_receive (P := windows_x64) example_win_answer 65536 (of_frac binary64 1 10)
      (MkUdpTransport (Some 8) false) (MkUdpTransport (Some 8) true) = (Ok [], calls) /\
    (length calls <= 2)%nat /\ Forall in_short_range calls.
Proof.
  apply (windows_shutdown_latency (P := windows_x64) example_win_answer 65536 (of_frac binary64 1 10)
    (MkUdpTransport (Some 8) false) (MkUdpTransport (Some 8) true) 8 100001000 2 (MkRound true 99001000));
    try done.
  repeat (apply Forall_cons_2; [by vm_compute|]). apply Forall_nil_2.
Defined.
