(* ===== verification/Lifecycle.v ===== *)
(** * The threads of a client: [start], [stop], destruction
    src/src/detail/client_impl.cpp (111-325), client_impl.hpp (27-31) and
    src/src/client.cpp

    [System] is one client with every thread that can touch it: the
    application's threads, the worker the client creates, and the thread of the
    deferred destroyer.  A thread is at a program counter [Pc]; [step] is one
    transition of one thread.  What runs under the lifecycle lock is one
    transition ([lifecycle_section]), with two exceptions.  [stop] raises the flag
    and notifies in one and goes on under the lock in a second ([StopCommand]),
    since the worker looks at the flag without that lock.  And a wait on a
    condition variable releases its lock in three transitions: the predicate is
    found false with the lock held ([Blocking]), the thread sleeps and the lock is
    free ([Asleep]), and the woken thread has to take the lock again ([Woken]).  A
    notification wakes the threads that sleep, and no others.  The worker makes
    the moves of ClientSteps, and after a delivery or a fault it notifies in a
    transition of its own ([Announcing]). *)

From stdpp Require Export gmap relations.
From S2P Require Export ClientSteps.

#[local] Open Scope Z_scope.

(** ** Threads *)

(** [Destroyer] is the worker of [DeferredDestroyer]. *)
Inductive Role := Caller | Worker | Destroyer.

#[export] Instance Role_eq_dec : EqDecision Role.
Proof. solve_decision. Defined.

Inductive Wait := Blocking | Asleep | Woken.

#[export] Instance Wait_eq_dec : EqDecision Wait.
Proof. solve_decision. Defined.

(** Why [Impl::stop] runs: a call of [stop], [~Client] on another thread than
    the worker, [~Client] from the callback, the deferred destroyer, [~Impl]. *)
Inductive StopFor := ForReturn | ForDestructor | ForDeferral | ForDestroyer | ForStorage.

#[export] Instance StopFor_eq_dec : EqDecision StopFor.
Proof. solve_decision. Defined.

(** Where a thread is.  [Home] is outside the client: the application's own
    code, for the worker the sample callback, for the destroyer its queue.
    [Announcing] is between a delivery or a fault and its notification.
    [BackoffWait] is the wait of [run] between two sessions, [FirstWait] the one
    of [wait_for_first_sample]; both are on [first_sample_cv_] with the data
    lock, the others are on [lifecycle_cv_]. *)
Inductive Pc :=
| Home
| Working
| Announcing
| BackoffWait (v : Wait)
| Finishing
| Finished
| FirstWait (captured : Z) (v : Wait)
| StartTop (callback : bool)
| StartIdleWait (callback : bool) (v : Wait)
| StartExitWait (callback : bool) (v : Wait)
| StartJoining (callback : bool) (id : thread_id)
| StartReaped (callback : bool)
| StartNotify (callback : bool)
| DestroyTop
| StopTop (k : StopFor)
| StopCommand (k : StopFor)
| StopIdleWait (k : StopFor) (v : Wait)
| StopJoining (k : StopFor) (id : thread_id)
| StopJoined (k : StopFor)
| StopNotify (k : StopFor).

#[export] Instance Pc_eq_dec : EqDecision Pc.
Proof. solve_decision. Defined.

Record Thread := MkThread { role : Role; pc : Pc }.

(** The [unique_ptr] of the handle: owned, its destructor running, moved to the
    queue of the destroyer, freed. *)
Inductive Handle := Owned | Destroying | Queued | Freed.

#[export] Instance Handle_eq_dec : EqDecision Handle.
Proof. solve_decision. Defined.

(** [notify_all] on both condition variables. *)
Definition wake_wait (v : Wait) : Wait := match v with Asleep => Woken | _ => v end.

Definition wake_lifecycle (p : Pc) : Pc :=
  match p with
  | StartIdleWait cb v => StartIdleWait cb (wake_wait v)
  | StartExitWait cb v => StartExitWait cb (wake_wait v)
  | StopIdleWait k v => StopIdleWait k (wake_wait v)
  | _ => p
  end.

Definition wake_first (p : Pc) : Pc :=
  match p with
  | BackoffWait v => BackoffWait (wake_wait v)
  | FirstWait c v => FirstWait c (wake_wait v)
  | _ => p
  end.

Definition wake (p : Pc) : Pc := wake_first (wake_lifecycle p).

Definition wake_thread (f : Pc -> Pc) (th : Thread) : Thread := MkThread (role th) (f (pc th)).

(** Whether the program counter is one that holds the mutex: between finding a
    predicate false and sleeping, or in the middle of [stop]. *)
Definition holds_lifecycle (p : Pc) : bool :=
  match p with
  | StartIdleWait _ Blocking | StartExitWait _ Blocking | StopIdleWait _ Blocking
  | StopCommand _ => true
  | _ => false
  end.

Definition holds_data (p : Pc) : bool :=
  match p with BackoffWait Blocking | FirstWait _ Blocking => true | _ => false end.

(** The wait the thread is in moves on. *)
Definition set_wait (v : Wait) (p : Pc) : option Pc :=
  match p with
  | BackoffWait _ => Some (BackoffWait v)
  | FirstWait c _ => Some (FirstWait c v)
  | StartIdleWait cb _ => Some (StartIdleWait cb v)
  | StartExitWait cb _ => Some (StartExitWait cb v)
  | StopIdleWait k _ => Some (StopIdleWait k v)
  | _ => None
  end.

Definition asleep (p : Pc) : bool :=
  match p with
  | BackoffWait Asleep | FirstWait _ Asleep | StartIdleWait _ Asleep | StartExitWait _ Asleep
  | StopIdleWait _ Asleep => true
  | _ => false
  end.

(** Where [stop] goes on when it has returned, and what becomes of the handle. *)
Definition stop_done (k : StopFor) (h : Handle) : Pc * Handle :=
  match k with
  | ForReturn => (Home, h)
  | ForDestructor | ForDestroyer => (StopTop ForStorage, h)
  | ForDeferral => (Home, Queued)
  | ForStorage => (Home, Freed)
  end.

(** Calls go through the handle: the application's until the destructor begins,
    the worker's callback also while it runs on another thread. *)
Definition may_call (r : Role) (h : Handle) : bool :=
  match r, h with
  | Caller, Owned | Worker, Owned | Worker, Destroying => true
  | _, _ => false
  end.

Section lifecycle.
  Context {T : TransportOps} {P : Platform}.

Record System := MkSystem {
  world : World T;
  threads : gmap thread_id Thread;
  lifecycle_lock : option thread_id;
  data_lock : option thread_id;
  handle : Handle;
}.
#[global] Instance System_eta : Eta System := fun s =>
  MkSystem (world s) (threads s) (lifecycle_lock s) (data_lock s) (handle s).

(** ** What runs under the lifecycle lock *)

(** The next program counter, the shared state, the handle, whether both
    condition variables are notified, and the thread that was created. *)
Record Effect := MkEffect {
  next : Pc;
  effect_world : World T;
  effect_handle : Handle;
  notifies : bool;
  spawns : option thread_id;
}.

Definition unchanged (p : Pc) (w : World T) (h : Handle) : Effect := MkEffect p w h false None.

(** The body of the loop of [start] from the point its [StartStep] decides. *)
Definition start_pass (callback : bool) (thread : result thread_id) (step : StartStep)
    (w : World T) (h : Handle) : Effect :=
  match step with
  | StartThrow _ => unchanged Home w h
  | StartAwaitJoiner => unchanged (StartIdleWait callback Blocking) w h
  | StartAwaitExit => unchanged (StartExitWait callback Blocking) w h
  | StartReap id => unchanged (StartJoining callback id) (set_im (claim_section (im w)) w) h
  | StartHere =>
      let '(r, i) := start_section callback thread (im w) in
      MkEffect Home (set_im i w) h true (match thread with Ok id => Some id | Throw _ => None end)
  end.

(** The body of the loop of [stop] once the flag is up: the command section, and
    what is left to do. *)
Definition stop_pass (me : thread_id) (k : StopFor) (a : os_answer) (w : World T) (h : Handle)
    : Effect :=
  let w := stop_command a w in
  match stop_entry me (im w) with
  | StopReturn => unchanged (fst (stop_done k h)) w (snd (stop_done k h))
  | StopAwaitJoiner => unchanged (StopIdleWait k Blocking) w h
  | StopIdle => unchanged (fst (stop_done k h)) (set_im (mark_stopped (im w)) w) (snd (stop_done k h))
  | StopJoin id => unchanged (StopJoining k id) (set_im (claim_section (im w)) w) h
  end.

(** What a thread does with the lifecycle lock held. *)
Definition lifecycle_section (me : thread_id) (p : Pc) (a : os_answer) (thread : result thread_id)
    (w : World T) (h : Handle) : option Effect :=
  match p with
  | StartTop cb => Some (start_pass cb thread (start_entry me (im w)) w h)
  | StartIdleWait cb Woken => Some
      (if joining_ (im w) then unchanged (StartIdleWait cb Blocking) w h
       else start_pass cb thread (start_worker (im w)) w h)
  | StartExitWait cb Woken => Some
      (unchanged (if exit_awaited (im w) then StartTop cb else StartExitWait cb Blocking) w h)
  | StartReaped cb => Some (unchanged (StartNotify cb) (set_im (reaped_section (im w)) w) h)
  | DestroyTop => Some
      (unchanged (StopTop (if called_from_worker_thread me (im w) then ForDeferral else ForDestructor)) w h)
  | StopTop k => Some (MkEffect (StopCommand k) (stop_flag w) h true None)
  | StopCommand k => Some (stop_pass me k a w h)
  | StopIdleWait k Woken => Some
      (unchanged (if joining_ (im w) then StopIdleWait k Blocking else StopTop k) w h)
  | StopJoined k => Some (unchanged (StopNotify k) (set_im (joined_section (im w)) w) h)
  | _ => None
  end.

(** The worker notifies both condition variables after it has delivered a sample
    and after it has latched a fault.  [deliver_section] and [fault_section] are
    the only sections that write [delivered_count] and the latch
    ([delivery_announced] and the lemmas beside it). *)
Definition announces (w w' : World T) : bool :=
  negb (delivered_count (health_ (im w')) =? delivered_count (health_ (im w))) ||
  negb (bool_decide (fault_code_ (im w') = fault_code_ (im w))).

Definition worker_next (w w' : World T) : Pc := if announces w w' then Announcing else Working.

(** What the data lock protects. *)
Definition data_part (i : Impl T) : HealthSnapshot * option Sample * FaultLatch * (Z * Z * Z * Z) * (list Z * list Z) :=
  (health_ i, latest_ i, fault_latch_ i,
   (last_record_at_ i, generation_ i, delivered_generation_ i, consecutive_malformed_ i),
   (receive_times_ i, delivery_times_ i)).

(** A transition either finds the data lock free or leaves its data alone. *)
Definition data_allowed (s : System) (w' : World T) : Prop :=
  data_lock s = None \/ data_part (im w') = data_part (im (world s)).

(** ** Moving a thread *)

Definition lock_if (held : bool) (t : thread_id) (lock : option thread_id) : option thread_id :=
  if held then Some t else lock.

Definition set_pc (t : thread_id) (r : Role) (p : Pc) (s : System) : System :=
  s <| threads := <[t := MkThread r p]> (threads s) |>.

Definition notify (f : Pc -> Pc) (s : System) : System :=
  s <| threads := wake_thread f <$> threads s |>.

Definition spawn (id : option thread_id) (s : System) : System :=
  match id with
  | Some id => set_pc id Worker Working s
  | None => s
  end.

Definition apply_effect (t : thread_id) (r : Role) (e : Effect) (s : System) : System :=
  let s := spawn (spawns e) (set_pc t r (next e) s) in
  let s := if notifies e then notify wake s else s in
  s <| world := effect_world e |> <| handle := effect_handle e |>
    <| lifecycle_lock := lock_if (holds_lifecycle (next e)) t None |>.

(** What the wait for the first sample does once it has the data lock: it
    returns, or blocks. *)
Definition first_recheck (captured : Z) (i : Impl T) : Pc :=
  if wait_done captured i then Home else FirstWait captured Blocking.

(** The wait of [run] between two sessions. *)
Definition backoff_recheck (i : Impl T) : Pc :=
  if stopping_ i then Working else BackoffWait Blocking.

(** What an application thread or a callback may do beside [start], [stop] and
    the destructor; reading accessors change nothing. *)
Definition public_action (a : Action T) : bool :=
  match a with ActBias _ _ | ActHealth _ => true | _ => false end.

(** When a thread may run the destructor: nobody else is in a call, the callback
    of the worker apart. *)
Definition may_destroy (t : thread_id) (r : Role) (s : System) : Prop :=
  handle s = Owned /\ r <> Destroyer /\
  forall u p, threads s !! u = Some (MkThread Caller p) -> u <> t -> p = Home.

(** ** The transitions

    A label says what kind of transition it is: application code (a thread
    begins or ends, a call begins or a callback returns, an operation of the
    interface that is one section), a wait that ends by itself (a spurious
    wake-up or the deadline), or the client's own code. *)
Inductive Label := LApplication | LWaitEnds | LWorker | LClient.

Inductive step : System -> thread_id -> Label -> System -> Prop :=
(* application code *)
| step_thread s t : threads s !! t = None -> step s t LApplication (set_pc t Caller Home s)
| step_thread_end s t : threads s !! t = Some (MkThread Caller Home) ->
    step s t LApplication (s <| threads := delete t (threads s) |>)
| step_start s t r cb : threads s !! t = Some (MkThread r Home) -> may_call r (handle s) = true ->
    step s t LApplication (set_pc t r (StartTop cb) s)
| step_stop s t r : threads s !! t = Some (MkThread r Home) -> may_call r (handle s) = true ->
    step s t LApplication (set_pc t r (StopTop ForReturn) s)
| step_destroy s t r : threads s !! t = Some (MkThread r Home) -> may_destroy t r s ->
    step s t LApplication (set_pc t r DestroyTop s <| handle := Destroying |>)
| step_act s t r a : threads s !! t = Some (MkThread r Home) -> may_call r (handle s) = true ->
    public_action a = true -> data_lock s = None ->
    step s t LApplication (s <| world := act (world s) a |>)
| step_first s t r now timeout captured : threads s !! t = Some (MkThread r Home) ->
    may_call r (handle s) = true -> data_lock s = None ->
    wait_begin now timeout (im (world s)) = Ok (Some captured) ->
    step s t LApplication (set_pc t r (first_recheck captured (im (world s))) s
      <| data_lock := lock_if (holds_data (first_recheck captured (im (world s)))) t None |>)
| step_callback_return s t : threads s !! t = Some (MkThread Worker Home) ->
    step s t LApplication (set_pc t Worker Working s)
(* the lifecycle sections *)
| step_section s t r p a thread e : threads s !! t = Some (MkThread r p) ->
    lifecycle_lock s = lock_if (holds_lifecycle p) t None ->
    lifecycle_section t p a thread (world s) (handle s) = Some e ->
    data_allowed s (effect_world e) ->
    (forall id, spawns e = Some id -> threads s !! id = None) ->
    step s t LClient (apply_effect t r e s)
| step_start_notify s t r cb : threads s !! t = Some (MkThread r (StartNotify cb)) ->
    step s t LClient (notify wake_lifecycle (set_pc t r (StartTop cb) s))
| step_stop_notify s t r k : threads s !! t = Some (MkThread r (StopNotify k)) ->
    step s t LClient (notify wake (set_pc t r (fst (stop_done k (handle s))) s)
      <| handle := snd (stop_done k (handle s)) |>)
| step_start_join s t r cb id : threads s !! t = Some (MkThread r (StartJoining cb id)) ->
    threads s !! id = Some (MkThread Worker Finished) ->
    step s t LClient (set_pc t r (StartReaped cb) (s <| threads := delete id (threads s) |>))
| step_stop_join s t r k id : threads s !! t = Some (MkThread r (StopJoining k id)) ->
    threads s !! id = Some (MkThread Worker Finished) ->
    step s t LClient (set_pc t r (StopJoined k) (s <| threads := delete id (threads s) |>))
(* waiting *)
| step_block s t r p p' : threads s !! t = Some (MkThread r p) ->
    holds_lifecycle p || holds_data p = true -> set_wait Asleep p = Some p' ->
    step s t LClient (set_pc t r p' s
      <| lifecycle_lock := if holds_lifecycle p then None else lifecycle_lock s |>
      <| data_lock := if holds_data p then None else data_lock s |>)
| step_wait_ends s t r p p' : threads s !! t = Some (MkThread r p) -> asleep p = true ->
    set_wait Woken p = Some p' -> step s t LWaitEnds (set_pc t r p' s)
| step_first_recheck s t r captured : threads s !! t = Some (MkThread r (FirstWait captured Woken)) ->
    data_lock s = None ->
    step s t LClient (set_pc t r (first_recheck captured (im (world s))) s
      <| data_lock := lock_if (holds_data (first_recheck captured (im (world s)))) t None |>)
| step_first_deadline s t r captured : threads s !! t = Some (MkThread r (FirstWait captured Woken)) ->
    data_lock s = None -> step s t LWaitEnds (set_pc t r Home s)
(* the worker *)
| step_work s t w' : threads s !! t = Some (MkThread Worker Working) ->
    session_move (world s) w' \/ loop_move (world s) w' -> data_allowed s w' ->
    step s t LWorker (set_pc t Worker (worker_next (world s) w') (s <| world := w' |>))
| step_announce s t : threads s !! t = Some (MkThread Worker Announcing) ->
    step s t LWorker (notify wake (set_pc t Worker Working s))
| step_callback s t sample answer : threads s !! t = Some (MkThread Worker Working) ->
    callback_ (im (world s)) = true ->
    step s t LWorker (set_pc t Worker Home
      (s <| world := record_event (EvCallback sample answer) (world s) |>))
| step_backoff s t p : threads s !! t = Some (MkThread Worker p) ->
    p = Working \/ p = BackoffWait Woken -> data_lock s = None ->
    step s t LClient (set_pc t Worker (backoff_recheck (im (world s))) s
      <| data_lock := lock_if (holds_data (backoff_recheck (im (world s)))) t None |>)
| step_backoff_deadline s t : threads s !! t = Some (MkThread Worker (BackoffWait Woken)) ->
    data_lock s = None -> step s t LWaitEnds (set_pc t Worker Working s)
| step_finish s t : threads s !! t = Some (MkThread Worker Working) ->
    data_allowed s (set_im (finish_section (im (world s))) (world s)) ->
    step s t LWorker (set_pc t Worker Finishing
      (s <| world := set_im (finish_section (im (world s))) (world s) |>))
| step_finish_notify s t : threads s !! t = Some (MkThread Worker Finishing) ->
    step s t LWorker (notify wake (set_pc t Worker Finished s))
(* the deferred destroyer *)
| step_destroyer s t : threads s !! t = Some (MkThread Destroyer Home) -> handle s = Queued ->
    step s t LClient (set_pc t Destroyer (StopTop ForDestroyer) s <| handle := Destroying |>).

(** A client that has just been constructed: the application's threads and the
    destroyer exist, no worker. *)
Definition initial (s : System) : Prop :=
  (exists now config, impl_construct now config = Ok (im (world s))) /\
  lifecycle_lock s = None /\ data_lock s = None /\ handle s = Owned /\
  forall t th, threads s !! t = Some th -> role th <> Worker /\ pc th = Home.

Definition moves (s s' : System) : Prop := exists t l, step s t l s'.

Definition reachable (s : System) : Prop := exists s0, initial s0 /\ rtc moves s0 s.

End lifecycle.
Arguments System : clear implicits.
Arguments Effect : clear implicits.
Arguments apply_effect {T} t r e s : simpl never.
