(* ===== verification/LifecycleSafety.v ===== *)
(** * What the threads of a client can rely on

    The ownership of the worker thread as a machine of four modes, which every
    transition of Lifecycle follows; the locks; the handle. *)

From S2P Require Export Lifecycle.

#[local] Open Scope Z_scope.

(** ** The specification: who owns the worker thread

    No worker; one held by the member [worker_]; one claimed by a thread that
    joins it; joined, by a thread that still has to say so. *)
Inductive Mode := NoWorker | Held (id : thread_id) | Claimed (t id : thread_id) | Reaped (t : thread_id).

Inductive mode_step : Mode -> Mode -> Prop :=
| mode_spawn id : mode_step NoWorker (Held id)
| mode_claim t id : t <> id -> mode_step (Held id) (Claimed t id)
| mode_join t id : mode_step (Claimed t id) (Reaped t)
| mode_release t : mode_step (Reaped t) NoWorker.

Definition mode_worker (m : Mode) : option thread_id :=
  match m with Held id | Claimed _ id => Some id | _ => None end.

(** Program counters of a thread that has set [joining_]. *)
Definition joins (p : Pc) : option thread_id :=
  match p with StartJoining _ id | StopJoining _ id => Some id | _ => None end.

Definition joined (p : Pc) : bool :=
  match p with StartReaped _ | StopJoined _ => true | _ => false end.

Definition exited (p : Pc) : bool := match p with Finishing | Finished => true | _ => false end.

(** Where each kind of thread can be. *)
Definition pc_of (r : Role) (p : Pc) : bool :=
  match r, p with
  | Worker, (Home | Working | Announcing | BackoffWait _ | Finishing | Finished | FirstWait _ _ | StartTop _
    | DestroyTop | StopTop (ForReturn | ForDeferral) | StopCommand (ForReturn | ForDeferral)) => true
  | Worker, _ => false
  | Destroyer, (Home | StopTop (ForDestroyer | ForStorage)
    | StopCommand (ForDestroyer | ForStorage) | StopIdleWait (ForDestroyer | ForStorage) _
    | StopJoining (ForDestroyer | ForStorage) _ | StopJoined (ForDestroyer | ForStorage)
    | StopNotify (ForDestroyer | ForStorage)) => true
  | Destroyer, _ => false
  | Caller, (Working | Announcing | BackoffWait _ | Finishing | Finished) => false
  | Caller, (StopTop k | StopCommand k | StopIdleWait k _ | StopJoining k _ | StopJoined k | StopNotify k) =>
      negb (bool_decide (k = ForDeferral)) && negb (bool_decide (k = ForDestroyer))
  | Caller, _ => true
  end.

Section lifecycle_safety.
  Context {T : TransportOps} {P : Platform}.

Abbreviation threads_map := (gmap thread_id Thread).

(** The members that only lifecycle sections and the end of the worker write. *)
Definition core (i : Impl T) : option thread_id * option thread_id * bool * bool :=
  (worker_ i, active_worker_id_ i, joining_ i, worker_exited_ i).

Definition claims (m : Mode) (t : thread_id) (p : Pc) : Prop :=
  match joins p with
  | Some id => m = Claimed t id
  | None => joined p = true -> m = Reaped t
  end.

Definition thread_ok (m : Mode) (ex : bool) (t : thread_id) (th : Thread) : Prop :=
  pc_of (role th) (pc th) = true /\ claims m t (pc th) /\
  (role th = Worker -> mode_worker m = Some t /\ ex = exited (pc th)).

Definition worker_at (ths : threads_map) (id : thread_id) : Prop :=
  exists p, ths !! id = Some (MkThread Worker p).

Definition core_ok (m : Mode) (i : Impl T) (ths : threads_map) : Prop :=
  match m with
  | NoWorker => worker_ i = None /\ joining_ i = false /\ worker_exited_ i = true
  | Held id => worker_ i = Some id /\ joining_ i = false /\ active_worker_id_ i = Some id /\
      worker_at ths id
  | Claimed t id => worker_ i = None /\ joining_ i = true /\ active_worker_id_ i = Some id /\
      worker_at ths id /\ exists th, ths !! t = Some th /\ joins (pc th) = Some id
  | Reaped t => worker_ i = None /\ joining_ i = true /\ worker_exited_ i = true /\
      exists th, ths !! t = Some th /\ joined (pc th) = true
  end.

Definition mode_ok (m : Mode) (i : Impl T) (ths : threads_map) : Prop :=
  core_ok m i ths /\ forall t th, ths !! t = Some th -> thread_ok m (worker_exited_ i) t th.

(** What the modes ask of the threads is kept by every change that keeps the
    roles and the claims of the threads that are not application code. *)
Definition carries (ths ths' : threads_map) : Prop := forall u th, ths !! u = Some th ->
  th <> MkThread Caller Home -> exists th', ths' !! u = Some th' /\ role th' = role th /\
  joins (pc th') = joins (pc th) /\ joined (pc th') = joined (pc th).

Lemma core_ok_carries m i ths ths' : carries ths ths' -> core_ok m i ths -> core_ok m i ths'.
Proof.
  intros HQ. assert (forall id, worker_at ths id -> worker_at ths' id) as Hw.
  { intros id [q Hq]. destruct (HQ _ _ Hq) as ([r' q'] & Hq' & Hr & _); [done|].
    simpl in Hr. subst. by exists q'. }
  destruct m; simpl.
  - done.
  - intros (? & ? & ? & ?). auto.
  - intros (? & ? & ? & ? & th & Hx & Hj). repeat split; auto.
    destruct (HQ _ _ Hx) as (th' & ? & _ & Hj' & _); [by intros ->|]. exists th'. by rewrite Hj'.
  - intros (? & ? & ? & th & Hx & Hj). repeat split; auto.
    destruct (HQ _ _ Hx) as (th' & ? & _ & _ & Hj'); [by intros ->|]. exists th'. by rewrite Hj'.
Qed.

(** *** A thread moves without touching the ownership *)

Lemma core_eq i i' : core i' = core i ->
  worker_ i' = worker_ i /\ active_worker_id_ i' = active_worker_id_ i /\
  joining_ i' = joining_ i /\ worker_exited_ i' = worker_exited_ i.
Proof. unfold core. by intros [=-> -> -> ->]. Qed.

Lemma mode_ok_world m i i' ths : core i' = core i -> mode_ok m i ths -> mode_ok m i' ths.
Proof.
  intros (E1 & E2 & E3 & E4)%core_eq [Hc Ht]. split.
  - unfold core_ok in *. by rewrite E1, E2, E3, E4.
  - by rewrite E4.
Qed.

(** [p'] is a place for the thread, with the same claim on the worker. *)
Definition similar (r : Role) (p p' : Pc) : Prop :=
  pc_of r p' = true /\ joins p' = joins p /\ joined p' = joined p /\ exited p' = exited p.

Lemma mode_ok_set m i ths t r p p' : ths !! t = Some (MkThread r p) -> similar r p p' ->
  mode_ok m i ths -> mode_ok m i (<[t := MkThread r p']> ths).
Proof.
  intros Hl (Hp & Hj & Hd & He) [Hc Ht]. split.
  - apply (core_ok_carries m i ths); [|done]. intros u th Hu _. destruct (decide (t = u)) as [->|Hn].
    + eexists. rewrite lookup_insert_eq. simplify_eq. done.
    + exists th. by rewrite lookup_insert_ne.
  - intros u th Hu. destruct (decide (t = u)) as [->|Hn].
    + rewrite lookup_insert_eq in Hu. simplify_eq. specialize (Ht _ _ Hl).
      unfold thread_ok, claims in *. simpl in *. rewrite Hj, Hd, He. intuition.
    + rewrite lookup_insert_ne in Hu by done. by apply Ht.
Qed.

(** A notification changes no claim. *)
Definition harmless (f : Pc -> Pc) : Prop := forall r p,
  pc_of r (f p) = pc_of r p /\ joins (f p) = joins p /\ joined (f p) = joined p /\
  exited (f p) = exited p.

Lemma wake_lifecycle_harmless : harmless wake_lifecycle.
Proof. by intros [] []. Qed.

Lemma wake_harmless : harmless wake.
Proof. by intros [] []. Qed.

Lemma mode_ok_wake m i ths f : harmless f -> mode_ok m i ths -> mode_ok m i (wake_thread f <$> ths).
Proof.
  intros Hf [Hc Ht]. split.
  - apply (core_ok_carries m i ths); [|done]. intros u th Hu _. exists (wake_thread f th).
    rewrite lookup_fmap, Hu. destruct (Hf (role th) (pc th)) as (_ & ? & ? & _). done.
  - intros u th Hu. rewrite lookup_fmap in Hu. destruct (ths !! u) as [th0|] eqn:E; [|done].
    simplify_eq/=. specialize (Ht _ _ E). destruct (Hf (role th0) (pc th0)) as (H1 & H2 & H3 & H4).
    unfold thread_ok, claims in *. simpl. rewrite H1, H2, H3, H4. exact Ht.
Qed.

(** *** Threads begin and end *)

Lemma mode_ok_new m i ths t : ths !! t = None -> mode_ok m i ths ->
  mode_ok m i (<[t := MkThread Caller Home]> ths).
Proof.
  intros Hn [Hc Ht]. split.
  - apply (core_ok_carries m i ths); [|done]. intros u th Hu _. exists th.
    rewrite lookup_insert_ne; [done|]. intros ->. congruence.
  - intros u th Hu. destruct (decide (t = u)) as [->|Hne].
    + rewrite lookup_insert_eq in Hu. simplify_eq. done.
    + rewrite lookup_insert_ne in Hu by done. by apply Ht.
Qed.

Lemma mode_ok_end m i ths t : ths !! t = Some (MkThread Caller Home) -> mode_ok m i ths ->
  mode_ok m i (delete t ths).
Proof.
  intros Hl [Hc Ht]. split.
  - apply (core_ok_carries m i ths); [|done]. intros u th Hu Hne. exists th.
    rewrite lookup_delete_ne; [done|]. intros ->. congruence.
  - intros u th Hu. apply lookup_delete_Some in Hu as [_ Hu]. by apply Ht.
Qed.

(** *** The four transitions, and the worker's end *)

Lemma mode_ok_core m i ths : mode_ok m i ths -> core_ok m i ths.
Proof. by intros [? _]. Qed.

Lemma mode_ok_thread m i ths t th : mode_ok m i ths -> ths !! t = Some th ->
  thread_ok m (worker_exited_ i) t th.
Proof. intros [_ H]. apply H. Qed.

(** Any other claim than the one in the mode is impossible. *)
Lemma mode_ok_spawn i i' ths t r p id : mode_ok NoWorker i ths ->
  ths !! t = Some (MkThread r p) -> ths !! id = None ->
  core i' = (Some id, Some id, joining_ i, false) ->
  mode_ok (Held id) i' (<[id := MkThread Worker Working]> (<[t := MkThread r Home]> ths)).
Proof.
  intros [(Hw & Hj & He) Ht] Hl Hid [= E1 E2 E3 E4]. split.
  - simpl. rewrite E1, E2, E3. repeat split; auto. exists Working. apply lookup_insert_eq.
  - intros u th. rewrite E4. destruct (decide (id = u)) as [->|Hn].
    + rewrite lookup_insert_eq. intros [= <-]. done.
    + rewrite lookup_insert_ne by done. destruct (decide (t = u)) as [->|Hnt].
      * rewrite lookup_insert_eq. intros [= <-]. destruct (Ht _ _ Hl) as (_ & _ & Hr). simpl in Hr.
        split; [by destruct r|]. split; [done|]. intros E. by destruct (Hr E).
      * rewrite lookup_insert_ne by done. intros Hu. destruct (Ht _ _ Hu) as (H1 & H2 & H3).
        split; [done|]. split; [|intros E; by destruct (H3 E)].
        unfold claims in *. destruct (joins (pc th)); [done|]. intros E. by specialize (H2 E).
Qed.

Lemma mode_ok_claim i ths t r p p' id : mode_ok (Held id) i ths ->
  ths !! t = Some (MkThread r p) -> r <> Worker -> pc_of r p' = true -> joins p' = Some id ->
  t <> id /\ mode_ok (Claimed t id) (claim_section i) (<[t := MkThread r p']> ths).
Proof.
  intros [(Hw & Hj & Ha & q & Hq) Ht] Hl Hr Hp Hjs.
  assert (t <> id) as Hne by (intros ->; congruence). split; [done|]. split.
  - simpl. repeat split; auto.
    + exists q. by rewrite lookup_insert_ne.
    + eexists. rewrite lookup_insert_eq. done.
  - intros u th. destruct (decide (t = u)) as [->|Hnt].
    + rewrite lookup_insert_eq. intros [= <-]. split; [done|]. unfold claims. simpl. by rewrite Hjs.
    + rewrite lookup_insert_ne by done. intros Hu. destruct (Ht _ _ Hu) as (H1 & H2 & H3).
      split; [done|]. split; [|done]. unfold claims in *. destruct (joins (pc th)); [done|].
      intros E. by specialize (H2 E).
Qed.

Lemma mode_ok_join m i ths t r p p' id : mode_ok m i ths ->
  ths !! t = Some (MkThread r p) -> joins p = Some id -> ths !! id = Some (MkThread Worker Finished) ->
  pc_of r p' = true -> joins p' = None -> joined p' = true ->
  m = Claimed t id /\ mode_ok (Reaped t) i (<[t := MkThread r p']> (delete id ths)).
Proof.
  intros [Hc Ht] Hl Hjs Hid Hp Hj' Hd.
  pose proof (Ht _ _ Hl) as (_ & Hcl & Hr). unfold claims in Hcl. simpl in Hcl. rewrite Hjs in Hcl.
  subst m. split; [done|]. destruct Hc as (Hw & Hj & Ha & _ & _).
  destruct (Ht _ _ Hid) as (_ & _ & Hx). destruct (Hx eq_refl) as [_ He]. simpl in He.
  assert (r <> Worker) as Hrw.
  { intros ->. destruct (Hr eq_refl) as [[= ->] _]. simplify_eq/=. }
  split.
  - simpl. repeat split; auto. eexists. rewrite lookup_insert_eq. done.
  - intros u th. destruct (decide (t = u)) as [->|Hnt].
    + rewrite lookup_insert_eq. intros [= <-]. split; [done|]. unfold claims. simpl. by rewrite Hj'.
    + rewrite lookup_insert_ne by done. intros [Hne Hu]%lookup_delete_Some.
      destruct (Ht _ _ Hu) as (H1 & H2 & H3). split; [done|]. split.
      * unfold claims in *. destruct (joins (pc th)) as [id'|]; [by injection H2|].
        intros E. by specialize (H2 E).
      * intros E. destruct (H3 E) as [[= ->] _]. done.
Qed.

Lemma mode_ok_release m i i' ths t r p p' : mode_ok m i ths ->
  ths !! t = Some (MkThread r p) -> joins p = None -> joined p = true ->
  pc_of r p' = true -> joins p' = None -> joined p' = false ->
  worker_ i' = worker_ i -> joining_ i' = false -> worker_exited_ i' = worker_exited_ i ->
  m = Reaped t /\ mode_ok NoWorker i' (<[t := MkThread r p']> ths).
Proof.
  intros [Hc Ht] Hl Hjs Hd Hp Hj' Hd' Ew Ej Ee.
  pose proof (Ht _ _ Hl) as (_ & Hcl & Hr). unfold claims in Hcl. simpl in Hcl. rewrite Hjs in Hcl.
  specialize (Hcl Hd). subst m. split; [done|]. destruct Hc as (Hw & Hj & He & _). split.
  - simpl. rewrite Ew, Ej, Ee. done.
  - rewrite Ee. intros u th. destruct (decide (t = u)) as [->|Hnt].
    + rewrite lookup_insert_eq. intros [= <-]. split; [done|].
      split; [unfold claims; simpl; by rewrite Hj', Hd'|]. intros E. by destruct (Hr E).
    + rewrite lookup_insert_ne by done. intros Hu. destruct (Ht _ _ Hu) as (H1 & H2 & H3).
      split; [done|]. split; [|intros E; by destruct (H3 E)].
      unfold claims in *. destruct (joins (pc th)); [done|]. intros E. by injection (H2 E).
Qed.

Lemma mode_ok_finish m i i' ths t : mode_ok m i ths -> ths !! t = Some (MkThread Worker Working) ->
  core i' = (worker_ i, active_worker_id_ i, joining_ i, true) ->
  mode_ok m i' (<[t := MkThread Worker Finishing]> ths).
Proof.
  intros [Hc Ht] Hl [= E1 E2 E3 E4]. pose proof (Ht _ _ Hl) as (_ & _ & Hr).
  destruct (Hr eq_refl) as [Hm He]. simpl in He. split.
  - assert (core_ok m i (<[t := MkThread Worker Finishing]> ths)) as Hc'.
    { apply (core_ok_carries m i ths); [|done]. intros u th Hu _.
      destruct (decide (t = u)) as [->|Hn].
      - eexists. rewrite lookup_insert_eq. simplify_eq. done.
      - exists th. by rewrite lookup_insert_ne. }
    unfold core_ok in *. rewrite E1, E2, E3, E4. by destruct m.
  - rewrite E4. intros u th. destruct (decide (t = u)) as [->|Hnt].
    + rewrite lookup_insert_eq. by intros [= <-].
    + rewrite lookup_insert_ne by done. intros Hu. destruct (Ht _ _ Hu) as (H1 & H2 & H3).
      split; [done|]. split; [done|]. intros E. destruct (H3 E) as [Hm' _]. congruence.
Qed.

(** ** The guard that tells the worker from the other threads

    Thread ids may be used again once a thread has been joined; the guard is
    right all the same. *)
Lemma called_from_ok m i ths t r p : mode_ok m i ths -> ths !! t = Some (MkThread r p) ->
  exited p = false -> called_from_worker_thread t i = bool_decide (r = Worker).
Proof.
  intros [Hc Ht] Hl He. pose proof (Ht _ _ Hl) as (_ & _ & Hr). unfold called_from_worker_thread.
  destruct (bool_decide_reflect (r = Worker)) as [->|Hn].
  - destruct (Hr eq_refl) as [Hm Hx]. simpl in Hx. rewrite Hx, He. simpl. apply bool_decide_eq_true_2.
    destruct m; simplify_eq/=; intuition.
  - destruct (worker_exited_ i) eqn:E; [done|]. simpl. apply bool_decide_eq_false_2. intros Ha.
    destruct m as [|id|u id|u]; simpl in Hc.
    + by destruct Hc as (_ & _ & ?); congruence.
    + destruct Hc as (_ & _ & Ha' & q & Hq). assert (id = t) as -> by congruence. congruence.
    + destruct Hc as (_ & _ & Ha' & (q & Hq) & _). assert (id = t) as -> by congruence. congruence.
    + by destruct Hc as (_ & _ & ? & _); congruence.
Qed.

(** ** What the sections do to the ownership *)

Lemma core_owned i : core (owned i) = core i.
Proof. done. Qed.

Lemma act_core (w : World T) a : core (im (act w a)) = core (im w).
Proof. by rewrite <- core_owned, act_owned, core_owned. Qed.

Lemma session_section_core f i : session_section f -> core (f i) = core i.
Proof.
  destruct 1; try done.
  - unfold apply_configuration. repeat case_match; done.
  - unfold timeout_section. case_match; done.
  - unfold record_section. repeat case_match; done.
Qed.

Lemma session_move_core (w w' : World T) : session_move w w' -> core (im w') = core (im w).
Proof.
  destruct 1 as [w f Hf Hn|w a r t Hs _|w a e w' Hst Hs Es|w a w' Hst Hs Es|w s answer _];
    try (apply send_command_log in Es as ->); try done.
  by apply session_section_core.
Qed.

Lemma fault_section_core code m (i : Impl T) : core (fault_section code m i) = core i.
Proof. unfold fault_section. by destruct (publish _ _ _ _ _) as [[? ?] ?]. Qed.

Lemma loop_move_core (w w' : World T) : loop_move w w' -> core (im w') = core (im w).
Proof.
  destruct 1 as [w a|w code m _|w m _]; [|apply fault_section_core|done].
  unfold close_section. by destruct (session_started_ _).
Qed.

Lemma stop_command_core a (w : World T) : core (im (stop_command a w)) = core (im w).
Proof. unfold stop_command. by destruct (session_started_ _). Qed.

Lemma mark_stopped_core (i : Impl T) : core (mark_stopped i) = core i.
Proof. unfold mark_stopped. by destruct (faulted_ i). Qed.

Lemma finish_section_core (i : Impl T) :
  core (finish_section i) = (worker_ i, active_worker_id_ i, joining_ i, true).
Proof. unfold finish_section. cbv zeta. by destruct (faulted_ _). Qed.

Lemma start_section_core cb thread (i : Impl T) : core (snd (start_section cb thread i)) =
  match thread with Ok id => (Some id, Some id, joining_ i, false) | Throw _ => core i end.
Proof.
  destruct thread as [id|e]; unfold start_section; cbv zeta; simpl; [done|].
  case_match; [done|]. by rewrite fault_section_core.
Qed.

(** ** Every transition follows the modes *)

Definition mode_next (m m' : Mode) : Prop := m' = m \/ mode_step m m'.

(** [m] is the mode of a system. *)
Definition in_mode (m : Mode) (s : System T) : Prop := mode_ok m (im (world s)) (threads s).

Definition moved (t : thread_id) (r : Role) (e : Effect T) (ths : threads_map) : threads_map :=
  match spawns e with
  | Some id => <[id := MkThread Worker Working]> (<[t := MkThread r (next e)]> ths)
  | None => <[t := MkThread r (next e)]> ths
  end.

Lemma apply_effect_threads t r e (s : System T) : threads (apply_effect t r e s) =
  if notifies e then wake_thread wake <$> moved t r e (threads s) else moved t r e (threads s).
Proof. unfold apply_effect, moved, spawn, notify. destruct (spawns e), (notifies e); done. Qed.

(** Where a section leaves the ownership. *)
Definition follows (m : Mode) (t : thread_id) (r : Role) (e : Effect T) (ths : threads_map) : Prop :=
  exists m', mode_ok m' (im (effect_world e)) (moved t r e ths) /\ mode_next m m'.

Lemma follows_same m t r p p' w w' h b ths : mode_ok m (im w) ths -> ths !! t = Some (MkThread r p) ->
  similar r p p' -> core (im w') = core (im w) -> follows m t r (MkEffect p' w' h b None) ths.
Proof.
  intros Hm Hl Hp Hw. exists m. split; [|by left]. apply (mode_ok_world _ (im w)); [done|].
  by eapply mode_ok_set.
Qed.

Lemma start_pass_follows m t r p cb thread (w : World T) h ths :
  mode_ok m (im w) ths -> ths !! t = Some (MkThread r p) -> r <> Worker ->
  p = StartTop cb \/ p = StartIdleWait cb Woken -> joining_ (im w) = false ->
  let e := start_pass cb thread (start_worker (im w)) w h in
  (forall id, spawns e = Some id -> ths !! id = None) -> follows m t r e ths.
Proof.
  intros Hm Hl Hr Hp Hj. cbv zeta.
  assert (r = Caller) as ->.
  { destruct (mode_ok_thread _ _ _ _ _ Hm Hl) as [Hpc _]. by destruct r, Hp as [-> | ->]. }
  assert (forall p', joins p' = None -> joined p' = false -> pc_of Caller p' = true ->
    exited p' = false -> similar Caller p p') as Hsim.
  { intros p' ? ? ? ?. destruct Hp as [-> | ->]; done. }
  unfold start_pass, start_worker. pose proof (mode_ok_core _ _ _ Hm) as Hc.
  destruct m as [|id|u id|u]; simpl in Hc.
  - destruct Hc as (Ew & _ & _). rewrite Ew. pose proof (start_section_core cb thread (im w)) as E.
    destruct (start_section cb thread (im w)) as [r i]. simpl in E. intros Hf.
    destruct thread as [id|e].
    + exists (Held id). split; [|right; constructor]. simpl in *.
      eapply mode_ok_spawn; [exact Hm|exact Hl|by apply Hf|exact E].
    + eapply follows_same; [exact Hm|exact Hl|by apply Hsim|exact E].
  - destruct Hc as (Ew & _). rewrite Ew. intros _.
    destruct (negb (worker_exited_ (im w))); [destruct (negb (faulted_ (im w)))|].
    + eapply follows_same; [exact Hm|exact Hl|by apply Hsim|done].
    + eapply follows_same; [exact Hm|exact Hl|by apply Hsim|done].
    + edestruct (mode_ok_claim (im w) ths t Caller p (StartJoining cb id)) as [Hne Hm']; [done..|].
      exists (Claimed t id). split; [exact Hm'|by right; constructor].
  - destruct Hc as (_ & ? & _). congruence.
  - destruct Hc as (_ & ? & _). congruence.
Qed.

Lemma stop_done_pc k h r : r <> Worker -> pc_of r (StopCommand k) = true ->
  pc_of r (fst (stop_done k h)) = true.
Proof. by destruct r, k. Qed.

Lemma stop_done_similar k h r p : pc_of r p = true -> p = StopCommand k \/ p = StopNotify k ->
  similar r p (fst (stop_done k h)).
Proof. intros Hp [-> | ->]; destruct r, k; done. Qed.

Lemma stop_pass_follows m t r k a (w : World T) h ths :
  mode_ok m (im w) ths -> ths !! t = Some (MkThread r (StopCommand k)) ->
  follows m t r (stop_pass t k a w h) ths.
Proof.
  intros Hm Hl. unfold stop_pass. pose proof (stop_command_core a w) as Ec.
  assert (mode_ok m (im (stop_command a w)) ths) as Hm1 by by apply (mode_ok_world _ (im w)).
  assert (pc_of r (StopCommand k) = true) as Hp by apply (mode_ok_thread _ _ _ _ _ Hm Hl).
  pose proof (called_from_ok _ _ _ _ _ _ Hm1 Hl eq_refl) as Hcf.
  generalize dependent (stop_command a w). intros w1 Ec Hm1 Hcf. unfold stop_entry. rewrite Hcf.
  destruct (bool_decide_reflect (r = Worker)) as [Hr|Hr].
  { eapply follows_same; [exact Hm1|exact Hl|by apply stop_done_similar; auto|done]. }
  destruct (joining_ (im w1)) eqn:Ej.
  { eapply follows_same; [exact Hm1|exact Hl| |done]. by destruct r. }
  pose proof (mode_ok_core _ _ _ Hm1) as Hc. destruct m as [|id|u id|u]; simpl in Hc.
  - destruct Hc as (Ew & _). rewrite Ew.
    eapply follows_same; [exact Hm1|exact Hl|by apply stop_done_similar; auto|apply mark_stopped_core].
  - destruct Hc as (Ew & _). rewrite Ew.
    edestruct (mode_ok_claim (im w1) ths t r (StopCommand k) (StopJoining k id)) as [Hne Hm']; [done..|by destruct r|done|].
    exists (Claimed t id). split; [exact Hm'|by right; constructor].
  - destruct Hc as (_ & ? & _). congruence.
  - destruct Hc as (_ & ? & _). congruence.
Qed.

Lemma release_follows m t r p p' (w : World T) i' h ths : mode_ok m (im w) ths ->
  ths !! t = Some (MkThread r p) -> joins p = None -> joined p = true ->
  pc_of r p' = true -> joins p' = None -> joined p' = false ->
  core i' = (worker_ (im w), None, false, worker_exited_ (im w)) ->
  follows m t r (unchanged p' (set_im i' w) h) ths.
Proof.
  intros Hm Hl ? ? ? ? ? [= E1 E2 E3 E4].
  edestruct (mode_ok_release m (im w) i') as [-> Hm']; [done..|].
  exists NoWorker. split; [exact Hm'|by right; constructor].
Qed.

Lemma joined_section_core (i : Impl T) :
  core (joined_section i) = (worker_ i, None, false, worker_exited_ i).
Proof. unfold joined_section, reaped_section, mark_stopped. by destruct (faulted_ i). Qed.

Lemma section_follows m t r p a thread (w : World T) h e ths :
  mode_ok m (im w) ths -> ths !! t = Some (MkThread r p) ->
  lifecycle_section t p a thread w h = Some e ->
  (forall id, spawns e = Some id -> ths !! id = None) -> follows m t r e ths.
Proof.
  intros Hm Hl. assert (pc_of r p = true) as Hp by apply (mode_ok_thread _ _ _ _ _ Hm Hl).
  assert (forall p', similar r p p' -> follows m t r (unchanged p' w h) ths) as Hs.
  { intros p' ?. by eapply follows_same. }
  pose proof (called_from_ok _ _ _ _ _ _ Hm Hl) as Hcf.
  destruct p as [| | |v| | |c v|cb|cb v|cb v|cb id|cb|cb| |k|k|k v|k id|k|k]; try done;
    try (destruct v; try done); intros [= <-] Hf.
  - unfold start_entry in *. rewrite (Hcf eq_refl) in *.
    destruct (bool_decide_reflect (r = Worker)) as [->|Hr]; [by apply Hs|].
    destruct (joining_ (im w)) eqn:Ej; [apply Hs; by destruct r|].
    eapply start_pass_follows; eauto.
  - destruct (joining_ (im w)) eqn:Ej; [by apply Hs|].
    eapply start_pass_follows; eauto. by intros ->.
  - apply Hs. by destruct r, (exit_awaited (im w)).
  - eapply release_follows; [exact Hm|exact Hl|..]; try done; by destruct r.
  - rewrite (Hcf eq_refl). apply Hs. by destruct r.
  - eapply follows_same; [exact Hm|exact Hl| |done]. by destruct r, k.
  - by apply stop_pass_follows.
  - apply Hs. by destruct r, (joining_ (im w)).
  - eapply release_follows; [exact Hm|exact Hl|..]; try done.
    apply joined_section_core.
Qed.

Lemma set_wait_similar r p p' v : pc_of r p = true -> set_wait v p = Some p' -> similar r p p'.
Proof. by destruct p; intros Hp [= <-]. Qed.

(** The worker's transitions and those of the callers outside the lifecycle
    sections. *)
Lemma in_mode_set m (s : System T) t r p p' : in_mode m s -> threads s !! t = Some (MkThread r p) ->
  similar r p p' -> in_mode m (set_pc t r p' s).
Proof. intros Hm Hl Hs. by eapply mode_ok_set. Qed.

Lemma in_mode_notify m (s : System T) f : harmless f -> in_mode m s -> in_mode m (notify f s).
Proof. intros Hf Hm. by apply mode_ok_wake. Qed.

Lemma first_recheck_similar r p c (i : Impl T) : pc_of r p = true -> r <> Destroyer ->
  joins p = None -> joined p = false -> exited p = false -> similar r p (first_recheck c i).
Proof. intros Hp Hr ? ? ?. unfold first_recheck, similar. by destruct (wait_done c i), r. Qed.

Lemma backoff_recheck_similar p (i : Impl T) : p = Working \/ p = BackoffWait Woken ->
  similar Worker p (backoff_recheck i).
Proof. intros [-> | ->]; unfold backoff_recheck; by destruct (stopping_ i). Qed.

Lemma in_mode_effect m t r e (s : System T) :
  mode_ok m (im (effect_world e)) (moved t r e (threads s)) -> in_mode m (apply_effect t r e s).
Proof.
  intros Hm. unfold in_mode. rewrite apply_effect_threads.
  replace (world (apply_effect t r e s)) with (effect_world e)
    by (unfold apply_effect; by destruct (notifies e)).
  destruct (notifies e); [|done]. by apply mode_ok_wake; [apply wake_harmless|].
Qed.

Lemma in_mode_join m (s : System T) t r p p' id : in_mode m s ->
  threads s !! t = Some (MkThread r p) -> joins p = Some id ->
  threads s !! id = Some (MkThread Worker Finished) ->
  (forall r, pc_of r p' = pc_of r p) -> joins p' = None -> joined p' = true ->
  exists m', in_mode m' (set_pc t r p' (s <| threads := delete id (threads s) |>)) /\ mode_next m m'.
Proof.
  intros Hm Hl Hj Hid Hp Hj' Hd. exists (Reaped t).
  edestruct (mode_ok_join m (im (world s)) (threads s) t) as [-> Hm']; [done..| | | |];
    [rewrite Hp; apply (mode_ok_thread _ _ _ _ _ Hm Hl)|done..|].
  split; [exact Hm'|by right; constructor].
Qed.

(** The case of a transition of one thread that leaves the ownership alone. *)
#[local] Ltac stay s :=
  match goal with H : _ -> exists _, _ |- _ => apply H end; eapply (in_mode_set _ s); [done..|].

Lemma step_follows s t l s' m : step s t l s' -> in_mode m s ->
  exists m', in_mode m' s' /\ mode_next m m'.
Proof.
  intros Hstep Hm.
  assert (forall r p, threads s !! t = Some (MkThread r p) -> pc_of r p = true) as Hpc.
  { intros r p Hl. apply (mode_ok_thread _ _ _ _ _ Hm Hl). }
  assert (forall r h, may_call r h = true -> r <> Destroyer) as Hcall by by intros [].
  assert (in_mode m s' -> exists m', in_mode m' s' /\ mode_next m m') as Hsame.
  { intros H. exists m. split; [done|by left]. }
  destruct Hstep as [s t Hl|s t Hl|s t r cb Hl Hr|s t r Hl Hr|s t r Hl Hr|s t r a Hl Hr Ha Hd
    |s t r now timeout c Hl Hr Hd Hw|s t Hl|s t r p a thread e Hl Hk He Hd Hf|s t r cb Hl|s t r k Hl
    |s t r cb id Hl Hid|s t r k id Hl Hid|s t r p p' Hl Hh Hp|s t r p p' Hl Ha Hp|s t r c Hl Hd
    |s t r c Hl Hd|s t w' Hl Hw Hd|s t Hl|s t sample answer Hl Hc|s t p Hl Hp Hd|s t Hl Hd|s t Hl Hd
    |s t Hl|s t Hl Hh].
  - apply Hsame. by apply mode_ok_new.
  - apply Hsame. by apply mode_ok_end.
  - stay s. by destruct r.
  - stay s. by destruct r.
  - stay s. destruct Hr as (_ & Hr & _). by destruct r.
  - apply Hsame. apply (mode_ok_world _ (im (world s))); [apply act_core|done].
  - stay s. apply first_recheck_similar; eauto.
  - by stay s.
  - destruct (section_follows _ _ _ _ _ _ _ _ _ _ Hm Hl He Hf) as (m' & Hm' & Hn).
    exists m'. split; [|done]. by apply in_mode_effect.
  - apply Hsame, in_mode_notify; [apply wake_lifecycle_harmless|].
    eapply in_mode_set; [done..|]. by destruct r; specialize (Hpc _ _ Hl).
  - apply Hsame, (in_mode_notify _ (set_pc t r _ s)); [apply wake_harmless|].
    eapply in_mode_set; [done..|]. apply stop_done_similar; eauto.
  - eapply in_mode_join; eauto; done.
  - eapply in_mode_join; eauto; done.
  - stay s. eapply set_wait_similar; eauto.
  - stay s. eapply set_wait_similar; eauto.
  - stay s. apply first_recheck_similar; eauto. intros ->. by specialize (Hpc _ _ Hl).
  - stay s. by destruct r; specialize (Hpc _ _ Hl).
  - apply Hsame. apply (mode_ok_world _ (im (world s))).
    { destruct Hw; [by apply session_move_core|by apply loop_move_core]. }
    eapply (in_mode_set _ s); [done..|]. unfold worker_next. by destruct (announces _ _).
  - apply Hsame, in_mode_notify; [apply wake_harmless|]. by eapply in_mode_set.
  - by stay s.
  - stay s. by apply backoff_recheck_similar.
  - by stay s.
  - apply Hsame. eapply mode_ok_finish; [exact Hm|exact Hl|apply finish_section_core].
  - apply Hsame, in_mode_notify; [apply wake_harmless|]. by eapply in_mode_set.
  - by stay s.
Qed.

Lemma initial_mode s : initial s -> in_mode NoWorker s.
Proof.
  intros ((now & config & E) & _ & _ & _ & Ht). split.
  - unfold impl_construct in E. destruct (validate_config now config); [|done].
    injection E as E. by rewrite <- E.
  - intros t th Hl. destruct (Ht _ _ Hl) as [Hr Hp]. destruct th as [r p]. simpl in *. subst.
    split; [by destruct r|]. by split.
Qed.

Lemma moves_follow s0 s m0 : rtc moves s0 s -> in_mode m0 s0 ->
  exists m, rtc mode_step m0 m /\ in_mode m s.
Proof.
  intros Hs. revert m0. induction Hs as [s|s1 s2 s3 (t & l & H) _ IH]; intros m0 Hm; [by exists m0|].
  destruct (step_follows _ _ _ _ _ H Hm) as (m1 & Hm1 & Hn).
  destruct (IH m1 Hm1) as (m & Hr & Hm'). exists m. split; [|done].
  destruct Hn as [-> | Hn]; [done|by eapply rtc_l].
Qed.

Lemma reachable_mode s : reachable s -> exists m, in_mode m s.
Proof.
  intros (s0 & Hi & Hs). destruct (moves_follow s0 s NoWorker Hs) as (m & _ & Hm); [|by exists m].
  by apply initial_mode.
Qed.

Lemma reachable_step s t l s' : reachable s -> step s t l s' -> reachable s'.
Proof. intros (s0 & Hi & Hs) H. exists s0. split; [done|]. eapply rtc_r; [done|]. by exists t, l. Qed.

(** *** What a mode says of the threads *)

Lemma worker_unique m i ths t1 p1 t2 p2 : mode_ok m i ths -> ths !! t1 = Some (MkThread Worker p1) ->
  ths !! t2 = Some (MkThread Worker p2) -> t1 = t2.
Proof.
  intros Hm H1 H2. destruct (mode_ok_thread _ _ _ _ _ Hm H1) as (_ & _ & [E1 _]); [done|].
  destruct (mode_ok_thread _ _ _ _ _ Hm H2) as (_ & _ & [E2 _]); [done|]. congruence.
Qed.

(** Whether the thread has set [joining_]. *)
Definition joiner (p : Pc) : bool := bool_decide (is_Some (joins p)) || joined p.

Lemma joiner_mode m i ths t r p : mode_ok m i ths -> ths !! t = Some (MkThread r p) ->
  joiner p = true -> (exists id, joins p = Some id /\ m = Claimed t id) \/ m = Reaped t.
Proof.
  intros Hm Hl. destruct (mode_ok_thread _ _ _ _ _ Hm Hl) as (_ & Hc & _). unfold claims, joiner in *.
  simpl in *. destruct (joins p) as [id|]; [by left; exists id|]. intros H. right. by apply Hc.
Qed.

Lemma joining_mode m i ths : mode_ok m i ths -> joining_ i = true ->
  (exists t id, m = Claimed t id) \/ exists t, m = Reaped t.
Proof. intros [Hc _]. destruct m; simpl in Hc; [intuition congruence..| |]; eauto. Qed.

Lemma worker_exists m i ths : mode_ok m i ths -> worker_exited_ i = false ->
  exists id, worker_at ths id.
Proof.
  intros [Hc _] He. destruct m as [|id|t id|t]; simpl in Hc.
  - destruct Hc as (_ & _ & ?). congruence.
  - exists id. apply Hc.
  - exists id. apply Hc.
  - destruct Hc as (_ & _ & ? & _). congruence.
Qed.

(** C18: the ownership of the worker thread is a machine of four modes: no
    worker; a worker held by the member [worker_]; claimed by a thread that joins
    it; joined, until that thread has said so.  Every execution of the client, by
    any number of threads and in any interleaving, follows the machine, and in
    each mode the members [worker_], [joining_], [worker_exited_] and
    [active_worker_id_] and the program counters of all threads are as the mode
    says. *)
Theorem worker_ownership s0 s : initial s0 -> rtc moves s0 s ->
  exists m, rtc mode_step NoWorker m /\ in_mode m s /\
    forall t l s', step s t l s' -> exists m', in_mode m' s' /\ mode_next m m'.
Proof.
  intros Hi%initial_mode Hs. destruct (moves_follow _ _ _ Hs Hi) as (m & Hr & Hm).
  exists m. split; [done|]. split; [done|]. intros t l s' H. by eapply step_follows.
Qed.

(** C19: the discipline of the threads: in every reachable system there is at
    most one worker thread, which is in [run], in the sample callback or on a
    public call of it; a thread that joins never joins itself and joins a thread
    that exists; [joining_] is set exactly while one thread joins, and
    then the member [worker_] is empty, so no joinable thread object is ever
    overwritten; [worker_exited_] is false exactly while a worker has not yet
    finished, and then [active_worker_id_] is its id. *)
Theorem thread_discipline s : reachable s ->
  (forall t1 p1 t2 p2, threads s !! t1 = Some (MkThread Worker p1) ->
     threads s !! t2 = Some (MkThread Worker p2) -> t1 = t2) /\
  (forall t r p id, threads s !! t = Some (MkThread r p) -> joins p = Some id ->
     t <> id /\ worker_at (threads s) id) /\
  (joining_ (im (world s)) = true <->
     exists t r p, threads s !! t = Some (MkThread r p) /\ joiner p = true) /\
  (forall t1 r1 p1 t2 r2 p2, threads s !! t1 = Some (MkThread r1 p1) -> joiner p1 = true ->
     threads s !! t2 = Some (MkThread r2 p2) -> joiner p2 = true -> t1 = t2) /\
  (joining_ (im (world s)) = true -> worker_ (im (world s)) = None) /\
  (worker_exited_ (im (world s)) = false <->
     exists t p, threads s !! t = Some (MkThread Worker p) /\ exited p = false) /\
  (forall t p, threads s !! t = Some (MkThread Worker p) -> exited p = false ->
     active_worker_id_ (im (world s)) = Some t).
Proof.
  intros (m & Hm)%reachable_mode. pose proof (mode_ok_core _ _ _ Hm) as Hc. split_and!.
  - intros *. by apply (worker_unique _ _ _ _ _ _ _ Hm).
  - intros t r p id Hl Hj. destruct (joiner_mode _ _ _ _ _ _ Hm Hl) as [(id' & Hj' & ->)| ->].
    + unfold joiner. by rewrite Hj.
    + simplify_eq. destruct Hc as (_ & _ & _ & [q Hq] & _). split; [|by exists q]. intros <-.
      destruct (mode_ok_thread _ _ _ _ _ Hm Hl) as (Hp & _). simplify_eq/=. by destruct q.
    + destruct Hc as (_ & _ & _ & th & Hx & Hd). simplify_eq/=. by destruct p.
  - split.
    + intros Hj. destruct (joining_mode _ _ _ Hm Hj) as [(t & id & ->)|(t & ->)]; simpl in Hc.
      * destruct Hc as (_ & _ & _ & _ & [r p] & Hx & Hy). exists t, r, p. split; [done|].
        unfold joiner. simpl in Hy. by rewrite Hy.
      * destruct Hc as (_ & _ & _ & [r p] & Hx & Hy). exists t, r, p. split; [done|].
        unfold joiner. simpl in Hy. by rewrite Hy, orb_true_r.
    + intros (t & r & p & Hl & Hj). destruct (joiner_mode _ _ _ _ _ _ Hm Hl Hj) as [(id & _ & ->)| ->];
        simpl in Hc; intuition.
  - intros t1 r1 p1 t2 r2 p2 H1 J1 H2 J2.
    destruct (joiner_mode _ _ _ _ _ _ Hm H1 J1) as [(? & _ & ->)| ->];
      destruct (joiner_mode _ _ _ _ _ _ Hm H2 J2) as [(? & _ & E)|E]; congruence.
  - intros Hj. destruct (joining_mode _ _ _ Hm Hj) as [(t & id & ->)|(t & ->)]; simpl in Hc; intuition.
  - split.
    + intros He. destruct (worker_exists _ _ _ Hm He) as (id & p & Hp).
      exists id, p. split; [done|]. destruct (mode_ok_thread _ _ _ _ _ Hm Hp) as (_ & _ & [_ E]); [done|].
      simpl in E. congruence.
    + intros (t & p & Hl & He). destruct (mode_ok_thread _ _ _ _ _ Hm Hl) as (_ & _ & [_ E]); [done|].
      simpl in E. congruence.
  - intros t p Hl He. pose proof (called_from_ok _ _ _ _ _ _ Hm Hl He) as H.
    rewrite bool_decide_eq_true_2 in H by done. unfold called_from_worker_thread in H.
    bool_to_prop. by eapply bool_decide_eq_true_1.
Qed.

End lifecycle_safety.
