(* ===== verification/LifecycleFrame.v ===== *)
(** * What one transition changes, and what it leaves alone

    The threads that do not move, the shared state by the kind of transition, and
    the induction over the reachable systems. *)

From S2P Require Export ClientWire LifecycleSafety.

#[local] Open Scope Z_scope.

Section lifecycle_frame.
  Context {T : TransportOps} {P : Platform}.

(** ** What a transition does to the threads that do not make it

    They are notified, all or none, but for the worker that is created and the
    worker that is joined. *)
Definition notification (f : Pc -> Pc) : Prop := f = id \/ f = wake_lifecycle \/ f = wake.

Lemma notification_harmless f : notification f -> harmless f.
Proof. intros [-> | [-> | ->]]; [done|apply wake_lifecycle_harmless|apply wake_harmless]. Qed.

Lemma wake_thread_id (o : option Thread) : wake_thread id <$> o = o.
Proof. by destruct o as [[]|]. Qed.

Definition other_kept (f : Pc -> Pc) (u : thread_id) (s s' : System T) : Prop :=
  threads s' !! u = wake_thread f <$> threads s !! u \/
  (threads s !! u = None /\ threads s' !! u = Some (MkThread Worker Working)) \/
  (threads s !! u = Some (MkThread Worker Finished) /\ threads s' !! u = None).

Lemma other_set f t r p u s s' : t <> u -> other_kept f u s s' -> other_kept f u s (set_pc t r p s').
Proof. intros Hn. unfold other_kept, set_pc. simpl. by rewrite lookup_insert_ne. Qed.

Lemma other_same u s s' : threads s' = threads s -> other_kept id u s s'.
Proof. intros E. left. by rewrite E, wake_thread_id. Qed.

Lemma other_effect t r e u (s : System T) : t <> u ->
  (forall id, spawns e = Some id -> threads s !! id = None) ->
  other_kept (if notifies e then wake else id) u s (apply_effect t r e s).
Proof.
  intros Hn Hf. unfold other_kept. rewrite apply_effect_threads. unfold moved.
  assert (spawns e = Some u \/ (forall x, x = moved t r e (threads s) -> x !! u = threads s !! u))
    as [E|E].
  { unfold moved. destruct (spawns e) as [id|]; [destruct (decide (id = u)) as [->|]; [by left|]|];
      right; intros x ->; by rewrite !lookup_insert_ne. }
  - right; left. split; [by apply Hf|]. rewrite E.
    destruct (notifies e); [rewrite lookup_fmap|]; by rewrite lookup_insert_eq.
  - left. specialize (E _ eq_refl). unfold moved in E.
    destruct (notifies e); [rewrite lookup_fmap|]; rewrite E; [done|by rewrite wake_thread_id].
Qed.

Lemma step_others s t l s' : step s t l s' ->
  exists f, notification f /\ forall u, u <> t -> other_kept f u s s'.
Proof.
  assert (forall Q : thread_id -> Prop, (forall u, t <> u -> Q u) -> forall u, u <> t -> Q u) as Hsym
    by auto.
  intros H. destruct H; try (exists id; split; [by left|]; apply Hsym; intros u Hn;
    first [by apply other_same|by apply other_set, other_same
          |left; simpl; rewrite ?lookup_insert_ne, ?lookup_delete_ne, wake_thread_id by done; done]).
  - exists (if notifies e then wake else id). split; [destruct (notifies e); [by right; right|by left]|].
    apply Hsym. intros u Hn. by apply other_effect.
  - exists wake_lifecycle. split; [by right; left|]. apply Hsym. intros u Hn. left. simpl.
    by rewrite lookup_fmap, lookup_insert_ne.
  - exists wake. split; [by right; right|]. apply Hsym. intros u Hn. left. simpl.
    by rewrite lookup_fmap, lookup_insert_ne.
  - exists Datatypes.id. split; [by left|]. apply Hsym. intros u Hn.
    destruct (decide (id = u)) as [->|Hne].
    + right; right. split; [done|]. simpl. rewrite lookup_insert_ne by done. apply lookup_delete_eq.
    + left. simpl. by rewrite lookup_insert_ne, lookup_delete_ne, wake_thread_id by done.
  - exists Datatypes.id. split; [by left|]. apply Hsym. intros u Hn.
    destruct (decide (id = u)) as [->|Hne].
    + right; right. split; [done|]. simpl. rewrite lookup_insert_ne by done. apply lookup_delete_eq.
    + left. simpl. by rewrite lookup_insert_ne, lookup_delete_ne, wake_thread_id by done.
  - exists wake. split; [by right; right|]. apply Hsym. intros u Hn. left. simpl.
    by rewrite lookup_fmap, lookup_insert_ne.
  - exists wake. split; [by right; right|]. apply Hsym. intros u Hn. left. simpl.
    by rewrite lookup_fmap, lookup_insert_ne.
Qed.

(** ** What a transition does to the shared state

    [start] writes it only when there is no worker; every other transition of a
    thread that is not the worker's own raises the stop flag, ends the session,
    biases or prunes, besides the members of the ownership. *)
Lemma no_worker_mode m i (ths : gmap thread_id Thread) : mode_ok m i ths -> worker_ i = None ->
  joining_ i = false -> m = NoWorker /\ worker_exited_ i = true /\ forall id, ~ worker_at ths id.
Proof.
  intros Hm Hw Hj. pose proof (mode_ok_core _ _ _ Hm) as Hc.
  destruct m; simpl in Hc; [|intuition congruence..]. split; [done|]. split; [apply Hc|].
  intros id [p Hp]. by destruct (mode_ok_thread _ _ _ _ _ Hm Hp) as (_ & _ & [? _]).
Qed.

(** What a lifecycle section does to the shared state, by the place [p] it starts
    from: [start] without a worker, or nothing but the flags, or the end of a
    [stop]. *)
Inductive section_world (p : Pc) (w : World T) : World T -> Prop :=
| sw_same : section_world p w w
| sw_claim : section_world p w (set_im (claim_section (im w)) w)
| sw_flag : section_world p w (stop_flag w)
| sw_command a k : p = StopCommand k -> section_world p w (stop_command a w)
| sw_command_claim a k : p = StopCommand k ->
    section_world p w (set_im (claim_section (im (stop_command a w))) (stop_command a w))
| sw_command_idle a k : p = StopCommand k -> worker_ (im w) = None -> joining_ (im w) = false ->
    section_world p w (set_im (mark_stopped (im (stop_command a w))) (stop_command a w))
| sw_start cb thread : holds_lifecycle p = false -> worker_ (im w) = None -> joining_ (im w) = false ->
    section_world p w (set_im (snd (start_section cb thread (im w))) w)
| sw_reaped : joining_ (im w) = true -> worker_exited_ (im w) = true ->
    section_world p w (set_im (reaped_section (im w)) w)
| sw_joined : joining_ (im w) = true -> worker_exited_ (im w) = true ->
    section_world p w (set_im (joined_section (im w)) w).

Lemma start_pass_world p cb thread (w : World T) h : holds_lifecycle p = false ->
  joining_ (im w) = false ->
  section_world p w (effect_world (start_pass cb thread (start_worker (im w)) w h)).
Proof.
  intros Hp Hj. unfold start_pass, start_worker. destruct (worker_ (im w)) as [id|] eqn:Ew.
  - destruct (negb (worker_exited_ (im w))); [destruct (negb (faulted_ (im w)))|]; simpl; constructor.
  - pose proof (sw_start p w cb thread Hp Ew Hj) as H.
    destruct (start_section cb thread (im w)) as [r i]. exact H.
Qed.

Lemma stop_pass_world t k a (w : World T) h :
  section_world (StopCommand k) w (effect_world (stop_pass t k a w h)).
Proof.
  unfold stop_pass. pose proof (stop_command_core a w) as (Ew & _ & Ej & _)%core_eq.
  unfold stop_entry.
  destruct (called_from_worker_thread t _); [by eapply sw_command|].
  destruct (joining_ (im (stop_command a w))) eqn:Hj; [by eapply sw_command|].
  destruct (worker_ (im (stop_command a w))) eqn:Hw; [by eapply sw_command_claim|].
  eapply sw_command_idle; [done|congruence..].
Qed.

Lemma lifecycle_section_world m t r p a thread (w : World T) h e ths :
  mode_ok m (im w) ths -> ths !! t = Some (MkThread r p) ->
  lifecycle_section t p a thread w h = Some e -> section_world p w (effect_world e).
Proof.
  intros Hm Hl.
  assert (joined p = true -> joining_ (im w) = true /\ worker_exited_ (im w) = true) as Hjd.
  { intros Hd. assert (joiner p = true) as Hj by (unfold joiner; by rewrite Hd, orb_true_r).
    pose proof (mode_ok_core _ _ _ Hm) as Hc.
    destruct (joiner_mode _ _ _ _ _ _ Hm Hl Hj) as [(id & Hjs & _)| ->]; [by destruct p|].
    simpl in Hc. intuition. }
  destruct p as [| | |v| | |c v|cb|cb v|cb v|cb id|cb|cb| |k|k|k v|k id|k|k]; try done;
    try (destruct v; try done); intros [= <-].
  - unfold start_entry. destruct (called_from_worker_thread _ _); [constructor|].
    destruct (joining_ (im w)) eqn:Ej; [constructor|]. by apply start_pass_world.
  - destruct (joining_ (im w)) eqn:Ej; [constructor|]. by apply start_pass_world.
  - constructor.
  - by apply sw_reaped; apply Hjd.
  - constructor.
  - constructor.
  - apply stop_pass_world.
  - constructor.
  - by apply sw_joined; apply Hjd.
Qed.

(** What any transition does to the shared state. *)
Inductive step_world (s : System T) : Label -> World T -> Prop :=
| stw_same l : step_world s l (world s)
| stw_act a : public_action a = true -> step_world s LApplication (act (world s) a)
| stw_section t r p w' : threads s !! t = Some (MkThread r p) ->
    lifecycle_lock s = lock_if (holds_lifecycle p) t None ->
    section_world p (world s) w' -> step_world s LClient w'
| stw_work w' : session_move (world s) w' \/ loop_move (world s) w' -> step_world s LWorker w'
| stw_callback sample answer :
    step_world s LWorker (record_event (EvCallback sample answer) (world s))
| stw_finish : step_world s LWorker (set_im (finish_section (im (world s))) (world s)).

Lemma apply_effect_world t r e (s : System T) : world (apply_effect t r e s) = effect_world e.
Proof. unfold apply_effect. by destruct (notifies e). Qed.

Lemma step_world_of s t l s' : reachable s -> step s t l s' -> step_world s l (world s').
Proof.
  intros (m & Hm)%reachable_mode H. destruct H; try exact (stw_same s _).
  - by apply stw_act.
  - rewrite apply_effect_world. eapply stw_section; [done..|].
    eapply lifecycle_section_world; [exact Hm|done..].
  - by apply stw_work.
  - apply stw_callback.
  - apply stw_finish.
Qed.

(** An invariant of the reachable systems, proved on each transition from a
    reachable one. *)
Lemma reachable_ind (I : System T -> Prop) : (forall s, initial s -> I s) ->
  (forall s t l s', reachable s -> I s -> step s t l s' -> I s') -> forall s, reachable s -> I s.
Proof.
  intros Hi Hs s (s0 & H0 & H). apply Hi in H0 as HI. assert (reachable s0) as Hr by by exists s0.
  clear H0. induction H as [s|s1 s2 s3 (t & l & Hst) _ IH]; [done|].
  apply IH; [by eapply Hs|by eapply reachable_step].
Qed.

(** The worker goes on, or has something to announce. *)
Lemma worker_next_cases (w w' : World T) : worker_next w w' = Working \/ worker_next w w' = Announcing.
Proof. unfold worker_next. destruct (announces w w'); auto. Qed.

(** The thread that makes a section goes where the section says. *)
Lemma apply_effect_self t r p e (s : System T) : threads s !! t = Some (MkThread r p) ->
  (forall id, spawns e = Some id -> threads s !! id = None) ->
  threads (apply_effect t r e s) !! t = Some (MkThread r (if notifies e then wake (next e) else next e)).
Proof.
  intros Hl Hf. rewrite apply_effect_threads. unfold moved.
  destruct (spawns e) as [id|]; [assert (id <> t) by (intros ->; by specialize (Hf _ eq_refl); congruence)|];
    (destruct (notifies e); [rewrite lookup_fmap|]); rewrite ?lookup_insert_ne, lookup_insert_eq by done; done.
Qed.

(** *** A mutex is held by every thread whose place says so *)
Section locks.
  Context (lock : System T -> option thread_id) (holds : Pc -> bool).

Definition lock_ok (s : System T) : Prop := forall u r p, threads s !! u = Some (MkThread r p) ->
  holds p = true -> lock s = Some u.

Lemma reachable_lock_ok :
  holds Home = false -> holds Working = false ->
  (forall f p, notification f -> holds (f p) = holds p) ->
  (forall s t l s' r p', step s t l s' -> threads s' !! t = Some (MkThread r p') -> holds p' = true ->
     lock s' = Some t) ->
  (forall s t l s' u, step s t l s' -> lock_ok s -> u <> t -> lock s = Some u -> lock s' = Some u) ->
  forall s, reachable s -> lock_ok s.
Proof.
  intros Hh Hw Hf Hown Hother. apply reachable_ind.
  - intros s (_ & _ & _ & _ & Ht) u r p Hl. destruct (Ht _ _ Hl) as [_ Hp]. simpl in Hp. subst. congruence.
  - intros s t l s' Hr Hok Hs u r p' Hl Hp. destruct (decide (u = t)) as [->|Hn].
    + by eapply Hown.
    + apply (Hother s t l s'); try done. destruct (step_others _ _ _ _ Hs) as (f & Hnf & Ho).
      destruct (Ho _ Hn) as [E|[[_ E]|[_ E]]]; rewrite Hl in E; [|simplify_eq; congruence|done].
      destruct (threads s !! u) as [[r0 p0]|] eqn:El; [|done]. injection E as -> ->.
      apply (Hok _ _ _ El). by rewrite <- (Hf f).
Qed.
End locks.

End lifecycle_frame.

(** Rewrites the lookup of the moving thread after a transition. *)
Ltac own_lookup H :=
  try (erewrite apply_effect_self in H by done); simpl in H;
  try (rewrite ?lookup_fmap, ?lookup_insert_eq, ?lookup_delete_eq in H;
       unfold wake_thread in H; simpl in H); simplify_eq; try done.

(** By cases on the program counter and the phase of its wait. *)
Ltac cases_pc p := destruct p as [| | |[]| | |? []|?|? []|? []| | | | | | |? []| | |].
Ltac by_pc p := by cases_pc p.
