(* ===== verification/LifecycleHealth.v ===== *)
(** * The fault latch and the health snapshot, over every thread

    The stored health state and fault code always say what the latch says, and
    a published fault stays until a [start] succeeds. *)

From S2P Require Export LifecycleFrame ClientPolicy.

#[local] Open Scope Z_scope.

Section lifecycle_health.
  Context {T : TransportOps} {P : Platform}.

(** ** What the operations of the other threads leave alone *)





(** ** [start], its rollback included *)



(** ** Every transition *)












(** ** Properties *)


End lifecycle_health.
