(* ===== verification/LifecycleStop.v ===== *)
(** * What [stop] guarantees, and what the other threads do to a running worker

    The lifecycle lock, the flags that [stop] raises, the actions that the session
    model interleaves, and the contract of [stop]. *)

From S2P Require Export LifecycleFrame.

#[local] Open Scope Z_scope.

Section lifecycle_stop.
  Context {T : TransportOps} {P : Platform}.

(** ** The lifecycle lock is held by the thread whose place says so *)

Lemma notification_holds f p : notification f -> holds_lifecycle (f p) = holds_lifecycle p.
Proof.
  intros [-> | [-> | ->]]; [done|..];
    by_pc p.
Qed.

Lemma set_wait_holds v p p' : set_wait v p = Some p' -> v <> Blocking -> holds_lifecycle p' = false.
Proof. intros H Hv. destruct p; try done; injection H as <-; by destruct v. Qed.

Lemma first_recheck_holds c (i : Impl T) : holds_lifecycle (first_recheck c i) = false.
Proof. unfold first_recheck. by destruct (wait_done c i). Qed.

Lemma backoff_recheck_holds (i : Impl T) : holds_lifecycle (backoff_recheck i) = false.
Proof. unfold backoff_recheck. by destruct (stopping_ i). Qed.

Lemma own_lock s t l s' r p' : step s t l s' -> threads s' !! t = Some (MkThread r p') ->
  holds_lifecycle p' = true -> lifecycle_lock s' = Some t.
Proof.
  intros Hs Hl' Hp'. destruct Hs; own_lookup Hl'.
  - by rewrite first_recheck_holds in Hp'.
  - assert (holds_lifecycle (next e) = true) as Hn.
    { destruct (notifies e); [|done]. rewrite <- Hp'. symmetry. apply notification_holds. by right; right. }
    unfold apply_effect. destruct (notifies e); simpl; by rewrite Hn.
  - by destruct k.
  - by rewrite (set_wait_holds Asleep p) in Hp'.
  - by rewrite (set_wait_holds Woken p) in Hp'.
  - by rewrite first_recheck_holds in Hp'.
  - by destruct (worker_next_cases (world s) w') as [E|E]; rewrite E in Hp'.
  - by rewrite backoff_recheck_holds in Hp'.
Qed.

Lemma step_lock s t l s' u : step s t l s' ->
  lock_ok lifecycle_lock holds_lifecycle s -> u <> t -> lifecycle_lock s = Some u -> lifecycle_lock s' = Some u.
Proof.
  intros Hs Hok Hn Hu. destruct Hs; try done.
  - rewrite Hu in *. destruct (holds_lifecycle p); simplify_eq/=.
  - simpl. destruct (holds_lifecycle p) eqn:Hp; [|done]. specialize (Hok _ _ _ H Hp). congruence.
Qed.

Lemma reachable_lock s : reachable s -> lock_ok lifecycle_lock holds_lifecycle s.
Proof.
  revert s. apply reachable_lock_ok; [done|done|apply notification_holds|apply own_lock|apply step_lock].
Qed.

(** ** The flags [stop] is about *)

Definition flags (i : Impl T) : bool * bool := (stopping_ i, session_started_ i).

Lemma stop_command_flags a (w : World T) : flags (im (stop_command a w)) = (stopping_ (im w), false).
Proof. unfold flags, stop_command. simpl. by destruct (session_started_ (im w)) eqn:E; simpl; rewrite ?E. Qed.

Lemma mark_stopped_flags (i : Impl T) : flags (mark_stopped i) = flags i.
Proof. unfold mark_stopped. by destruct (faulted_ i). Qed.

Lemma public_action_flags (w : World T) a : public_action a = true -> flags (im (act w a)) = flags (im w).
Proof.
  destruct a; try done. intros _. simpl. unfold bias. destruct (_ || _); [done|].
  unfold send_command. destruct (is_ok _); do 2 (simpl; case_match; try done); done.
Qed.

Lemma session_move_flags (w w' : World T) : session_move w w' -> stopping_ (im w) = true ->
  flags (im w') = flags (im w).
Proof.
  destruct 1 as [w f Hf Hn|w a r t Hs _|w a e w' Hst Hs Es|w a w' Hst Hs Es|w s answer _];
    try (apply send_command_log in Es as ->); try done; intros Hstop; [|congruence].
  unfold flags. simpl. by rewrite (session_section_stopping f), (session_section_started f).
Qed.

Lemma loop_move_flags (w w' : World T) : loop_move w w' ->
  flags (im w') = flags (im w) \/ flags (im w') = (stopping_ (im w), false).
Proof.
  destruct 1 as [w a|w code m _|w m _]; [right|left|by left].
  - unfold close_section, flags. by destruct (session_started_ (im w)) eqn:E; simpl; rewrite ?E.
  - unfold fault_section. by destruct (publish _ _ _ _ _) as [[? ?] ?].
Qed.

Lemma finish_section_flags (i : Impl T) : flags (finish_section i) = flags i.
Proof. unfold finish_section. cbv zeta. by destruct (faulted_ _). Qed.

(** Both flags stay down and up respectively. *)
Definition flags_kept (i i' : Impl T) : Prop :=
  stopping_ i' = true /\ (session_started_ i = false -> session_started_ i' = false).

Lemma flags_kept_eq i i' : stopping_ i = true -> flags i' = flags i -> flags_kept i i'.
Proof. unfold flags, flags_kept. by intros -> [= -> ->]. Qed.

Lemma flags_kept_down i i' : stopping_ i = true -> flags i' = (stopping_ i, false) -> flags_kept i i'.
Proof. unfold flags, flags_kept. by intros -> [= -> ->]. Qed.

Lemma section_world_flags p (w w' : World T) : section_world p w w' -> stopping_ (im w) = true ->
  flags_kept (im w) (im w') \/
  (holds_lifecycle p = false /\ worker_ (im w) = None /\ joining_ (im w) = false).
Proof.
  intros Hw Hs. destruct Hw as [| | |a k _|a k _|a k _ _ _|cb thread Hp H1 H2|_ _|_ _]; [left..|by right|left|left];
    try (by apply flags_kept_eq).
  - by split.
  - apply flags_kept_down; [done|]. apply stop_command_flags.
  - apply flags_kept_down; [done|]. apply stop_command_flags.
  - apply flags_kept_down; [done|]. etrans; [apply mark_stopped_flags|apply stop_command_flags].
  - apply flags_kept_eq; [done|]. exact (mark_stopped_flags (im w)).
Qed.

(** While the stop flag is up it stays up and no session starts, except that
    [start], without a worker, takes it down. *)
Lemma step_world_flags m (s : System T) l w' : in_mode m s -> step_world s l w' ->
  stopping_ (im (world s)) = true ->
  flags_kept (im (world s)) (im w') \/ (m = NoWorker /\ lifecycle_lock s = None).
Proof.
  intros Hm Hw Hs. destruct Hw as [l|a Ha|t r p w' Hl Hk Hw|w' [Hw|Hw]| |]; try (left; by apply flags_kept_eq).
  - left. by apply flags_kept_eq; [|apply public_action_flags].
  - destruct (section_world_flags _ _ _ Hw Hs) as [?|(Hp & H1 & H2)]; [by left|]. right.
    rewrite Hp in Hk. split; [by eapply no_worker_mode|done].
  - left. apply flags_kept_eq; [done|]. by apply session_move_flags.
  - left. destruct (loop_move_flags _ _ Hw); [by apply flags_kept_eq|by apply flags_kept_down].
  - left. apply flags_kept_eq; [done|apply finish_section_flags].
Qed.

(** The places in [stop] where the flag is up, and those past its command. *)
Definition stop_joiner (p : Pc) : bool :=
  match p with StopJoining _ _ | StopJoined _ => true | _ => false end.

Definition stop_flagged (p : Pc) : bool :=
  match p with StopCommand _ => true | _ => stop_joiner p end.

Lemma notification_flagged f p : notification f ->
  stop_flagged (f p) = stop_flagged p /\ stop_joiner (f p) = stop_joiner p.
Proof. intros [-> | [-> | ->]]; by destruct p. Qed.

(** In [stop] the flag is up, and past its command no session is open. *)
Definition flagged (p : Pc) (i : Impl T) : Prop :=
  stop_flagged p = true -> stopping_ i = true /\ (stop_joiner p = true -> session_started_ i = false).

Lemma stop_pass_flagged t k a (w : World T) h : stopping_ (im w) = true ->
  let e := stop_pass t k a w h in
  stop_flagged (next e) = true ->
  stopping_ (im (effect_world e)) = true /\
  (stop_joiner (next e) = true -> session_started_ (im (effect_world e)) = false).
Proof.
  intros Hs. cbv zeta. unfold stop_pass. pose proof (stop_command_flags a w) as Hf.
  rewrite Hs in Hf. revert Hf. generalize (stop_command a w). intros w1 [= E1 E2].
  case_match; simpl; intros Hd; try (by destruct k); by split.
Qed.

Lemma section_flagged t p a thread (w : World T) h e : lifecycle_section t p a thread w h = Some e ->
  flagged p (im w) -> flagged (next e) (im (effect_world e)).
Proof.
  unfold flagged.
  destruct p as [| | |v| | |c v|cb|cb v|cb v|cb id|cb|cb| |k|k|k v|k id|k|k]; try done;
    try (destruct v; try done); intros [= <-]; try (by repeat case_match).
  - unfold start_pass. by repeat case_match.
  - unfold start_pass. by repeat case_match.
  - intros Hp. destruct (Hp eq_refl) as [Hs _]. by apply stop_pass_flagged.
Qed.

Lemma own_flagged s t l s' r p' : step s t l s' -> threads s' !! t = Some (MkThread r p') ->
  (forall r p, threads s !! t = Some (MkThread r p) -> flagged p (im (world s))) ->
  flagged p' (im (world s')).
Proof.
  intros Hs Hl' IH. destruct Hs; own_lookup Hl'.
  - unfold first_recheck. by destruct (wait_done _ _).
  - rewrite apply_effect_world. specialize (IH _ _ H).
    pose proof (section_flagged _ _ _ _ _ _ _ H1 IH) as Hf. unfold flagged in *.
    destruct (notifies e); [|done].
    by destruct (notification_flagged wake (next e)) as [-> ->]; [by right; right|].
  - by destruct k.
  - exact (IH _ _ H).
  - by destruct p; simplify_eq/=.
  - by destruct p; simplify_eq/=.
  - unfold first_recheck. by destruct (wait_done _ _).
  - by destruct (worker_next_cases (world s) w') as [-> | ->].
  - unfold backoff_recheck. by destruct (stopping_ _).
Qed.

Definition flagged_ok (s : System T) : Prop := forall t r p,
  threads s !! t = Some (MkThread r p) -> flagged p (im (world s)).

Lemma reachable_flagged s : reachable s -> flagged_ok s.
Proof.
  revert s. apply reachable_ind.
  - intros s (_ & _ & _ & _ & Ht) t r p Hl. destruct (Ht _ _ Hl) as [_ Hp]. simpl in Hp. by subst.
  - intros s t l s' Hr IH Hs u r p Hl. destruct (decide (u = t)) as [->|Hn].
    { by apply (own_flagged _ _ _ _ _ _ Hs Hl), IH. }
    destruct (step_others _ _ _ _ Hs) as (f & Hf & Ho).
    destruct (Ho _ Hn) as [E|[[_ E]|[_ E]]]; rewrite Hl in E; [|by simplify_eq|done].
    destruct (threads s !! u) as [[r0 p0]|] eqn:El; [|done]. injection E as -> ->.
    intros Hp. destruct (notification_flagged f p0 Hf) as [Ef Ej]. rewrite Ef in Hp. rewrite Ej.
    destruct (IH _ _ _ El Hp) as [Hst Hse]. destruct (reachable_mode s Hr) as (m & Hm).
    destruct (step_world_flags _ _ _ _ Hm (step_world_of _ _ _ _ Hr Hs) Hst) as [[H1 H2]|[-> Hlock]];
      [by auto|]. exfalso. destruct (mode_ok_thread _ _ _ _ _ Hm El) as (_ & Hc & _). unfold claims in Hc.
    destruct p0; try done; simpl in Hc; try done.
    + pose proof (reachable_lock _ Hr _ _ _ El eq_refl). congruence.
    + by specialize (Hc eq_refl).
Qed.

(** ** Beside a worker there are only the actions of the session model *)

(** The state without the members of the ownership, which no session reads. *)
Definition unowned (w : World T) : World T :=
  set_im (im w <| worker_ := None |> <| joining_ := false |>) w.

(** C20: while a worker has not finished, whatever any other thread does, or the
    worker's own callback, changes what the sessions can see exactly like a
    sequence of the actions that the session model lets happen between two of the
    worker's sections; so the environments quantified over in the theorems about
    sessions and runs cover every client of the library. *)
Theorem others_are_actions s t l s' : reachable s -> step s t l s' -> l <> LWorker ->
  worker_exited_ (im (world s)) = false ->
  exists acts, unowned (world s') = unowned (fold_left act acts (world s)).
Proof.
  intros Hr Hs Hl He. pose proof (step_world_of _ _ _ _ Hr Hs) as Hw.
  pose proof (reachable_flagged _ Hr) as Hflag. apply reachable_mode in Hr as (m & Hm).
  destruct Hw as [l|a Ha|u r p w' Hu _ Hw| | |]; try done; [by exists []|by exists [a]|].
  specialize (Hflag _ _ _ Hu).
  destruct Hw as [| | |a k ->|a k ->|a k _ H1 H2|cb thread _ H1 H2|H1 H2|H1 H2]; try congruence.
  - by exists [].
  - by exists [].
  - by exists [ActStopFlag].
  - exists [ActStopCommand a]. simpl. by destruct (Hflag eq_refl) as [-> _].
  - exists [ActStopCommand a]. simpl. by destruct (Hflag eq_refl) as [-> _].
  - destruct (no_worker_mode _ _ _ Hm H1 H2) as (_ & ? & _). congruence.
  - destruct (no_worker_mode _ _ _ Hm H1 H2) as (_ & ? & _). congruence.
Qed.

(** ** The contract of [stop] *)

Lemma im_set_im (i : Impl T) (w : World T) : im (set_im i w) = i.
Proof. done. Qed.

(** Where [stop] leaves the shared state behind: it returns without a join, or
    it has joined. *)
Definition stop_ends (s s' : System T) (t : thread_id) (r : Role) (p : Pc) : Prop :=
  (exists k, p = StopCommand k /\ threads s' !! t = Some (MkThread r (fst (stop_done k (handle s))))) \/
  exists k, p = StopJoined k.

Lemma mark_stopped_state (i : Impl T) :
  faulted_ (mark_stopped i) = true \/ state (health_ (mark_stopped i)) = Stopped.
Proof. unfold mark_stopped. destruct (faulted_ i) eqn:E; [by left|by right]. Qed.

Lemma stop_pass_ends t k a (w : World T) h :
  called_from_worker_thread t (im w) = false -> next (stop_pass t k a w h) = fst (stop_done k h) ->
  effect_world (stop_pass t k a w h) = set_im (mark_stopped (im (stop_command a w))) (stop_command a w) /\
  worker_ (im w) = None /\ joining_ (im w) = false.
Proof.
  unfold stop_pass. pose proof (stop_command_core a w) as (Ew & Ea & Ej & Ee)%core_eq.
  unfold stop_entry, called_from_worker_thread. rewrite Ea, Ee, Ew, Ej. intros ->.
  destruct (joining_ (im w)); [by destruct k|].
  destruct (worker_ (im w)); [by destruct k|]. by intros _.
Qed.

Lemma stop_pass_silent t k a (w : World T) h : notifies (stop_pass t k a w h) = false.
Proof. unfold stop_pass. by case_match. Qed.

(** A thread at the command of [stop] or past its join has one thing to do. *)
Lemma stop_step s t s' r p : step s t LClient s' -> threads s !! t = Some (MkThread r p) ->
  (exists k, p = StopCommand k) \/ (exists k, p = StopJoined k) ->
  exists a thread e, lifecycle_section t p a thread (world s) (handle s) = Some e /\
    (forall id, spawns e = Some id -> threads s !! id = None) /\ s' = apply_effect t r e s.
Proof.
  intros Hs Hl Hp. inversion Hs; subst; simplify_map_eq; eauto 10;
    destruct Hp as [[? ?]|[? ?]]; subst; simplify_eq/=;
    match goal with H : _ \/ _ |- _ => by destruct H end.
Qed.

(** What the last section of [stop] has done to the shared state. *)
Lemma stop_ends_world s t s' r p : reachable s -> step s t LClient s' ->
  threads s !! t = Some (MkThread r p) -> r <> Worker -> stop_ends s s' t r p ->
  worker_ (im (world s')) = None /\ joining_ (im (world s')) = false /\
  flags (im (world s')) = (true, false) /\
  exists i0, health_ (im (world s')) = health_ (mark_stopped i0) /\
    faulted_ (im (world s')) = faulted_ (mark_stopped i0).
Proof.
  intros Hr Hs Hl Hrole Hend. pose proof (reachable_flagged _ Hr _ _ _ Hl) as Hflag.
  destruct (reachable_mode _ Hr) as (m & Hm).
  destruct (stop_step s t s' r p) as (a & thread & e & He & Hf & ->); [done..| |].
  { destruct Hend as [(k & -> & _)|(k & ->)]; [left|right]; by exists k. }
  rewrite apply_effect_world. destruct Hend as [(k & -> & Hn)|(k & ->)]; simpl in He; injection He as <-.
  - rewrite (apply_effect_self _ _ _ _ _ Hl Hf), stop_pass_silent in Hn. injection Hn as Hn.
    destruct (stop_pass_ends t k a (world s) (handle s)) as (E & Ew & Ej); [|done|].
    { rewrite (called_from_ok _ _ _ _ _ _ Hm Hl); [|done]. by apply bool_decide_eq_false_2. }
    rewrite E, im_set_im, mark_stopped_flags, stop_command_flags.
    pose proof (mark_stopped_core (im (stop_command a (world s)))) as (-> & _ & -> & _)%core_eq.
    pose proof (stop_command_core a (world s)) as (-> & _ & -> & _)%core_eq.
    destruct (Hflag eq_refl) as [-> _]. repeat split; [done..|]. by eexists.
  - destruct (joiner_mode _ _ _ _ _ _ Hm Hl eq_refl) as [(id & ? & _)| ->]; [done|].
    destruct (mode_ok_core _ _ _ Hm) as (Ew & _).
    pose proof (mark_stopped_core (im (world s))) as (E & _ & _ & _)%core_eq.
    destruct (Hflag eq_refl) as [E1 E2]. pose proof (mark_stopped_flags (im (world s))) as Ef.
    unfold flags in *. simpl. rewrite E1, (E2 eq_refl) in Ef. rewrite E, Ew. repeat split; [done|].
    by eexists.
Qed.

(** C2: the contract of [stop]: when [stop], called by any thread but the worker
    itself, leaves the shared state, without a join or after it has joined, no
    worker thread exists, the worker that was running included; no join is
    pending, the stop flag is up, no session is open, and the state is Stopped
    unless a fault is latched.  Until a [start], no worker will exist. *)
Theorem stop_contract s t s' r p : reachable s -> step s t LClient s' ->
  threads s !! t = Some (MkThread r p) -> r <> Worker -> stop_ends s s' t r p ->
  let i := im (world s') in
  (forall id, ~ worker_at (threads s') id) /\ worker_ i = None /\ joining_ i = false /\
  worker_exited_ i = true /\ stopping_ i = true /\ session_started_ i = false /\
  (faulted_ i = true \/ state (health_ i) = Stopped).
Proof.
  intros Hr Hs Hl Hrole Hend. cbv zeta.
  destruct (reachable_mode s') as (m' & Hm'); [by eapply reachable_step|].
  destruct (stop_ends_world _ _ _ _ _ Hr Hs Hl Hrole Hend) as (Ew & Ej & [= E1 E2] & i0 & Eh & Ef).
  destruct (no_worker_mode _ _ _ Hm' Ew Ej) as (_ & He & Hno). repeat split; auto.
  rewrite Eh, Ef. apply mark_stopped_state.
Qed.

End lifecycle_stop.
