(* ===== verification/LifecycleLifetime.v ===== *)
(** * The lifetime of a client: [~Client] in src/src/client.cpp

    The destructor runs on the caller's thread, or, when the sample callback
    destroys the client, hands the storage to the deferred destroyer.  The
    storage is freed only when no thread can touch it any more. *)

From S2P Require Export LifecycleStop.

#[local] Open Scope Z_scope.

(** Program counters of a thread that destroys the client. *)
Definition stops_for (p : Pc) : option StopFor :=
  match p with
  | StopTop k | StopCommand k | StopIdleWait k _ | StopJoining k _ | StopJoined k | StopNotify k => Some k
  | _ => None
  end.

Definition destroying (p : Pc) : bool :=
  match p, stops_for p with
  | DestroyTop, _ => true
  | _, Some k => negb (bool_decide (k = ForReturn))
  | _, None => false
  end.

(** Past the first [stop] of a destructor that is not the worker's. *)
Definition past_stop (p : Pc) : bool :=
  match p with
  | StopNotify k => negb (bool_decide (k = ForReturn))
  | _ => bool_decide (stops_for p = Some ForStorage)
  end.

Section lifecycle_lifetime.
  Context {T : TransportOps} {P : Platform}.

(** No worker and no join. *)
Definition unworked (w : World T) : Prop := worker_ (im w) = None /\ joining_ (im w) = false.

Lemma unworked_core (w w' : World T) : core (im w') = core (im w) -> unworked w -> unworked w'.
Proof. intros (E1 & _ & E2 & _)%core_eq. unfold unworked. by rewrite E1, E2. Qed.

(** Nobody but [t] destroys the client or is in a call on it, the worker's
    callback apart. *)
Definition others_out (t : thread_id) (s : System T) : Prop := forall u r p, u <> t ->
  threads s !! u = Some (MkThread r p) -> destroying p = false /\ (r = Caller -> p = Home).

Definition all_out (s : System T) : Prop := forall u r p,
  threads s !! u = Some (MkThread r p) -> destroying p = false /\ (r = Caller -> p = Home).

Definition lifetime_ok (s : System T) : Prop :=
  match handle s with
  | Owned => forall u r p, threads s !! u = Some (MkThread r p) -> destroying p = false
  | Destroying => exists t r p, threads s !! t = Some (MkThread r p) /\ destroying p = true /\
      others_out t s /\ (past_stop p = true -> unworked (world s))
  | Queued => all_out s
  | Freed => all_out s /\ unworked (world s)
  end.

Lemma notification_destroying f p : notification f ->
  destroying (f p) = destroying p /\ past_stop (f p) = past_stop p /\ (f p = Home <-> p = Home).
Proof. intros [-> | [-> | ->]]; by destruct p. Qed.

(** ** One transition of one thread *)

(** What a transition of a thread from [p] to [p'] does to the handle. *)
Inductive lifetime_next (s s' : System T) (t : thread_id) (r : Role) (p p' : Pc) : Prop :=
| ln_calls : destroying p = false -> destroying p' = false -> handle s' = handle s ->
    (r = Caller -> handle s <> Owned -> p = Home -> p' = Home) -> lifetime_next s s' t r p p'
| ln_begins : destroying p' = true -> past_stop p' = false -> handle s' = Destroying ->
    (handle s = Owned /\ (forall u q, threads s !! u = Some (MkThread Caller q) -> u <> t -> q = Home) \/
     handle s = Queued) -> lifetime_next s s' t r p p'
| ln_destroys : destroying p = true -> destroying p' = true -> handle s' = handle s ->
    (past_stop p = true -> unworked (world s)) -> lifetime_next s s' t r p p'
| ln_ends : destroying p = true -> p' = Home ->
    handle s' = Queued \/ (handle s' = Freed /\ unworked (world s')) -> lifetime_next s s' t r p p'.

(** The same for a lifecycle section. *)
Lemma stop_pass_lifetime m t r k a (w : World T) h ths :
  mode_ok m (im w) ths -> ths !! t = Some (MkThread r (StopCommand k)) ->
  (past_stop (StopCommand k) = true -> unworked w) ->
  let e := stop_pass t k a w h in
  (destroying (next e) = destroying (StopCommand k) /\ effect_handle e = h /\
     (past_stop (next e) = true -> unworked (effect_world e))) \/
  (destroying (StopCommand k) = true /\ next e = Home /\
     (effect_handle e = Queued \/ effect_handle e = Freed /\ unworked (effect_world e))).
Proof.
  intros Hm Hl Hp. cbv zeta. unfold stop_pass.
  pose proof (stop_command_core a w) as Ec. assert (unworked w -> unworked (stop_command a w)) as Hu
    by by apply unworked_core.
  assert (mode_ok m (im (stop_command a w)) ths) as Hm1 by by apply (mode_ok_world _ (im w)).
  assert (pc_of r (StopCommand k) = true) as Hpc by apply (mode_ok_thread _ _ _ _ _ Hm Hl).
  unfold stop_entry. rewrite (called_from_ok _ _ _ _ _ _ Hm1 Hl) by done.
  clear Ec Hm1 Hm. generalize dependent (stop_command a w). intros w1 Hu.
  destruct (bool_decide_reflect (r = Worker)) as [->|Hr].
  { destruct k; try done; [by left|]. right. split; [done|]. split; [done|]. by left. }
  assert (forall p', past_stop p' = past_stop (StopCommand k) -> past_stop p' = true -> unworked w1) as Hpast.
  { intros p' Hp' H. apply Hu, Hp. congruence. }
  destruct (joining_ (im w1)) eqn:Ej.
  { left. split; [by destruct k|]. split; [done|]. intros H.
    destruct (Hpast (StopIdleWait k Blocking)) as [_ ?]; [by destruct k|done|congruence]. }
  destruct (worker_ (im w1)) as [id|] eqn:Ew.
  { left. split; [by destruct k|]. split; [done|]. intros H.
    destruct (Hpast (StopJoining k id)) as [? _]; [by destruct k|done|congruence]. }
  assert (unworked (set_im (mark_stopped (im w1)) w1)) as Hi.
  { apply (unworked_core w1); [apply mark_stopped_core|done]. }
  destruct k; try (by destruct r); [by left; split_and!..|]. right. split; [done|]. split; [done|]. by right.
Qed.

Lemma section_lifetime m t r p a thread (w : World T) h e ths :
  mode_ok m (im w) ths -> ths !! t = Some (MkThread r p) ->
  lifecycle_section t p a thread w h = Some e -> (past_stop p = true -> unworked w) ->
  p <> Home /\
  ((destroying (next e) = destroying p /\ effect_handle e = h /\
     (past_stop (next e) = true -> unworked (effect_world e))) \/
  (destroying p = true /\ next e = Home /\
     (effect_handle e = Queued \/ effect_handle e = Freed /\ unworked (effect_world e)))).
Proof.
  intros Hm Hl He Hp. split; [by intros ->|]. revert He.
  destruct p as [| | |v| | |c v|cb|cb v|cb v|cb id|cb|cb| |k|k|k v|k id|k|k]; try done;
    try (destruct v; try done); intros [= <-].
  - left. unfold start_pass. by repeat case_match.
  - left. unfold start_pass. by repeat case_match.
  - left. by destruct (exit_awaited _).
  - by left.
  - left. simpl. rewrite (called_from_ok _ _ _ _ _ _ Hm Hl) by done.
    by destruct (bool_decide_reflect (r = Worker)).
  - left. split; [by destruct k|]. split; [done|]. intros Hk.
    assert (unworked w) as [? ?] by (apply Hp; by destruct k). by split.
  - by eapply stop_pass_lifetime.
  - left. by destruct (joining_ (im w)).
  - left. split; [done|]. split; [done|]. intros _.
    destruct (joiner_mode _ _ _ _ _ _ Hm Hl) as [(id & ? & _)| ->]; [done..|].
    destruct (mode_ok_core _ _ _ Hm) as (Ew & _). split; [|done].
    pose proof (joined_section_core (im w)) as [= E _]. etrans; [exact E|done].
Qed.

Lemma may_call_owned r h : may_call r h = true -> r = Caller -> h = Owned.
Proof. by intros H ->; destruct h. Qed.

Lemma apply_effect_handle t r e (s : System T) : handle (apply_effect t r e s) = effect_handle e.
Proof. unfold apply_effect. by destruct (notifies e). Qed.

Lemma first_recheck_calls c (i : Impl T) : destroying (first_recheck c i) = false.
Proof. unfold first_recheck. by destruct (wait_done c i). Qed.

Lemma set_wait_destroying v p p' : set_wait v p = Some p' ->
  destroying p' = destroying p /\ past_stop p' = past_stop p /\ p <> Home.
Proof. by destruct p; intros [= <-]. Qed.

(** The kinds that keep the handle. *)
Lemma ln_stays s s' t r p p' : destroying p' = destroying p -> handle s' = handle s ->
  (r = Caller -> handle s <> Owned -> p = Home -> p' = Home) ->
  (past_stop p = true -> unworked (world s)) -> lifetime_next s s' t r p p'.
Proof.
  intros Hd Hh Hc Hp. destruct (destroying p) eqn:E; [by apply ln_destroys|by apply ln_calls].
Qed.

Lemma ln_waits s s' t r p p' v : set_wait v p = Some p' -> handle s' = handle s ->
  world s' = world s -> (past_stop p = true -> unworked (world s)) ->
  lifetime_next s s' t r p p' /\ (past_stop p' = true -> unworked (world s')).
Proof.
  intros (Hd & E & Hn)%set_wait_destroying Hh Hw Hp. rewrite Hw, E. split; [|done].
  by apply ln_stays.
Qed.

(** A place from which no destructor runs. *)
Lemma ln_plain s s' t r p p' : destroying p = false -> destroying p' = false ->
  past_stop p' = false -> handle s' = handle s ->
  (r = Caller -> handle s <> Owned -> p = Home -> p' = Home) ->
  lifetime_next s s' t r p p' /\ (past_stop p' = true -> unworked (world s')).
Proof. intros ? ? E ? ?. rewrite E. split; [by apply ln_calls|done]. Qed.

Lemma ln_section m s t r p a thread e : in_mode m s -> threads s !! t = Some (MkThread r p) ->
  lifecycle_section t p a thread (world s) (handle s) = Some e ->
  (past_stop p = true -> unworked (world s)) ->
  let p' := if notifies e then wake (next e) else next e in
  lifetime_next s (apply_effect t r e s) t r p p' /\
  (past_stop p' = true -> unworked (world (apply_effect t r e s))).
Proof.
  intros Hm Hl He Hp. cbv zeta. destruct (section_lifetime _ _ _ _ _ _ _ _ _ _ Hm Hl He Hp) as [Hn H].
  assert (notification (if notifies e then wake else id)) as Hw
    by (destruct (notifies e); [by right; right|by left]).
  replace (if notifies e then wake (next e) else next e)
    with ((if notifies e then wake else id) (next e)) by by destruct (notifies e).
  destruct (notification_destroying _ (next e) Hw) as (Ed & Ep & Eh).
  rewrite apply_effect_world, Ep. destruct H as [(Hd & Hh & Hu)|(Hd & Hx & Hh)].
  - split; [|done]. apply ln_stays; [congruence|by rewrite apply_effect_handle| |done]. by intros _ _ ?.
  - split; [|by rewrite Hx]. apply ln_ends; [done|by apply Eh|].
    by rewrite apply_effect_handle, apply_effect_world.
Qed.

Lemma ln_stop_notify s s' t r k : pc_of r (StopNotify k) = true -> world s' = world s ->
  handle s' = snd (stop_done k (handle s)) -> (past_stop (StopNotify k) = true -> unworked (world s)) ->
  let p' := wake (fst (stop_done k (handle s))) in
  lifetime_next s s' t r (StopNotify k) p' /\ (past_stop p' = true -> unworked (world s')).
Proof.
  intros Hpc Hw Hh Hp. cbv zeta. destruct k; simpl in *.
  - by apply ln_plain.
  - rewrite Hw. split; [by apply ln_stays|by intros _; apply Hp].
  - by destruct r.
  - rewrite Hw. split; [by apply ln_stays|by intros _; apply Hp].
  - split; [|done]. apply ln_ends; [done..|]. right. rewrite Hw. by split; [|apply Hp].
Qed.

(** Every transition of a thread that stays is one of the four kinds. *)
Lemma step_lifetime m s t l s' r p p' : in_mode m s -> step s t l s' ->
  threads s !! t = Some (MkThread r p) -> threads s' !! t = Some (MkThread r p') ->
  (past_stop p = true -> unworked (world s)) ->
  lifetime_next s s' t r p p' /\ (past_stop p' = true -> unworked (world s')).
Proof.
  intros Hm Hs Hl Hl' Hp.
  assert (pc_of r p = true) as Hpc by apply (mode_ok_thread _ _ _ _ _ Hm Hl).
  destruct Hs as [s t Hn|s t Hn|s t r0 cb H Hr|s t r0 H Hr|s t r0 H Hr|s t r0 a H Hr Ha Hd
    |s t r0 now timeout c H Hr Hd Hw|s t H|s t r0 p0 a thread e H Hk He Hd Hf|s t r0 cb H|s t r0 k H
    |s t r0 cb id H Hid|s t r0 k id H Hid|s t r0 p0 p1 H Hh Hp1|s t r0 p0 p1 H Ha Hp1|s t r0 c H Hd
    |s t r0 c H Hd|s t w' H Hw Hd|s t H|s t sample answer H Hc|s t p0 H Hp0 Hd|s t H Hd|s t H Hd
    |s t H|s t H Hh]; own_lookup Hl'.
  - apply ln_plain; try done. intros ->. by destruct (handle s).
  - apply ln_plain; try done. intros ->. by destruct (handle s).
  - split; [|done]. destruct Hr as (Ho & _ & Hc). apply ln_begins; [done..|]. by left.
  - by apply ln_plain.
  - apply ln_plain; try done; [apply first_recheck_calls|by unfold first_recheck; destruct (wait_done _ _)|].
    intros ->. by destruct (handle s).
  - by apply ln_plain.
  - by eapply ln_section.
  - by apply ln_plain.
  - by apply ln_stop_notify.
  - by apply ln_plain.
  - split; [by apply ln_stays|]. exact Hp.
  - by eapply ln_waits.
  - by eapply ln_waits.
  - apply ln_plain; try done; [apply first_recheck_calls|by unfold first_recheck; destruct (wait_done _ _)].
  - by apply ln_plain.
  - by destruct (worker_next_cases (world s) w') as [-> | ->]; apply ln_plain.
  - by apply ln_plain.
  - by apply ln_plain.
  - apply ln_plain; try done; [by destruct Hp0 as [-> | ->]|..]; unfold backoff_recheck;
      by destruct (stopping_ _).
  - by apply ln_plain.
  - by apply ln_plain.
  - by apply ln_plain.
  - split; [|done]. apply ln_begins; [done..|]. by right.
Qed.

(** ** The invariant *)

Lemma others_from s t l s' u r p' : step s t l s' -> u <> t -> threads s' !! u = Some (MkThread r p') ->
  (exists p, threads s !! u = Some (MkThread r p) /\ destroying p' = destroying p /\
     (p' = Home <-> p = Home)) \/ (r = Worker /\ p' = Working).
Proof.
  intros (f & Hf & Ho)%step_others Hn Hl. destruct (Ho u Hn) as [E|[[_ E]|[_ E]]]; rewrite Hl in E.
  - destruct (threads s !! u) as [[r0 p0]|]; [|done]. injection E as -> ->. left. exists p0.
    destruct (notification_destroying f p0 Hf) as (? & _ & ?). done.
  - right. by simplify_eq.
  - done.
Qed.

Lemma others_to s t l s' u r p : step s t l s' -> u <> t -> threads s !! u = Some (MkThread r p) ->
  p <> Finished -> exists p', threads s' !! u = Some (MkThread r p') /\
    destroying p' = destroying p /\ past_stop p' = past_stop p.
Proof.
  intros (f & Hf & Ho)%step_others Hn Hl Hp. destruct (Ho u Hn) as [E|[[E _]|[E _]]]; rewrite Hl in E.
  - exists (f p). destruct (notification_destroying f p Hf) as (? & ? & _). done.
  - done.
  - by simplify_eq.
Qed.

(** What the threads that do not move owe after the transition. *)
Lemma others_out_step s t l s' : step s t l s' -> (forall u r p, u <> t ->
    threads s !! u = Some (MkThread r p) -> destroying p = false /\ (r = Caller -> p = Home)) ->
  others_out t s'.
Proof.
  intros Hs Ho u r p' Hn Hl. destruct (others_from _ _ _ _ _ _ _ Hs Hn Hl) as [(p & Hp & Hd & Hh)|[-> ->]];
    [|done]. destruct (Ho _ _ _ Hn Hp) as [H1 H2]. split; [congruence|]. intros ->. by apply Hh, H2.
Qed.

Lemma home_world s t l s' : step s t l s' ->
  threads s !! t = None \/ (exists r, threads s !! t = Some (MkThread r Home)) ->
  core (im (world s')) = core (im (world s)).
Proof.
  intros Hs Hl. destruct Hs; try done; try (destruct Hl as [?|[? ?]]; simplify_eq/=; done).
  apply act_core.
Qed.

(** Outside a destructor, the destroyer is at its queue. *)
Lemma pc_home r p : pc_of r p = true -> destroying p = false -> (r = Caller -> p = Home) ->
  r <> Worker -> p = Home.
Proof.
  intros Hp Hd Hc Hr. destruct r; [by apply Hc|done|].
  destruct p as [| | | | | | | | | | | | | |k|k|k v|k id|k|k]; try done; by destruct k.
Qed.

(** A thread that is not destroying the client leaves a state without worker. *)
Lemma unworked_step m s t l s' : in_mode m s -> step s t l s' -> unworked (world s) ->
  (forall r p, threads s !! t = Some (MkThread r p) -> destroying p = false /\ (r = Caller -> p = Home)) ->
  unworked (world s').
Proof.
  intros Hm Hs [Hw Hj] Hout. apply (unworked_core (world s)); [|done].
  eapply home_world; [done|]. destruct (threads s !! t) as [[r p]|] eqn:Hl; [|by left]. right. exists r.
  destruct (Hout r p eq_refl) as [Hd Hh]. destruct (no_worker_mode _ _ _ Hm Hw Hj) as (_ & _ & Hno).
  pose proof (mode_ok_thread _ _ _ _ _ Hm Hl) as [Hpc _].
  assert (p = Home) as ->; [|done]. apply (pc_home r); [done..|]. intros ->. apply (Hno t). by exists p.
Qed.

(** A thread that appears or disappears changes nothing else. *)
Lemma step_threads_only s t l s' : step s t l s' -> threads s !! t = None \/ threads s' !! t = None ->
  handle s' = handle s /\ world s' = world s /\
  (forall r p, threads s' !! t = Some (MkThread r p) -> r = Caller /\ p = Home) /\
  (forall r p, threads s !! t = Some (MkThread r p) -> p = Home).
Proof.
  intros Hs Hl. destruct Hs; try done;
    try (destruct Hl as [?|Hl]; [by simplify_eq/=|];
         try (erewrite apply_effect_self in Hl by done); simpl in Hl;
         rewrite ?lookup_fmap, ?lookup_insert_eq in Hl; by simplify_eq/=).
  - split_and!; [done..| |]; simpl; intros r p; [rewrite lookup_insert_eq; by intros [= <- <-]|congruence].
  - split_and!; [done..| |]; simpl; intros r p; [by rewrite lookup_delete_eq|congruence].
Qed.

Lemma step_role s t l s' r p r' p' : step s t l s' -> threads s !! t = Some (MkThread r p) ->
  threads s' !! t = Some (MkThread r' p') -> r' = r.
Proof.
  intros Hs Hl Hl'. destruct Hs; try (erewrite apply_effect_self in Hl' by done); simpl in Hl';
    try (rewrite ?lookup_fmap, ?lookup_insert_eq, ?lookup_delete_eq in Hl'; unfold wake_thread in Hl');
    by simplify_eq/=.
Qed.

Lemma all_out_of t s : others_out t s ->
  (forall r p, threads s !! t = Some (MkThread r p) -> destroying p = false /\ (r = Caller -> p = Home)) ->
  all_out s.
Proof.
  intros Ho Ht u r p Hl. destruct (decide (u = t)) as [->|Hn]; [by apply Ht|by apply (Ho u)].
Qed.

(** A transition of a thread that does not destroy the client. *)
Lemma lifetime_bystander m s t l s' : in_mode m s -> step s t l s' -> handle s' = handle s ->
  (forall r p, threads s !! t = Some (MkThread r p) -> destroying p = false) ->
  (forall r p, threads s' !! t = Some (MkThread r p) ->
     destroying p = false /\ (handle s <> Owned -> r = Caller -> p = Home)) ->
  lifetime_ok s -> lifetime_ok s'.
Proof.
  intros Hm Hs Hh Hb Ht.
  assert (handle s <> Owned -> all_out s -> all_out s') as Hall.
  { intros Hne Ho. apply (all_out_of t); [eapply others_out_step; [done|]; intros ? ? ? _; apply Ho|].
    intros r p Hl. destruct (Ht _ _ Hl). auto. }
  unfold lifetime_ok. rewrite Hh. destruct (handle s) eqn:Eh.
  - intros Ho u r p Hu. destruct (decide (u = t)) as [->|Hn]; [by apply (Ht r)|].
    destruct (others_from _ _ _ _ _ _ _ Hs Hn Hu) as [(q & Hq & -> & _)|[_ ->]]; [|done].
    by apply (Ho _ _ _ Hq).
  - intros (t0 & r & p & Ht0 & Hd & Ho & Hp).
    assert (t0 <> t) as Hne by (intros ->; by rewrite (Hb _ _ Ht0) in Hd).
    destruct (others_to _ _ _ _ _ _ _ Hs Hne Ht0) as (p' & Hl' & Hd' & Hp'); [by intros ->|].
    exists t0, r, p'. rewrite Hd', Hp'. split_and!; [done..| |].
    + intros u r1 p1 Hn Hu. destruct (decide (u = t)) as [->|Hn1].
      { destruct (Ht _ _ Hu). auto. }
      destruct (others_from _ _ _ _ _ _ _ Hs Hn1 Hu) as [(q & Hq & -> & Hh')|[-> ->]]; [|done].
      destruct (Ho _ _ _ Hn Hq) as [? Hx]. split; [done|]. intros E. by apply Hh', Hx.
    + intros H. eapply unworked_step; [done..|by apply Hp|]. intros r1 p1 Hl. by apply (Ho t).
  - by apply Hall.
  - intros [Ho Hu]. split; [by apply Hall|]. eapply unworked_step; [done..|]. intros r p Hl. by apply (Ho t).
Qed.

(** The transitions of a thread that stays. *)
Lemma lifetime_own m s t l s' r p p' : in_mode m s -> step s t l s' ->
  threads s !! t = Some (MkThread r p) -> threads s' !! t = Some (MkThread r p') ->
  lifetime_ok s -> lifetime_ok s'.
Proof.
  intros Hm Hs Hl Hl' Hok.
  assert (destroying p = true -> handle s = Destroying /\ others_out t s /\
    (past_stop p = true -> unworked (world s))) as Hdp.
  { intros Hd. unfold lifetime_ok in Hok. destruct (handle s).
    - by rewrite (Hok _ _ _ Hl) in Hd.
    - destruct Hok as (t0 & r0 & p0 & H0 & _ & Ho & Hp). destruct (decide (t = t0)) as [->|Hn].
      + simplify_eq. by split_and!.
      + destruct (Ho _ _ _ Hn Hl). congruence.
    - destruct (Hok _ _ _ Hl). congruence.
    - destruct Hok as [Hok _]. destruct (Hok _ _ _ Hl). congruence. }
  assert (past_stop p = true -> unworked (world s)) as Hp.
  { intros H. apply Hdp; [|done]. destruct p; try done; by destruct k. }
  destruct (step_lifetime _ _ _ _ _ _ _ _ Hm Hs Hl Hl' Hp) as [Hn Hp'].
  destruct Hn as [Hd Hd' Hh Hc|Hd Hps Hh Hx|Hd Hd' Hh _|Hd -> Hh].
  - eapply (lifetime_bystander _ s t); [done..| | |done].
    + intros r1 p1 H1. congruence.
    + intros r1 p1 H1. rewrite Hl' in H1. injection H1 as <- <-. split; [done|]. intros Hne ->.
      apply Hc; [done..|]. unfold lifetime_ok in Hok. destruct (handle s) eqn:Eh; [done| |by apply (Hok _ _ _ Hl)|].
      * destruct Hok as (t0 & r0 & p0 & H0 & Hd0 & Ho & _). apply (Ho t Caller p); [|done|done].
        intros ->. congruence.
      * destruct Hok as [Hok _]. by apply (Hok _ _ _ Hl).
  - assert (others_out t s') as Ho.
    { eapply others_out_step; [done|]. intros u r1 q Hn Hu. unfold lifetime_ok in Hok.
      destruct Hx as [[Eh Hx]|Eh]; rewrite Eh in Hok; [|by apply (Hok u)].
      split; [by apply (Hok _ _ _ Hu)|]. intros ->. by apply (Hx u). }
    unfold lifetime_ok. rewrite Hh. exists t, r, p'. split_and!; [done..|]. congruence.
  - destruct (Hdp Hd) as (Eh & Ho & _). unfold lifetime_ok. rewrite Hh, Eh. exists t, r, p'.
    split_and!; [done..| |done]. by eapply others_out_step.
  - destruct (Hdp Hd) as (Eh & Ho & _). unfold lifetime_ok.
    assert (all_out s') as Ha.
    { apply (all_out_of t); [by eapply others_out_step|]. intros r1 p1 H1. rewrite Hl' in H1.
      by injection H1 as <- <-. }
    destruct Hh as [-> |[-> Hu]]; [done|by split].
Qed.

Lemma reachable_lifetime s : reachable s -> lifetime_ok s.
Proof.
  revert s. apply reachable_ind.
  - intros s (_ & _ & _ & Hh & Ht). unfold lifetime_ok. rewrite Hh. intros u r p Hl.
    destruct (Ht _ _ Hl) as [_ Hp]. simpl in Hp. by subst.
  - intros s t l s' (m & Hm)%reachable_mode Hok Hs.
    destruct (threads s !! t) as [[r p]|] eqn:Hl; [destruct (threads s' !! t) as [[r' p']|] eqn:Hl'|].
    + assert (r' = r) as -> by (eapply step_role; eauto). by eapply lifetime_own.
    + destruct (step_threads_only _ _ _ _ Hs (or_intror Hl')) as (Hh & _ & Ht & Hhome).
      eapply lifetime_bystander; eauto; intros r1 p1 H1; [by rewrite (Hhome _ _ H1)|congruence].
    + destruct (step_threads_only _ _ _ _ Hs (or_introl Hl)) as (Hh & _ & Ht & Hhome).
      eapply lifetime_bystander; eauto; intros r1 p1 H1; [congruence|].
      by destruct (Ht _ _ H1) as [-> ->].
Qed.

(** What a thread outside a freed client can still do. *)
Lemma freed_step r t l s s' : step s t l s' -> threads s !! t = Some (MkThread r Home) ->
  (forall r, may_call r (handle s) = false) -> r <> Worker -> ~ may_destroy t r s ->
  handle s <> Queued -> world s' = world s /\ handle s' = handle s.
Proof.
  intros Hs Hl Hcall Hr Hd Hq. destruct Hs; simplify_eq; try done;
    try (by rewrite Hcall in *); by simplify_eq/=.
Qed.

(** C4: no use after free: once the storage of a client is freed, whether by its
    destructor or, when the sample callback destroyed the client, by the deferred
    destroyer, no worker thread exists, no thread is inside the client, and no
    transition of any thread touches its state again. *)
Theorem storage_outlives_threads s : reachable s -> handle s = Freed ->
  (forall id, ~ worker_at (threads s) id) /\
  (forall t r p, threads s !! t = Some (MkThread r p) -> p = Home) /\
  forall t l s', step s t l s' -> world s' = world s /\ handle s' = Freed.
Proof.
  intros Hr Hh. pose proof (reachable_lifetime _ Hr) as Hok. destruct (reachable_mode _ Hr) as (m & Hm).
  unfold lifetime_ok in Hok. rewrite Hh in Hok. destruct Hok as [Ho [Hw Hj]].
  destruct (no_worker_mode _ _ _ Hm Hw Hj) as (_ & _ & Hno).
  assert (forall t r p, threads s !! t = Some (MkThread r p) -> p = Home) as Hhome.
  { intros t r p Hl. destruct (Ho _ _ _ Hl) as [Hd Hc]. apply (pc_home r p); [|done..|].
    - apply (mode_ok_thread _ _ _ _ _ Hm Hl).
    - intros ->. apply (Hno t). by exists p. }
  split_and!; [done..|]. intros t l s' Hs. rewrite <- Hh.
  assert (forall r, may_call r (handle s) = false) as Hcall by (rewrite Hh; by intros []).
  destruct (threads s !! t) as [[r p]|] eqn:Hl.
  - rewrite (Hhome _ _ _ Hl) in Hl. apply (freed_step r t l s s'); try done.
    + intros ->. apply (Hno t). by exists Home.
    + intros (E & _). congruence.
    + congruence.
  - by destruct (step_threads_only _ _ _ _ Hs (or_introl Hl)) as (? & ? & _).
Qed.

End lifecycle_lifetime.
