(* ===== verification/LifecycleWaits.v ===== *)
(** * Waiting and waking: which notifications can be lost

    The waits for a joiner are woken whenever they have to be, because
    [joining_] only changes under the lifecycle lock.  Two other waits read
    flags that change without the lock of the wait: their notification can come
    between the test of the predicate and the sleep, and is then lost. *)

From S2P Require Export LifecycleLifetime.

#[local] Open Scope Z_scope.

Definition idle_wait (p : Pc) : option Wait :=
  match p with StartIdleWait _ v | StopIdleWait _ v => Some v | _ => None end.

(** About to notify [lifecycle_cv_] of the end of a join. *)
Definition notifying (p : Pc) : bool :=
  match p with StartNotify _ | StopNotify _ => true | _ => false end.

Lemma notification_waits f p : notification f ->
  holds_lifecycle (f p) = holds_lifecycle p /\
  (idle_wait (f p) = Some Blocking -> idle_wait p = Some Blocking) /\
  (idle_wait (f p) = Some Asleep -> f = id /\ idle_wait p = Some Asleep) /\
  notifying (f p) = notifying p.
Proof.
  intros [-> | [-> | ->]]; split_and!; by_pc p.
Qed.

Section lifecycle_waits.
  Context {T : TransportOps} {P : Platform}.

Lemma first_recheck_waits c (i : Impl T) : idle_wait (first_recheck c i) = None.
Proof. unfold first_recheck. by destruct (wait_done c i). Qed.

Lemma backoff_recheck_waits (i : Impl T) : idle_wait (backoff_recheck i) = None.
Proof. unfold backoff_recheck. by destruct (stopping_ i). Qed.

Lemma set_wait_waits v p p' : set_wait v p = Some p' -> v <> Blocking ->
  idle_wait p' <> Some Blocking /\
  (idle_wait p' = Some Asleep -> v = Asleep /\ is_Some (idle_wait p)).
Proof.
  destruct p as [| | |v0| | |c v0|cb|cb v0|cb v0|cb id|cb|cb| |k|k|k v0|k id|k|k]; try done;
    intros [= <-] Hv; simpl; (split; [intros [=]; done|]); by intros [= ->].
Qed.

(** What a section leaves behind. *)
Lemma section_waits t p a thread (w : World T) h e : lifecycle_section t p a thread w h = Some e ->
  idle_wait (next e) <> Some Asleep /\
  (idle_wait (next e) = Some Blocking -> joining_ (im (effect_world e)) = true) /\
  (joining_ (im (effect_world e)) = joining_ (im w) \/ joining_ (im (effect_world e)) = true \/
   notifying (next e) = true).
Proof.
  assert (forall cb st, st <> StartAwaitJoiner \/ joining_ (im w) = true ->
    let e := start_pass cb thread st w h in idle_wait (next e) <> Some Asleep /\
    (idle_wait (next e) = Some Blocking -> joining_ (im (effect_world e)) = true) /\
    (joining_ (im (effect_world e)) = joining_ (im w) \/ joining_ (im (effect_world e)) = true \/
     notifying (next e) = true)) as Hpass.
  { intros cb [e0| | |id|] Hst; cbv zeta; simpl; try (split_and!; [done..|by auto]).
    - split_and!; [done| |by auto]. by intros _; destruct Hst.
    - pose proof (start_section_core cb thread (im w)) as E.
      destruct (start_section cb thread (im w)) as [r i]. simpl in *. split_and!; [done..|]. left.
      destruct thread; [by injection E|by apply core_eq in E as (_ & _ & ? & _)]. }
  destruct p as [| | |v| | |c v|cb|cb v|cb v|cb id|cb|cb| |k|k|k v|k id|k|k]; try done;
    try (destruct v; try done); intros [= <-].
  - apply Hpass. unfold start_entry, start_worker. repeat case_match; by auto.
  - pose proof (Hpass cb (start_worker (im w))) as Hw.
    destruct (joining_ (im w)) eqn:Ej; [simpl; split_and!; by auto|].
    apply Hw. left. unfold start_worker. by repeat case_match.
  - split_and!; [by destruct (exit_awaited _)..|by left].
  - split_and!; [done..|]. by right; right.
  - split_and!; [by destruct (called_from_worker_thread _ _)..|by left].
  - split_and!; [done..|by left].
  - unfold stop_pass. pose proof (stop_command_core a w) as (_ & _ & Ej & _)%core_eq.
    unfold stop_entry. destruct (called_from_worker_thread _ _); [by destruct k; simpl; split_and!; auto|].
    destruct (joining_ (im (stop_command a w))) eqn:E; [simpl; split_and!; by auto|].
    destruct (worker_ (im (stop_command a w))); [simpl; split_and!; by auto|].
    pose proof (mark_stopped_core (im (stop_command a w))) as (_ & _ & Em & _)%core_eq.
    split_and!; [by destruct k..|]. left. etrans; [exact Em|congruence].
  - destruct (joining_ (im w)) eqn:Ej; simpl; split_and!; by auto.
  - split_and!; [done..|]. by right; right.
Qed.

(** What the thread that moves leaves behind. *)
Lemma own_waits s t l s' r p' : step s t l s' -> threads s' !! t = Some (MkThread r p') ->
  (idle_wait p' = Some Blocking -> joining_ (im (world s')) = true) /\
  (idle_wait p' = Some Asleep -> exists p, threads s !! t = Some (MkThread r p) /\
     idle_wait p = Some Blocking /\ world s' = world s).
Proof.
  intros Hs Hl'. destruct Hs; own_lookup Hl'.
  - by rewrite first_recheck_waits.
  - destruct (section_waits _ _ _ _ _ _ _ H1) as (Ha & Hb & _).
    assert (notification (if notifies e then wake else id)) as Hw
      by (destruct (notifies e); [by right; right|by left]).
    replace (if notifies e then wake (next e) else next e)
      with ((if notifies e then wake else id) (next e)) by by destruct (notifies e).
    destruct (notification_waits _ (next e) Hw) as (_ & Ebl & Eas & _). rewrite apply_effect_world.
    split; [intros Hx; by apply Hb, Ebl|]. intros Hx. by destruct (Eas Hx).
  - by destruct k.
  - destruct (set_wait_waits _ _ _ H1) as (Hn & Ha); [done|]. split; [done|].
    intros Hx. exists p. split_and!; [done| |done]. destruct (Ha Hx) as (_ & [v Hv]).
    by_pc p.
  - destruct (set_wait_waits _ _ _ H1) as (Hn & Ha); [done|]. split; [done|].
    intros Hx. by destruct (Ha Hx).
  - by rewrite first_recheck_waits.
  - by destruct (worker_next_cases (world s) w') as [-> | ->].
  - by rewrite backoff_recheck_waits.
Qed.

(** ** The waits for a joiner are always woken *)
Definition woken_soon (s : System T) : Prop := joining_ (im (world s)) = true \/
  exists v r q, threads s !! v = Some (MkThread r q) /\ notifying q = true.

Definition idle_ok (s : System T) : Prop := forall u r p, threads s !! u = Some (MkThread r p) ->
  (idle_wait p = Some Blocking -> joining_ (im (world s)) = true) /\
  (idle_wait p = Some Asleep -> woken_soon s).

(** [joining_] is only taken down in a section, by a thread that notifies next. *)
Lemma step_joining s t l s' : reachable s -> step s t l s' ->
  joining_ (im (world s')) = joining_ (im (world s)) \/ joining_ (im (world s')) = true \/
  ((forall u, u <> t -> lifecycle_lock s <> Some u) /\
   exists r q, threads s' !! t = Some (MkThread r q) /\ notifying q = true).
Proof.
  intros Hr Hs. destruct Hs; try (by left).
  - left. by pose proof (act_core (world s) a) as (_ & _ & ? & _)%core_eq.
  - rewrite apply_effect_world. destruct (section_waits _ _ _ _ _ _ _ H1) as (_ & _ & [E|[E|E]]);
      [by left|by right; left|]. right; right.
    split; [intros u Hn; rewrite H0; destruct (holds_lifecycle p); simpl; congruence|].
    rewrite (apply_effect_self _ _ _ _ _ H) by done. do 2 eexists. split; [done|].
    destruct (notifies e); [|done].
    by destruct (notification_waits wake (next e)) as (_ & _ & _ & ->); [by right; right|].
  - left. destruct H0 as [Hw|Hw];
      [apply session_move_core in Hw|apply loop_move_core in Hw]; by apply core_eq in Hw as (_ & _ & ? & _).
  - left. by pose proof (finish_section_core (im (world s))) as [= _ _ ? _].
Qed.

(** A thread that is about to notify does just that. *)
Lemma notifying_step s t l s' r q : step s t l s' -> threads s !! t = Some (MkThread r q) ->
  notifying q = true -> forall u r' p', threads s' !! u = Some (MkThread r' p') ->
  idle_wait p' <> Some Asleep.
Proof.
  intros Hs Hl Hq. assert (forall f ths u r' p', f = wake \/ f = wake_lifecycle ->
    (wake_thread f <$> ths : gmap thread_id Thread) !! u = Some (MkThread r' p') ->
    idle_wait p' <> Some Asleep) as Hf.
  { intros f ths u r' p' Hf. rewrite lookup_fmap. destruct (ths !! u) as [[r0 p0]|]; [|done].
    intros [= <- <-]. assert (notification f) as Hn by (destruct Hf as [-> | ->]; unfold notification; auto).
    destruct (notification_waits f p0 Hn) as (_ & _ & H & _). intros [-> _]%H.
    destruct Hf as [E|E]; apply (f_equal (fun g => g (StartIdleWait false Asleep))) in E; done. }
  destruct Hs; simplify_eq; try done; try (intros u r' p' Hu; eapply Hf; [|exact Hu]; by auto).
  all: match goal with H : _ \/ _ |- _ => by destruct H; subst
       | H : notifying ?q = true |- _ => by_pc q
       end.
Qed.

Lemma reachable_idle s : reachable s -> idle_ok s.
Proof.
  revert s. apply reachable_ind.
  - intros s (_ & _ & _ & _ & Ht) u r p Hl. destruct (Ht _ _ Hl) as [_ Hp]. simpl in Hp. by subst.
  - intros s t l s' Hr IH Hs u r p' Hl. pose proof (step_joining _ _ _ _ Hr Hs) as Hj.
    pose proof (reachable_lock _ Hr) as Hlock.
    assert (joining_ (im (world s)) = true -> woken_soon s') as Hjs.
    { intros E. destruct Hj as [Hj|[Hj|(_ & Hx)]]; [left; congruence|by left|]. right. by exists t. }
    destruct (decide (u = t)) as [->|Hn].
    + destruct (own_waits _ _ _ _ _ _ Hs Hl) as (Hb & Ha). split; [done|]. intros Hx.
      destruct (Ha Hx) as (p & Hp & Hpb & Hw). left. rewrite Hw. by apply (IH _ _ _ Hp).
    + destruct (step_others _ _ _ _ Hs) as (f & Hf & Ho).
      destruct (Ho _ Hn) as [E|[[_ E]|[_ E]]]; rewrite Hl in E; [|by simplify_eq|done].
      destruct (threads s !! u) as [[r0 p0]|] eqn:El; [|done]. injection E as -> ->.
      destruct (notification_waits f p0 Hf) as (_ & Hb & Ha & _). split.
      * intros Hx%Hb. destruct (IH _ _ _ El) as [Hjo _]. specialize (Hjo Hx).
        destruct Hj as [Hj|[Hj|(Hnone & _)]]; [congruence|done|].
        assert (holds_lifecycle p0 = true) as Hh by by_pc p0.
        by destruct (Hnone u), (Hlock _ _ _ El Hh).
      * intros Hx. destruct (Ha Hx) as [-> Hx0]. destruct (IH _ _ _ El) as [_ Hs0].
        destruct (Hs0 Hx0) as [?|(v & rv & q & Hv & Hq)]; [by apply Hjs|].
        destruct (decide (v = t)) as [->|Hvt].
        { by destruct (notifying_step _ _ _ _ _ _ Hs Hv Hq _ _ _ Hl). }
        right. exists v, rv, q. split; [|done]. destruct (Ho _ Hvt) as [E|[[E _]|[E _]]]; rewrite Hv in E.
        -- done.
        -- done.
        -- by simplify_eq.
Qed.

(** C22: no lost wake-up for the waits on a joiner: whenever a thread sleeps in
    [start] or [stop] until the join in progress is over, the join is still in
    progress or some thread is about to notify it; and the thread between the
    test of the predicate and the sleep holds the lifecycle lock, while [joining_]
    is set. *)
Theorem joiner_waits_woken s u r p : reachable s -> threads s !! u = Some (MkThread r p) ->
  (idle_wait p = Some Asleep -> joining_ (im (world s)) = true \/
     exists v r' q, threads s !! v = Some (MkThread r' q) /\ notifying q = true) /\
  (idle_wait p = Some Blocking -> lifecycle_lock s = Some u /\ joining_ (im (world s)) = true).
Proof.
  intros Hr Hl. destruct (reachable_idle _ Hr _ _ _ Hl) as [Hb Ha]. split; [done|].
  intros Hx. split; [|by apply Hb]. apply (reachable_lock _ Hr _ _ _ Hl).
  by_pc p.
Qed.

End lifecycle_waits.
