(* ===== verification/LifecycleFirst.v ===== *)
(** * [wait_for_first_sample]: its answer and its notifications

    The sections after which the worker notifies, the data lock, and what the wait
    for the first sample can rely on. *)

From S2P Require Export LifecycleWaits.

#[local] Open Scope Z_scope.

Definition first_wait (p : Pc) : option (Z * Wait) :=
  match p with FirstWait captured v => Some (captured, v) | _ => None end.

Section lifecycle_first.
  Context {T : TransportOps} {P : Platform}.

(** What the wait looks at, besides the stop flag. *)
Definition sample_part (i : Impl T) : Z * Z * option Sample * FaultLatch :=
  (generation_ i, delivered_generation_ i, latest_ i, fault_latch_ i).

(** ** The sections after which the worker notifies *)

Lemma inc64_changes x : (inc64 x =? x) = false.
Proof.
  apply Z.eqb_neq. unfold inc64, u64. intros E.
  pose proof (Z.div_mod (x + 1) (2 ^ 64) ltac:(done)) as H. rewrite E in H. lia.
Qed.

Lemma delivery_announced sample (w : World T) :
  announces w (set_im (deliver_section sample (im w)) w) = true.
Proof. unfold announces, deliver_section. simpl. by rewrite inc64_changes. Qed.

Lemma fault_announced code m (w : World T) : faulted_ (im w) = false -> code <> FaultNone ->
  announces w (set_im (fault_section code m (im w)) w) = true.
Proof.
  unfold announces, fault_section, faulted_, fault_code_, faulted, publish, latch_code.
  rewrite negb_false_iff, bool_decide_eq_true. intros Hf Hc. rewrite Hf. simpl.
  rewrite orb_true_iff. right. by rewrite bool_decide_eq_false_2.
Qed.

(** What the worker has to announce, and what the wait looks at. *)
Definition announced_part (i : Impl T) : Z * (Z * Z * option Sample * FaultLatch) :=
  (delivered_count (health_ i), sample_part i).

Lemma announced_part_eq (w w' : World T) : announced_part (im w') = announced_part (im w) ->
  announces w w' = false /\ sample_part (im w') = sample_part (im w).
Proof.
  intros [= E1 E2 E3 E4 E5]. unfold announces, sample_part, fault_code_.
  by rewrite E1, E2, E3, E4, E5, Z.eqb_refl, bool_decide_eq_true_2.
Qed.

Lemma count_record_announced r at_ rdt ft sev (i : Impl T) :
  announced_part (count_record r at_ rdt ft sev i) = announced_part i.
Proof.
  unfold announced_part, sample_part, count_record, count_rdt, count_ft, count_severity.
  by destruct (sequence_kind rdt), ft, sev.
Qed.

Lemma limited_announced n (i : Impl T) :
  announced_part (set_health (fun h => h <| rate_limited_count := n h |>) i) = announced_part i.
Proof. done. Qed.

Lemma record_section_announced r at_ (i : Impl T) :
  announced_part (snd (record_section r at_ i)) = announced_part i.
Proof.
  unfold record_section.
  destruct (rdt_observe _ _) as [rt rdt], (ft_observe _ _) as [ft kind]. cbv zeta.
  destruct (sensor_configuration _); [|done]. destruct (_ && _); cbn [snd];
    by rewrite ?limited_announced, count_record_announced.
Qed.

Lemma section_announces f (i : Impl T) : session_section f ->
  (exists sample, f = deliver_section sample) \/ announced_part (f i) = announced_part i.
Proof.
  destruct 1 as [|c| |valid| | |r at_|m|sample]; [right..|by left; exists sample]; try done.
  - unfold apply_configuration. by repeat case_match.
  - unfold timeout_section. by case_match.
  - apply record_section_announced.
Qed.

(** ** What each transition does to what the wait looks at *)

Definition wait_part (i : Impl T) : (Z * Z * option Sample * FaultLatch) * bool := (sample_part i, stopping_ i).

Lemma wait_done_part captured (i i' : Impl T) : wait_part i' = wait_part i ->
  wait_done captured i' = wait_done captured i.
Proof. unfold wait_done, faulted_. by intros [= -> -> _ -> ->]. Qed.

Lemma announced_wait_part (w w' : World T) : announced_part (im w') = announced_part (im w) ->
  stopping_ (im w') = stopping_ (im w) -> wait_part (im w') = wait_part (im w).
Proof. intros [_ E]%announced_part_eq Es. unfold wait_part. by rewrite E, Es. Qed.

Lemma session_move_wait (w w' : World T) : session_move w w' ->
  (exists sample, w' = set_im (deliver_section sample (im w)) w) \/ wait_part (im w') = wait_part (im w).
Proof.
  destruct 1 as [w f Hf Hn|w a r t Hs _|w a e w' Hst Hs Es|w a w' Hst Hs Es|w s answer _];
    try (apply send_command_log in Es as ->); try (by right).
  destruct (section_announces f (im w) Hf) as [[sample ->]|E]; [left; by exists sample|]. right.
  apply announced_wait_part; [exact E|exact (session_section_stopping f (im w) Hf)].
Qed.

Lemma loop_move_wait (w w' : World T) : loop_move w w' -> announces w w' = false ->
  wait_part (im w') = wait_part (im w).
Proof.
  destruct 1 as [w a|w code m Hc|w m Hf]; intros Ha; [|..|done].
  - unfold close_section. by destruct (session_started_ _).
  - destruct (faulted_ (im w)) eqn:Hf; [|by rewrite fault_announced in Ha].
    unfold fault_section, publish. unfold faulted_, faulted, latch_code in Hf. simpl. by rewrite Hf.
Qed.

Lemma work_wait (w w' : World T) : session_move w w' \/ loop_move w w' -> announces w w' = false ->
  wait_part (im w') = wait_part (im w).
Proof.
  intros [H|H] Ha; [|by apply loop_move_wait].
  destruct (session_move_wait _ _ H) as [[sample ->]|E]; [by rewrite delivery_announced in Ha|done].
Qed.

Lemma public_action_wait (w : World T) a : public_action a = true ->
  wait_part (im (act w a)) = wait_part (im w).
Proof.
  destruct a; try done. intros _. simpl. unfold bias. destruct (_ || _); [done|].
  unfold send_command. destruct (is_ok _); do 2 (simpl; case_match; try done); done.
Qed.

Lemma stop_command_wait a (w : World T) : wait_part (im (stop_command a w)) = wait_part (im w).
Proof. unfold stop_command. by destruct (session_started_ _). Qed.

Lemma mark_stopped_wait (i : Impl T) : wait_part (mark_stopped i) = wait_part i.
Proof. unfold mark_stopped. by destruct (faulted_ i). Qed.

Lemma section_wait t p a thread (w : World T) h e : lifecycle_section t p a thread w h = Some e ->
  notifies e = false -> wait_part (im (effect_world e)) = wait_part (im w).
Proof.
  assert (forall cb st h, notifies (start_pass cb thread st w h) = false ->
    wait_part (im (effect_world (start_pass cb thread st w h))) = wait_part (im w)) as Hpass.
  { intros cb [] h'; try done. simpl. by destruct (start_section cb thread (im w)). }
  destruct p as [| | |v| | |c v|cb|cb v|cb v|cb id|cb|cb| |k|k|k v|k id|k|k]; try done;
    try (destruct v; try done); intros [= <-]; try done.
  - apply Hpass.
  - destruct (joining_ (im w)); [done|]. apply Hpass.
  - intros _. unfold stop_pass. pose proof (stop_command_wait a w) as E. revert E.
    generalize (stop_command a w). intros w1 <-. case_match; try done. apply mark_stopped_wait.
  - intros _. exact (mark_stopped_wait (im w)).
Qed.

Lemma finish_section_wait (i : Impl T) : wait_part (finish_section i) = wait_part i.
Proof. unfold finish_section. cbv zeta. by destruct (faulted_ _). Qed.

(** Nobody sleeps through a notification of both condition variables. *)
Lemma woken_first (ths : gmap thread_id Thread) u r captured :
  (wake_thread wake <$> ths) !! u <> Some (MkThread r (FirstWait captured Asleep)).
Proof.
  rewrite lookup_fmap. destruct (ths !! u) as [[r0 p0]|]; [|done]. intros [= _ E]. by_pc p0.
Qed.

(** A transition wakes everybody, changes nothing the wait looks at, or leaves
    the worker about to notify. *)
Lemma step_wakes_first s t l s' : step s t l s' ->
  (forall u r captured, threads s' !! u <> Some (MkThread r (FirstWait captured Asleep))) \/
  wait_part (im (world s')) = wait_part (im (world s)) \/
  threads s' !! t = Some (MkThread Worker Announcing).
Proof.
  intros Hs. destruct Hs; try (by right; left); try (left; intros *; apply woken_first).
  - right; left. by apply public_action_wait.
  - destruct (notifies e) eqn:En.
    + left. intros *. rewrite apply_effect_threads, En. apply woken_first.
    + right; left. rewrite apply_effect_world. by eapply section_wait.
  - right. unfold worker_next. destruct (announces (world s) w') eqn:Ea.
    + right. simpl. by rewrite lookup_insert_eq.
    + left. by apply work_wait.
  - right; left. apply finish_section_wait.
Qed.

(** ** The data lock *)

Lemma notification_data f p : notification f -> holds_data (f p) = holds_data p.
Proof. intros [-> | [-> | ->]]; by_pc p. Qed.

Lemma section_data t p a thread (w : World T) h e : lifecycle_section t p a thread w h = Some e ->
  holds_data (next e) = false.
Proof.
  destruct p as [| | |v| | |c v|cb|cb v|cb v|cb id|cb|cb| |k|k|k v|k id|k|k]; try done;
    try (destruct v; try done); intros [= <-]; try done; unfold start_pass, stop_pass;
    repeat case_match; try done; by destruct k.
Qed.

Lemma own_data s t l s' r p' : step s t l s' -> threads s' !! t = Some (MkThread r p') ->
  holds_data p' = true -> data_lock s' = Some t.
Proof.
  intros Hs Hl' Hp'. destruct Hs; own_lookup Hl'; try (simpl; by rewrite Hp').
  - exfalso. destruct (notifies e); [|by erewrite section_data in Hp'].
    rewrite (notification_data wake) in Hp' by (by right; right). by erewrite section_data in Hp'.
  - by destruct k.
  - cases_pc p; by simplify_eq/=.
  - cases_pc p; by simplify_eq/=.
  - by destruct (worker_next_cases (world s) w') as [E|E]; rewrite E in Hp'.
Qed.

Lemma other_data s t l s' u : step s t l s' -> lock_ok data_lock holds_data s -> u <> t ->
  data_lock s = Some u -> data_lock s' = Some u.
Proof.
  intros Hs Hok Hn Hu. destruct Hs; try done; try congruence.
  - unfold apply_effect. by destruct (spawns e), (notifies e).
  - simpl. destruct (holds_data p) eqn:Hp; [|done]. specialize (Hok _ _ _ H Hp). congruence.
Qed.

Lemma reachable_data s : reachable s -> lock_ok data_lock holds_data s.
Proof.
  revert s. apply reachable_lock_ok; [done|done|apply notification_data|apply own_data|apply other_data].
Qed.

(** What the data lock protects stays while another thread holds it. *)
Lemma step_data_part s t l s' : step s t l s' -> data_lock s <> None ->
  data_part (im (world s')) = data_part (im (world s)).
Proof.
  intros Hs Hd. destruct Hs; try done; try (destruct H1 as [|E]; [done|exact E]).
  - rewrite apply_effect_world. by destruct H2.
  - by destruct H0.
Qed.

(** The stop flag only comes down in a [start] that begins a new run. *)
Lemma step_stop_flag s t l s' : reachable s -> step s t l s' -> stopping_ (im (world s)) = true ->
  stopping_ (im (world s')) = true \/ generation_ (im (world s')) <> generation_ (im (world s)).
Proof.
  intros Hr Hs Hst. destruct (reachable_mode _ Hr) as (m & Hm).
  pose proof (step_world_of _ _ _ _ Hr Hs) as Hw. revert Hw. generalize (world s'). intros w' Hw.
  destruct Hw as [l|a Ha|u r p w' Hl Hk Hw|w' [Hw|Hw]| |]; try (by left).
  - left. change (fst (flags (im (act (world s) a))) = true). by rewrite public_action_flags.
  - destruct Hw as [| | |a k _|a k _|a k _ _ _|cb thread Hp H1 H2|_ _|_ _]; try (by left).
    + left. change (fst (flags (im (stop_command a (world s)))) = true). by rewrite stop_command_flags.
    + left. change (fst (flags (im (stop_command a (world s)))) = true). by rewrite stop_command_flags.
    + left. change (fst (flags (mark_stopped (im (stop_command a (world s))))) = true).
      by rewrite mark_stopped_flags, stop_command_flags.
    + destruct thread as [id|e]; simpl.
      * right. apply Z.eqb_neq, inc64_changes.
      * left. case_match; [done|]. unfold fault_section. by destruct (publish _ _ _ _ _) as [[? ?] ?].
    + left. change (fst (flags (mark_stopped (im (world s)))) = true). by rewrite mark_stopped_flags.
  - left. change (fst (flags (im w')) = true). by rewrite (session_move_flags _ _ Hw Hst).
  - left. change (fst (flags (im w')) = true). by destruct (loop_move_flags _ _ Hw) as [-> | ->].
  - left. change (fst (flags (finish_section (im (world s)))) = true). by rewrite finish_section_flags.
Qed.

(** ** The wait for the first sample is woken *)

Definition announcing (s : System T) : Prop :=
  exists t, threads s !! t = Some (MkThread Worker Announcing).

Definition first_ok (s : System T) : Prop := forall u r p captured v,
  threads s !! u = Some (MkThread r p) -> first_wait p = Some (captured, v) ->
  wait_done captured (im (world s)) = true ->
  v = Woken \/ stopping_ (im (world s)) = true \/ (v = Asleep /\ announcing s).

Lemma section_first t p a thread (w : World T) h e : lifecycle_section t p a thread w h = Some e ->
  first_wait (next e) = None.
Proof.
  destruct p as [| | |v| | |c v|cb|cb v|cb v|cb id|cb|cb| |k|k|k v|k id|k|k]; try done;
    try (destruct v; try done); intros [= <-]; try done; unfold start_pass, stop_pass;
    repeat case_match; try done; by destruct k.
Qed.

Lemma recheck_first c (i : Impl T) captured v : first_wait (first_recheck c i) = Some (captured, v) ->
  wait_done captured i = false.
Proof. unfold first_recheck. destruct (wait_done c i) eqn:E; [done|]. by intros [= <- _]. Qed.

Lemma set_wait_first v p p' captured v' : set_wait v p = Some p' ->
  first_wait p' = Some (captured, v') -> v' = v /\ exists v0, first_wait p = Some (captured, v0).
Proof. destruct p; intros [= <-]; try done. intros [= <- <-]. split; [done|by eexists]. Qed.

Lemma first_own s t l s' r p' captured v : step s t l s' -> first_ok s ->
  threads s' !! t = Some (MkThread r p') -> first_wait p' = Some (captured, v) ->
  wait_done captured (im (world s')) = true -> v = Woken \/ stopping_ (im (world s')) = true.
Proof.
  intros Hs Hok Hl' Hp' Hd. destruct Hs; own_lookup Hl'.
  - apply recheck_first in Hp'. simpl in Hd. congruence.
  - exfalso. apply section_first in H1. destruct (notifies e); [|congruence].
    by destruct (next e).
  - by destruct k.
  - destruct (set_wait_first _ _ _ _ _ H1 Hp') as (-> & v0 & Hp0).
    assert (v0 = Blocking) as -> by (cases_pc p; by simplify_eq/=).
    destruct (Hok _ _ _ _ _ H Hp0 Hd) as [?|[?|[? _]]]; [done|by right|done].
  - destruct (set_wait_first _ _ _ _ _ H1 Hp') as (-> & _). by left.
  - apply recheck_first in Hp'. simpl in Hd. congruence.
  - by destruct (worker_next_cases (world s) w') as [E|E]; rewrite E in Hp'.
  - unfold backoff_recheck in Hp'. by destruct (stopping_ _).
Qed.

(** While a thread is between its test and its sleep it holds the data lock. *)
Lemma first_blocking s t l s' u r p captured : reachable s -> step s t l s' -> u <> t ->
  threads s !! u = Some (MkThread r p) -> first_wait p = Some (captured, Blocking) -> first_ok s ->
  wait_done captured (im (world s')) = true -> stopping_ (im (world s')) = true.
Proof.
  intros Hr Hs Hn Hl Hp Hok Hd.
  assert (data_lock s = Some u) as Hk by (apply (reachable_data s Hr _ _ _ Hl); by_pc p).
  assert (data_part (im (world s')) = data_part (im (world s))) as E
    by (eapply step_data_part; [done|congruence]).
  injection E as _ _ Ef Er Eg Ed _. unfold wait_done, faulted_ in Hd. rewrite Ef, Eg, Ed in Hd.
  destruct (stopping_ (im (world s'))) eqn:Est; [done|]. exfalso.
  assert (wait_done captured (im (world s)) = true) as Hd0.
  { unfold wait_done, faulted_. rewrite orb_false_r in Hd. by destruct (stopping_ (im (world s))); rewrite ?orb_true_r, ?orb_false_r. }
  destruct (Hok _ _ _ _ _ Hl Hp Hd0) as [?|[Hst|[? _]]]; [done| |done].
  destruct (step_stop_flag _ _ _ _ Hr Hs Hst); congruence.
Qed.

Lemma notification_first f p captured v : notification f -> first_wait (f p) = Some (captured, v) ->
  exists v0, first_wait p = Some (captured, v0) /\ (v = v0 \/ v = Woken).
Proof.
  intros Hf. destruct p as [| | |v0| | |c v0|cb|cb v0|cb v0|cb id|cb|cb| |k|k|k v0|k id|k|k];
    destruct Hf as [-> | [-> | ->]]; try done; intros [= <- <-]; eexists; (split; [done|]); auto.
  destruct v0; auto.
Qed.

(** The worker stays about to notify until it does. *)
Lemma announcing_step s t l s' : step s t l s' -> announcing s -> announcing s' \/
  forall u r captured, threads s' !! u <> Some (MkThread r (FirstWait captured Asleep)).
Proof.
  intros Hs (w & Hw). destruct (decide (w = t)) as [->|Hn].
  - right. destruct Hs; simplify_eq/=; try (by destruct H0); intros *; apply woken_first.
  - left. destruct (step_others _ _ _ _ Hs) as (f & Hf & Ho). exists w.
    destruct (Ho _ Hn) as [E|[[E _]|[E _]]]; rewrite Hw in E; [|done|by simplify_eq].
    rewrite E. by destruct Hf as [-> | [-> | ->]].
Qed.

Lemma reachable_first s : reachable s -> first_ok s.
Proof.
  revert s. apply reachable_ind.
  - intros s (_ & _ & _ & _ & Ht) u r p c v Hl Hp. destruct (Ht _ _ Hl) as [_ E]. simpl in E. by subst.
  - intros s t l s' Hr IH Hs u r p' c v Hl Hp' Hd. destruct (decide (u = t)) as [->|Hn].
    { destruct (first_own _ _ _ _ _ _ _ _ Hs IH Hl Hp' Hd); auto. }
    destruct (step_others _ _ _ _ Hs) as (f & Hf & Ho).
    destruct (Ho _ Hn) as [E|[[_ E]|[_ E]]]; rewrite Hl in E; [|by simplify_eq|done].
    destruct (threads s !! u) as [[r0 p0]|] eqn:El; [|done]. injection E as -> ->.
    destruct (notification_first _ _ _ _ Hf Hp') as (v0 & Hp0 & [<-|]); [|by left].
    destruct v; [|destruct (step_wakes_first _ _ _ _ Hs) as [Hno|[E|Ha]]|by left].
    + right; left. by eapply (first_blocking s t l s').
    + destruct (f p0) eqn:Ef; try done. injection Hp' as -> ->. by destruct (Hno _ _ _ Hl).
    + rewrite (wait_done_part _ _ _ E) in Hd. injection E as _ _ _ _ Est. rewrite Est.
      destruct (IH _ _ _ _ _ El Hp0 Hd) as [?|[?|[_ Ha]]]; [by left|by right; left|].
      destruct (announcing_step _ _ _ _ Hs Ha) as [?|Hno]; [by auto|].
      destruct (f p0) eqn:Ef; try done. injection Hp' as -> ->. by destruct (Hno _ _ _ Hl).
    + right; right. split; [done|]. by exists t.
Qed.

(** ** The answer of the wait *)

Definition answer_part (i : Impl T) : Z * Z * option Sample := (generation_ i, delivered_generation_ i, latest_ i).

(** A run that has delivered has a latest sample. *)
Definition answer_ok (i : Impl T) : Prop := generation_ i <> 0 ->
  delivered_generation_ i = generation_ i -> latest_ i <> None.

Lemma answer_ok_part i i' : answer_part i' = answer_part i -> answer_ok i -> answer_ok i'.
Proof. unfold answer_ok. by intros [= -> -> ->]. Qed.

Lemma answer_of_wait i i' : wait_part i' = wait_part i -> answer_part i' = answer_part i.
Proof. unfold answer_part. by intros [= -> -> -> _ _]. Qed.

Lemma start_answer cb thread (i : Impl T) : answer_ok i -> answer_ok (snd (start_section cb thread i)).
Proof.
  destruct thread as [id|e]; simpl; [by intros _ Hg Hd|]. intros H. case_match; [exact H|].
  unfold fault_section. by destruct (publish _ _ _ _ _) as [[? ?] ?].
Qed.

Lemma fault_section_answer code m (i : Impl T) : answer_part (fault_section code m i) = answer_part i.
Proof. unfold fault_section. by destruct (publish _ _ _ _ _) as [[? ?] ?]. Qed.

Lemma section_world_answer p (w w' : World T) : section_world p w w' -> answer_ok (im w) -> answer_ok (im w').
Proof.
  intros Hw Hok. pose proof (fun a => stop_command_wait a w) as Hc.
  destruct Hw as [| | |a k _|a k _|a k _ _ _|cb thread Hp H1 H2|_ _|_ _]; try done.
  - eapply answer_ok_part, Hok. by apply answer_of_wait.
  - eapply answer_ok_part, Hok. exact (answer_of_wait _ _ (Hc a)).
  - eapply answer_ok_part, Hok. apply answer_of_wait. etrans; [apply mark_stopped_wait|apply Hc].
  - by apply start_answer.
  - eapply answer_ok_part, Hok. apply answer_of_wait. exact (mark_stopped_wait (im w)).
Qed.

Lemma reachable_answer s : reachable s -> answer_ok (im (world s)).
Proof.
  revert s. apply (reachable_ind (fun s => answer_ok (im (world s)))).
  - intros s ((now & config & E) & _). unfold impl_construct in E.
    destruct (validate_config now config); [|done]. injection E as E. rewrite <- E. intros Hg. by destruct Hg.
  - intros s t l s' Hr Hok Hs. pose proof (step_world_of _ _ _ _ Hr Hs) as Hw.
    revert Hw. generalize (world s'). intros w' Hw.
    destruct Hw as [l|a Ha|u r p w' Hl Hk Hw|w' [Hw|Hw]| |]; try done.
    + eapply answer_ok_part, Hok. apply answer_of_wait. by apply public_action_wait.
    + by eapply section_world_answer.
    + destruct (session_move_wait _ _ Hw) as [[sample ->]|E]; [intros _ _; discriminate|].
      eapply answer_ok_part, Hok. by apply answer_of_wait.
    + eapply answer_ok_part, Hok. destruct Hw as [w a|w code m Hc|w m Hf]; [|apply fault_section_answer|done].
      unfold close_section. by destruct (session_started_ _).
    + eapply answer_ok_part, Hok. apply answer_of_wait. apply finish_section_wait.
Qed.

(** C21: [wait_for_first_sample] misses no delivery and no fault: while it sleeps
    and what it waits for has happened, a notification is on its way, or the stop
    flag is up; between the test of its predicate and the sleep it holds the data
    lock, under which only the stop flag can change that predicate.  And when it
    answers yes, the client has a latest sample. *)
Theorem first_sample_wait s u r captured : reachable s ->
  (threads s !! u = Some (MkThread r (FirstWait captured Asleep)) ->
   wait_done captured (im (world s)) = true ->
   stopping_ (im (world s)) = true \/ announcing s) /\
  (threads s !! u = Some (MkThread r (FirstWait captured Blocking)) ->
   data_lock s = Some u /\
   (wait_done captured (im (world s)) = true -> stopping_ (im (world s)) = true)) /\
  (captured <> 0 -> wait_end captured (im (world s)) = true ->
   latest_sample (im (world s)) <> None).
Proof.
  intros Hr. pose proof (reachable_first _ Hr) as Hok. split_and!.
  - intros Hl Hd. destruct (Hok _ _ _ _ _ Hl eq_refl Hd) as [?|[?|[_ ?]]]; [done|by left|by right].
  - intros Hl. split; [by apply (reachable_data _ Hr _ _ _ Hl)|]. intros Hd.
    destruct (Hok _ _ _ _ _ Hl eq_refl Hd) as [?|[?|[? _]]]; done.
  - intros Hc. unfold wait_end. destruct (Z.eqb_spec (generation_ (im (world s))) captured) as [E|]; [|done].
    simpl. intros Hd%Z.eqb_eq. apply (reachable_answer _ Hr); congruence.
Qed.

End lifecycle_first.
