(* ===== verification/LifecycleProgress.v ===== *)
(** * The threads of a client do not deadlock

    A system in which neither the client's own code nor a notification can move
    any thread is at rest: what it waits for is application code, the end of a
    pause or a deadline, or the one notification that can be lost for good. *)

From S2P Require Export LifecycleFirst.

#[local] Open Scope Z_scope.

(** Where a thread waits for something outside the client's own code: the
    application, for the worker its callback, or the deadline of a wait. *)
Definition parked (p : Pc) : Prop :=
  p = Home \/ p = BackoffWait Asleep \/ exists captured, p = FirstWait captured Asleep.

Section lifecycle_progress.
  Context {T : TransportOps} {P : Platform}.

(** ** A lock that is taken is held by a thread whose place says so *)
Section locks.
  Context (lock : System T -> option thread_id) (holds : Pc -> bool).

Definition held_where (s : System T) : Prop := forall u, lock s = Some u ->
  exists r p, threads s !! u = Some (MkThread r p) /\ holds p = true.

(** What a transition may do to the lock: leave it free, take it and go to such a
    place, or leave it alone from another place. *)
Definition lock_next (s s' : System T) (t : thread_id) : Prop :=
  lock s' = None \/
  (lock s' = Some t /\ exists r p, threads s' !! t = Some (MkThread r p) /\ holds p = true) \/
  (lock s' = lock s /\ forall r p, threads s !! t = Some (MkThread r p) -> holds p = false).

Lemma reachable_held :
  (forall s, initial s -> lock s = None) -> holds Finished = false ->
  (forall f p, notification f -> holds (f p) = holds p) ->
  (forall s t l s', step s t l s' -> lock_next s s' t) ->
  forall s, reachable s -> held_where s.
Proof.
  intros Hi Hfin Hf Hnext. apply reachable_ind.
  - intros s Hs u. by rewrite (Hi s Hs).
  - intros s t l s' Hr IH Hs u Hu. destruct (Hnext _ _ _ _ Hs) as [E|[[E H]|[E H]]].
    + congruence.
    + rewrite E in Hu. by injection Hu as <-.
    + rewrite E in Hu. destruct (IH _ Hu) as (r & p & Hl & Hp).
      assert (u <> t) as Hn by (intros ->; rewrite (H _ _ Hl) in Hp; done).
      destruct (step_others _ _ _ _ Hs) as (f & Hnf & Ho). exists r, (f p). rewrite (Hf f p Hnf).
      destruct (Ho _ Hn) as [E'|[[E' _]|[E' _]]]; rewrite Hl in E'; [done..|].
      simplify_eq. congruence.
Qed.
End locks.

Lemma lifecycle_lock_next (s : System T) t l s' : step s t l s' ->
  lock_next lifecycle_lock holds_lifecycle s s' t.
Proof.
  intros Hs. unfold lock_next. destruct Hs; try (right; right; split; [done|]; intros; by simplify_eq).
  - destruct (holds_lifecycle (next e)) eqn:E.
    + right; left. split; [unfold apply_effect; by rewrite E|]. exists r.
      eexists. rewrite (apply_effect_self _ _ _ _ _ H) by done. split; [done|].
      destruct (notifies e); [|done]. rewrite notification_holds; [done|by right; right].
    + left. unfold apply_effect. by rewrite E.
  - simpl. destruct (holds_lifecycle p) eqn:E; [by left|]. right; right. split; [done|].
    intros. by simplify_eq.
  - right; right. split; [done|]. intros. simplify_eq. by_pc p.
  - right; right. split; [done|]. intros. simplify_eq. by destruct H0 as [-> | ->].
Qed.

Lemma recheck_lock (s s0 : System T) t r p :
  lock_next data_lock holds_data s (set_pc t r p s0 <| data_lock := lock_if (holds_data p) t None |>) t.
Proof.
  unfold lock_next. simpl. destruct (holds_data p) eqn:E; [|by left]. right; left. split; [done|].
  exists r, p. by rewrite lookup_insert_eq.
Qed.

Lemma data_lock_next (s : System T) t l s' : step s t l s' -> lock_next data_lock holds_data s s' t.
Proof.
  intros Hs. destruct Hs; try apply recheck_lock;
    try (right; right; split; [done|]; intros; by simplify_eq).
  - right; right. split; [unfold apply_effect; by destruct (spawns e), (notifies e)|].
    intros. simplify_eq. by_pc p.
  - unfold lock_next. simpl. destruct (holds_data p) eqn:E; [by left|]. right; right. split; [done|].
    intros. by simplify_eq.
  - right; right. split; [done|]. intros. simplify_eq.
    by_pc p.
Qed.

(** ** Systems at rest *)

(** Only the application or the end of a wait moves a thread. *)
Definition quiescent (s : System T) : Prop := forall t l s', step s t l s' ->
  l = LApplication \/ l = LWaitEnds.

(** Threads that sleep, or join one that has not finished, do not move. *)
Definition waits_for_ever (s : System T) : Prop := forall t r p, threads s !! t = Some (MkThread r p) ->
  asleep p = true \/ p = Finished \/
  exists k id, p = StopJoining k id /\ threads s !! id <> Some (MkThread Worker Finished).

Lemma waits_for_ever_quiescent s : waits_for_ever s -> quiescent s.
Proof.
  intros Hw t l s' Hs. destruct Hs; try (by auto); exfalso;
    (match goal with H : threads s !! t = Some _ |- _ =>
       destruct (Hw _ _ _ H) as [Ha|[Ha|(k0 & id0 & Ha & Hn)]] end; simplify_eq/=; try done).
  all: by_pc p || by destruct H0; subst.
Qed.

Lemma quiescent_data s : reachable s -> quiescent s -> data_lock s = None.
Proof.
  intros Hr Hq. destruct (data_lock s) as [u|] eqn:E; [|done]. exfalso.
  destruct (reachable_held data_lock holds_data) with (s := s) (u := u) as (r & p & Hl & Hp); try done.
  - by intros s0 (_ & _ & ? & _).
  - intros f p [-> | [-> | ->]]; by_pc p.
  - apply data_lock_next.
  - destruct (set_wait Asleep p) as [p'|] eqn:Ew; [|by_pc p].
    destruct (Hq u LClient _ (step_block s u r p p' Hl ltac:(by rewrite Hp, orb_true_r) Ew)); done.
Qed.

Section progress.
  Context (a : os_answer) (s : System T).
  Hypothesis (Hr : reachable s) (Hq : quiescent s).

(** A thread that could make a lifecycle section would. *)
Lemma quiescent_section t r p e : threads s !! t = Some (MkThread r p) ->
  lifecycle_lock s = lock_if (holds_lifecycle p) t None ->
  lifecycle_section t p a (Throw (RuntimeError "no thread")) (world s) (handle s) = Some e -> False.
Proof.
  intros Hl Hk He.
  destruct (Hq t LClient (apply_effect t r e s)); [|done..]. eapply step_section; [done..| |].
  - left. by apply quiescent_data.
  - assert (spawns e = None) as ->; [|done]. revert He.
    destruct p as [| | |v| | |c v|cb|cb v|cb v|cb id|cb|cb| |k|k|k v|k id|k|k]; try done;
      try (destruct v; try done); intros [= <-]; try done;
      unfold start_pass, stop_pass; by repeat case_match.
Qed.

Lemma quiescent_lifecycle : lifecycle_lock s = None.
Proof.
  destruct (lifecycle_lock s) as [u|] eqn:E; [|done]. exfalso.
  destruct (reachable_held lifecycle_lock holds_lifecycle) with (s := s) (u := u) as (r & p & Hl & Hp);
    try done.
  - by intros s0 (_ & ? & _).
  - intros f p. apply notification_holds.
  - apply lifecycle_lock_next.
  - destruct (set_wait Asleep p) as [p'|] eqn:Ew.
    + destruct (Hq u LClient _ (step_block s u r p p' Hl ltac:(by rewrite Hp) Ew)); done.
    + destruct p; try done. eapply quiescent_section; [exact Hl|by rewrite E|done].
Qed.

(** No transition of the client's own code starts here. *)
Lemma quiescent_stuck t s' : ~ step s t LClient s' /\ ~ step s t LWorker s'.
Proof. split; intros H; by destruct (Hq _ _ _ H). Qed.

Lemma quiescent_place t r p : threads s !! t = Some (MkThread r p) ->
  parked p \/ p = Finished \/ (exists cb, p = StartExitWait cb Asleep) \/ idle_wait p = Some Asleep \/
  exists id, joins p = Some id /\ threads s !! id <> Some (MkThread Worker Finished).
Proof.
  intros Hl. pose proof (quiescent_data s Hr Hq) as Hd. pose proof quiescent_lifecycle as Hk.
  pose proof (fun e => quiescent_section t r p e Hl) as Hsec. rewrite Hk in Hsec.
  pose proof (fun s' => proj1 (quiescent_stuck t s')) as Hc.
  pose proof (fun s' => proj2 (quiescent_stuck t s')) as Hw.
  assert (pc_of r p = true) as Hp
    by (destruct (reachable_mode _ Hr) as (m & Hm); apply (mode_ok_thread _ _ _ _ _ Hm Hl)).
  assert (forall p', holds_lifecycle p || holds_data p = true -> set_wait Asleep p <> Some p') as Hb.
  { intros p' Hh Hx. by destruct (Hc _ (step_block s t r p p' Hl Hh Hx)). }
  destruct p as [| | |v| | |c v|cb|cb v|cb v|cb id|cb|cb| |k|k|k v|k id|k|k];
    try (exfalso; by eapply Hsec); try destruct v;
    try (exfalso; by eapply Hsec); try (exfalso; by eapply Hb).
  - by left; left.
  - exfalso. destruct r; try done. by eapply Hc, (step_backoff s t Working); [|left|].
  - exfalso. destruct r; try done. by eapply Hw, step_announce.
  - by left; right; left.
  - exfalso. destruct r; try done. by eapply Hc, (step_backoff s t (BackoffWait Woken)); [|right|].
  - exfalso. destruct r; try done. by eapply Hw, step_finish_notify.
  - by right; left.
  - left. right; right. by exists c.
  - exfalso. by eapply Hc, step_first_recheck.
  - by right; right; right; left.
  - right; right; left. by exists cb.
  - right; right; right; right. exists id. split; [done|]. intros Hid. by eapply Hc, step_start_join.
  - exfalso. by eapply Hc, step_start_notify.
  - exfalso. pose proof (reachable_lock _ Hr _ _ _ Hl eq_refl). congruence.
  - by right; right; right; left.
  - right; right; right; right. exists id. split; [done|]. intros Hid. by eapply Hc, step_stop_join.
  - exfalso. by eapply Hc, step_stop_notify.
Qed.

(** A worker that has not exited is parked. *)
Lemma quiescent_worker id p : threads s !! id = Some (MkThread Worker p) -> p = Finished \/ parked p.
Proof.
  intros Hl. destruct (reachable_mode _ Hr) as (m & Hm).
  destruct (mode_ok_thread _ _ _ _ _ Hm Hl) as (Hp & _).
  destruct (quiescent_place _ _ _ Hl) as [?|[?|[(cb & ->)|[Hi|(j & Hj & _)]]]]; [by auto..|done| |];
    exfalso; by destruct p.
Qed.

(** There is a worker, in application code or in a wait with a deadline. *)
Definition worker_parked : Prop := exists id p, threads s !! id = Some (MkThread Worker p) /\ parked p.

Lemma quiescent_join t r p id : threads s !! t = Some (MkThread r p) -> joins p = Some id ->
  threads s !! id <> Some (MkThread Worker Finished) -> worker_parked.
Proof.
  intros Hl Hj Hn. destruct (reachable_mode _ Hr) as (m & Hm).
  destruct (joiner_mode _ _ _ _ _ _ Hm Hl) as [(id' & Hj' & ->)| ->].
  - unfold joiner. by rewrite Hj.
  - simplify_eq. destruct (mode_ok_core _ _ _ Hm) as (_ & _ & _ & (q & Hq') & _).
    exists id, q. split; [done|]. destruct (quiescent_worker _ _ Hq') as [-> |?]; done.
  - exfalso. destruct (mode_ok_thread _ _ _ _ _ Hm Hl) as (_ & Hc & _). unfold claims in Hc.
    simpl in Hc. by rewrite Hj in Hc.
Qed.

Lemma quiescent_joining : joining_ (im (world s)) = true -> worker_parked.
Proof.
  intros Hj. destruct (reachable_mode _ Hr) as (m & Hm). pose proof (mode_ok_core _ _ _ Hm) as Hc.
  destruct (joining_mode _ _ _ Hm Hj) as [(t & id & ->)|(t & ->)].
  - destruct Hc as (_ & _ & _ & _ & [r p] & Hl & Hjs). simpl in Hjs.
    destruct (quiescent_place _ _ _ Hl) as [Hp|[-> |[(cb & ->)|[Hi|(j & Hj' & Hn)]]]]; try done.
    + by destruct Hp as [-> |[-> |(c & ->)]].
    + by destruct p.
    + by eapply quiescent_join.
  - exfalso. destruct Hc as (_ & _ & _ & [r p] & Hl & Hd). simpl in Hd.
    destruct (quiescent_place _ _ _ Hl) as [Hp|[-> |[(cb & ->)|[Hi|(j & Hj' & Hn)]]]]; try done.
    + by destruct Hp as [-> |[-> |(c & ->)]].
    + by destruct p.
    + by destruct p.
Qed.

Lemma quiescent_not_notifying v r q : threads s !! v = Some (MkThread r q) -> notifying q = true -> False.
Proof.
  intros Hl Hn. destruct (quiescent_place _ _ _ Hl) as [Hp|[-> |[(cb & ->)|[Hi|(j & Hj & _)]]]]; try done.
  - by destruct Hp as [-> |[-> |(c & ->)]].
  - by destruct q.
  - by destruct q.
Qed.

Lemma quiescent_exit : worker_exited_ (im (world s)) = true \/ worker_parked.
Proof.
  destruct (worker_exited_ (im (world s))) eqn:E; [by left|]. right.
  destruct (reachable_mode _ Hr) as (m & Hm). destruct (worker_exists _ _ _ Hm E) as (id & q & Hl).
  exists id, q. split; [done|]. destruct (quiescent_worker _ _ Hl) as [-> |?]; [|done].
  destruct (mode_ok_thread _ _ _ _ _ Hm Hl) as (_ & _ & [_ Ex]); [done|]. simpl in Ex. congruence.
Qed.

End progress.

(** What a thread of a system at rest waits for. *)
Definition rests (s : System T) (p : Pc) : Prop :=
  parked p \/ p = Finished \/
  ((is_Some (joins p) \/ idle_wait p = Some Asleep) /\ worker_parked s) \/
  (exists cb, p = StartExitWait cb Asleep) /\
    (worker_exited_ (im (world s)) = true \/ worker_parked s).

(** C5: the client does not deadlock: when neither its own code nor a
    notification can move any thread, both mutexes are free, the deferred
    destroyer has no work, and each thread is in application code (the sample
    callback included), in a wait with a deadline, or has finished; or it waits,
    in [start] or [stop], for the worker, directly or through the thread that
    joins it, and the worker is in its callback or in a wait with a deadline; or
    it is the [start] that missed the end of a faulted worker.  A wait for the
    first sample is at rest only while what it waits for has not happened, [stop]
    apart. *)
Theorem no_deadlock (a : os_answer) s : reachable s -> quiescent s ->
  lifecycle_lock s = None /\ data_lock s = None /\
  (forall t, threads s !! t = Some (MkThread Destroyer Home) -> handle s <> Queued) /\
  (forall t r captured, threads s !! t = Some (MkThread r (FirstWait captured Asleep)) ->
     wait_done captured (im (world s)) = true -> stopping_ (im (world s)) = true) /\
  forall t r p, threads s !! t = Some (MkThread r p) -> rests s p.
Proof.
  intros Hr Hq. split_and!; [by eapply quiescent_lifecycle|by apply quiescent_data| | |].
  - intros t Hl Hh. by destruct (Hq _ _ _ (step_destroyer s t Hl Hh)).
  - intros t r c Hl Hd. destruct (reachable_first _ Hr _ _ _ _ _ Hl eq_refl Hd) as [?|[?|[_ (w & Hw)]]];
      [done..|]. by destruct (Hq _ _ _ (step_announce s w Hw)).
  - intros t r p Hl. unfold rests.
    destruct (quiescent_place a s Hr Hq _ _ _ Hl) as [?|[?|[?|[Hi|(j & Hj & Hn)]]]]; [by auto..| | |].
    + right; right; right. split; [done|]. by eapply quiescent_exit.
    + right; right; left. split; [by right|].
      destruct (reachable_idle _ Hr _ _ _ Hl) as [_ Ha].
      destruct (Ha Hi) as [?|(v & r' & q & Hv & Hv')]; [by eapply quiescent_joining|].
      by destruct (quiescent_not_notifying a s Hr Hq _ _ _ Hv Hv').
    + right; right; left. split; [left; by rewrite Hj|]. by eapply quiescent_join.
Qed.

End lifecycle_progress.
