(* ===== verification/LifecycleRuns.v ===== *)
(** * Concrete runs of a client and its threads

    Two runs in which a notification is lost, and the runs on which the theorems
    about the threads are evaluated. *)

From S2P Require Export Scripted LifecycleHealth LifecycleProgress.

#[local] Open Scope Z_scope.

(** What the calibration override of the configuration is applied as. *)
Definition override_configuration : SensorConfiguration :=
  MkSensorConfiguration "" example_calibration Override 0.

(** The two recovery policies. *)
Definition reconnecting : Config := example_config.
Definition fail_stop : Config := example_config <| recovery_policy := FailStop |>.

(** A client just constructed, of either policy, and the threads beside it. *)
Definition constructed_impl (config : Config) : Impl scripted_transport :=
  match impl_construct (fun _ => 0) config with Ok i => i | Throw _ => impl_members config end.


Definition constructed (config : Config) (ths : gmap thread_id Thread) : System scripted_transport :=
  MkSystem (MkWorld (constructed_impl config) 0 []) ths None None Owned.

Definition one_caller : gmap thread_id Thread := {[1%positive := MkThread Caller Home]}.

Definition with_destroyer : gmap thread_id Thread := <[3%positive := MkThread Destroyer Home]> one_caller.

Lemma constructed_initial config ths :
  config = reconnecting \/ config = fail_stop ->
  (forall t th, ths !! t = Some th -> role th <> Worker /\ pc th = Home) ->
  initial (constructed config ths).
Proof.
  intros Hc Ht. split; [|by split_and!]. exists (fun _ => 0), config.
  destruct Hc as [-> | ->]; vm_compute; reflexivity.
Qed.

Lemma one_caller_initial config :
  config = reconnecting \/ config = fail_stop ->
  initial (constructed config one_caller).
Proof.
  intros Hc. apply constructed_initial; [done|]. intros t th. unfold one_caller.
  by intros [<- <-]%lookup_singleton_Some.
Qed.

Lemma with_destroyer_initial : initial (constructed reconnecting with_destroyer).
Proof.
  apply constructed_initial; [by left|]. intros t th. unfold with_destroyer, one_caller.
  rewrite lookup_insert_Some, lookup_singleton_Some. by intros [[_ <-]|(_ & _ & <-)].
Qed.

(** One transition of a run, by the constructor of [step], from the evaluated
    state. *)
Lemma moves_settled (s1 s2 s3 : System scripted_transport) :
  s1 = s2 -> rtc moves s2 s3 -> rtc moves s1 s3.
Proof. by intros <-. Qed.

Ltac settle := eapply moves_settled; [vm_compute; reflexivity|].

Tactic Notation "move_by" uconstr(H) := settle; eapply rtc_l; [do 2 eexists; eapply H|].

(** [start], until the worker runs. *)
Ltac move_start cb id :=
  move_by (step_start _ 1%positive Caller cb); [reflexivity|reflexivity|];
  move_by (step_section (T:=scripted_transport) _ 1%positive Caller (StartTop cb) (Some []) (Ok id));
  [vm_compute; reflexivity|reflexivity|vm_compute; reflexivity|by left|by intros ? [= <-]|].

(** A section of thread [t] at [p]; it creates no thread. *)
Ltac move_section t r p :=
  move_by (step_section (T:=scripted_transport) _ t r p None (Ok 9%positive));
  [vm_compute; reflexivity|reflexivity|vm_compute; reflexivity
  |first [by left|right; vm_compute; reflexivity]|done|].

(** One section of a session; the worker goes on. *)
Tactic Notation "move_session" uconstr(H) :=
  move_by (step_work _ 2%positive); [reflexivity|left; by eapply (rel_section (T:=scripted_transport) _ _ H)|by left|].

(** A session that fails to connect: [receive_session], then [close_session]. *)
Ltac move_failed_session :=
  move_session sec_connecting; move_session (sec_apply override_configuration);
  move_by (step_work _ 2%positive);
    [reflexivity|left; by eapply (rel_connect (T:=scripted_transport) _ None)|by left|];
  move_by (step_work _ 2%positive); [reflexivity|right; apply (rel_close (T:=scripted_transport) _ None)|by left|].

(** ** Two notifications that can be lost *)

(** Two threads, a worker and an application thread, neither of which moves. *)
Lemma pair_waits (s : System scripted_transport) r1 p1 r2 p2 :
  threads s = <[2%positive := MkThread r2 p2]> {[1%positive := MkThread r1 p1]} ->
  asleep p2 = true \/ p2 = Finished ->
  asleep p1 = true \/ (exists k, p1 = StopJoining k 2%positive /\ p2 <> Finished) ->
  waits_for_ever s.
Proof.
  intros Ht H2 H1 t r p. rewrite Ht, lookup_insert_Some, lookup_singleton_Some.
  intros [(<- & [= <- <-])|(_ & <- & [= <- <-])]; [by destruct H2; auto|].
  destruct H1 as [?|(k & -> & Hn)]; [by left|]. right; right. exists k, 2%positive. split; [done|].
  rewrite lookup_insert_eq. congruence.
Qed.

(** C23: a lost wake-up in [start]: [finish_session] sets [worker_exited_] and
    notifies without the lifecycle lock, so both can fall between the test of the
    predicate in a [start] that waits for a faulted worker and the sleep; then
    that [start] sleeps although its predicate holds and the worker thread has
    ended, and nothing but a new call of the application or a spurious wake-up
    ever ends the wait. *)
Theorem start_can_miss_exit : exists s : System scripted_transport, reachable s /\
  threads s = <[2%positive := MkThread Worker Finished]>
    {[1%positive := MkThread Caller (StartExitWait true Asleep)]} /\
  worker_exited_ (im (world s)) = true /\ exit_awaited (im (world s)) = true /\ quiescent s.
Proof.
  enough (exists s : System scripted_transport, reachable s /\
    threads s = <[2%positive := MkThread Worker Finished]>
      {[1%positive := MkThread Caller (StartExitWait true Asleep)]} /\
    worker_exited_ (im (world s)) = true /\ exit_awaited (im (world s)) = true)
    as (s & Hr & Ht & He & Hx).
  { exists s. split_and!; [done|exact Ht|exact He|exact Hx|].
    apply waits_for_ever_quiescent. eapply pair_waits; [exact Ht|by right|by left]. }
  eexists. split.
  { exists (constructed fail_stop one_caller).
  split; [apply one_caller_initial; by auto|].
  move_start true 2%positive. move_failed_session.
  move_by (step_work _ 2%positive);
    [reflexivity|right; by apply (rel_fault _ FaultSocket "scripted network error"%string)|by left|].
  move_by (step_announce _ 2%positive); [reflexivity|].
  move_by (step_start _ 1%positive Caller true); [reflexivity|reflexivity|].
  move_section 1%positive Caller (StartTop true).
  move_by (step_work _ 2%positive); [reflexivity|right; apply (rel_close (T:=scripted_transport) _ None)|by left|].
  move_by (step_finish _ 2%positive); [reflexivity|by left|].
  move_by (step_finish_notify _ 2%positive); [reflexivity|].
  move_by (step_block _ 1%positive Caller (StartExitWait true Blocking)); [reflexivity..|].
  apply rtc_refl. }
  split_and!; vm_compute; reflexivity.
Qed.

Lemma missed_backoff : exists s : System scripted_transport, reachable s /\
  threads s = <[2%positive := MkThread Worker (BackoffWait Asleep)]>
    {[1%positive := MkThread Caller (StopJoining ForReturn 2%positive)]} /\
  stopping_ (im (world s)) = true.
Proof.
  eexists. split.
  { exists (constructed reconnecting one_caller).
  split; [apply one_caller_initial; by auto|].
  move_start true 2%positive. move_failed_session.
  move_by (step_work _ 2%positive);
    [reflexivity|right; by apply (rel_backoff _ "scripted network error"%string)|by left|].
  move_by (step_backoff _ 2%positive Working); [reflexivity|by left|reflexivity|].
  move_by (step_stop _ 1%positive Caller); [reflexivity|reflexivity|].
  move_section 1%positive Caller (StopTop ForReturn).
  move_section 1%positive Caller (StopCommand ForReturn).
  move_by (step_block _ 2%positive Worker (BackoffWait Blocking)); [reflexivity..|].
  apply rtc_refl. }
  split_and!; vm_compute; reflexivity.
Qed.

(** C24: a lost wake-up in the pause between two sessions: [stop] raises the stop
    flag and notifies without the data lock, so both can fall between the
    worker's test of the flag and its sleep; then the worker sleeps with the flag
    up while [stop] joins it, and only the end of the pause, up to
    [reconnect_max_delay], lets [stop] return. *)
Theorem stop_can_miss_backoff : exists s : System scripted_transport, reachable s /\
  threads s = <[2%positive := MkThread Worker (BackoffWait Asleep)]>
    {[1%positive := MkThread Caller (StopJoining ForReturn 2%positive)]} /\
  stopping_ (im (world s)) = true /\ quiescent s.
Proof.
  destruct missed_backoff as (s & Hr & Ht & He). exists s. split_and!; [done..|].
  apply waits_for_ever_quiescent. eapply pair_waits; [done|by left|]. right. by eexists.
Qed.

(** ** The sample callback destroys the client *)

(** The worker's callback destroys the client; the destroyer joins the worker,
    says so, and frees the storage. *)
Lemma deferred_run : exists s s' s'' : System scripted_transport,
  rtc moves (constructed reconnecting with_destroyer) s /\
  threads s !! 3%positive = Some (MkThread Destroyer (StopJoined ForDestroyer)) /\
  step s 3%positive LClient s' /\ rtc moves s' s'' /\ handle s'' = Freed.
Proof.
  do 3 eexists. split.
  { move_start true 2%positive.
    move_by (step_callback _ 2%positive (make_sample (record_of 1) override_configuration 5) CallbackReturns); [reflexivity|reflexivity|].
    move_by (step_destroy _ 2%positive Worker); [reflexivity|split_and!; [reflexivity|done|]|].
    { intros u p. vm_compute. destruct u as [u|u|]; [destruct u as [u|u|]|destruct u|]; by intros [=]. }
    move_section 2%positive Worker DestroyTop.
    move_section 2%positive Worker (StopTop ForDeferral).
    move_section 2%positive Worker (StopCommand ForDeferral).
    move_by (step_callback_return _ 2%positive); [reflexivity|].
    move_by (step_destroyer _ 3%positive); [reflexivity|reflexivity|].
    move_section 3%positive Destroyer (StopTop ForDestroyer).
    move_section 3%positive Destroyer (StopCommand ForDestroyer).
    move_by (step_finish _ 2%positive); [reflexivity|by left|].
    move_by (step_finish_notify _ 2%positive); [reflexivity|].
    move_by (step_stop_join _ 3%positive Destroyer ForDestroyer 2%positive); [reflexivity|reflexivity|].
    apply rtc_refl. }
  split; [vm_compute; reflexivity|]. split.
  { eapply (step_section (T:=scripted_transport) _ 3%positive Destroyer (StopJoined ForDestroyer) None (Ok 9%positive));
      [vm_compute; reflexivity|reflexivity|vm_compute; reflexivity|by left|done]. }
  split; [|shelve].
  move_by (step_stop_notify _ 3%positive Destroyer ForDestroyer); [reflexivity|].
  move_section 3%positive Destroyer (StopTop ForStorage).
  move_section 3%positive Destroyer (StopCommand ForStorage).
  apply rtc_refl.
  Unshelve. vm_compute. reflexivity.
Qed.

(** A [stop] beside a worker. *)
Lemma stopping_run : exists s s' : System scripted_transport, reachable s /\
  step s 1%positive LClient s' /\ worker_exited_ (im (world s)) = false /\
  stopping_ (im (world s)) = false /\ stopping_ (im (world s')) = true.
Proof.
  do 2 eexists. split.
  { exists (constructed reconnecting one_caller). split; [apply one_caller_initial; by left|].
    move_start true 2%positive.
    move_by (step_stop _ 1%positive Caller); [reflexivity|reflexivity|]. apply rtc_refl. }
  split.
  { eapply (step_section (T:=scripted_transport) _ 1%positive Caller (StopTop ForReturn) None (Ok 9%positive));
      [vm_compute; reflexivity|reflexivity|vm_compute; reflexivity|by left|done]. }
  split_and!; vm_compute; reflexivity.
Qed.

(** A [start] that waits for the join of a [stop]. *)
Lemma waiting_run : exists s : System scripted_transport, reachable s /\
  threads s !! 1%positive = Some (MkThread Caller (StopJoining ForReturn 2%positive)) /\
  threads s !! 4%positive = Some (MkThread Caller (StartIdleWait true Asleep)).
Proof.
  eexists. split.
  { exists (constructed reconnecting one_caller). split; [apply one_caller_initial; by left|].
    move_start true 2%positive.
    move_by (step_stop _ 1%positive Caller); [reflexivity|reflexivity|].
    move_section 1%positive Caller (StopTop ForReturn).
    move_section 1%positive Caller (StopCommand ForReturn).
    move_by (step_thread _ 4%positive); [reflexivity|].
    move_by (step_start _ 4%positive Caller true); [reflexivity|reflexivity|].
    move_section 4%positive Caller (StartTop true).
    move_by (step_block _ 4%positive Caller (StartIdleWait true Blocking)); [reflexivity..|].
    apply rtc_refl. }
  split; vm_compute; reflexivity.
Qed.

(** A sample is delivered while a thread waits for the first. *)
Lemma first_sample_run : exists s : System scripted_transport, reachable s /\
  threads s !! 1%positive = Some (MkThread Caller (FirstWait 1 Asleep)) /\
  wait_done 1 (im (world s)) = true /\ wait_end 1 (im (world s)) = true /\
  stopping_ (im (world s)) = false.
Proof.
  eexists. split.
  { exists (constructed reconnecting one_caller). split; [apply one_caller_initial; by left|].
    move_start true 2%positive.
    move_session sec_connecting. move_session (sec_apply override_configuration).
    move_by (step_work _ 2%positive);
      [reflexivity|left; by eapply (rel_connect (T:=scripted_transport) _ (Some []))|by left|].
    move_by (step_work _ 2%positive);
      [reflexivity|left; by eapply (rel_start (T:=scripted_transport) _ (Some []))|by left|].
    move_session sec_begin.
    move_by (step_first _ 1%positive Caller 0 (dbl 1)); [reflexivity..|vm_compute; reflexivity|].
    move_by (step_block _ 1%positive Caller (FirstWait 1 Blocking)); [reflexivity..|].
    move_session sec_wellformed. move_session (sec_record (record_of 1) 5).
    move_by (step_callback _ 2%positive (make_sample (record_of 1) override_configuration 5) CallbackReturns);
      [reflexivity|reflexivity|].
    move_by (step_callback_return _ 2%positive); [reflexivity|].
    move_session (sec_deliver (make_sample (record_of 1) override_configuration 5)).
    settle. apply rtc_refl. }
  split_and!; vm_compute; reflexivity.
Qed.


(** ** Witnesses *)

Lemma deferred_reachable s : rtc moves (constructed reconnecting with_destroyer) s -> reachable s.
Proof. intros H. exists (constructed reconnecting with_destroyer). split; [apply with_destroyer_initial|done]. Qed.

Lemma worker_ownership_witness : exists s : System scripted_transport, handle s = Freed /\
  exists m, rtc mode_step NoWorker m /\ in_mode m s.
Proof.
  destruct deferred_run as (s & s' & s'' & H1 & _ & H2 & H3 & Hh). exists s''. split; [done|].
  destruct (worker_ownership (constructed reconnecting with_destroyer) s'') as (m & Hm & Hi & _).
  - apply with_destroyer_initial.
  - etrans; [exact H1|]. eapply rtc_l; [|exact H3]. by exists 3%positive, LClient.
  - by exists m.
Defined.

Lemma thread_discipline_witness : exists s : System scripted_transport,
  joining_ (im (world s)) = true /\ worker_ (im (world s)) = None /\
  worker_at (threads s) 2%positive.
Proof.
  destruct waiting_run as (s & Hr & H1 & H4). exists s.
  pose proof (thread_discipline s Hr) as (_ & Hj & Hex & _ & Hw & _).
  assert (joining_ (im (world s)) = true) as E by (apply Hex; by exists 1%positive, Caller, (StopJoining ForReturn 2%positive)).
  split_and!; [done|by apply Hw|]. by destruct (Hj _ _ _ _ H1 eq_refl).
Defined.

Lemma others_are_actions_witness : exists s s' : System scripted_transport,
  stopping_ (im (world s)) = false /\ stopping_ (im (world s')) = true /\
  exists acts, unowned (world s') = unowned (fold_left act acts (world s)).
Proof.
  destruct stopping_run as (s & s' & Hr & Hs & He & H0 & H1). exists s, s'. split_and!; [done..|].
  by apply (others_are_actions s 1%positive LClient s').
Defined.

Lemma stop_contract_witness : exists s' : System scripted_transport,
  (forall id, ~ worker_at (threads s') id) /\ stopping_ (im (world s')) = true.
Proof.
  destruct deferred_run as (s & s' & s'' & H1 & Ht & H2 & _). exists s'.
  pose proof (stop_contract s 3%positive s' Destroyer (StopJoined ForDestroyer)
    (deferred_reachable s H1) H2 Ht) as H.
  destruct H as (H & _ & _ & _ & Hs & _); [done|right; by exists ForDestroyer|done].
Defined.

Lemma storage_outlives_threads_witness : exists s : System scripted_transport,
  handle s = Freed /\ forall id, ~ worker_at (threads s) id.
Proof.
  destruct deferred_run as (s & s' & s'' & H1 & _ & H2 & H3 & Hh). exists s''. split; [done|].
  apply (storage_outlives_threads s''); [|done]. apply deferred_reachable.
  etrans; [exact H1|]. eapply rtc_l; [|exact H3]. by exists 3%positive, LClient.
Defined.

Lemma joiner_waits_woken_witness : exists s : System scripted_transport,
  threads s !! 4%positive = Some (MkThread Caller (StartIdleWait true Asleep)) /\
  (joining_ (im (world s)) = true \/
   exists v r q, threads s !! v = Some (MkThread r q) /\ notifying q = true).
Proof.
  destruct waiting_run as (s & Hr & H1 & H4). exists s. split; [done|].
  by apply (joiner_waits_woken s 4%positive Caller (StartIdleWait true Asleep)).
Defined.

(** The [stop] that has missed the pause rests: it waits for a worker whose pause
    has a deadline. *)
Lemma no_deadlock_witness : exists s : System scripted_transport,
  lifecycle_lock s = None /\ rests s (StopJoining ForReturn 2%positive) /\ worker_parked s.
Proof.
  destruct missed_backoff as (s & Hr & Ht & _). exists s.
  assert (quiescent s) as Hq.
  { apply waits_for_ever_quiescent. eapply pair_waits; [done|by left|]. right. by eexists. }
  destruct (no_deadlock (T:=scripted_transport) None s Hr Hq) as (Hk & _ & _ & _ & Hrest). split_and!; [done|..].
  - apply (Hrest 1%positive Caller). by rewrite Ht.
  - exists 2%positive, (BackoffWait Asleep). split; [by rewrite Ht|by right; left].
Defined.

Lemma first_sample_wait_witness : exists s : System scripted_transport,
  announcing s /\ latest_sample (im (world s)) <> None.
Proof.
  destruct first_sample_run as (s & Hr & Hl & Hd & He & Hst). exists s.
  destruct (first_sample_wait s 1%positive Caller 1 Hr) as (Ha & _ & Hs).
  split; [|by apply Hs]. destruct (Ha Hl Hd) as [E|?]; [congruence|done].
Defined.

