(* ===== verification/DeferredDestroyer.v ===== *)
(** * The deferred destroyer: [DeferredDestroyer] in src/src/client.cpp

    A queue of clients whose callback destroyed them, and one thread that stops
    them one after the other.  [DeferredDestroyer] is the queue with its thread;
    [destroyer_step] is one transition of the thread or of a thread that hands
    over a value.  The lock of the queue is held from the test of the wait's
    predicate to the sleep, as in Lifecycle. *)

From S2P Require Export Lifecycle.

#[local] Open Scope Z_scope.

Section deferred_destroyer.
  Context {Value : Type}.

(** Where [run] is: in its wait, or stopping the value it has taken. *)
Inductive RunPc := RunWait (v : Wait) | RunStops (value : Value).

(** [notifiers] counts the threads between the end of the locked block of
    [enqueue] and its [notify_one]; [stopped] are the values [stop] has returned
    for, oldest first. *)
Record DeferredDestroyer := MkDestroyer {
  pending : list Value;
  run_pc : RunPc;
  notifiers : nat;
  stopped : list Value;
}.
#[global] Instance Destroyer_eta : Eta DeferredDestroyer := fun d =>
  MkDestroyer (pending d) (run_pc d) (notifiers d) (stopped d).

(** The thread takes the lock for the first time. *)
Definition destroyer_initial : DeferredDestroyer := MkDestroyer [] (RunWait Woken) 0 [].

Inductive DestroyerMove :=
| MoveEnqueue (value : Value)
| MoveNotify
| MoveRun
| MoveSpurious.

Definition wake_run (p : RunPc) : RunPc :=
  match p with RunWait v => RunWait (wake_wait v) | RunStops _ => p end.

(** What the thread does next: with the lock, it takes the front or finds the
    queue empty; it goes to sleep; it returns from [stop] and loops. *)
Definition run_step (d : DeferredDestroyer) : option DeferredDestroyer :=
  match run_pc d with
  | RunWait Woken =>
      match pending d with
      | value :: rest => Some (d <| run_pc := RunStops value |> <| pending := rest |>)
      | [] => Some (d <| run_pc := RunWait Blocking |>)
      end
  | RunWait Blocking => Some (d <| run_pc := RunWait Asleep |>)
  | RunWait Asleep => None
  | RunStops value => Some (d <| run_pc := RunWait Woken |> <| stopped := stopped d ++ [value] |>)
  end.

(** [enqueue] needs the lock, which the thread holds between the test and the
    sleep. *)
Definition destroyer_step (m : DestroyerMove) (d : DeferredDestroyer) : option DeferredDestroyer :=
  match m with
  | MoveEnqueue value =>
      match run_pc d with
      | RunWait Blocking => None
      | _ => Some (d <| pending := pending d ++ [value] |> <| notifiers := S (notifiers d) |>)
      end
  | MoveNotify =>
      match notifiers d with
      | S n => Some (d <| notifiers := n |> <| run_pc := wake_run (run_pc d) |>)
      | O => None
      end
  | MoveRun => run_step d
  | MoveSpurious => Some (d <| run_pc := wake_run (run_pc d) |>)
  end.

Fixpoint destroyer_run (ms : list DestroyerMove) (d : DeferredDestroyer) : option DeferredDestroyer :=
  match ms with
  | [] => Some d
  | m :: ms => match destroyer_step m d with Some d => destroyer_run ms d | None => None end
  end.

(** The values handed over, in order. *)
Fixpoint enqueued (ms : list DestroyerMove) : list Value :=
  match ms with
  | [] => []
  | MoveEnqueue value :: ms => value :: enqueued ms
  | _ :: ms => enqueued ms
  end.

Definition in_hand (p : RunPc) : list Value := match p with RunStops value => [value] | _ => [] end.

(** Every value is somewhere, in order; a sleeping thread has nothing to do or is
    about to be notified. *)
Definition accounted (vs : list Value) (d : DeferredDestroyer) : Prop :=
  stopped d ++ in_hand (run_pc d) ++ pending d = vs.

Definition no_lost_wake (d : DeferredDestroyer) : Prop :=
  match run_pc d with
  | RunWait Asleep => pending d = [] \/ (0 < notifiers d)%nat
  | RunWait Blocking => pending d = []
  | _ => True
  end.

Lemma wake_run_hand p : in_hand (wake_run p) = in_hand p.
Proof. by destruct p. Qed.

Lemma wake_run_lost d d' : pending d' = pending d -> run_pc d' = wake_run (run_pc d) ->
  no_lost_wake d -> no_lost_wake d'.
Proof. unfold no_lost_wake. intros -> ->. by destruct (run_pc d) as [[]|]. Qed.

Lemma destroyer_step_accounted m d d' vs : destroyer_step m d = Some d' -> accounted vs d ->
  accounted (vs ++ enqueued [m]) d'.
Proof.
  unfold accounted. destruct d as [ps pc n st]. intros Hs <-.
  destruct m as [value| | |]; simpl in Hs; rewrite ?app_nil_r.
  - destruct pc as [[]|]; simplify_eq/=; by rewrite <- ?app_assoc.
  - destruct n; simplify_eq/=. by rewrite wake_run_hand.
  - unfold run_step in Hs. simpl in Hs. destruct pc as [[]|]; simplify_eq/=.
    + done.
    + destruct ps; by simplify_eq/=.
    + by rewrite <- app_assoc.
  - simplify_eq/=. by rewrite wake_run_hand.
Qed.

Lemma destroyer_step_wake m d d' : destroyer_step m d = Some d' -> no_lost_wake d -> no_lost_wake d'.
Proof.
  destruct d as [ps pc n st]. intros Hs Hn. destruct m as [value| | |]; simpl in Hs.
  - destruct pc as [[]|]; simplify_eq/=; try done. right. simpl. lia.
  - destruct n; simplify_eq/=. by eapply (wake_run_lost (MkDestroyer ps pc (S n) st)).
  - unfold run_step in Hs. simpl in Hs. destruct pc as [[]|]; simplify_eq/=; [by left| |done].
    destruct ps; by simplify_eq/=.
  - simplify_eq/=. by eapply (wake_run_lost (MkDestroyer ps pc n st)).
Qed.

Lemma destroyer_run_inv ms : forall vs d d', destroyer_run ms d = Some d' -> accounted vs d ->
  no_lost_wake d -> accounted (vs ++ enqueued ms) d' /\ no_lost_wake d'.
Proof.
  induction ms as [|m ms IH]; intros vs d d' Hr Ha Hn; simpl in *.
  - simplify_eq. by rewrite app_nil_r.
  - destruct (destroyer_step m d) as [d1|] eqn:E; [|done].
    destruct (IH _ _ _ Hr (destroyer_step_accounted _ _ _ _ E Ha) (destroyer_step_wake _ _ _ E Hn))
      as [Ha' Hn']. split; [|done]. rewrite <- app_assoc in Ha'. by destruct m.
Qed.

(** The thread runs on until nothing is left. *)
Lemma drain ps : forall n st, exists ms, Forall (fun m => m = MoveRun) ms /\
  destroyer_run ms (MkDestroyer ps (RunWait Woken) n st) = Some (MkDestroyer [] (RunWait Woken) n (st ++ ps)).
Proof.
  induction ps as [|value ps IH]; intros n st.
  - exists []. by rewrite app_nil_r.
  - destruct (IH n (st ++ [value])) as (ms & He & Hr). exists (MoveRun :: MoveRun :: ms).
    split; [by repeat constructor|].
    change (destroyer_run ms (MkDestroyer ps (RunWait Woken) n (st ++ [value])) =
      Some (MkDestroyer [] (RunWait Woken) n (st ++ value :: ps))).
    by rewrite Hr, <- app_assoc.
Qed.

(** Only the thread and the notifications that are on their way. *)
Definition own_move (m : DestroyerMove) : Prop := m = MoveRun \/ m = MoveNotify.

Lemma drains d : no_lost_wake d -> exists ms d', Forall own_move ms /\
  destroyer_run ms d = Some d' /\ stopped d' = stopped d ++ in_hand (run_pc d) ++ pending d.
Proof.
  destruct d as [ps pc n st]. unfold no_lost_wake. simpl. intros Hn.
  assert (forall m0 st0 n0 d, own_move m0 ->
    destroyer_step m0 d = Some (MkDestroyer ps (RunWait Woken) n0 st0) -> exists ms d', Forall own_move ms /\
    destroyer_run ms d = Some d' /\ stopped d' = st0 ++ ps) as Hd.
  { intros m0 st0 n0 d Hm E. destruct (drain ps n0 st0) as (ms & Hms & Hr).
    exists (m0 :: ms). eexists. split; [|split; [simpl; by rewrite E|done]].
    constructor; [done|]. eapply Forall_impl; [exact Hms|]. intros m ->. by left. }
  destruct pc as [[]|value].
  - subst. exists []. eexists. split; [done|]. split; [done|]. simpl. by rewrite app_nil_r.
  - destruct (decide (ps = [])) as [->|Hne].
    + exists []. eexists. split; [done|]. split; [done|]. simpl. by rewrite app_nil_r.
    + destruct n as [|n]; [destruct Hn; [done|lia]|]. apply (Hd MoveNotify st n); [by right|done].
  - destruct (drain ps n st) as (ms & Hms & Hr). exists ms. eexists. split; [|done].
    eapply Forall_impl; [exact Hms|]. intros m ->. by left.
  - change (st ++ value :: ps) with (st ++ [value] ++ ps). rewrite app_assoc.
    by apply (Hd MoveRun (st ++ [value]) n); [left|].
Qed.

(** C25: the deferred destroyer loses nothing: after any sequence of transitions
    the values handed over are, in order, those already stopped, the one being
    stopped and those still queued, each once; whenever its thread sleeps with
    values queued, a notification is on its way; and from there the thread, the
    notification and nothing else stop every value in the order of arrival. *)
Theorem deferred_in_order ms d : destroyer_run ms destroyer_initial = Some d ->
  stopped d ++ in_hand (run_pc d) ++ pending d = enqueued ms /\
  (run_pc d = RunWait Asleep -> pending d <> [] -> (0 < notifiers d)%nat) /\
  exists ms' d', Forall own_move ms' /\ destroyer_run ms' d = Some d' /\ stopped d' = enqueued ms.
Proof.
  intros Hr. destruct (destroyer_run_inv ms [] _ _ Hr) as [Ha Hn]; [done..|].
  split; [done|]. split.
  - unfold no_lost_wake in Hn. intros E Hp. rewrite E in Hn. by destruct Hn.
  - destruct (drains d Hn) as (ms' & d' & Hm & Hr' & Hs). exists ms', d'. by rewrite Hs, Ha.
Qed.

End deferred_destroyer.

Lemma deferred_in_order_witness : exists d, destroyer_run
    [MoveRun; MoveRun; MoveEnqueue 7; MoveNotify; MoveRun; MoveEnqueue 8; MoveEnqueue 9] destroyer_initial = Some d /\
  pending d = [8; 9] /\ run_pc d = RunStops 7 /\
  exists ms' d', Forall own_move ms' /\ destroyer_run ms' d = Some d' /\ stopped d' = [7; 8; 9].
Proof.
  eexists. split; [reflexivity|]. split; [reflexivity|]. split; [reflexivity|].
  apply (deferred_in_order [MoveRun; MoveRun; MoveEnqueue 7; MoveNotify; MoveRun; MoveEnqueue 8; MoveEnqueue 9]).
  reflexivity.
Defined.
